(* ===== verification/_CoqProject ===== *)
-Q . S2P
Prelude.v
Tuples.v
Schema.v
Validation.v
Parser.v
ParserSpec.v
Numbers.v
Grammar.v
Peg.v
Layout.v
GrammarSound.v
GrammarTheorems.v
Engine.v
Check.v
CheckSpec.v
CheckTheorems.v
Natural.v
Expand.v
Cost.v
Storage.v
Memory.v
Gc.v
StoreCheck.v
Cache.v
Metrics.v
Service.v
ServiceSpec.v
ServiceTheorems.v
Concurrent.v
ConcurrentAlone.v
ConcurrentTheorems.v
Auth.v
Config.v
Rest.v
RestTheorems.v
Grpc.v
GrpcTheorems.v
Postgres.v
PostgresTheorems.v
Provision.v
ProvisionTheorems.v
Serve.v
ServeTheorems.v
Lifecycle.v
LifecycleTheorems.v
Client.v
ClientTheorems.v
Suite.v
EngineTests.v
CoreTests.v
StorageTests.v
ServiceTests.v
Workloads.v
RestTests.v
ApiTests.v
ConfigTests.v
GrpcTests.v
IntegrationTests.v
PostgresTests.v
