(* ===== verification/Prelude.v ===== *)
(** * Kraalzibar: a verification library

    Kraalzibar is an authorization server in the style of Zanzibar, in Rust.
    Tenants write a schema (types with relations, and permissions computed from
    them) and relationship tuples [object#relation@subject]; clients ask
    whether a subject has a permission on an object.  This library is a
    shallow embedding of its crates, with the theorems that make them correct.

    ** The program's parts and the files that model them

    [crates/kraalzibar-core]
    - [Tuples]: [tuple.rs], the data of tuples and [TupleFilter::matches].
    - [Schema]: [schema/types.rs]; [Validation]: [schema/validation.rs], the
      limits and the detection of breaking changes.
    - [Parser]: [schema/parser.rs], from the pairs of pest to a [Schema];
      [ParserSpec]: the trees of the grammar and their meaning.
    - [Grammar]: [schema/grammar.pest], rule by rule as parsers of texts;
      [Peg]: general facts on such parsers; [Layout]: the tokens of a schema
      and the texts that lay them out, with the completeness of every
      production; [GrammarSound]: what a production that succeeds has read;
      [GrammarTheorems]: the language of the parser, exactly.
    - [Engine]: [engine/mod.rs] and the effects of the engines: a program of a
      free monad whose only effect is [read_tuples], run against a reader
      ([run]) or under interference ([exec]).
    - [Check]: [engine/check.rs]; [CheckSpec]: the declarative meaning of a
      permission ([grants], [refuses]) and its relation to evaluation;
      [CheckTheorems]: the properties of [check]; [Natural]: its recursion as
      an inductive semantics, read off the source without any budget.
    - [Expand]: [engine/expand.rs], and its agreement with [check]; [Cost]: the
      reads both engines make.

    [crates/kraalzibar-storage]
    - [Storage]: [traits.rs], the traits as classes, and the contract of a
      versioned store ([VersionedStore]) and of a factory of isolated stores
      ([IsolatedStores]); the reader of [adapter.rs].
    - [Memory]: [memory.rs], the in-memory store and factory, which discharge
      both contracts.
    - [Gc]: [gc.rs], against the contract only.
    - [Postgres]: [postgres/queries.rs] and the store of [postgres/mod.rs], as
      programs of SQL statements and transactions; [PostgresTheorems]: what
      PostgreSQL documents of those statements ([documented]) and the theorems
      on the store.
    - [StoreCheck]: [check] on a store that other clients write to.

    [crates/kraalzibar-server]
    - [Cache]: what the moka caches are assumed to do (they may forget).
    - [Metrics]: [metrics.rs], with [observe] also as atomic steps of threads.
    - [Service]: [error.rs], [audit.rs], [service.rs]: each operation is a
      function from the state of the service (factory, caches, metrics, audit
      log) to a [Result] and the next state.
    - [ServiceSpec]: the service without caches ([spec_handle], [spec_serve])
      and the refinement; [ServiceTheorems]: what the operations guarantee.
    - [Concurrent]: [service.rs] again, at the granularity of its awaits, and
      requests in flight together; [ConcurrentAlone]: run alone it is
      [Service]; [ConcurrentTheorems]: run together.
    - [Numbers]: [str::parse] of integers, [splitn], [strip_prefix].
    - [Auth]: [auth.rs], the lookup of [api_key_repository.rs],
      [middleware/auth.rs], and the key that [create-api-key] makes.
    - [Config]: [config.rs].
    - [Provision]: the commands of [main.rs] that change the database, with
      [postgres/migrations.rs], the factory of [postgres/mod.rs] and
      [api_key_repository.rs]; [ProvisionTheorems]: what they do to the tables
      of tenants and keys and to a tenant's relationships.
    - [Serve]: [run_serve], [start_server] and [main] of [main.rs], its REST
      and gRPC applications ([server_app]), [tls.rs], [cli.rs]; [ServeTheorems]: which server starts, and what it refuses.
    - [Lifecycle]: [telemetry.rs], [health.rs], and the rest of [main.rs]: what
      a process logs with, the connections it accepts, and its two servers
      until a signal or a failure ends them, as a step relation;
      [LifecycleTheorems]: that it ends, and how.
    - [Rest]: [rest/types.rs], [rest/handlers.rs], [rest/mod.rs];
      [RestTheorems]: what the HTTP API guarantees.
    - [Grpc]: the messages of [proto/kraalzibar/v1], [grpc/*.rs];
      [GrpcTheorems]: its agreement with the REST API.

    [crates/kraalzibar-client]
    - [Client]: the whole crate, a method being a function of the rpc it calls,
      and the server's end of the channel ([intercepted]); [ClientTheorems]:
      the client against the service.

    Tests: [Suite] says what a test is; [EngineTests], [CoreTests],
    [StorageTests], [ServiceTests], [RestTests], [ApiTests], [ConfigTests] and
    [GrpcTests] translate the unit tests of the crates, a Module per source
    file, [IntegrationTests] those that call a server over gRPC, [PostgresTests]
    those on a database, [Workloads] the benches of the engine and a load test.
    Each Module ends with the list of its tests and the evaluation that none
    fails ([check_tests_pass] and so on): the definitions of this library do
    what the authors' tests ask of the code.

    ** How the parts interact

    The service is written against [StoreFactory] and [RelationshipStore]; its
    theorems use the laws of [IsolatedStores] and [VersionedStore], which
    [Memory] proves.  The engines are run by the service through
    [store_tuple_reader].  A REST request passes the metrics and the
    authentication layer, then a handler, which is an early answer or one call
    on the service ([planned] in [RestTheorems]), so the refinement of
    [ServiceSpec] reaches the API.  An rpc passes the interceptor ([grpc_layer]),
    then its method.  A started server is the service with the settings of the
    configuration behind both ([rest_app], [grpc_app], [server_app]).

    ** What the theorems show

    - The engine: [check] is exact against the declarative meaning of the
      schema on exclusion-free schemas whatever cycles the tuples have, and on
      hierarchies with exclusions; it answers whenever the depth suffices; its
      errors are truthful; its recursion ends on every input; [expand] describes what [check] answers.  Both make a
      bounded number of reads whatever cycles the tuples have, with the depth
      limit as exponent, and a family of tuples shows that a denied check does
      double its reads with every layer.
    - The store: a write makes one version exactly and leaves the past alone;
      reads are exact at every version; tenants are isolated.  So a check at a
      snapshot is stable and exact under concurrent writes, and one without a
      snapshot is not.  The PostgreSQL store has the same contract for one
      client at a time, whatever the database answers; any open write
      of another client moves its newest snapshot, and reads at it change when
      that write commits.
    - The service: caches and all, it answers every history of requests as a
      machine that keeps one store per tenant; stored schemas always load;
      [write_schema] says why it refuses; [lookup_resources] is exact;
      [lookup_subjects] is complete for direct subjects, names only subjects of
      the requested type, and, with exclusions, too many of them.  Requests that interleave at their awaits are answered from
      one version each, as long as nobody writes the schema meanwhile.
    - The APIs: authentication is exact, tenants are isolated end to end,
      checks and batches over HTTP are exact, gRPC agrees with REST, streams
      are complete.
    - The client asks what its caller asked but for the relation of a subject,
      which checks and deletes drop, and returns what the service answered.
    - The schema language: every layout of a schema's tokens parses to that
      schema, and the syntax errors are exactly the texts outside the grammar.
    - Operation: a provisioned name's printed key acts for the tenant of that
      name, which is the printed one if it was new; a purge removes one
      tenant's relationships and nothing else; every tenant has a schema of its
      own; a server has the settings of its configuration, and with a database
      demands keys on both APIs; a signal or a failure ends a server, the open
      requests of the listener that is not the first to finish are dropped, and
      in a fair run a signal is followed by the end.
    - Schemas, configuration, garbage collection and metrics have theorems of
      their own in their files.

    ** Bounds

    - [evaluate_rule_budget] and [expand_rule_budget] recurse on a budget of
      jumps; the budget is [max_depth - depth], which never is what ends an
      evaluation: [evaluate_rule_unfold] shows that with it the source's
      recursive equations hold, and [evaluation_total] that the result is the
      one of the semantics without a budget.
    - Transaction ids and counters are 64 bits wide and wrap; theorems on
      versions assume there is room for the next one below the sentinel
      [ACTIVE_TX_ID].  [usize] is [nat] where it counts elements in memory.
    - Strings are byte strings, as Rust compares them.
    - The tests run on numbers and uuids small enough to evaluate; the caches
      in them never forget, and the budget of an engine is its default depth.
    - A repetition of the grammar runs on the length of the text plus one;
      [star_step] and [rep_enough] show that this never ends one early, as each
      round consumes a character.

    ** What is not modelled

    - Calls to libraries without logic of the program's own: sockets, the
      reading of the command line, connection pools, size limits of messages,
      the spans of tracing, and [shutdown_telemetry], which has no caller.
    - Of the tests, those that count reads of the schema, capture spans, only
      deserialize a text, parse a command line or handshake TLS, and the load
      tests on thousands of tuples, which take too long to evaluate.
    - Code of others is a parameter: the parser pest generates (which
      [pest_follows] ties to [Grammar]), moka, argon2, the random generator,
      TOML and JSON reading, rustls, axum's routing errors, tonic's transport
      and health reporter, the OpenTelemetry pipeline, the signals of the system,
      [f64] display and reading, the database's answers (of which
      [documented] and [admin_documented] say what is assumed).
    - A commit whose acknowledgement is lost: [executes] takes a commit that is
      reported to fail as rolled back.  Of the statements of the migrations
      only that [CREATE .. IF NOT EXISTS] changes no row is assumed
      ([admin_succeeds]).
    - The SDKs for Go and TypeScript, which are other languages.
    - Concurrency: [async] functions interleave at calls of a store or a
      cache, which are atomic; [Engine], [Gc], [StoreCheck] and [Concurrent]
      make those interleavings explicit, and [schema_write_race] shows what a
      schema write among them breaks.  Other theorems on the service are about
      histories of whole requests. *)
From stdpp Require Import base tactics list strings gmap sorting.

(** ** Rust's [Result] and the [?] operator

    [result E A] is [Result<A, E>]; [let? x := e in k] is [let x = e?; k]. *)

Inductive result (E A : Type) : Type :=
| Ok (a : A)
| Err (e : E).
Arguments Ok {E A} a.
Arguments Err {E A} e.

Definition try {E A B} (r : result E A) (k : A → result E B) : result E B :=
  match r with Ok a => k a | Err e => Err e end.

Declare Scope kz_scope.
Delimit Scope kz_scope with kz.
Open Scope kz_scope.

Notation "'let?' x := e 'in' k" := (try e (λ x, k))
  (at level 10, x name, e at level 200, k at level 200) : kz_scope.
Notation "'let?' ' pat := e 'in' k" := (try e (λ v, match v with pat => k end))
  (at level 10, pat strict pattern, e at level 200, k at level 200) : kz_scope.

(** [Result::map] *)
Definition result_map {E A B} (f : A → B) (r : result E A) : result E B :=
  match r with Ok a => Ok (f a) | Err e => Err e end.

(** [Result::map_err] *)
Definition map_err {E F A} (f : E → F) (r : result E A) : result F A :=
  match r with Ok a => Ok a | Err e => Err (f e) end.

(** [Option::ok_or] and [Option::ok_or_else] *)
Definition ok_or {E A} (o : option A) (e : E) : result E A :=
  match o with Some a => Ok a | None => Err e end.

(** [Result::ok] *)
Definition result_ok {E A} (r : result E A) : option A :=
  match r with Ok a => Some a | Err _ => None end.

Definition is_ok {E A} (r : result E A) : bool :=
  match r with Ok _ => true | Err _ => false end.

#[export] Instance result_eq_dec {E A} `{EqDecision E, EqDecision A} : EqDecision (result E A).
Proof. solve_decision. Defined.

Section result_lemmas.
Context {E A B : Type}.
Implicit Types (r : result E A) (f : A → result E B).

Lemma try_Ok r f b : try r f = Ok b ↔ ∃ a, r = Ok a ∧ f a = Ok b.
Proof. destruct r; naive_solver. Qed.

Lemma try_Err r f e :
  try r f = Err e ↔ r = Err e ∨ ∃ a, r = Ok a ∧ f a = Err e.
Proof. destruct r; naive_solver. Qed.

Lemma ok_or_Ok (o : option A) (e : E) a : ok_or o e = Ok a ↔ o = Some a.
Proof. destruct o; naive_solver. Qed.

Lemma ok_or_Err (o : option A) (e e' : E) : ok_or o e = Err e' ↔ o = None ∧ e = e'.
Proof. destruct o; naive_solver. Qed.

Lemma map_err_Ok {F} (g : E → F) r a : map_err g r = Ok a ↔ r = Ok a.
Proof. destruct r; naive_solver. Qed.

Lemma map_err_Err {F} (g : E → F) r e : map_err g r = Err e ↔ ∃ e', r = Err e' ∧ e = g e'.
Proof. destruct r; naive_solver. Qed.
End result_lemmas.

(** ** Automation

    [inv_result] takes apart the equations [let? .. = Ok _], [ok_or _ _ = _],
    [map_err _ _ = _] of the context. *)

Ltac inv_result :=
  repeat match goal with
  | H : try _ _ = Ok _ |- _ => apply try_Ok in H as (? & ? & H)
  | H : ok_or _ _ = Ok _ |- _ => apply ok_or_Ok in H
  | H : ok_or _ _ = Err _ |- _ => apply ok_or_Err in H as [? ?]
  | H : map_err _ _ = Ok _ |- _ => apply map_err_Ok in H
  | H : map_err _ _ = Err _ |- _ => apply map_err_Err in H as (? & ? & ?)
  | H : match ?x with pair _ _ => _ end = _ |- _ => destruct x
  | _ => progress simplify_eq/=
  end.

(** [case_bool b] splits on the boolean [b] and simplifies. *)
Ltac case_bool b := let H := fresh "Hb" in destruct b eqn:H; simplify_eq/=.

Create HintDb kz discriminated.

(** ** Machine words *)

Definition u64_modulus : Z := 2 ^ 64.
Definition u64_max : Z := u64_modulus - 1.
Definition is_u64 (z : Z) : Prop := (0 ≤ z < u64_modulus)%Z.

(** [a + b] on [u64] in a release build: wrapping *)
Definition u64_add (a b : Z) : Z := ((a + b) mod u64_modulus)%Z.

Lemma u64_add_small a b : is_u64 (a + b) → u64_add a b = (a + b)%Z.
Proof. intros H. apply Z.mod_small, H. Qed.

Lemma u64_add_range a b : is_u64 (u64_add a b).
Proof. apply Z.mod_pos_bound. reflexivity. Qed.

(** ** Lists *)

Section lists.
Context {A : Type}.
Implicit Types (l : list A).

(** [iter().enumerate()] *)
Definition enumerate l : list (nat * A) := zip (seq 0 (length l)) l.

(** [take(n)] when a limit is given, everything otherwise *)
Definition limit_to (limit : option nat) l : list A :=
  match limit with Some n => take n l | None => l end.

Lemma enumerate_lookup l i x : (i, x) ∈ enumerate l ↔ l !! i = Some x.
Proof.
  unfold enumerate. rewrite list_elem_of_lookup. split.
  - intros [j (p & y & Hp & Hs & Hl)%lookup_zip_with_Some]. simplify_eq/=.
    apply lookup_seq in Hs as [-> _]. done.
  - intros Hl. exists i. apply lookup_zip_with_Some. eexists _, _. split_and!; [done| |done].
    apply lookup_seq. split; [done|]. apply lookup_lt_is_Some_1. eauto.
Qed.

(** *** Stable sorting, [slice::sort_by] *)
Section sort.
Context (leb : A → A → bool).

Fixpoint insert_by (x : A) l : list A :=
  match l with
  | [] => [x]
  | y :: l' => if leb x y then x :: y :: l' else y :: insert_by x l'
  end.

Definition sort_by l : list A := foldr insert_by [] l.

Lemma insert_by_perm x l : insert_by x l ≡ₚ x :: l.
Proof.
  induction l as [|y l IH]; simpl; [done|]. destruct (leb x y); [done|].
  rewrite IH. apply Permutation_swap.
Qed.

Lemma sort_by_perm l : sort_by l ≡ₚ l.
Proof. induction l as [|x l IH]; simpl; [done|]. by rewrite insert_by_perm, IH. Qed.

Lemma elem_of_sort_by x l : x ∈ sort_by l ↔ x ∈ l.
Proof. by rewrite sort_by_perm. Qed.

Context (leb_total : ∀ x y, leb x y = true ∨ leb y x = true).
Context (leb_trans : ∀ x y z, leb x y = true → leb y z = true → leb x z = true).

Lemma insert_by_sorted x l :
  StronglySorted (λ x y, leb x y = true) l →
  StronglySorted (λ x y, leb x y = true) (insert_by x l).
Proof.
  induction 1 as [|y l Hl IH Hy]; simpl; [repeat constructor|].
  destruct (leb x y) eqn:Hxy.
  - constructor; [by constructor|]. constructor; [done|].
    eapply Forall_impl; [done|]. simpl. eauto.
  - constructor; [done|]. rewrite insert_by_perm. constructor; [|done].
    destruct (leb_total x y); congruence.
Qed.

Lemma sort_by_sorted l : StronglySorted (λ x y, leb x y = true) (sort_by l).
Proof. induction l; simpl; [constructor|]. by apply insert_by_sorted. Qed.

(** Elements with the same key keep their relative order. *)
Lemma insert_by_stable (p : A → bool) x l :
  (∀ y, p x → p y → leb x y = true) →
  filter p (insert_by x l) = filter p (x :: l).
Proof.
  intros Hp. induction l as [|y l IH]; [done|]. cbn [insert_by].
  destruct (leb x y) eqn:Hxy; [done|]. rewrite !filter_cons, IH, filter_cons.
  repeat case_decide; try done. rewrite Hp in Hxy; done.
Qed.

Lemma sort_by_stable (p : A → bool) l :
  (∀ x y, p x → p y → leb x y = true) → filter p (sort_by l) = filter p l.
Proof.
  intros Hp. induction l as [|x l IH]; [done|]. cbn [sort_by foldr].
  rewrite insert_by_stable by eauto. rewrite !filter_cons.
  unfold sort_by in IH. by rewrite IH.
Qed.
End sort.

(** *** [Vec::dedup]: drops an element equal to its successor *)
Fixpoint dedup `{EqDecision A} l : list A :=
  match l with
  | [] => []
  | x :: l' =>
      match l' with
      | y :: _ => if decide (x = y) then dedup l' else x :: dedup l'
      | [] => [x]
      end
  end.

Lemma dedup_cons2 `{EqDecision A} x y l :
  dedup (x :: y :: l) = if decide (x = y) then dedup (y :: l) else x :: dedup (y :: l).
Proof. done. Qed.

Lemma elem_of_dedup `{EqDecision A} x l : x ∈ dedup l ↔ x ∈ l.
Proof.
  induction l as [|y [|z l] IH]; [done|done|]. rewrite dedup_cons2.
  case_decide; simplify_eq; rewrite ?elem_of_cons, ?IH; set_solver.
Qed.

Lemma dedup_sorted `{EqDecision A} (R : relation A) l :
  StronglySorted R l → StronglySorted R (dedup l).
Proof.
  induction 1 as [|y l Hl IH Hy]; [constructor|]. destruct l as [|z l]; [by repeat constructor|].
  rewrite dedup_cons2. case_decide; [done|]. constructor; [done|].
  apply Forall_forall. intros x. rewrite elem_of_dedup. rewrite Forall_forall in Hy. apply Hy.
Qed.

Lemma dedup_NoDup `{EqDecision A} (R : relation A) `{!AntiSymm (=) R} l :
  StronglySorted R l → NoDup (dedup l).
Proof.
  induction 1 as [|y l Hl IH Hy]; [constructor|].
  destruct l as [|z l]; [apply NoDup_singleton|]. rewrite dedup_cons2. case_decide as Hyz; [done|]. constructor; [|done].
  rewrite elem_of_dedup. intros Hin. apply Hyz. rewrite Forall_forall in Hy.
  apply (anti_symm R); [apply Hy; set_solver|].
  apply StronglySorted_inv in Hl as [_ Hl]. rewrite Forall_forall in Hl.
  apply elem_of_cons in Hin as [->|Hin]; [apply Hy; set_solver|auto].
Qed.
End lists.

Lemma limit_to_sublist {A} limit (l : list A) : limit_to limit l `sublist_of` l.
Proof. destruct limit; simpl; [apply sublist_take|done]. Qed.

Lemma limit_to_length {A} n (l : list A) : length (limit_to (Some n) l) ≤ n.
Proof. simpl. rewrite length_take. lia. Qed.

(** Induction two elements at a time, for loops that take two per turn. *)
Fixpoint list_ind2 {A} (P : list A → Prop) (Hnil : P []) (Hone : ∀ x, P [x])
    (Htwo : ∀ x y l, P l → P (x :: y :: l)) (l : list A) : P l :=
  match l with
  | [] => Hnil
  | [x] => Hone x
  | x :: y :: l' => Htwo x y l' (list_ind2 P Hnil Hone Htwo l')
  end.

Lemma StronglySorted_filter {A} (R : relation A) (p : A → bool) l :
  StronglySorted R l → StronglySorted R (List.filter p l).
Proof.
  induction 1 as [|x l _ IH Hx]; simpl; [constructor|]. destruct (p x); [|done].
  constructor; [done|]. rewrite Forall_forall in *. intros y Hy%list_elem_of_In.
  apply filter_In in Hy as [Hy _]. by apply Hx, list_elem_of_In.
Qed.

Lemma NoDup_snoc {A} (l : list A) (x : A) : NoDup l → x ∉ l → NoDup (l ++ [x]).
Proof. intros ??. apply NoDup_app. split_and!; [done|set_solver|apply NoDup_singleton]. Qed.

(** ** Strings: Rust's byte-wise order *)

Definition string_leb (s t : string) : bool := String.leb s t.

Lemma string_leb_total s t : string_leb s t = true ∨ string_leb t s = true.
Proof. apply String.leb_total. Qed.

Lemma ascii_compare_lt_trans a b c :
  Ascii.compare a b = Lt → Ascii.compare b c = Lt → Ascii.compare a c = Lt.
Proof. unfold Ascii.compare. rewrite !N.compare_lt_iff. lia. Qed.

Lemma ascii_compare_refl a : Ascii.compare a a = Eq.
Proof. apply N.compare_refl. Qed.

Lemma string_compare_trans s t u :
  String.compare s t ≠ Gt → String.compare t u ≠ Gt → String.compare s u ≠ Gt.
Proof.
  revert t u. induction s as [|a s IH]; intros [|b t] [|c u]; simpl; try done.
  destruct (Ascii.compare a b) eqn:Hab, (Ascii.compare b c) eqn:Hbc; try done; intros Hst Htu.
  - apply Ascii.compare_eq_iff in Hab as ->. rewrite Hbc. eauto.
  - apply Ascii.compare_eq_iff in Hab as ->. by rewrite Hbc.
  - apply Ascii.compare_eq_iff in Hbc as ->. by rewrite Hab.
  - by rewrite (ascii_compare_lt_trans a b c).
Qed.

Lemma string_leb_trans s t u :
  string_leb s t = true → string_leb t u = true → string_leb s u = true.
Proof.
  unfold string_leb, String.leb. pose proof (string_compare_trans s t u) as H.
  destruct (String.compare s t), (String.compare t u), (String.compare s u); naive_solver.
Qed.

#[export] Instance string_leb_anti_symm : AntiSymm (=) (λ s t, string_leb s t = true).
Proof. intros s t. apply String.leb_antisym. Qed.

#[export] Hint Resolve string_leb_total string_leb_trans u64_add_range : kz.
