(* ===== verification/Tuples.v ===== *)
(** * Relationship tuples ([crates/kraalzibar-core/src/tuple.rs])

    The data every other component exchanges: object and subject references,
    tuples, tuple writes, tuple filters and snapshot tokens, with their
    [Display] renderings and the filter test [TupleFilter::matches]. *)
From stdpp Require Import base tactics list strings gmap pretty.
From S2P Require Import Prelude.

(** [TenantId] wraps a [Uuid] of the [uuid] crate: the type of identifiers
    stays a parameter wherever tenants occur. *)
Record TenantId (Uuid : Type) := mk_TenantId { tenant_uuid : Uuid }.
Arguments mk_TenantId {Uuid} _.
Arguments tenant_uuid {Uuid} _.

#[export] Instance TenantId_eq_dec `{EqDecision Uuid} : EqDecision (TenantId Uuid).
Proof. solve_decision. Defined.
#[export] Instance TenantId_countable `{Countable Uuid} : Countable (TenantId Uuid).
Proof.
  apply (inj_countable' tenant_uuid mk_TenantId). by intros [].
Defined.

Record ObjectRef := mk_ObjectRef { object_type : string; object_id : string }.

Record SubjectRef := mk_SubjectRef {
  subject_type : string; subject_id : string; subject_relation : option string }.

Record Tuple := mk_Tuple { object : ObjectRef; relation : string; subject : SubjectRef }.

Record TupleWrite := mk_TupleWrite {
  w_object : ObjectRef; w_relation : string; w_subject : SubjectRef }.

Record TupleFilter := mk_TupleFilter {
  f_object_type : option string;
  f_object_id : option string;
  f_relation : option string;
  f_subject_type : option string;
  f_subject_id : option string;
  f_subject_relation : option (option string) }.

(** [SnapshotToken(u64)] *)
Record SnapshotToken := mk_SnapshotToken { token_value : Z }.

#[export] Instance ObjectRef_eq_dec : EqDecision ObjectRef.
Proof. solve_decision. Defined.
#[export] Instance SubjectRef_eq_dec : EqDecision SubjectRef.
Proof. solve_decision. Defined.
#[export] Instance Tuple_eq_dec : EqDecision Tuple.
Proof. solve_decision. Defined.
#[export] Instance TupleWrite_eq_dec : EqDecision TupleWrite.
Proof. solve_decision. Defined.
#[export] Instance TupleFilter_eq_dec : EqDecision TupleFilter.
Proof. solve_decision. Defined.
#[export] Instance SnapshotToken_eq_dec : EqDecision SnapshotToken.
Proof. solve_decision. Defined.

#[export] Instance SubjectRef_countable : Countable SubjectRef.
Proof.
  apply (inj_countable' (λ s, (subject_type s, subject_id s, subject_relation s))
    (λ '(t, i, r), mk_SubjectRef t i r)). by intros [].
Defined.
#[export] Instance Tuple_countable : Countable Tuple.
Proof.
  apply (inj_countable'
    (λ t, (object_type (object t), object_id (object t), relation t, subject t))
    (λ '(ot, oi, r, s), mk_Tuple (mk_ObjectRef ot oi) r s)). by intros [[]].
Defined.
#[export] Instance SnapshotToken_countable : Countable SnapshotToken.
Proof. apply (inj_countable' token_value mk_SnapshotToken). by intros []. Defined.

(** ** Constructors *)

Definition direct (subject_type subject_id : string) : SubjectRef :=
  mk_SubjectRef subject_type subject_id None.

Definition userset (subject_type subject_id relation : string) : SubjectRef :=
  mk_SubjectRef subject_type subject_id (Some relation).

(** [impl From<TupleWrite> for Tuple] *)
Definition tuple_of_write (write : TupleWrite) : Tuple :=
  mk_Tuple (w_object write) (w_relation write) (w_subject write).

(** [TupleFilter::default()] *)
Definition filter_default : TupleFilter := mk_TupleFilter None None None None None None.

(** ** [Display] *)

Definition object_display (o : ObjectRef) : string :=
  object_type o +:+ ":" +:+ object_id o.

Definition subject_display (s : SubjectRef) : string :=
  subject_type s +:+ ":" +:+ subject_id s +:+
  match subject_relation s with Some rel => "#" +:+ rel | None => "" end.

Definition tuple_display (t : Tuple) : string :=
  object_display (object t) +:+ "#" +:+ relation t +:+ "@" +:+ subject_display (subject t).

(** [impl Display for SnapshotToken] *)
Definition token_display (t : SnapshotToken) : string := pretty (token_value t).

(** ** [TupleFilter] *)

Definition has_any_field (f : TupleFilter) : bool :=
  bool_decide (is_Some (f_object_type f))
  || bool_decide (is_Some (f_object_id f))
  || bool_decide (is_Some (f_relation f))
  || bool_decide (is_Some (f_subject_type f))
  || bool_decide (is_Some (f_subject_id f))
  || bool_decide (is_Some (f_subject_relation f)).

(** One test [if let Some(ref x) = field && x != actual { return false; }]:
    [true] when the chain goes on. *)
Definition field_ok {A} `{EqDecision A} (field : option A) (actual : A) : bool :=
  match field with
  | Some x => bool_decide (x = actual)
  | None => true
  end.

Definition matches (f : TupleFilter) (t : Tuple) : bool :=
  if negb (field_ok (f_object_type f) (object_type (object t))) then false
  else if negb (field_ok (f_object_id f) (object_id (object t))) then false
  else if negb (field_ok (f_relation f) (relation t)) then false
  else if negb (field_ok (f_subject_type f) (subject_type (subject t))) then false
  else if negb (field_ok (f_subject_id f) (subject_id (subject t))) then false
  else if negb (field_ok (f_subject_relation f) (subject_relation (subject t))) then false
  else true.

(** ** Lemmas *)

Lemma field_ok_spec {A} `{EqDecision A} (field : option A) (actual : A) :
  field_ok field actual = true ↔ ∀ x, field = Some x → x = actual.
Proof. destruct field; simpl; rewrite ?bool_decide_eq_true; naive_solver. Qed.

Lemma matches_andb f t :
  matches f t =
    field_ok (f_object_type f) (object_type (object t)) &&
    (field_ok (f_object_id f) (object_id (object t)) &&
    (field_ok (f_relation f) (relation t) &&
    (field_ok (f_subject_type f) (subject_type (subject t)) &&
    (field_ok (f_subject_id f) (subject_id (subject t)) &&
     field_ok (f_subject_relation f) (subject_relation (subject t)))))).
Proof.
  unfold matches. repeat (case_match; destruct (field_ok _ _); try done).
Qed.

(** A filter selects exactly the tuples that agree with every field it sets. *)
Lemma matches_iff f t :
  matches f t = true ↔
    (∀ x, f_object_type f = Some x → x = object_type (object t)) ∧
    (∀ x, f_object_id f = Some x → x = object_id (object t)) ∧
    (∀ x, f_relation f = Some x → x = relation t) ∧
    (∀ x, f_subject_type f = Some x → x = subject_type (subject t)) ∧
    (∀ x, f_subject_id f = Some x → x = subject_id (subject t)) ∧
    (∀ x, f_subject_relation f = Some x → x = subject_relation (subject t)).
Proof. by rewrite matches_andb, !andb_true_iff, !field_ok_spec. Qed.

Lemma matches_default t : matches filter_default t = true.
Proof. by apply matches_iff. Qed.

Lemma has_any_field_false f : has_any_field f = false ↔ f = filter_default.
Proof. destruct f as [[] [] [] [] [] []]; split; naive_solver. Qed.

(** The two filters the engine builds. *)
Definition object_relation_filter (ot oi r : string) : TupleFilter :=
  mk_TupleFilter (Some ot) (Some oi) (Some r) None None None.

Definition userset_filter (ot oi r st si : string) : TupleFilter :=
  mk_TupleFilter (Some ot) (Some oi) (Some r) (Some st) (Some si) (Some None).

(** The filter that pins one tuple down completely. *)
Definition exact_filter (t : Tuple) : TupleFilter :=
  mk_TupleFilter (Some (object_type (object t))) (Some (object_id (object t)))
    (Some (relation t)) (Some (subject_type (subject t))) (Some (subject_id (subject t)))
    (Some (subject_relation (subject t))).

Ltac solve_matches t :=
  rewrite matches_andb, !andb_true_iff; destruct t as [[] ? []]; simpl;
  rewrite ?bool_decide_eq_true;
  split; [intros; destruct_and!; simplify_eq; done | intros; destruct_and?; simplify_eq/=; done].

Lemma matches_object_relation ot oi r t :
  matches (object_relation_filter ot oi r) t = true ↔
  object t = mk_ObjectRef ot oi ∧ relation t = r.
Proof. solve_matches t. Qed.

Lemma matches_userset ot oi r st si t :
  matches (userset_filter ot oi r st si) t = true ↔
  t = mk_Tuple (mk_ObjectRef ot oi) r (direct st si).
Proof. solve_matches t. Qed.

Lemma matches_exact t t' : matches (exact_filter t) t' = true ↔ t = t'.
Proof. destruct t as [[] ? []]. solve_matches t'. Qed.

#[export] Hint Resolve matches_default : kz.
Create Rewrite HintDb kz_rew.
#[export] Hint Rewrite matches_object_relation matches_userset matches_exact : kz_rew.
