(* ===== verification/Schema.v ===== *)
(** * The schema data model ([crates/kraalzibar-core/src/schema/types.rs])

    Types, relations, permissions and the rewrite rules of permissions, with
    the name lookups ([Iterator::find], so the first definition wins). *)
From stdpp Require Import base tactics list strings sets.
From S2P Require Import Prelude.

Record SubjectTypeRef := mk_SubjectTypeRef {
  st_type_name : string; st_relation : option string }.

Record RelationDef := mk_RelationDef {
  rel_name : string; rel_subject_types : list SubjectTypeRef }.

Inductive RewriteRule :=
| This (name : string)
| Union (children : list RewriteRule)
| Intersection (children : list RewriteRule)
| Exclusion (base excluded : RewriteRule)
| Arrow (tupleset computed : string).

Record PermissionDef := mk_PermissionDef { perm_name : string; perm_rule : RewriteRule }.

Record TypeDefinition := mk_TypeDefinition {
  type_name : string;
  type_relations : list RelationDef;
  type_permissions : list PermissionDef }.

Record Schema := mk_Schema { schema_types : list TypeDefinition }.

(** ** Lookups *)

(** [iter().find(p)] *)
Definition find_first {A} (p : A → bool) (l : list A) : option A := List.find p l.

Definition get_type (s : Schema) (name : string) : option TypeDefinition :=
  find_first (λ t, bool_decide (type_name t = name)) (schema_types s).

Definition get_relation (t : TypeDefinition) (name : string) : option RelationDef :=
  find_first (λ r, bool_decide (rel_name r = name)) (type_relations t).

Definition get_permission (t : TypeDefinition) (name : string) : option PermissionDef :=
  find_first (λ p, bool_decide (perm_name p = name)) (type_permissions t).

(** ** Induction on rewrite rules

    Rules nest through lists, so the induction hypothesis for [Union] and
    [Intersection] is a [Forall]. *)
Section RewriteRule_ind.
Context (P : RewriteRule → Prop).
Context (HThis : ∀ name, P (This name)).
Context (HUnion : ∀ cs, Forall P cs → P (Union cs)).
Context (HInter : ∀ cs, Forall P cs → P (Intersection cs)).
Context (HExcl : ∀ b e, P b → P e → P (Exclusion b e)).
Context (HArrow : ∀ ts cp, P (Arrow ts cp)).

Fixpoint rule_ind (r : RewriteRule) : P r :=
  let fix children (cs : list RewriteRule) : Forall P cs :=
    match cs with
    | [] => Forall_nil_2 P
    | c :: cs' => Forall_cons_2 P c cs' (rule_ind c) (children cs')
    end in
  match r with
  | This name => HThis name
  | Union cs => HUnion cs (children cs)
  | Intersection cs => HInter cs (children cs)
  | Exclusion b e => HExcl b e (rule_ind b) (rule_ind e)
  | Arrow ts cp => HArrow ts cp
  end.
End RewriteRule_ind.

Ltac rule_induction r :=
  induction r as [name|cs IHcs|cs IHcs|rb re IHrb IHre|ts cp] using rule_ind.

(** The rules an evaluation recurses on directly. *)
Definition operand (r' r : RewriteRule) : Prop :=
  match r with
  | Union cs | Intersection cs => r' ∈ cs
  | Exclusion b e => r' = b ∨ r' = e
  | _ => False
  end.

(** The tupleset relations of the arrows of a rule. *)
Fixpoint tuplesets (r : RewriteRule) : list string :=
  match r with
  | This _ => []
  | Union cs | Intersection cs => concat (map tuplesets cs)
  | Exclusion b e => tuplesets b ++ tuplesets e
  | Arrow ts _ => [ts]
  end.

Lemma tuplesets_operand r' r ts : operand r' r → ts ∈ tuplesets r' → ts ∈ tuplesets r.
Proof.
  assert (Hc : ∀ cs, r' ∈ cs → ts ∈ tuplesets r' → ts ∈ concat (map tuplesets cs)).
  { intros cs Hr Hts. apply list_elem_of_In, in_concat. exists (tuplesets r').
    split; [|by apply list_elem_of_In]. by apply in_map, list_elem_of_In. }
  destruct r as [n|cs|cs|b e|t c]; simpl; [done|by apply Hc|by apply Hc| |done].
  intros [->| ->]; rewrite elem_of_app; auto.
Qed.

(** ** Decidable equality *)

#[export] Instance SubjectTypeRef_eq_dec : EqDecision SubjectTypeRef.
Proof. solve_decision. Defined.
#[export] Instance RelationDef_eq_dec : EqDecision RelationDef.
Proof. solve_decision. Defined.

#[export] Instance RewriteRule_eq_dec : EqDecision RewriteRule.
Proof.
  refine (fix go (r1 r2 : RewriteRule) : Decision (r1 = r2) :=
    let list_go := @list_eq_dec _ go in
    match r1, r2 with
    | This n1, This n2 => cast_if (decide (n1 = n2))
    | Union l1, Union l2 => cast_if (list_go l1 l2)
    | Intersection l1, Intersection l2 => cast_if (list_go l1 l2)
    | Exclusion b1 e1, Exclusion b2 e2 => cast_if_and (go b1 b2) (go e1 e2)
    | Arrow t1 c1, Arrow t2 c2 => cast_if_and (decide (t1 = t2)) (decide (c1 = c2))
    | _, _ => right _
    end); clear list_go; congruence.
Defined.

#[export] Instance PermissionDef_eq_dec : EqDecision PermissionDef.
Proof. solve_decision. Defined.
#[export] Instance TypeDefinition_eq_dec : EqDecision TypeDefinition.
Proof. solve_decision. Defined.
#[export] Instance Schema_eq_dec : EqDecision Schema.
Proof. solve_decision. Defined.

(** ** Lemmas on lookups *)

Section find_first.
Context {A K : Type} `{EqDecision K} (key : A → K).
Implicit Types (l : list A).

Lemma find_first_Some l k x :
  find_first (λ x, bool_decide (key x = k)) l = Some x → x ∈ l ∧ key x = k.
Proof.
  intros [Hin Hk]%List.find_some. rewrite bool_decide_eq_true in Hk.
  by rewrite list_elem_of_In.
Qed.

Lemma find_first_None l k :
  find_first (λ x, bool_decide (key x = k)) l = None ↔ k ∉ key <$> l.
Proof.
  split.
  - intros Hf (x & -> & Hin)%list_elem_of_fmap. rewrite list_elem_of_In in Hin.
    eapply List.find_none in Hf; [|done]. by rewrite bool_decide_eq_false in Hf.
  - intros Hk. destruct (find_first _ l) as [x|] eqn:Hf; [|done].
    apply find_first_Some in Hf as [Hin <-]. destruct Hk. by apply list_elem_of_fmap_2.
Qed.

(** With unique keys the lookup finds every member. *)
Lemma find_first_NoDup l x :
  NoDup (key <$> l) → x ∈ l → find_first (λ y, bool_decide (key y = key x)) l = Some x.
Proof.
  induction l as [|y l IH]; [set_solver|]. rewrite fmap_cons, NoDup_cons, elem_of_cons.
  intros [Hy Hnd] [->|Hin]; cbn [find_first List.find]; case_bool_decide as Hk; try done.
  - destruct Hy. rewrite Hk. by apply list_elem_of_fmap_2.
  - by apply IH.
Qed.

Lemma find_first_existsb l k :
  is_Some (find_first (λ x, bool_decide (key x = k)) l) ↔ k ∈ key <$> l.
Proof.
  rewrite <-not_eq_None_Some, find_first_None. split; [|tauto].
  intros. by apply dec_stable.
Qed.
End find_first.

Lemma get_type_Some s n t : get_type s n = Some t → t ∈ schema_types s ∧ type_name t = n.
Proof. apply (find_first_Some type_name). Qed.
Lemma get_type_None s n : get_type s n = None ↔ n ∉ type_name <$> schema_types s.
Proof. apply (find_first_None type_name). Qed.
Lemma get_permission_Some t n p :
  get_permission t n = Some p → p ∈ type_permissions t ∧ perm_name p = n.
Proof. apply (find_first_Some perm_name). Qed.
Lemma get_relation_Some t n r :
  get_relation t n = Some r → r ∈ type_relations t ∧ rel_name r = n.
Proof. apply (find_first_Some rel_name). Qed.
Lemma get_relation_None t n : get_relation t n = None ↔ n ∉ rel_name <$> type_relations t.
Proof. apply (find_first_None rel_name). Qed.

(** A relation some arrow of the schema follows. *)
Definition arrow_relation (s : Schema) (ts : string) : Prop :=
  ∃ td pd, td ∈ schema_types s ∧ pd ∈ type_permissions td ∧ ts ∈ tuplesets (perm_rule pd).

Definition arrow_relations (s : Schema) : list string :=
  td ← schema_types s; pd ← type_permissions td; tuplesets (perm_rule pd).

Lemma elem_of_arrow_relations s ts : ts ∈ arrow_relations s ↔ arrow_relation s ts.
Proof.
  unfold arrow_relations, arrow_relation. rewrite list_elem_of_bind.
  setoid_rewrite list_elem_of_bind. naive_solver.
Qed.

Lemma arrow_relation_rule s ot td n pd ts :
  get_type s ot = Some td → get_permission td n = Some pd →
  ts ∈ tuplesets (perm_rule pd) → arrow_relation s ts.
Proof. intros [? _]%get_type_Some [? _]%get_permission_Some ?. by exists td, pd. Qed.

(** ** Exclusion-free rules and schemas

    The fragment in which a permission is monotone in the stored tuples. *)
Fixpoint exclusion_free (r : RewriteRule) : bool :=
  match r with
  | This _ | Arrow _ _ => true
  | Union cs | Intersection cs => forallb exclusion_free cs
  | Exclusion _ _ => false
  end.

Lemma exclusion_free_operand r' r :
  operand r' r → exclusion_free r = true → exclusion_free r' = true.
Proof.
  destruct r; simpl; try done; rewrite forallb_forall; setoid_rewrite <-list_elem_of_In; auto.
Qed.

Definition schema_exclusion_free (s : Schema) : bool :=
  forallb (λ t, forallb (λ p, exclusion_free (perm_rule p)) (type_permissions t)) (schema_types s).

Lemma schema_exclusion_free_rule s ot td n pd :
  schema_exclusion_free s = true → get_type s ot = Some td →
  get_permission td n = Some pd → exclusion_free (perm_rule pd) = true.
Proof.
  intros Hs [Ht _]%get_type_Some [Hp _]%get_permission_Some.
  unfold schema_exclusion_free in Hs. rewrite forallb_forall in Hs.
  apply list_elem_of_In in Ht. specialize (Hs _ Ht). cbv beta in Hs. rewrite forallb_forall in Hs.
  apply list_elem_of_In in Hp. by apply Hs.
Qed.

#[export] Hint Resolve schema_exclusion_free_rule exclusion_free_operand tuplesets_operand : kz.
