(* ===== verification/Validation.v ===== *)
(** * Schema limits and breaking changes
      ([crates/kraalzibar-core/src/schema/validation.rs]) *)
From stdpp Require Import base tactics list strings sets.
From S2P Require Import Prelude Tuples Schema.

Record SchemaLimits := mk_SchemaLimits {
  max_types : nat;
  max_relations_per_type : nat;
  max_permissions_per_type : nat }.

Definition limits_default : SchemaLimits := mk_SchemaLimits 50 30 30.

Inductive ValidationError :=
| TooManyTypes (count limit : nat)
| TooManyRelations (type_name : string) (count limit : nat)
| TooManyPermissions (type_name : string) (count limit : nat).

Inductive BreakingChange :=
| TypeRemoved (type_name : string)
| RelationRemoved (type_name relation : string)
| SubjectTypesChanged (type_name relation : string).

#[export] Instance ValidationError_eq_dec : EqDecision ValidationError.
Proof. solve_decision. Defined.
#[export] Instance BreakingChange_eq_dec : EqDecision BreakingChange.
Proof. solve_decision. Defined.

(** ** [validate_schema_limits] *)

(** One turn of the loop over the types. *)
Definition type_limit_errors (limits : SchemaLimits) (td : TypeDefinition) : list ValidationError :=
  (if max_relations_per_type limits <? length (type_relations td)
   then [TooManyRelations (type_name td) (length (type_relations td)) (max_relations_per_type limits)]
   else []) ++
  (if max_permissions_per_type limits <? length (type_permissions td)
   then [TooManyPermissions (type_name td) (length (type_permissions td)) (max_permissions_per_type limits)]
   else []).

Definition limit_errors (schema : Schema) (limits : SchemaLimits) : list ValidationError :=
  (if max_types limits <? length (schema_types schema)
   then [TooManyTypes (length (schema_types schema)) (max_types limits)] else []) ++
  (schema_types schema ≫= type_limit_errors limits).

Definition validate_schema_limits (schema : Schema) (limits : SchemaLimits)
    : result (list ValidationError) unit :=
  let errors := limit_errors schema limits in
  match errors with [] => Ok tt | _ => Err errors end.

(** ** [detect_breaking_changes] *)

(** The inner loop body: one relation of a type that both schemas define. *)
Definition relation_changes (old_type new_type : TypeDefinition) (old_rel : RelationDef)
    : list BreakingChange :=
  match find_first (λ r, bool_decide (rel_name r = rel_name old_rel)) (type_relations new_type) with
  | None => [RelationRemoved (type_name old_type) (rel_name old_rel)]
  | Some new_rel =>
      if bool_decide (rel_subject_types old_rel = rel_subject_types new_rel) then []
      else [SubjectTypesChanged (type_name old_type) (rel_name old_rel)]
  end.

(** The outer loop body. *)
Definition type_changes (new : Schema) (old_type : TypeDefinition) : list BreakingChange :=
  match get_type new (type_name old_type) with
  | None => [TypeRemoved (type_name old_type)]
  | Some new_type => type_relations old_type ≫= relation_changes old_type new_type
  end.

Definition detect_breaking_changes (old new : Schema) : list BreakingChange :=
  schema_types old ≫= type_changes new.

(** ** Specifications *)

(** A schema is within the limits. *)
Definition within_limits (schema : Schema) (limits : SchemaLimits) : Prop :=
  length (schema_types schema) ≤ max_types limits ∧
  ∀ td, td ∈ schema_types schema →
    length (type_relations td) ≤ max_relations_per_type limits ∧
    length (type_permissions td) ≤ max_permissions_per_type limits.

Lemma if_ltb_nil {A} n m (x : A) : (if n <? m then [x] else []) = [] ↔ m ≤ n.
Proof. destruct (Nat.ltb_spec n m); split; intros; by (done || lia). Qed.

Lemma type_limit_errors_nil limits td :
  type_limit_errors limits td = [] ↔
  length (type_relations td) ≤ max_relations_per_type limits ∧
  length (type_permissions td) ≤ max_permissions_per_type limits.
Proof. unfold type_limit_errors. by rewrite app_nil, !if_ltb_nil. Qed.

Lemma bind_nil {A B} (f : A → list B) (l : list A) :
  l ≫= f = [] ↔ ∀ x, x ∈ l → f x = [].
Proof.
  induction l as [|x l IH]; [set_solver|]. rewrite bind_cons, app_nil, IH. set_solver.
Qed.

Lemma limit_errors_nil schema limits :
  limit_errors schema limits = [] ↔ within_limits schema limits.
Proof.
  unfold limit_errors, within_limits. rewrite app_nil, if_ltb_nil, bind_nil.
  by setoid_rewrite type_limit_errors_nil.
Qed.

Lemma validate_ok schema limits :
  validate_schema_limits schema limits = Ok tt ↔ within_limits schema limits.
Proof.
  rewrite <-limit_errors_nil. unfold validate_schema_limits. destruct (limit_errors _ _); split; done.
Qed.

(** Every reported error is a limit that is really exceeded. *)
Lemma limit_errors_sound schema limits e :
  e ∈ limit_errors schema limits →
  match e with
  | TooManyTypes count limit =>
      count = length (schema_types schema) ∧ limit = max_types limits ∧ limit < count
  | TooManyRelations n count limit =>
      ∃ td, td ∈ schema_types schema ∧ type_name td = n ∧
        count = length (type_relations td) ∧ limit = max_relations_per_type limits ∧ limit < count
  | TooManyPermissions n count limit =>
      ∃ td, td ∈ schema_types schema ∧ type_name td = n ∧
        count = length (type_permissions td) ∧ limit = max_permissions_per_type limits ∧ limit < count
  end.
Proof.
  assert (Hif : ∀ n m (x : ValidationError), e ∈ (if n <? m then [x] else []) → e = x ∧ n < m).
  { intros n m x. destruct (Nat.ltb_spec n m); set_solver. }
  unfold limit_errors. rewrite elem_of_app. intros [[-> ?]%Hif|He]; [done|].
  apply list_elem_of_bind in He as (td & He & Htd).
  unfold type_limit_errors in He. rewrite elem_of_app in He.
  destruct He as [[-> ?]%Hif|[-> ?]%Hif]; eauto 6.
Qed.

(** [validate_schema_limits] accepts exactly the schemas within the limits,
    and otherwise returns a non-empty list of limits that are exceeded. *)
Lemma validate_err schema limits es :
  validate_schema_limits schema limits = Err es →
  es = limit_errors schema limits ∧ es ≠ [] ∧ ¬ within_limits schema limits.
Proof.
  intros H. rewrite <-limit_errors_nil. unfold validate_schema_limits in H.
  destruct (limit_errors schema limits); naive_solver.
Qed.

(** [new] still defines every type and relation of [old], with the same
    subject types. *)
Definition compatible (old new : Schema) : Prop :=
  ∀ ot, ot ∈ schema_types old → ∃ nt, get_type new (type_name ot) = Some nt ∧
    ∀ r, r ∈ type_relations ot → ∃ r', get_relation nt (rel_name r) = Some r' ∧
      rel_subject_types r' = rel_subject_types r.

Lemma relation_changes_nil ot nt r :
  relation_changes ot nt r = [] ↔
  ∃ r', get_relation nt (rel_name r) = Some r' ∧ rel_subject_types r' = rel_subject_types r.
Proof.
  unfold relation_changes, get_relation. destruct (find_first _ _) as [r'|]; [|naive_solver].
  case_bool_decide; naive_solver.
Qed.

Lemma detect_nil old new : detect_breaking_changes old new = [] ↔ compatible old new.
Proof.
  unfold detect_breaking_changes, compatible. rewrite bind_nil. apply forall_proper; intros ot.
  apply forall_proper; intros Hot. unfold type_changes.
  destruct (get_type new (type_name ot)) as [nt|]; [|naive_solver].
  rewrite bind_nil. setoid_rewrite relation_changes_nil. naive_solver.
Qed.

(** The members of the report, change by change. *)
Lemma elem_of_detect old new c :
  c ∈ detect_breaking_changes old new ↔
  ∃ ot, ot ∈ schema_types old ∧
    match get_type new (type_name ot) with
    | None => c = TypeRemoved (type_name ot)
    | Some nt => ∃ r, r ∈ type_relations ot ∧
        match get_relation nt (rel_name r) with
        | None => c = RelationRemoved (type_name ot) (rel_name r)
        | Some r' => rel_subject_types r ≠ rel_subject_types r' ∧
                     c = SubjectTypesChanged (type_name ot) (rel_name r)
        end
    end.
Proof.
  unfold detect_breaking_changes. rewrite list_elem_of_bind.
  apply exist_proper; intros ot. rewrite (comm (∧)). apply and_iff_compat_l.
  unfold type_changes. destruct (get_type new (type_name ot)) as [nt|]; [|by rewrite list_elem_of_singleton].
  rewrite list_elem_of_bind. apply exist_proper; intros r. rewrite (comm (∧)). apply and_iff_compat_l.
  unfold relation_changes, get_relation. destruct (find_first _ _) as [r'|].
  - case_bool_decide; rewrite ?elem_of_nil, ?list_elem_of_singleton; naive_solver.
  - by rewrite list_elem_of_singleton.
Qed.

(** A stored tuple is allowed by a schema: its type and relation are defined
    and its subject is of one of the relation's subject types. *)
Definition tuple_allowed (s : Schema) (t : Tuple) : Prop :=
  ∃ td r, get_type s (object_type (object t)) = Some td ∧
    get_relation td (relation t) = Some r ∧
    mk_SubjectTypeRef (subject_type (subject t)) (subject_relation (subject t))
      ∈ rel_subject_types r.

(** ** Properties *)

(** [validate_schema_limits] accepts exactly the schemas whose number of
    types, and of relations and permissions of every type, is within the
    limits; a rejection lists at least one error and every error listed names
    a count that really exceeds its limit. *)
Theorem validate_schema_limits_exact schema limits :
  match validate_schema_limits schema limits with
  | Ok _ => within_limits schema limits
  | Err es => ¬ within_limits schema limits ∧ es ≠ [] ∧ ∀ e, e ∈ es →
      match e with
      | TooManyTypes count limit =>
          count = length (schema_types schema) ∧ limit = max_types limits ∧ limit < count
      | TooManyRelations n count limit =>
          ∃ td, td ∈ schema_types schema ∧ type_name td = n ∧
            count = length (type_relations td) ∧ limit = max_relations_per_type limits ∧ limit < count
      | TooManyPermissions n count limit =>
          ∃ td, td ∈ schema_types schema ∧ type_name td = n ∧
            count = length (type_permissions td) ∧ limit = max_permissions_per_type limits ∧ limit < count
      end
  end.
Proof.
  destruct (validate_schema_limits schema limits) as [[]|es] eqn:H.
  - by apply validate_ok.
  - apply validate_err in H as (-> & ? & ?). split_and!; [done..|]. apply limit_errors_sound.
Qed.

(** C32: when [detect_breaking_changes] reports nothing, every tuple the old
    schema allows is allowed by the new one: same type, same relation, and the
    subject still of an allowed subject type. *)
Theorem no_breaking_changes_keep_tuples old new t :
  detect_breaking_changes old new = [] → tuple_allowed old t → tuple_allowed new t.
Proof.
  intros Hc%detect_nil (td & r & (Htd & Hn)%get_type_Some & (Hr & Hrn)%get_relation_Some & Hs).
  destruct (Hc td Htd) as (nt & Hnt & Hrel). rewrite Hn in Hnt.
  destruct (Hrel r Hr) as (r' & Hr' & Hst). rewrite Hrn in Hr'.
  exists nt, r'. by rewrite Hst.
Qed.

Lemma no_breaking_changes_keep_tuples_witness :
  let td rels perms := mk_TypeDefinition "doc" rels perms in
  let viewer := mk_RelationDef "viewer" [mk_SubjectTypeRef "user" None] in
  let owner := mk_RelationDef "owner" [mk_SubjectTypeRef "user" None] in
  tuple_allowed (mk_Schema [td [owner; viewer] []; mk_TypeDefinition "user" [] []])
    (mk_Tuple (mk_ObjectRef "doc" "readme") "viewer" (direct "user" "alice")).
Proof.
  intros td viewer owner.
  apply (no_breaking_changes_keep_tuples
    (mk_Schema [td [viewer] [mk_PermissionDef "view" (This "viewer")]])).
  - by vm_compute.
  - exists (td [viewer] [mk_PermissionDef "view" (This "viewer")]), viewer. split_and!; [done..|].
    apply list_elem_of_singleton. done.
Defined.

(** the report of [detect_breaking_changes] is exact: it contains a change
    if and only if an old type is gone, or an old relation of a kept type is
    gone, or its list of subject types is different. *)
Theorem detect_breaking_changes_exact old new c :
  c ∈ detect_breaking_changes old new ↔
  ∃ ot, ot ∈ schema_types old ∧
    match get_type new (type_name ot) with
    | None => c = TypeRemoved (type_name ot)
    | Some nt => ∃ r, r ∈ type_relations ot ∧
        match get_relation nt (rel_name r) with
        | None => c = RelationRemoved (type_name ot) (rel_name r)
        | Some r' => rel_subject_types r ≠ rel_subject_types r' ∧
                     c = SubjectTypesChanged (type_name ot) (rel_name r)
        end
    end.
Proof. apply elem_of_detect. Qed.
