(* ===== verification/Parser.v ===== *)
(** * The schema DSL parser ([crates/kraalzibar-core/src/schema/parser.rs])

    The [pest] crate turns the text into a tree of [Pair]s following
    [schema/grammar.pest]; that step is the parameter [pest_parse], which
    [Grammar] says more of.  The rest
    of the file is the translation of the tree walk that builds a [Schema]:
    one definition per Rust function, in the error monad. *)
From stdpp Require Import base tactics list strings sets gmap.
From S2P Require Import Prelude Schema.

(** ** Parse trees

    [Rule] is the enum pest derives from the grammar: one constructor per
    non-silent rule, and [EOI]. *)
Inductive Rule :=
| R_EOI | R_schema | R_definition | R_definition_body | R_relation_def
| R_subject_type_list | R_subject_type_ref | R_permission_def | R_permission_expr
| R_union_op | R_intersection_op | R_exclusion_op | R_permission_term
| R_arrow_expr | R_identifier.

#[export] Instance Rule_eq_dec : EqDecision Rule.
Proof. solve_decision. Defined.

(** A [Pair]: [as_rule()], [as_str()] and [into_inner()]. *)
Inductive Pair := mk_Pair { as_rule : Rule; as_str : string; into_inner : list Pair }.

(** [{rule:?}] *)
Definition rule_debug (r : Rule) : string :=
  match r with
  | R_EOI => "EOI" | R_schema => "schema" | R_definition => "definition"
  | R_definition_body => "definition_body" | R_relation_def => "relation_def"
  | R_subject_type_list => "subject_type_list" | R_subject_type_ref => "subject_type_ref"
  | R_permission_def => "permission_def" | R_permission_expr => "permission_expr"
  | R_union_op => "union_op" | R_intersection_op => "intersection_op"
  | R_exclusion_op => "exclusion_op" | R_permission_term => "permission_term"
  | R_arrow_expr => "arrow_expr" | R_identifier => "identifier"
  end.

Inductive ParseError :=
| Syntax (msg : string)
| MixedOperators
| MultipleExclusions
| DuplicateType (type_name : string)
| DuplicateRelation (type_name relation : string)
| DuplicatePermission (type_name permission : string).

#[export] Instance ParseError_eq_dec : EqDecision ParseError.
Proof. solve_decision. Defined.

Definition unexpected_rule (r : Rule) : ParseError :=
  Syntax ("unexpected rule: " +:+ rule_debug r).

Definition missing_token (context : string) : ParseError :=
  Syntax ("missing token: " +:+ context).

(** [inner.next().ok_or_else(|| missing_token(context))?]: the pair and the
    rest of the iterator. *)
Definition next_or (inner : list Pair) (context : string) : result ParseError (Pair * list Pair) :=
  match inner with
  | p :: rest => Ok (p, rest)
  | [] => Err (missing_token context)
  end.

(** ** The tree walk *)

Definition parse_subject_type_ref (pair : Pair) : result ParseError SubjectTypeRef :=
  let? '(p, inner) := next_or (into_inner pair) "subject type name" in
  Ok (mk_SubjectTypeRef (as_str p) (as_str <$> head inner)).

(** [map(f).collect::<Result<Vec<_>, _>>()]: stops at the first error. *)
Fixpoint collect_results {A} (f : Pair → result ParseError A) (l : list Pair)
    : result ParseError (list A) :=
  match l with
  | [] => Ok []
  | p :: l' => let? x := f p in let? xs := collect_results f l' in Ok (x :: xs)
  end.

Definition parse_relation_def (pair : Pair) : result ParseError RelationDef :=
  let? '(p, inner) := next_or (into_inner pair) "relation name" in
  let? '(subject_type_list, _) := next_or inner "subject type list" in
  let? subject_types := collect_results parse_subject_type_ref (into_inner subject_type_list) in
  Ok (mk_RelationDef (as_str p) subject_types).

Definition parse_permission_term (pair : Pair) : result ParseError RewriteRule :=
  let? '(inner, _) := next_or (into_inner pair) "permission term content" in
  match as_rule inner with
  | R_arrow_expr =>
      let? '(tupleset, parts) := next_or (into_inner inner) "arrow tupleset" in
      let? '(computed, _) := next_or parts "arrow computed" in
      Ok (Arrow (as_str tupleset) (as_str computed))
  | R_identifier => Ok (This (as_str inner))
  | other => Err (unexpected_rule other)
  end.

(** [while let Some(op) = inner.next() { .. }] *)
Fixpoint parse_ops_and_terms (inner : list Pair) : result ParseError (list (Rule * RewriteRule)) :=
  match inner with
  | [] => Ok []
  | [op] => Err (missing_token "permission term after operator")
  | op :: t :: rest =>
      let? term := parse_permission_term t in
      let? more := parse_ops_and_terms rest in
      Ok ((as_rule op, term) :: more)
  end.

Definition parse_permission_expr (pair : Pair) : result ParseError RewriteRule :=
  let? '(p, inner) := next_or (into_inner pair) "permission term" in
  let? first := parse_permission_term p in
  let? ops_and_terms := parse_ops_and_terms inner in
  match ops_and_terms with
  | [] => Ok first
  | (first_op, subtract) :: others =>
      if existsb (λ '(op, _), negb (bool_decide (op = first_op))) ops_and_terms
      then Err MixedOperators
      else match first_op with
      | R_union_op => Ok (Union (first :: ops_and_terms.*2))
      | R_intersection_op => Ok (Intersection (first :: ops_and_terms.*2))
      | R_exclusion_op =>
          if negb (length ops_and_terms =? 1) then Err MultipleExclusions
          else Ok (Exclusion first subtract)
      | _ => Err (unexpected_rule first_op)
      end
  end.

Definition parse_permission_def (pair : Pair) : result ParseError PermissionDef :=
  let? '(p, inner) := next_or (into_inner pair) "permission name" in
  let? '(expr, _) := next_or inner "permission expression" in
  let? rule := parse_permission_expr expr in
  Ok (mk_PermissionDef (as_str p) rule).

(** The loop over the items of a definition body, with its four
    accumulators. *)
Fixpoint parse_body_items (name : string) (items : list Pair)
    (relations : list RelationDef) (permissions : list PermissionDef)
    (seen_relations seen_permissions : gset string)
    : result ParseError (list RelationDef * list PermissionDef) :=
  match items with
  | [] => Ok (relations, permissions)
  | item :: items' =>
      match as_rule item with
      | R_relation_def =>
          let? rel := parse_relation_def item in
          if bool_decide (rel_name rel ∈ seen_relations)
          then Err (DuplicateRelation name (rel_name rel))
          else parse_body_items name items' (relations ++ [rel]) permissions
                 ({[rel_name rel]} ∪ seen_relations) seen_permissions
      | R_permission_def =>
          let? perm := parse_permission_def item in
          if bool_decide (perm_name perm ∈ seen_permissions)
          then Err (DuplicatePermission name (perm_name perm))
          else parse_body_items name items' relations (permissions ++ [perm])
                 seen_relations ({[perm_name perm]} ∪ seen_permissions)
      | _ => parse_body_items name items' relations permissions seen_relations seen_permissions
      end
  end.

Definition parse_definition (pair : Pair) : result ParseError TypeDefinition :=
  let? '(p, inner) := next_or (into_inner pair) "definition name" in
  let? '(body, _) := next_or inner "definition body" in
  let? '(relations, permissions) := parse_body_items (as_str p) (into_inner body) [] [] ∅ ∅ in
  Ok (mk_TypeDefinition (as_str p) relations permissions).

(** The inner loop of [parse_schema], over the children of a [schema] pair. *)
Fixpoint parse_definitions (inner : list Pair) (types : list TypeDefinition)
    (seen_types : gset string) : result ParseError (list TypeDefinition * gset string) :=
  match inner with
  | [] => Ok (types, seen_types)
  | p :: inner' =>
      if bool_decide (as_rule p = R_definition) then
        let? type_def := parse_definition p in
        if bool_decide (type_name type_def ∈ seen_types)
        then Err (DuplicateType (type_name type_def))
        else parse_definitions inner' (types ++ [type_def]) ({[type_name type_def]} ∪ seen_types)
      else parse_definitions inner' types seen_types
  end.

(** The outer loop of [parse_schema], over the pairs pest returned. *)
Fixpoint parse_pairs (pairs : list Pair) (types : list TypeDefinition) (seen_types : gset string)
    : result ParseError (list TypeDefinition) :=
  match pairs with
  | [] => Ok types
  | p :: pairs' =>
      if bool_decide (as_rule p = R_schema) then
        let? '(types, seen_types) := parse_definitions (into_inner p) types seen_types in
        parse_pairs pairs' types seen_types
      else parse_pairs pairs' types seen_types
  end.

(** [SchemaParser::parse(Rule::schema, input)]: the pest crate's parser, with
    its error already rendered by [to_string]. *)
Abbreviation pest_parser := (string → result string (list Pair)).

Definition parse_schema (pest_parse : pest_parser) (input : string) : result ParseError Schema :=
  let? pairs := map_err Syntax (pest_parse input) in
  let? types := parse_pairs pairs [] ∅ in
  Ok (mk_Schema types).

(** ** What a parsed schema satisfies *)

(** An operand of a permission expression. *)
Definition is_term (r : RewriteRule) : Prop :=
  match r with This _ | Arrow _ _ => True | _ => False end.

(** The rules the DSL can express: one operator, at least two operands,
    exactly two for exclusion. *)
Definition flat_rule (r : RewriteRule) : Prop :=
  match r with
  | This _ | Arrow _ _ => True
  | Union cs | Intersection cs => 2 ≤ length cs ∧ Forall is_term cs
  | Exclusion b e => is_term b ∧ is_term e
  end.

Record wf_type (td : TypeDefinition) : Prop := {
  wf_relations : NoDup (rel_name <$> type_relations td);
  wf_permissions : NoDup (perm_name <$> type_permissions td);
  wf_rules : Forall (λ p, flat_rule (perm_rule p)) (type_permissions td) }.

Record wf_schema (s : Schema) : Prop := {
  wf_types_unique : NoDup (type_name <$> schema_types s);
  wf_types : Forall wf_type (schema_types s) }.

Lemma parse_permission_term_is_term p r : parse_permission_term p = Ok r → is_term r.
Proof. unfold parse_permission_term. intros H. inv_result. by destruct (as_rule _); inv_result. Qed.

Lemma parse_ops_and_terms_terms inner ots :
  parse_ops_and_terms inner = Ok ots → Forall is_term ots.*2.
Proof.
  revert ots. induction inner as [|p|p q inner IH] using list_ind2; intros ots H; inv_result.
  - by constructor.
  - constructor; [by eapply parse_permission_term_is_term|eauto].
Qed.

Lemma parse_permission_expr_flat p r : parse_permission_expr p = Ok r → flat_rule r.
Proof.
  unfold parse_permission_expr. intros H. inv_result.
  match goal with H : parse_permission_term _ = _ |- _ =>
    pose proof (parse_permission_term_is_term _ _ H) as Hfirst end.
  match goal with H : parse_ops_and_terms _ = _ |- _ =>
    pose proof (parse_ops_and_terms_terms _ _ H) as Hterms end.
  repeat case_match; simplify_eq/=.
  - by destruct r.
  - split; [lia|]. by constructor.
  - split; [lia|]. by constructor.
  - by inversion Hterms.
Qed.

(** The accumulators of the body loop stay duplicate free and the seen sets
    are the names collected so far. *)
Lemma parse_body_items_inv name items rels perms sr sp rels' perms' :
  sr = list_to_set (rel_name <$> rels) → sp = list_to_set (perm_name <$> perms) →
  wf_type (mk_TypeDefinition name rels perms) →
  parse_body_items name items rels perms sr sp = Ok (rels', perms') →
  wf_type (mk_TypeDefinition name rels' perms').
Proof.
  revert rels perms sr sp. induction items as [|item items IH];
    intros rels perms sr sp Hsr Hsp [Hr Hp Hf] H; simpl in *; [by simplify_eq|].
  destruct (as_rule item); try (by eapply IH); inv_result; case_bool_decide as Hin; simplify_eq.
  - eapply IH; [|done| |done]; [rewrite fmap_app; set_solver|].
    split; simpl; [|done..]. rewrite fmap_app. apply NoDup_snoc; set_solver.
  - eapply IH; [done| | |done]; [rewrite fmap_app; set_solver|].
    split; simpl; [done| |].
    + rewrite fmap_app. apply NoDup_snoc; set_solver.
    + apply Forall_app; split; [done|]. constructor; [|done].
      unfold parse_permission_def in *. inv_result. by eapply parse_permission_expr_flat.
Qed.

Lemma parse_definition_wf p td : parse_definition p = Ok td → wf_type td.
Proof.
  unfold parse_definition. intros H. inv_result.
  eapply (parse_body_items_inv _ _ [] [] ∅ ∅); [done|done| |done]. split; constructor.
Qed.

Lemma parse_definitions_inv inner types seen types' seen' :
  seen = list_to_set (type_name <$> types) → wf_schema (mk_Schema types) →
  parse_definitions inner types seen = Ok (types', seen') →
  seen' = list_to_set (type_name <$> types') ∧ wf_schema (mk_Schema types').
Proof.
  revert types seen. induction inner as [|p inner IH];
    intros types seen Hseen Hwf H; simpl in *; [by simplify_eq|].
  case_bool_decide; [|by eapply IH]. inv_result. case_bool_decide as Hin; simplify_eq.
  destruct Hwf as [Hu Ht]. eapply IH; [| |done]; [rewrite fmap_app; set_solver|].
  split; simpl in *; [rewrite fmap_app; apply NoDup_snoc; set_solver|].
  apply Forall_app; split; [done|]. constructor; [|done]. by eapply parse_definition_wf.
Qed.

Lemma parse_pairs_inv pairs types seen types' :
  seen = list_to_set (type_name <$> types) → wf_schema (mk_Schema types) →
  parse_pairs pairs types seen = Ok types' → wf_schema (mk_Schema types').
Proof.
  revert types seen. induction pairs as [|p pairs IH];
    intros types seen Hseen Hwf H; simpl in *; [by simplify_eq|].
  case_bool_decide; [|by eapply IH]. inv_result.
  edestruct parse_definitions_inv; [done..|]. by eapply IH.
Qed.

Lemma parse_schema_Ok pest_parse input s :
  parse_schema pest_parse input = Ok s →
  ∃ pairs, pest_parse input = Ok pairs ∧ parse_pairs pairs [] ∅ = Ok (schema_types s).
Proof. unfold parse_schema. intros H. inv_result. eauto. Qed.

Lemma parse_schema_wf' pest_parse input s :
  parse_schema pest_parse input = Ok s → wf_schema s.
Proof.
  intros (pairs & _ & H)%parse_schema_Ok. destruct s as [types].
  apply (parse_pairs_inv pairs [] ∅); [done| |done]. split; constructor.
Qed.
