(* ===== verification/ParserSpec.v ===== *)
(** * The parser against the grammar

    The text and the parse tree of a schema, the shape [schema/grammar.pest]
    gives to every tree pest returns, and the properties of [parse_schema]:
    well-formedness of its results, the round trip from a schema through its
    tree, and where its errors come from. *)
From stdpp Require Import base tactics list strings sets gmap.
From S2P Require Import Prelude Schema Parser.

(** ** Rendering a schema and its parse tree

    [text_*] is the DSL text of a construct, [tree_*] the pair pest returns
    for it. *)

Definition ident (s : string) : Pair := mk_Pair R_identifier s [].

Definition text_term (r : RewriteRule) : string :=
  match r with This n => n | Arrow t c => t +:+ "->" +:+ c | _ => "" end.

Definition tree_term (r : RewriteRule) : Pair :=
  mk_Pair R_permission_term (text_term r)
    match r with
    | Arrow t c => [mk_Pair R_arrow_expr (text_term r) [ident t; ident c]]
    | _ => [ident (text_term r)]
    end.

Definition text_op (op : Rule) : string :=
  match op with R_union_op => "+" | R_intersection_op => "&" | _ => "-" end.

Definition tree_op (op : Rule) : Pair := mk_Pair op (text_op op) [].

(** The operator of a rule and its operands. *)
Definition rule_operator (r : RewriteRule) : Rule :=
  match r with Union _ => R_union_op | Intersection _ => R_intersection_op | _ => R_exclusion_op end.

Definition rule_operands (r : RewriteRule) : list RewriteRule :=
  match r with
  | Union cs | Intersection cs => cs
  | Exclusion b e => [b; e]
  | _ => [r]
  end.

Definition tree_operands (op : Rule) (rs : list RewriteRule) : list Pair :=
  match rs with
  | [] => []
  | r :: rs' => tree_term r :: (rs' ≫= λ r, [tree_op op; tree_term r])
  end.

Definition text_rule (r : RewriteRule) : string :=
  String.concat (" " +:+ text_op (rule_operator r) +:+ " ") (text_term <$> rule_operands r).

Definition tree_rule (r : RewriteRule) : Pair :=
  mk_Pair R_permission_expr (text_rule r) (tree_operands (rule_operator r) (rule_operands r)).

Definition text_subject_type (s : SubjectTypeRef) : string :=
  st_type_name s +:+ match st_relation s with Some r => "#" +:+ r | None => "" end.

Definition tree_subject_type (s : SubjectTypeRef) : Pair :=
  mk_Pair R_subject_type_ref (text_subject_type s)
    (ident (st_type_name s) :: match st_relation s with Some r => [ident r] | None => [] end).

Definition text_subject_types (l : list SubjectTypeRef) : string :=
  String.concat " | " (text_subject_type <$> l).

Definition tree_relation (r : RelationDef) : Pair :=
  mk_Pair R_relation_def
    ("relation " +:+ rel_name r +:+ ": " +:+ text_subject_types (rel_subject_types r))
    [ident (rel_name r);
     mk_Pair R_subject_type_list (text_subject_types (rel_subject_types r))
       (tree_subject_type <$> rel_subject_types r)].

Definition tree_permission (p : PermissionDef) : Pair :=
  mk_Pair R_permission_def ("permission " +:+ perm_name p +:+ " = " +:+ text_rule (perm_rule p))
    [ident (perm_name p); tree_rule (perm_rule p)].

Definition tree_body (td : TypeDefinition) : list Pair :=
  (tree_relation <$> type_relations td) ++ (tree_permission <$> type_permissions td).

Definition text_body (td : TypeDefinition) : string :=
  String.concat " " (as_str <$> tree_body td).

Definition tree_definition (td : TypeDefinition) : Pair :=
  mk_Pair R_definition ("definition " +:+ type_name td +:+ " { " +:+ text_body td +:+ " }")
    [ident (type_name td); mk_Pair R_definition_body (text_body td) (tree_body td)].

Definition text_schema (s : Schema) : string :=
  String.concat " " (as_str <$> (tree_definition <$> schema_types s)).

(** What pest returns for the text of [s]. *)
Definition tree_schema (s : Schema) : list Pair :=
  [mk_Pair R_schema (text_schema s)
     ((tree_definition <$> schema_types s) ++ [mk_Pair R_EOI "" []])].

(** ** The shape of a tree of the grammar, production by production *)

Definition is_identifier (p : Pair) : Prop := as_rule p = R_identifier.

(** [arrow_expr = { identifier ~ "->" ~ identifier }] *)
Definition is_arrow_expr (p : Pair) : Prop :=
  as_rule p = R_arrow_expr ∧
  ∃ a b, into_inner p = [a; b] ∧ is_identifier a ∧ is_identifier b.

(** [permission_term = { arrow_expr | identifier }] *)
Definition is_permission_term (p : Pair) : Prop :=
  as_rule p = R_permission_term ∧
  ∃ a, into_inner p = [a] ∧ (is_arrow_expr a ∨ is_identifier a).

Definition is_permission_op (p : Pair) : Prop :=
  as_rule p ∈ [R_union_op; R_intersection_op; R_exclusion_op].

(** [(permission_op ~ permission_term)*] *)
Inductive ops_terms : list Pair → Prop :=
| ops_terms_nil : ops_terms []
| ops_terms_cons op t rest :
    is_permission_op op → is_permission_term t → ops_terms rest → ops_terms (op :: t :: rest).

(** [permission_expr = { permission_term ~ (permission_op ~ permission_term)* }] *)
Definition is_permission_expr (p : Pair) : Prop :=
  as_rule p = R_permission_expr ∧
  ∃ t rest, into_inner p = t :: rest ∧ is_permission_term t ∧ ops_terms rest.

(** [permission_def = { "permission" ~ identifier ~ "=" ~ permission_expr }] *)
Definition is_permission_def (p : Pair) : Prop :=
  as_rule p = R_permission_def ∧
  ∃ a e, into_inner p = [a; e] ∧ is_identifier a ∧ is_permission_expr e.

(** [subject_type_ref = { identifier ~ ("#" ~ identifier)? }] *)
Definition is_subject_type_ref (p : Pair) : Prop :=
  as_rule p = R_subject_type_ref ∧
  ∃ a rest, into_inner p = a :: rest ∧ is_identifier a ∧ Forall is_identifier rest ∧ length rest ≤ 1.

(** [subject_type_list = { subject_type_ref ~ ("|" ~ subject_type_ref)* }] *)
Definition is_subject_type_list (p : Pair) : Prop :=
  as_rule p = R_subject_type_list ∧ into_inner p ≠ [] ∧ Forall is_subject_type_ref (into_inner p).

(** [relation_def = { "relation" ~ identifier ~ ":" ~ subject_type_list }] *)
Definition is_relation_def (p : Pair) : Prop :=
  as_rule p = R_relation_def ∧
  ∃ a l, into_inner p = [a; l] ∧ is_identifier a ∧ is_subject_type_list l.

(** [definition_body = { (relation_def | permission_def)* }] *)
Definition is_definition_body (p : Pair) : Prop :=
  as_rule p = R_definition_body ∧
  Forall (λ q, is_relation_def q ∨ is_permission_def q) (into_inner p).

(** [definition = { "definition" ~ identifier ~ "{" ~ definition_body ~ "}" }] *)
Definition is_definition (p : Pair) : Prop :=
  as_rule p = R_definition ∧
  ∃ a b, into_inner p = [a; b] ∧ is_identifier a ∧ is_definition_body b.

(** [schema = { SOI ~ definition* ~ EOI }], parsed from the rule [schema] *)
Definition is_schema_output (pairs : list Pair) : Prop :=
  ∃ txt ds eoi, pairs = [mk_Pair R_schema txt (ds ++ [eoi])] ∧
    Forall is_definition ds ∧ as_rule eoi = R_EOI.

(** ** Parsing the tree of a schema gives the schema back *)

Lemma parse_tree_term r : is_term r → parse_permission_term (tree_term r) = Ok r.
Proof. by destruct r. Qed.

Lemma parse_tree_operands op rs :
  Forall is_term rs →
  parse_ops_and_terms (rs ≫= λ r, [tree_op op; tree_term r]) = Ok ((op,.) <$> rs).
Proof.
  induction 1 as [|r rs Hr _ IH]; [done|]. rewrite bind_cons. simpl.
  by rewrite parse_tree_term, IH by done.
Qed.

Lemma existsb_same_op (op : Rule) (rs : list RewriteRule) :
  existsb (λ '(o, _), negb (bool_decide (o = op))) ((op,.) <$> rs) = false.
Proof. induction rs as [|r rs IH]; simpl; [done|]. by rewrite bool_decide_eq_true_2. Qed.

Lemma flat_rule_operands r :
  flat_rule r → ∃ r1 rs, rule_operands r = r1 :: rs ∧ is_term r1 ∧ Forall is_term rs.
Proof.
  intros Hr. destruct r as [n|cs|cs|b e|t c]; simpl in *; [eauto| | |naive_solver|eauto].
  all: destruct Hr as [Hlen Hcs], cs as [|c cs]; simpl in Hlen; [lia|].
  all: apply Forall_cons in Hcs; naive_solver.
Qed.

(** The pairs of the operands of a rule, whatever their text. *)
Lemma parse_operands r r1 rs txt p inner :
  flat_rule r → rule_operands r = r1 :: rs → parse_permission_term p = Ok r1 →
  parse_ops_and_terms inner = Ok ((rule_operator r,.) <$> rs) →
  parse_permission_expr (mk_Pair R_permission_expr txt (p :: inner)) = Ok r.
Proof.
  assert (Hsnd : ∀ (o : Rule) (l : list RewriteRule), ((o,.) <$> l).*2 = l).
  { intros o l. rewrite <-list_fmap_compose. apply list_fmap_id. }
  intros Hflat Hops Hp Hinner. unfold parse_permission_expr. cbn [into_inner next_or try].
  rewrite Hp, Hinner. cbn [try].
  destruct r as [n|cs|cs|b e|t c]; simpl in *; simplify_eq/=; try done.
  all: destruct Hflat as [Hlen _], rs as [|r2 rs]; simpl in Hlen; [lia|].
  all: rewrite !fmap_cons; cbn [rule_operator]; rewrite <-!fmap_cons, existsb_same_op.
  all: by rewrite fmap_cons; cbn [fmap list_fmap snd]; rewrite Hsnd.
Qed.

Lemma parse_tree_rule r : flat_rule r → parse_permission_expr (tree_rule r) = Ok r.
Proof.
  intros Hr. unfold tree_rule.
  destruct (flat_rule_operands r Hr) as (r1&rs&Hrs&H1&Hall).
  rewrite Hrs. cbn [tree_operands].
  eapply parse_operands; [done|exact Hrs|by apply parse_tree_term|by apply parse_tree_operands].
Qed.

Lemma parse_tree_relation r : parse_relation_def (tree_relation r) = Ok r.
Proof.
  unfold parse_relation_def. simpl.
  assert (collect_results parse_subject_type_ref (tree_subject_type <$> rel_subject_types r)
    = Ok (rel_subject_types r)) as ->.
  { induction (rel_subject_types r) as [|[n [o|]] l IH]; [done|..];
    rewrite fmap_cons; cbn [collect_results]; by rewrite IH. }
  by destruct r.
Qed.

Lemma parse_tree_permission p :
  flat_rule (perm_rule p) → parse_permission_def (tree_permission p) = Ok p.
Proof.
  intros Hp. unfold parse_permission_def. cbn [tree_permission into_inner next_or try].
  rewrite parse_tree_rule by done. by destruct p.
Qed.

(** *** Bodies

    A body may mix relations and permissions; each kind keeps its order. *)
Abbreviation body_item := (RelationDef + PermissionDef)%type.

Definition item_relations (xs : list body_item) : list RelationDef :=
  omap (λ x, match x with inl r => Some r | inr _ => None end) xs.
Definition item_permissions (xs : list body_item) : list PermissionDef :=
  omap (λ x, match x with inl _ => None | inr p => Some p end) xs.

(** A pair the walk takes to an item. *)
Definition item_parses (p : Pair) (x : body_item) : Prop :=
  match x with
  | inl r => as_rule p = R_relation_def ∧ parse_relation_def p = Ok r
  | inr q => as_rule p = R_permission_def ∧ parse_permission_def p = Ok q
  end.

Definition type_items (td : TypeDefinition) : list body_item :=
  (inl <$> type_relations td) ++ (inr <$> type_permissions td).

Lemma type_items_relations td : item_relations (type_items td) = type_relations td.
Proof.
  unfold item_relations, type_items. rewrite omap_app.
  rewrite <-(app_nil_r (type_relations td)) at 2. f_equal.
  - by induction (type_relations td) as [|r rs IH]; [|simpl; f_equal].
  - by induction (type_permissions td).
Qed.

Lemma type_items_permissions td : item_permissions (type_items td) = type_permissions td.
Proof.
  unfold item_permissions, type_items. rewrite omap_app.
  rewrite <-(app_nil_l (type_permissions td)) at 2. f_equal.
  - by induction (type_relations td).
  - by induction (type_permissions td) as [|p ps IH]; [|simpl; f_equal].
Qed.

Lemma fresh_name {A} (f : A → string) x l l' :
  NoDup (f <$> l ++ x :: l') → f x ∉@{gset string} list_to_set (f <$> l).
Proof.
  rewrite elem_of_list_to_set, fmap_app, fmap_cons, NoDup_app. intros (_ & H & _) Hx. set_solver.
Qed.

(** The body loop collects what is new, in order. *)
Lemma parse_body_new name items xs rels perms :
  Forall2 item_parses items xs →
  NoDup (rel_name <$> rels ++ item_relations xs) → NoDup (perm_name <$> perms ++ item_permissions xs) →
  parse_body_items name items rels perms (list_to_set (rel_name <$> rels)) (list_to_set (perm_name <$> perms)) =
  Ok (rels ++ item_relations xs, perms ++ item_permissions xs).
Proof.
  intros Hxs. revert rels perms.
  induction Hxs as [|p [r|q] items xs [Hrule Hp] _ IH]; intros rels perms Hr Hq; [by rewrite !app_nil_r| |];
    cbn [parse_body_items]; rewrite Hrule, Hp; cbn [try].
  - rewrite bool_decide_eq_false_2 by by eapply fresh_name.
    change (item_relations (inl r :: xs)) with ([r] ++ item_relations xs) in *.
    rewrite app_assoc in Hr |- *. rewrite <-IH by done. f_equal. rewrite fmap_app. set_solver.
  - rewrite bool_decide_eq_false_2 by by eapply fresh_name.
    change (item_permissions (inr q :: xs)) with ([q] ++ item_permissions xs) in *.
    rewrite app_assoc in Hq |- *. rewrite <-IH by done. f_equal. rewrite fmap_app. set_solver.
Qed.

(** A definition pair from the pairs of its body, whatever their text. *)
Lemma parse_definition_of name txt btxt items xs :
  NoDup (rel_name <$> item_relations xs) → NoDup (perm_name <$> item_permissions xs) →
  Forall2 item_parses items xs →
  parse_definition (mk_Pair R_definition txt [ident name; mk_Pair R_definition_body btxt items]) =
  Ok (mk_TypeDefinition name (item_relations xs) (item_permissions xs)).
Proof.
  intros Hr Hp Hxs. unfold parse_definition. cbn [into_inner next_or try ident as_str].
  by rewrite (parse_body_new _ _ xs [] []).
Qed.

Lemma parse_tree_definition td : wf_type td → parse_definition (tree_definition td) = Ok td.
Proof.
  intros [Hr Hp Hf]. pose proof (type_items_relations td) as Er. pose proof (type_items_permissions td) as Ep.
  unfold tree_definition. rewrite (parse_definition_of _ _ _ _ (type_items td)); rewrite ?Er, ?Ep; [by destruct td|done..|].
  unfold tree_body, type_items. apply Forall2_app; apply Forall2_fmap, Forall_Forall2_diag, Forall_forall.
  - intros r _. split; [done|apply parse_tree_relation].
  - intros p Hin. split; [done|apply parse_tree_permission]. by eapply Forall_forall in Hf.
Qed.

Lemma parse_definitions_new items tds rest types seen :
  Forall2 (λ p td, as_rule p = R_definition ∧ parse_definition p = Ok td) items tds →
  seen = list_to_set (type_name <$> types) → NoDup (type_name <$> (types ++ tds)) →
  parse_definitions (items ++ rest) types seen =
  parse_definitions rest (types ++ tds) (list_to_set (type_name <$> (types ++ tds))).
Proof.
  intros Htds. revert types seen.
  induction Htds as [|p td items tds [Hrule Hp] _ IH]; intros types seen -> Hnd; [by rewrite app_nil_r|].
  rewrite (cons_middle td types tds), app_assoc in Hnd |- *. cbn [app parse_definitions].
  rewrite Hp, bool_decide_eq_true_2 by done. cbn [try].
  rewrite bool_decide_eq_false_2 by (rewrite <-app_assoc in Hnd; by eapply fresh_name).
  apply IH; [rewrite fmap_app; set_solver|done].
Qed.

(** The pairs of the definitions of a schema, whatever their text. *)
Lemma parse_pairs_of s txt items eoi :
  wf_schema s → Forall2 (λ p td, as_rule p = R_definition ∧ parse_definition p = Ok td) items (schema_types s) →
  as_rule eoi = R_EOI →
  parse_pairs [mk_Pair R_schema txt (items ++ [eoi])] [] ∅ = Ok (schema_types s).
Proof.
  intros [Hu _] Hitems Heoi. cbn [parse_pairs as_rule into_inner]. rewrite bool_decide_eq_true_2 by done.
  rewrite (parse_definitions_new _ (schema_types s) _ []) by done. cbn [parse_definitions app try].
  by rewrite Heoi.
Qed.

Lemma parse_tree_schema s : wf_schema s → parse_pairs (tree_schema s) [] ∅ = Ok (schema_types s).
Proof.
  intros Hwf. apply parse_pairs_of; [done| |done]. apply Forall2_fmap_l, Forall_Forall2_diag, Forall_forall.
  intros td Htd. split; [done|]. apply parse_tree_definition.
  pose proof (wf_types _ Hwf) as Hw. rewrite Forall_forall in Hw. by apply Hw.
Qed.

(** ** On trees of the grammar the walk never reports a syntax error *)

Definition no_syntax_error {A} (r : result ParseError A) : Prop := ∀ m, r ≠ Err (Syntax m).

Lemma no_syntax_try {A B} (r : result ParseError A) (k : A → result ParseError B) :
  no_syntax_error r → (∀ a, r = Ok a → no_syntax_error (k a)) → no_syntax_error (try r k).
Proof. intros Hr Hk m [?|(a & ? & ?)]%try_Err; [by eapply Hr|by eapply Hk]. Qed.

Lemma no_syntax_Ok {A} (a : A) : no_syntax_error (Ok a).
Proof. done. Qed.

#[local] Hint Resolve no_syntax_Ok : kz.

Lemma grammar_term p : is_permission_term p → ∃ r, parse_permission_term p = Ok r.
Proof.
  unfold parse_permission_term. intros (_ & a & -> & [(Ha & t & c & Hac & _)|Ha]);
    cbn [next_or try]; rewrite Ha; [rewrite Hac|]; eauto.
Qed.

Lemma grammar_ops_terms inner :
  ops_terms inner → ∃ ots, parse_ops_and_terms inner = Ok ots ∧
    Forall (λ ot, ot.1 ∈ [R_union_op; R_intersection_op; R_exclusion_op]) ots.
Proof.
  induction 1 as [|op t rest Hop (r & Hr)%grammar_term _ (ots & IH & Hots)]; simpl; [eauto|].
  rewrite Hr, IH. eauto.
Qed.

Lemma grammar_expr p : is_permission_expr p → no_syntax_error (parse_permission_expr p).
Proof.
  unfold parse_permission_expr.
  intros (_ & t & rest & -> & (r & Hr)%grammar_term & (ots & Hots & Hops)%grammar_ops_terms).
  cbn [next_or try]. rewrite Hr, Hots. cbn [try].
  destruct ots as [|[op t'] ots]; [done|]. apply Forall_cons in Hops as [Hop _]. simpl in Hop.
  rewrite !elem_of_cons, elem_of_nil in Hop.
  destruct (existsb _ _); [done|]. destruct Hop as [->|[->|[->|[]]]]; [done..|]. by case_match.
Qed.

Lemma grammar_permission p : is_permission_def p → no_syntax_error (parse_permission_def p).
Proof.
  unfold parse_permission_def. intros (_ & a & e & -> & _ & He). cbn [next_or try].
  apply no_syntax_try; [by apply grammar_expr|by eauto with kz].
Qed.

Lemma grammar_relation p : is_relation_def p → ∃ r, parse_relation_def p = Ok r.
Proof.
  unfold parse_relation_def. intros (_ & a & l & -> & _ & (_ & _ & Hl)). cbn [next_or try].
  assert (∃ ts, collect_results parse_subject_type_ref (into_inner l) = Ok ts) as [ts ->]; [|eauto].
  induction Hl as [|q qs (_ & b & rest & Hq & _) _ [ts IH]]; simpl; [eauto|].
  unfold parse_subject_type_ref at 1. rewrite Hq. simpl. rewrite IH. eauto.
Qed.

Lemma grammar_body name items rels perms sr sp :
  Forall (λ q, is_relation_def q ∨ is_permission_def q) items →
  no_syntax_error (parse_body_items name items rels perms sr sp).
Proof.
  intros Hitems. revert rels perms sr sp.
  induction Hitems as [|q items Hq _ IH]; intros rels perms sr sp; simpl; [done|].
  destruct Hq as [Hq|Hq]; rewrite (proj1 Hq).
  - destruct (grammar_relation q Hq) as [r ->]. simpl. by case_bool_decide.
  - apply no_syntax_try; [by apply grammar_permission|]. intros. by case_bool_decide.
Qed.

Lemma grammar_definition p : is_definition p → no_syntax_error (parse_definition p).
Proof.
  unfold parse_definition. intros (_ & a & b & -> & _ & (_ & Hb)). cbn [next_or try].
  apply no_syntax_try; [by apply grammar_body|]. by intros [].
Qed.

Lemma grammar_definitions ds eoi types seen :
  Forall is_definition ds → as_rule eoi = R_EOI →
  no_syntax_error (parse_definitions (ds ++ [eoi]) types seen).
Proof.
  intros Hds Heoi. revert types seen. induction Hds as [|d ds Hd _ IH]; intros types seen; simpl.
  - rewrite Heoi. by rewrite bool_decide_eq_false_2.
  - rewrite bool_decide_eq_true_2 by apply Hd.
    apply no_syntax_try; [by apply grammar_definition|]. intros. by case_bool_decide.
Qed.

Lemma grammar_schema pairs : is_schema_output pairs → no_syntax_error (parse_pairs pairs [] ∅).
Proof.
  intros (txt & ds & eoi & -> & Hds & Heoi). cbn [parse_pairs as_rule into_inner].
  rewrite bool_decide_eq_true_2 by done.
  apply no_syntax_try; [by apply grammar_definitions|]. by intros [].
Qed.

(** ** The tree of a renderable schema has the shape of the grammar *)

Definition renderable (s : Schema) : Prop :=
  wf_schema s ∧
  Forall (λ td, Forall (λ r, rel_subject_types r ≠ []) (type_relations td)) (schema_types s).

Lemma shape_term r : is_term r → is_permission_term (tree_term r).
Proof.
  intros Hr. split; [done|]. destruct r; try done; eexists; (split; [done|]); [by right|].
  left. split; [done|]. by eexists _, _.
Qed.

Lemma shape_ops_terms op rs :
  op ∈ [R_union_op; R_intersection_op; R_exclusion_op] → Forall is_term rs →
  ops_terms (rs ≫= λ r, [tree_op op; tree_term r]).
Proof.
  intros Hop. induction 1 as [|r rs Hr _ IH]; [constructor|]. rewrite bind_cons.
  constructor; [done|by apply shape_term|done].
Qed.

Lemma shape_rule r : flat_rule r → is_permission_expr (tree_rule r).
Proof.
  intros Hr. split; [done|].
  destruct (flat_rule_operands r Hr) as (r1&rs&Hrs&H1&Hall).
  cbn [tree_rule into_inner]. rewrite Hrs. eexists _, _. split_and!; [done|by apply shape_term|].
  apply shape_ops_terms; [|done]. destruct r; set_solver.
Qed.

Lemma shape_relation r : rel_subject_types r ≠ [] → is_relation_def (tree_relation r).
Proof.
  intros Hr. split; [done|]. eexists _, _. split_and!; [done..|].
  split_and!; [done| |]; cbn [into_inner].
  - by destruct (rel_subject_types r).
  - apply Forall_fmap, Forall_true. intros st. split; [done|]. eexists _, _. split_and!; [done..| |];
      by destruct (st_relation st); repeat constructor.
Qed.

Lemma tree_schema_shape s : renderable s → is_schema_output (tree_schema s).
Proof.
  intros [[_ Hw] Hn]. eexists _, _, _. split_and!; [done| |done].
  apply Forall_fmap, Forall_forall. intros td Htd. rewrite Forall_forall in Hw, Hn.
  destruct (Hw td Htd) as [_ _ Hf]. specialize (Hn td Htd).
  split; [done|]. eexists _, _. split_and!; [done..|]. split; [done|].
  apply Forall_app; split; apply Forall_fmap; eapply Forall_impl; try done; simpl.
  - intros r Hr. left. by apply shape_relation.
  - intros q Hq. right. split; [done|]. eexists _, _. split_and!; [done..|by apply shape_rule].
Qed.

(** ** Properties *)

(** C31: whatever the text, a schema that [parse_schema] returns has unique type
    names, unique relation and unique permission names in every type, and only
    rules with a single operator: at least two operands under a union or an
    intersection, exactly two under an exclusion. *)
Theorem parse_schema_well_formed pest_parse input s :
  parse_schema pest_parse input = Ok s → wf_schema s.
Proof. apply parse_schema_wf'. Qed.

(** parsing is a left inverse of rendering: whenever pest returns for a
    text the tree of a well-formed schema, [parse_schema] returns exactly that
    schema (all names, orders, subject types and rules included). *)
Theorem parse_schema_roundtrip pest_parse input s :
  wf_schema s → pest_parse input = Ok (tree_schema s) → parse_schema pest_parse input = Ok s.
Proof.
  intros Hs Hp. unfold parse_schema. rewrite Hp. cbn [map_err try].
  rewrite parse_tree_schema by done. by destruct s.
Qed.

(** when pest's successful outputs have the shape of the grammar, the
    "missing token" and "unexpected rule" branches of the tree walk are dead:
    a [Syntax] error of [parse_schema] is the error of pest itself. *)
Theorem parse_schema_syntax_error_from_pest pest_parse input m :
  (∀ text pairs, pest_parse text = Ok pairs → is_schema_output pairs) →
  parse_schema pest_parse input = Err (Syntax m) → pest_parse input = Err m.
Proof.
  intros Hshape H. unfold parse_schema in H. destruct (pest_parse input) as [pairs|e] eqn:Hp.
  - apply Hshape, grammar_schema in Hp. simpl in H. apply try_Err in H as [H|(? & ? & ?)]; [|done].
    by apply Hp in H.
  - by inversion H.
Qed.

(** *** Witnesses *)

(** A schema in the style of the examples of the README. *)
Definition demo_schema : Schema :=
  mk_Schema
    [mk_TypeDefinition "user" [] [];
     mk_TypeDefinition "category" [mk_RelationDef "viewer" [mk_SubjectTypeRef "user" None]]
       [mk_PermissionDef "can_view" (This "viewer")];
     mk_TypeDefinition "object"
       [mk_RelationDef "parent" [mk_SubjectTypeRef "category" None];
        mk_RelationDef "viewer" [mk_SubjectTypeRef "user" None; mk_SubjectTypeRef "group" (Some "member")];
        mk_RelationDef "banned" [mk_SubjectTypeRef "user" None]]
       [mk_PermissionDef "can_view" (Union [This "viewer"; Arrow "parent" "can_view"]);
        mk_PermissionDef "can_edit" (Exclusion (This "viewer") (This "banned"))]].

(** A pest that knows one text. *)
Definition demo_pest : pest_parser := λ text,
  if bool_decide (text = text_schema demo_schema) then Ok (tree_schema demo_schema)
  else Err "expected definition".

Lemma demo_renderable : renderable demo_schema.
Proof.
  split; [split; [by apply (bool_decide_unpack _); vm_compute|]|].
  - repeat constructor; by (apply (bool_decide_unpack _); vm_compute).
  - repeat constructor; done.
Qed.

Lemma parse_schema_well_formed_witness :
  parse_schema demo_pest (text_schema demo_schema) = Ok demo_schema ∧ wf_schema demo_schema.
Proof.
  assert (H : parse_schema demo_pest (text_schema demo_schema) = Ok demo_schema) by by vm_compute.
  exact (conj H (parse_schema_well_formed _ _ _ H)).
Defined.

Lemma parse_schema_roundtrip_witness :
  parse_schema demo_pest (text_schema demo_schema) = Ok demo_schema.
Proof.
  apply (parse_schema_roundtrip demo_pest (text_schema demo_schema) demo_schema).
  - exact (proj1 demo_renderable).
  - by vm_compute.
Defined.

Lemma parse_schema_syntax_error_from_pest_witness :
  demo_pest "not valid syntax at all" = Err "expected definition".
Proof.
  apply (parse_schema_syntax_error_from_pest demo_pest).
  - intros text pairs. unfold demo_pest. case_bool_decide; intros [= <-].
    apply tree_schema_shape, demo_renderable.
  - by vm_compute.
Defined.
