(* ===== verification/Numbers.v ===== *)
(** * Strings and numbers of the standard library

    [str::parse] for the unsigned integer types, [Display] of the same (stdpp's
    [pretty]), [splitn], [strip_prefix]. *)
From Stdlib Require Import Ascii.
From stdpp Require Import base tactics list strings sets pretty.
From S2P Require Import Prelude.

(** ** [str::parse::<uN>] *)

Definition digit_value (c : Ascii.ascii) : option Z :=
  let n := Z.of_N (Ascii.N_of_ascii c) in
  if (48 <=? n)%Z && (n <=? 57)%Z then Some (n - 48)%Z else None.

Fixpoint digits_value (acc : Z) (s : string) : option Z :=
  match s with
  | EmptyString => Some acc
  | String c s' => d ← digit_value c; digits_value (acc * 10 + d)%Z s'
  end.

(** An optional sign [+], at least one digit, and no overflow past [max]. *)
Definition parse_uint (max : Z) (s : string) : option Z :=
  let digits := match s with
                | String c s' => if bool_decide (c = "+"%char) then s' else s
                | EmptyString => s
                end in
  if bool_decide (digits = EmptyString) then None
  else v ← digits_value 0 digits; if (v <=? max)%Z then Some v else None.

Definition parse_u64 : string → option Z := parse_uint u64_max.
Definition parse_u32 : string → option Z := parse_uint (2 ^ 32 - 1).
Definition parse_u16 : string → option Z := parse_uint (2 ^ 16 - 1).

Lemma digit_value_char d : (d < 10)%N → digit_value (pretty_N_char d) = Some (Z.of_N d).
Proof.
  intros Hd. assert (d ∈ [0;1;2;3;4;5;6;7;8;9]%N) as Hin.
  { destruct d as [|p]; [set_solver|]. do 4 (try destruct p as [p|p|]); try lia; set_solver. }
  set_unfold in Hin. destruct_or? Hin; subst; done.
Qed.

Lemma digits_value_go x s acc :
  (0 ≤ acc)%Z →
  ∃ k, (0 ≤ k)%Z ∧ digits_value acc (pretty_N_go x s) = digits_value (acc * 10 ^ k + Z.of_N x) s.
Proof.
  revert s acc. induction (N.lt_wf_0 x) as [x _ IH]. intros s acc Hacc.
  destruct (decide (x = 0)%N) as [->|Hx].
  { exists 0%Z. rewrite pretty_N_go_0. split; [done|]. f_equal. lia. }
  rewrite pretty_N_go_step by lia.
  destruct (IH (x `div` 10)%N) with (s := String (pretty_N_char (x `mod` 10)) s) (acc := acc)
    as (k & Hk & ->); [apply N.div_lt; lia|done|].
  exists (k + 1)%Z. split; [lia|]. cbn [digits_value].
  rewrite digit_value_char by (apply N.mod_lt; lia). simpl. f_equal.
  rewrite Z.pow_add_r, (N2Z.inj_mod x 10), (N2Z.inj_div x 10) by lia.
  pose proof (Z.div_mod (Z.of_N x) 10 ltac:(lia)). simpl. lia.
Qed.

Lemma pretty_N_go_nonempty x s : s ≠ EmptyString → pretty_N_go x s ≠ EmptyString.
Proof.
  revert s. induction (N.lt_wf_0 x) as [x _ IH]. intros s Hs.
  destruct (decide (x = 0)%N) as [->|Hx]; [by rewrite pretty_N_go_0|].
  rewrite pretty_N_go_step by lia. apply IH; [apply N.div_lt; lia|done].
Qed.

Lemma digits_value_head s acc v : digits_value acc s = Some v → ∀ c s', s = String c s' → c ≠ "+"%char.
Proof. intros H c s' -> ->. done. Qed.

(** Printing and parsing are inverse. *)
Lemma parse_uint_pretty max n : (0 ≤ n ≤ max)%Z → parse_uint max (pretty n) = Some n.
Proof.
  intros Hn. assert (∃ s, pretty n = s ∧ s ≠ EmptyString ∧ digits_value 0 s = Some n) as (s & -> & Hne & Hs).
  { destruct n as [|p|p]; [by exists "0"| |lia].
    exists (pretty_N_go (Npos p) EmptyString). split_and!.
    - done.
    - rewrite pretty_N_go_step by lia. by apply pretty_N_go_nonempty.
    - destruct (digits_value_go (Npos p) EmptyString 0) as (k & _ & ->); [done|]. simpl. done. }
  unfold parse_uint. destruct s as [|c s]; [done|].
  rewrite (bool_decide_false (c = "+"%char)) by (by eapply digits_value_head).
  rewrite bool_decide_false by done. rewrite Hs. simpl.
  by rewrite (proj2 (Z.leb_le n max)) by lia.
Qed.

Lemma digits_value_nonneg s acc v : (0 ≤ acc)%Z → digits_value acc s = Some v → (0 ≤ v)%Z.
Proof.
  revert acc. induction s as [|c s IH]; intros acc Hacc; simpl; [by intros [= <-]|].
  intros (d & Hd & Hv)%bind_Some. eapply IH; [|exact Hv]. unfold digit_value in Hd.
  destruct (_ && _) eqn:Hc; [|done]. apply andb_true_iff in Hc as [Hc _]. apply Z.leb_le in Hc.
  simplify_eq. lia.
Qed.

Lemma parse_uint_range max s v : parse_uint max s = Some v → (0 ≤ v ≤ max)%Z.
Proof.
  unfold parse_uint. destruct (bool_decide _); [done|]. intros (v' & Hv & H)%bind_Some.
  apply digits_value_nonneg in Hv; [|done]. destruct (Z.leb_spec v' max); simplify_eq. done.
Qed.

(** ** [splitn] *)

(** The parts before and after the first [c]. *)
Fixpoint split_first (c : Ascii.ascii) (s : string) : option (string * string) :=
  match s with
  | EmptyString => None
  | String c' s' =>
      if bool_decide (c' = c) then Some (EmptyString, s')
      else '(a, b) ← split_first c s'; Some (String c' a, b)
  end.

(** [s.splitn(n, c).collect()] *)
Fixpoint splitn (n : nat) (c : Ascii.ascii) (s : string) : list string :=
  match n with
  | 0 => []
  | 1 => [s]
  | S n' =>
      match split_first c s with
      | Some (a, b) => a :: splitn n' c b
      | None => [s]
      end
  end.

Fixpoint has_char (c : Ascii.ascii) (s : string) : bool :=
  match s with
  | EmptyString => false
  | String c' s' => bool_decide (c' = c) || has_char c s'
  end.

Lemma split_first_Some c s a b :
  split_first c s = Some (a, b) ↔ s = a +:+ String c b ∧ has_char c a = false.
Proof.
  revert a. induction s as [|c' s IH]; intros a; simpl.
  { split; [done|]. intros [H _]. by destruct a. }
  case_bool_decide as Hc.
  - subst. split; [by intros [= <- <-]|]. intros [H Ha]. destruct a as [|c'' a].
    + by injection H as ->.
    + injection H as <- _. simpl in Ha. by rewrite bool_decide_true in Ha.
  - split.
    + intros ([a' b'] & Hs & [= <- <-])%bind_Some. apply IH in Hs as [-> Ha]. simpl.
      by rewrite bool_decide_false.
    + intros [H Ha]. destruct a as [|c'' a]; [by injection H as ->|]. injection H as <- Hs.
      simpl in Ha. rewrite bool_decide_false in Ha by done. simpl in Ha.
      by rewrite (proj2 (IH a)).
Qed.

(** ** [strip_prefix] *)

Fixpoint strip_prefix (p s : string) : option string :=
  match p, s with
  | EmptyString, _ => Some s
  | String c p', String c' s' => if bool_decide (c = c') then strip_prefix p' s' else None
  | String _ _, EmptyString => None
  end.

Lemma strip_prefix_Some p s r : strip_prefix p s = Some r ↔ s = p +:+ r.
Proof.
  revert s. induction p as [|c p IH]; intros s; simpl; [naive_solver|].
  destruct s as [|c' s]; [done|]. case_bool_decide as Hc; [subst|].
  - rewrite IH. split; [by intros ->|by intros [= ->]].
  - split; [done|]. intros [= ->]. done.
Qed.
