(* ===== verification/Grammar.v ===== *)
(** * The grammar of the schema language ([schema/grammar.pest])

    The rules of [grammar.pest], one definition each, as parsers of the
    expressions pest documents: ordered choice, greedy repetition, lookahead,
    and between the parts of a rule that is not atomic the implicit
    [WHITESPACE] and [COMMENT].  [pest_follows] says that the parser pest
    generates from the file is this one; the theorems of [GrammarTheorems]
    assume no more of it. *)
From Stdlib Require Import Ascii.
From stdpp Require Import base tactics list strings.
From S2P Require Import Prelude Numbers Schema Parser.

(** ** Expressions

    A parser takes the text that is left to the pairs it produced and the rest
    of the text, or fails. *)
Definition peg := string → option (list Pair * string).

(** [{ "literal" }] *)
Definition lit (l : string) : peg := λ i, r ← strip_prefix l i; Some ([], r).

(** A built-in class of characters. *)
Definition chr (f : ascii → bool) : peg := λ i,
  match i with
  | String c r => if f c then Some ([], r) else None
  | EmptyString => None
  end.

(** A sequence inside an atomic rule. *)
Definition seq (p q : peg) : peg := λ i,
  '(a, r) ← p i; '(b, r') ← q r; Some (a ++ b, r').

(** [p | q] *)
Definition alt (p q : peg) : peg := λ i, match p i with Some x => Some x | None => q i end.

(** [p?] and [!p] *)
Definition opt (p : peg) : peg := λ i, match p i with Some x => Some x | None => Some ([], i) end.
Definition neg (p : peg) : peg := λ i, match p i with Some _ => None | None => Some ([], i) end.

(** [p*] inside an atomic rule: as often as [p] succeeds; the fuel is the
    length of the text, since [p] consumes. *)
Fixpoint rep (fuel : nat) (p : peg) (i : string) : list Pair * string :=
  match fuel with
  | 0 => ([], i)
  | S fuel =>
      match p i with
      | Some (a, r) => let '(b, r') := rep fuel p r in (a ++ b, r')
      | None => ([], i)
      end
  end.
Definition star (p : peg) : peg := λ i, Some (rep (S (String.length i)) p i).

(** The text between two positions. *)
Definition consumed (i r : string) : string := String.substring 0 (String.length i - String.length r) i.

(** A rule that produces a pair. *)
Definition rule (name : Rule) (p : peg) : peg := λ i,
  '(inner, r) ← p i; Some ([mk_Pair name (consumed i r) inner], r).

(** [SOI], at the only place the grammar has it, and [EOI] *)
Definition SOI : peg := λ i, Some ([], i).
Definition EOI : peg := λ i,
  match i with EmptyString => Some ([mk_Pair R_EOI EmptyString []], EmptyString) | _ => None end.
Definition ANY : peg := chr (λ _, true).

Definition in_range (lo hi : nat) (c : ascii) : bool :=
  (lo <=? nat_of_ascii c) && (nat_of_ascii c <=? hi).
Definition is_alpha (c : ascii) : bool := in_range 65 90 c || in_range 97 122 c.
Definition is_alphanumeric (c : ascii) : bool := is_alpha c || in_range 48 57 c.
Definition ASCII_ALPHA : peg := chr is_alpha.
Definition ASCII_ALPHANUMERIC : peg := chr is_alphanumeric.

Definition tab : string := String (ascii_of_nat 9) EmptyString.
Definition lf : string := String (ascii_of_nat 10) EmptyString.
Definition cr : string := String (ascii_of_nat 13) EmptyString.
Definition NEWLINE : peg := alt (lit lf) (alt (lit (cr +:+ lf)) (lit cr)).

(** ** The rules *)

Definition WHITESPACE : peg := alt (lit " ") (alt (lit tab) NEWLINE).
Definition COMMENT : peg := seq (lit "//") (star (seq (neg NEWLINE) ANY)).

(** What pest puts between the parts of a rule that is not atomic. *)
Definition skip : peg := seq (star WHITESPACE) (star (seq COMMENT (star WHITESPACE))).

(** [p ~ q] and [p*] in such a rule. *)
Notation "p ;~ q" := (seq p (seq skip q)) (at level 60, right associativity).
Definition many (p : peg) : peg := opt (seq p (star (seq skip p))).

Definition identifier : peg :=
  rule R_identifier (seq ASCII_ALPHA (star (alt ASCII_ALPHANUMERIC (lit "_")))).
Definition arrow_expr : peg := rule R_arrow_expr (identifier ;~ lit "->" ;~ identifier).
Definition permission_term : peg := rule R_permission_term (alt arrow_expr identifier).
Definition union_op : peg := rule R_union_op (lit "+").
Definition intersection_op : peg := rule R_intersection_op (lit "&").
Definition exclusion_op : peg := rule R_exclusion_op (lit "-").
Definition permission_op : peg := alt union_op (alt intersection_op exclusion_op).
Definition permission_expr : peg :=
  rule R_permission_expr (permission_term ;~ many (permission_op ;~ permission_term)).
Definition permission_def : peg :=
  rule R_permission_def (lit "permission" ;~ identifier ;~ lit "=" ;~ permission_expr).
Definition subject_type_ref : peg :=
  rule R_subject_type_ref (identifier ;~ opt (lit "#" ;~ identifier)).
Definition subject_type_list : peg :=
  rule R_subject_type_list (subject_type_ref ;~ many (lit "|" ;~ subject_type_ref)).
Definition relation_def : peg :=
  rule R_relation_def (lit "relation" ;~ identifier ;~ lit ":" ;~ subject_type_list).
Definition definition_body : peg := rule R_definition_body (many (alt relation_def permission_def)).
Definition definition : peg :=
  rule R_definition (lit "definition" ;~ identifier ;~ lit "{" ;~ definition_body ;~ lit "}").
Definition schema : peg := rule R_schema (SOI ;~ many definition ;~ EOI).

(** The pairs of a text of the language, [None] for any other text. *)
Definition grammar_parse (text : string) : option (list Pair) := fst <$> schema text.

(** A parser that pest may generate: it answers these pairs, or any message. *)
Definition pest_follows (pest_parse : pest_parser) : Prop := ∀ text,
  match grammar_parse text with
  | Some pairs => pest_parse text = Ok pairs
  | None => ∃ msg, pest_parse text = Err msg
  end.
