(* ===== verification/Peg.v ===== *)
(** * Expressions of the grammar: what they consume

    Repetition needs no more fuel than the text is long, which expressions
    consume, and what white space and comments become. *)
From Stdlib Require Import Ascii.
From stdpp Require Import base tactics list strings sets gmap.
From S2P Require Import Prelude Numbers Schema Parser ParserSpec Grammar.

(** ** Strings *)

Lemma string_app_assoc (x y z : string) : (x +:+ y) +:+ z = x +:+ (y +:+ z).
Proof. induction x as [|c x IH]; [done|]. change (String c ((x +:+ y) +:+ z) = String c (x +:+ (y +:+ z))). by rewrite IH. Qed.

Lemma string_app_nil (x : string) : x +:+ "" = x.
Proof. induction x as [|c x IH]; [done|]. change (String c (x +:+ "") = String c x). by rewrite IH. Qed.

Lemma string_app_length (x y : string) : String.length (x +:+ y) = String.length x + String.length y.
Proof. induction x as [|c x IH]; [done|]. change (S (String.length (x +:+ y)) = S (String.length x + String.length y)). by rewrite IH. Qed.

Lemma consumed_app x r : consumed (x +:+ r) r = x.
Proof.
  unfold consumed. rewrite string_app_length. replace (_ + _ - _) with (String.length x) by lia.
  induction x as [|c x IH]; [by destruct r|].
  change (String c (String.substring 0 (String.length x) (x +:+ r)) = String c x). by rewrite IH.
Qed.

Definition starts (f : ascii → bool) (i : string) : bool :=
  match i with String c _ => f c | EmptyString => false end.

(** ** Repetition *)

Definition advances (p : peg) : Prop := ∀ i a r, p i = Some (a, r) → String.length r < String.length i.
Definition no_grow (p : peg) : Prop := ∀ i a r, p i = Some (a, r) → String.length r ≤ String.length i.

Lemma rep_enough p fuel i :
  advances p → String.length i < fuel → rep fuel p i = rep (S (String.length i)) p i.
Proof.
  intros Hp. revert i. induction fuel as [fuel IH] using lt_wf_ind. intros i Hf.
  destruct fuel as [|fuel]; [lia|]. simpl. destruct (p i) as [[a r]|] eqn:Hi; [|done].
  pose proof (Hp _ _ _ Hi) as Hr.
  rewrite (IH fuel) by lia. destruct (String.length i) as [|n] eqn:Hn; [lia|].
  by rewrite (IH (S n)) by lia.
Qed.

(** The fuel of [star] is what pest's loop needs. *)
Lemma star_step p i a r :
  advances p → p i = Some (a, r) → star p i = ('(b, r') ← star p r; Some (a ++ b, r')).
Proof.
  intros Hp Hi. unfold star. pose proof (Hp _ _ _ Hi) as Hr. simpl. rewrite Hi.
  destruct (String.length i) as [|n]; [lia|].
  rewrite (rep_enough p (S n)) by (done || lia). simpl. by destruct (match p r with Some _ => _ | None => _ end).
Qed.

Lemma star_stop p i : p i = None → star p i = Some ([], i).
Proof. intros Hi. unfold star. simpl. by rewrite Hi. Qed.

(** ** What consumes *)

Create HintDb peg.

Lemma advances_no_grow p : advances p → no_grow p.
Proof. intros Hp i a r Hi. apply Hp in Hi. lia. Qed.

Lemma lit_Some l i a r : lit l i = Some (a, r) ↔ a = [] ∧ i = l +:+ r.
Proof.
  unfold lit. rewrite bind_Some. setoid_rewrite strip_prefix_Some. naive_solver.
Qed.

Lemma lit_advances c l : advances (lit (String c l)).
Proof.
  intros i a r [_ ->]%lit_Some. change (String.length r < S (String.length (l +:+ r))).
  rewrite string_app_length. lia.
Qed.

Lemma chr_advances f : advances (chr f).
Proof. intros [|c i] a r; simpl; [done|]. destruct (f c); intros; simplify_eq. lia. Qed.

Lemma seq_Some p q i ps r :
  seq p q i = Some (ps, r) ↔ ∃ a b r1, p i = Some (a, r1) ∧ q r1 = Some (b, r) ∧ ps = a ++ b.
Proof.
  unfold seq. split.
  - intros ([a r1] & H1 & ([b r2] & H2 & [= <- <-])%bind_Some)%bind_Some. eauto 7.
  - intros (a & b & r1 & H1 & H2 & ->). by rewrite H1; simpl; rewrite H2.
Qed.

Lemma seq_advances_l p q : advances p → no_grow q → advances (seq p q).
Proof.
  intros Hp Hq i ps r (a & b & r1 & H1%Hp & H2%Hq & _)%seq_Some. lia.
Qed.

Lemma seq_advances_r p q : no_grow p → advances q → advances (seq p q).
Proof.
  intros Hp Hq i ps r (a & b & r1 & H1%Hp & H2%Hq & _)%seq_Some. lia.
Qed.

Lemma seq_no_grow p q : no_grow p → no_grow q → no_grow (seq p q).
Proof.
  intros Hp Hq i ps r (a & b & r1 & H1%Hp & H2%Hq & _)%seq_Some. lia.
Qed.

Lemma alt_advances p q : advances p → advances q → advances (alt p q).
Proof.
  intros Hp Hq i a r. unfold alt. destruct (p i) as [[a' r']|] eqn:Hi; intros; simplify_eq; eauto.
Qed.

Lemma neg_no_grow p : no_grow (neg p).
Proof. intros i a r. unfold neg. destruct (p i); intros; by simplify_eq. Qed.

Lemma opt_no_grow p : no_grow p → no_grow (opt p).
Proof.
  intros Hp i a r. unfold opt. destruct (p i) as [[a' r']|] eqn:Hi; intros; simplify_eq; eauto.
Qed.

Lemma star_no_grow p : no_grow p → no_grow (star p).
Proof.
  intros Hp i a r. unfold star. generalize (S (String.length i)). intros fuel [= H].
  revert i a r H. induction fuel as [|fuel IH]; intros i a r; simpl; [by intros; simplify_eq|].
  destruct (p i) as [[a1 r1]|] eqn:Hi; [|by intros; simplify_eq].
  destruct (rep fuel p r1) as [b r2] eqn:Hr. intros; simplify_eq.
  apply Hp in Hi. apply IH in Hr. lia.
Qed.

Lemma rule_advances name p : advances p → advances (rule name p).
Proof. intros Hp i a r ([inner r1] & H & [= <- <-])%bind_Some. by eapply Hp. Qed.

Lemma rule_no_grow name p : no_grow p → no_grow (rule name p).
Proof. intros Hp i a r ([inner r1] & H & [= <- <-])%bind_Some. by eapply Hp. Qed.

#[export] Hint Resolve lit_advances chr_advances alt_advances rule_advances rule_no_grow opt_no_grow
  neg_no_grow star_no_grow seq_no_grow : peg.
#[export] Hint Resolve advances_no_grow | 10 : peg.

Ltac advance :=
  first [ solve [eauto with peg nocore] | apply seq_advances_l; advance | apply seq_advances_r; advance
        | apply alt_advances; advance | apply rule_advances; advance | apply rule_no_grow; advance
        | apply seq_no_grow; advance | apply opt_no_grow; advance | apply star_no_grow; advance
        | apply advances_no_grow; advance ].

Lemma whitespace_advances : advances WHITESPACE.
Proof. unfold WHITESPACE, NEWLINE, tab, lf, cr. advance. Qed.

Lemma comment_step_advances : advances (seq COMMENT (star WHITESPACE)).
Proof.
  apply seq_advances_l; [|apply star_no_grow, advances_no_grow, whitespace_advances].
  unfold COMMENT. apply seq_advances_l; [apply lit_advances|].
  apply star_no_grow. apply seq_no_grow; [apply neg_no_grow|apply advances_no_grow, chr_advances].
Qed.

Lemma skip_no_grow : no_grow skip.
Proof.
  apply seq_no_grow; apply star_no_grow, advances_no_grow;
    [apply whitespace_advances|apply comment_step_advances].
Qed.
#[export] Hint Resolve whitespace_advances skip_no_grow : peg.

Lemma many_no_grow p : no_grow p → no_grow (many p).
Proof.
  intros Hp. apply opt_no_grow, seq_no_grow; [done|]. apply star_no_grow, seq_no_grow; [apply skip_no_grow|done].
Qed.
#[export] Hint Resolve many_no_grow : peg.

Lemma identifier_advances : advances identifier.
Proof.
  unfold identifier, ASCII_ALPHA. apply rule_advances, seq_advances_l; [apply chr_advances|].
  apply star_no_grow, advances_no_grow, alt_advances; [apply chr_advances|apply lit_advances].
Qed.

(** ** White space and comments *)

Definition is_newline (c : ascii) : bool := (nat_of_ascii c =? 10) || (nat_of_ascii c =? 13).
Definition is_space (c : ascii) : bool := (nat_of_ascii c =? 32) || (nat_of_ascii c =? 9) || is_newline c.

Fixpoint no_newline (txt : string) : bool :=
  match txt with EmptyString => true | String c txt' => negb (is_newline c) && no_newline txt' end.

(** White space and ended comments. *)
Inductive blank : string → Prop :=
| blank_nil : blank EmptyString
| blank_space c b : is_space c = true → blank b → blank (String c b)
| blank_comment txt c b :
    no_newline txt = true → is_newline c = true → blank b → blank ("//" +:+ txt +:+ String c b).

Lemma ascii_of_code c n : nat_of_ascii c = n → c = ascii_of_nat n.
Proof. intros <-. symmetry. apply ascii_nat_embedding. Qed.

Lemma newline_char c i :
  is_newline c = true → ∃ r, NEWLINE (String c i) = Some ([], r) ∧ (r = i ∨ i = lf +:+ r).
Proof.
  unfold is_newline. rewrite orb_true_iff, !Nat.eqb_eq. intros [->%ascii_of_code| ->%ascii_of_code].
  - exists i. split; [done|by left].
  - destruct i as [|c' i]; [by exists EmptyString; auto|].
    destruct (decide (c' = ascii_of_nat 10)) as [->|Hc]; [by exists i; auto|].
    exists (String c' i). split; [|by left]. unfold NEWLINE, alt, lit, lf, cr. simpl.
    by rewrite bool_decide_false by congruence.
Qed.

Lemma not_newline c i : is_newline c = false → NEWLINE (String c i) = None.
Proof.
  unfold is_newline. rewrite orb_false_iff, !Nat.eqb_neq. intros [H1 H2].
  unfold NEWLINE, alt, lit, lf, cr. simpl.
  rewrite !bool_decide_false; [done|..]; intros <-; by vm_compute in H1, H2.
Qed.

Lemma whitespace_space c i :
  is_space c = true → ∃ r, WHITESPACE (String c i) = Some ([], r) ∧ (r = i ∨ i = lf +:+ r).
Proof.
  unfold is_space. rewrite !orb_true_iff, !Nat.eqb_eq.
  intros [[->%ascii_of_code| ->%ascii_of_code]|Hn]; [by exists i; auto..|].
  destruct (newline_char c i Hn) as (r & Hr & Hcase). exists r. split; [|done].
  unfold WHITESPACE, alt, lit, tab. simpl.
  rewrite !bool_decide_false; [done|..]; intros <-; by vm_compute in Hn.
Qed.

Lemma whitespace_stop c i : is_space c = false → WHITESPACE (String c i) = None.
Proof.
  unfold is_space. rewrite !orb_false_iff, !Nat.eqb_neq. intros [[H1 H2] H3].
  unfold WHITESPACE, alt, lit, tab. simpl. rewrite not_newline by done.
  rewrite !bool_decide_false; [done|..]; intros <-; by vm_compute in H1, H2.
Qed.

(** Spaces are dropped one by one. *)
Lemma star_space c i : is_space c = true → star WHITESPACE (String c i) = star WHITESPACE i.
Proof.
  intros Hc. destruct (whitespace_space c i Hc) as (r & Hr & Hcase).
  rewrite (star_step _ _ _ _ whitespace_advances Hr).
  assert (star WHITESPACE r = star WHITESPACE i) as ->.
  { destruct Hcase as [->| ->]; [done|]. symmetry.
    assert (WHITESPACE (lf +:+ r) = Some ([], r)) as Hl by done.
    rewrite (star_step _ _ _ _ whitespace_advances Hl). by destruct (star WHITESPACE r) as [[]|]. }
  by destruct (star WHITESPACE i) as [[]|].
Qed.

Lemma star_space_stop i : starts is_space i = false → star WHITESPACE i = Some ([], i).
Proof. intros Hi. apply star_stop. destruct i; [done|]. by apply whitespace_stop. Qed.

Lemma skip_space c i : is_space c = true → skip (String c i) = skip i.
Proof. intros Hc. unfold skip, seq. by rewrite star_space. Qed.

(** The body of a comment. *)
Lemma comment_body txt i :
  no_newline txt = true → starts (λ c, negb (is_newline c)) i = false →
  star (seq (neg NEWLINE) ANY) (txt +:+ i) = Some ([], i).
Proof.
  intros Htxt Hi.
  assert (advances (seq (neg NEWLINE) ANY)) as Hadv
    by (apply seq_advances_r; [apply neg_no_grow|apply chr_advances]).
  induction txt as [|c txt IH].
  - apply star_stop. destruct i as [|c i]; [done|]. simpl in Hi. apply negb_false_iff in Hi.
    destruct (newline_char c i Hi) as (r & Hr & _). change (EmptyString +:+ String c i) with (String c i).
    unfold seq, neg. by rewrite Hr.
  - simpl in Htxt. apply andb_true_iff in Htxt as [Hc Htxt]. apply negb_true_iff in Hc.
    assert (seq (neg NEWLINE) ANY (String c (txt +:+ i)) = Some ([], txt +:+ i)) as Hstep
      by (unfold seq, neg; by rewrite not_newline).
    change (String c txt +:+ i) with (String c (txt +:+ i)).
    rewrite (star_step _ _ _ _ Hadv Hstep), IH by done. done.
Qed.

Lemma skip_comment txt i :
  no_newline txt = true → starts (λ c, negb (is_newline c)) i = false →
  skip ("//" +:+ txt +:+ i) = skip i.
Proof.
  intros Htxt Hi. unfold skip at 1. unfold seq at 1. rewrite star_space_stop by done. cbn [mbind option_bind].
  assert (COMMENT ("//" +:+ txt +:+ i) = Some ([], i)) as Hcomment.
  { unfold COMMENT, seq at 1. change (lit "//" ("//" +:+ txt +:+ i)) with (Some (@nil Pair, txt +:+ i)).
    cbn [mbind option_bind]. by rewrite comment_body. }
  unfold skip, seq at 2. destruct (star WHITESPACE i) as [[a r]|] eqn:Hs; [|done]. cbn [mbind option_bind].
  assert (seq COMMENT (star WHITESPACE) ("//" +:+ txt +:+ i) = Some (a, r)) as Hstep
    by (unfold seq; rewrite Hcomment; cbn [mbind option_bind]; by rewrite Hs).
  rewrite (star_step _ _ _ _ comment_step_advances Hstep).
  by destruct (star (seq COMMENT (star WHITESPACE)) r) as [[]|].
Qed.

Lemma skip_blank b i : blank b → skip (b +:+ i) = skip i.
Proof.
  induction 1 as [|c b Hc _ IH|txt c b Htxt Hc _ IH].
  - done.
  - change (String c b +:+ i) with (String c (b +:+ i)). by rewrite skip_space.
  - rewrite !string_app_assoc. change (String c b +:+ i) with (String c (b +:+ i)).
    rewrite skip_comment; [|done|simpl; by rewrite Hc].
    rewrite skip_space; [done|]. unfold is_space. by rewrite Hc, orb_true_r.
Qed.

Lemma skip_stop i :
  starts is_space i = false → starts (Ascii.eqb "/") i = false → skip i = Some ([], i).
Proof.
  intros Hs Hc. unfold skip, seq at 1. rewrite star_space_stop by done. cbn [mbind option_bind].
  rewrite star_stop; [done|]. unfold seq, COMMENT, seq.
  destruct i as [|c i]; [done|]. unfold lit. simpl in *. rewrite bool_decide_false; [done|].
  intros <-. done.
Qed.

