(* ===== verification/Layout.v ===== *)
(** * Texts of the schema language

    The tokens of a schema as it is written, the texts that lay them out, and
    that every production of the grammar reads its tokens whatever the layout. *)
From Stdlib Require Import Ascii.
From stdpp Require Import base tactics list strings sets gmap.
From S2P Require Import Prelude Numbers Schema Parser ParserSpec Grammar Peg.

(** ** Layouts

    A text lays out a list of tokens if it is the tokens in order with blanks
    between them; after a name a blank, or a token that does not go on with
    it.  The keywords of the grammar ask for no such thing: [definitionuser{}]
    is a definition of [user]. *)

(** A word or a sign of the grammar, or a name. *)
Inductive token := Sym (t : string) | Name (t : string).
Definition token_text (t : token) : string := match t with Sym t | Name t => t end.

Definition ident_char (c : ascii) : bool := is_alphanumeric c || Ascii.eqb "_" c.
Definition token_ok (t : token) : bool :=
  starts (λ c, negb (is_space c) && negb (Ascii.eqb "/" c)) (token_text t).
Definition word (t : token) : bool := starts is_alpha (token_text t).
Definition apart (t : token) (i : string) : Prop :=
  match t with Name _ => starts ident_char i = false | Sym _ => True end.

Inductive laid_out : list token → string → Prop :=
| laid_end b : blank b → laid_out [] b
| laid_end_comment b txt : blank b → no_newline txt = true → laid_out [] (b +:+ "//" +:+ txt)
| laid_token b t ts i :
    blank b → token_ok t = true → apart t i → laid_out ts i →
    laid_out (t :: ts) (b +:+ token_text t +:+ i).

(** The text begins with the first token. *)
Definition at_tokens (ts : list token) (i : string) : Prop :=
  match ts with
  | [] => i = EmptyString
  | t :: ts' => ∃ i', i = token_text t +:+ i' ∧ token_ok t = true ∧ apart t i' ∧ laid_out ts' i'
  end.

Lemma at_tokens_laid ts i : at_tokens ts i → laid_out ts i.
Proof.
  destruct ts as [|t ts]; [intros ->; constructor; constructor|].
  intros (i' & -> & Ht & Ha & Hl). apply (laid_token EmptyString); [constructor|done..].
Qed.

Lemma at_tokens_stop ts i : at_tokens ts i → starts is_space i = false ∧ starts (Ascii.eqb "/") i = false.
Proof.
  destruct ts as [|t ts]; [by intros ->|]. intros (i' & -> & Ht & _).
  unfold token_ok in Ht. destruct (token_text t) as [|c t']; [done|]. simpl in *. apply andb_true_iff in Ht as [H1%negb_true_iff H2%negb_true_iff].
  done.
Qed.

Lemma skip_laid ts r : laid_out ts r → ∃ i, skip r = Some ([], i) ∧ at_tokens ts i.
Proof.
  destruct 1 as [b Hb|b txt Hb Htxt|b t ts i Hb Ht Ha Hl].
  - exists EmptyString. rewrite <-(string_app_nil b), skip_blank by done. done.
  - exists EmptyString. rewrite skip_blank by done. rewrite <-(string_app_nil txt).
    by rewrite skip_comment.
  - exists (token_text t +:+ i). rewrite skip_blank by done.
    assert (at_tokens (t :: ts) (token_text t +:+ i)) as Hat by (by exists i). split; [|done].
    apply skip_stop; by eapply at_tokens_stop.
Qed.

(** ** Parsers on tokens *)

(** [p] reads the tokens [ts] when what comes after satisfies [follow]. *)
Definition reads (p : peg) (ts : list token) (ok : list Pair → Prop) (follow : list token → Prop) : Prop :=
  ∀ ts' i, follow ts' → at_tokens (ts ++ ts') i → ∃ ps r, p i = Some (ps, r) ∧ ok ps ∧ laid_out ts' r.

(** [p] fails before the tokens [ts]. *)
Definition rejects (p : peg) (ts : list token) : Prop := ∀ i, at_tokens ts i → p i = None.

Lemma reads_ok p ts (ok ok' : list Pair → Prop) (f : list token → Prop) :
  reads p ts ok f → (∀ ps, ok ps → ok' ps) → reads p ts ok' f.
Proof.
  intros Hp Hok ts' i Hf Hat. destruct (Hp ts' i Hf Hat) as (ps & r & ? & ? & ?); eauto 7.
Qed.

Lemma reads_follow p ts (ok : list Pair → Prop) (f f' : list token → Prop) :
  reads p ts ok f → (∀ ts', f' ts' → f ts') → reads p ts ok f'.
Proof. intros Hp Hf ts' i Hf' Hat. apply (Hp ts' i); auto. Qed.

Lemma reads_seq p q ts1 ts2 (ok1 ok2 : list Pair → Prop) (f1 f2 : list token → Prop) :
  reads p ts1 ok1 f1 → reads q ts2 ok2 f2 → (∀ ts', f2 ts' → f1 (ts2 ++ ts')) →
  reads (p ;~ q) (ts1 ++ ts2) (λ ps, ∃ a b, ps = a ++ b ∧ ok1 a ∧ ok2 b) f2.
Proof.
  intros Hp Hq Hf ts' i Hf2 Hat. rewrite <-app_assoc in Hat.
  destruct (Hp (ts2 ++ ts') i) as (a & r & Ha & Hoka & Hr); [by apply Hf|done|].
  apply skip_laid in Hr as (i2 & Hskip & Hat2).
  destruct (Hq ts' i2) as (b & r2 & Hb & Hokb & Hr2); [done..|].
  exists (a ++ b), r2. split_and!; [|eauto|done].
  unfold seq. rewrite Ha. cbn [mbind option_bind]. rewrite Hskip. cbn [mbind option_bind]. by rewrite Hb.
Qed.

Lemma reads_lit t : reads (lit t) [Sym t] (λ ps, ps = []) (λ _, True).
Proof.
  intros ts' i _ (i' & -> & _ & _ & Hl). exists [], i'. split_and!; [|done..]. by apply lit_Some.
Qed.

Lemma reads_rule name p ts ok f :
  reads p ts ok f → reads (rule name p) ts (λ ps, ∃ txt inner, ps = [mk_Pair name txt inner] ∧ ok inner) f.
Proof.
  intros Hp ts' i Hf Hat. destruct (Hp ts' i Hf Hat) as (inner & r & Hi & Hok & Hr).
  eexists _, r. split_and!; [unfold rule; by rewrite Hi|eauto|done].
Qed.

Lemma reads_alt_l p q ts ok f : reads p ts ok f → reads (alt p q) ts ok f.
Proof.
  intros Hp ts' i Hf Hat. destruct (Hp ts' i Hf Hat) as (ps & r & Hi & ?). exists ps, r.
  split; [unfold alt; by rewrite Hi|done].
Qed.

Lemma reads_alt_r p q ts ok (f : list token → Prop) :
  (∀ ts', f ts' → rejects p (ts ++ ts')) → reads q ts ok f → reads (alt p q) ts ok f.
Proof.
  intros Hp Hq ts' i Hf Hat. destruct (Hq ts' i Hf Hat) as (ps & r & Hi & ?). exists ps, r.
  split; [unfold alt; by rewrite (Hp ts' Hf i Hat)|done].
Qed.

Lemma reads_opt_some p ts ok f : reads p ts ok f → reads (opt p) ts ok f.
Proof.
  intros Hp ts' i Hf Hat. destruct (Hp ts' i Hf Hat) as (ps & r & Hi & ?). exists ps, r.
  split; [unfold opt; by rewrite Hi|done].
Qed.

Lemma reads_opt_none p (f : list token → Prop) :
  (∀ ts', f ts' → rejects p ts') → reads (opt p) [] (λ ps, ps = []) f.
Proof.
  intros Hp ts' i Hf Hat. exists [], i. split_and!; [unfold opt; by rewrite (Hp ts' Hf i Hat)|done|].
  by apply at_tokens_laid.
Qed.

Lemma rejects_lit c l ts :
  match ts with [] => True | t :: _ => starts (Ascii.eqb c) (token_text t) = false end → rejects (lit (String c l)) ts.
Proof.
  intros Hts i Hat. destruct ts as [|t ts]; [by rewrite Hat|]. destruct Hat as (i' & -> & Ht & _).
  unfold token_ok in Ht. destruct (token_text t) as [|c' t']; [done|]. simpl in Hts. unfold lit. simpl. rewrite bool_decide_false; [done|].
  intros <-. by rewrite Ascii.eqb_refl in Hts.
Qed.

Lemma rejects_seq p q ts : rejects p ts → rejects (seq p q) ts.
Proof. intros Hp i Hat. unfold seq. by rewrite Hp. Qed.

Lemma rejects_rule name p ts : rejects p ts → rejects (rule name p) ts.
Proof. intros Hp i Hat. unfold rule. by rewrite Hp. Qed.

Lemma rejects_alt p q ts : rejects p ts → rejects q ts → rejects (alt p q) ts.
Proof. intros Hp Hq i Hat. unfold alt. by rewrite Hp, Hq. Qed.

(** The first part is there, the second is not. *)
Lemma rejects_seq_r p q ts1 ts2 ok (f : list token → Prop) :
  reads p ts1 ok f → f ts2 → rejects q ts2 → rejects (p ;~ q) (ts1 ++ ts2).
Proof.
  intros Hp Hf Hq i Hat. destruct (Hp ts2 i Hf Hat) as (a & r & Ha & _ & Hr).
  apply skip_laid in Hr as (i2 & Hskip & Hat2). unfold seq. rewrite Ha. cbn [mbind option_bind].
  rewrite Hskip. cbn [mbind option_bind]. by rewrite (Hq i2 Hat2).
Qed.

(** *** Repetition *)

Section many.
Context {X : Type} (P : X → Prop) (p : peg) (toks : X → list token) (ok : X → list Pair → Prop).
Context (between follow : list token → Prop).
Hypothesis Hp : advances p.
Hypothesis Hreads : ∀ x, P x → reads p (toks x) (ok x) between.
Hypothesis Hnext : ∀ x ts', P x → between (toks x ++ ts').
Hypothesis Hfollow : ∀ ts', follow ts' → between ts'.
Hypothesis Hend : ∀ ts', follow ts' → rejects p ts'.

Lemma between_rest xs ts' : Forall P xs → follow ts' → between (concat (toks <$> xs) ++ ts').
Proof.
  intros Hxs Hf. destruct Hxs as [|x xs Hx _]; [by apply Hfollow|]. rewrite fmap_cons. cbn [concat].
  rewrite <-app_assoc. by apply Hnext.
Qed.

Lemma star_reads xs ts' r :
  Forall P xs → follow ts' → laid_out (concat (toks <$> xs) ++ ts') r →
  ∃ pss r', star (seq skip p) r = Some (concat pss, r') ∧ Forall2 ok xs pss ∧ laid_out ts' r'.
Proof.
  assert (advances (seq skip p)) as Hadv by (apply seq_advances_r; [apply skip_no_grow|done]).
  intros Hxs Hf. revert r. induction Hxs as [|x xs Hx Hxs IH]; intros r Hr.
  - exists [], r. split_and!; [|constructor|done]. apply star_stop.
    apply skip_laid in Hr as (i & Hskip & Hat). unfold seq. rewrite Hskip. cbn [mbind option_bind].
    by rewrite (Hend ts' Hf i Hat).
  - rewrite fmap_cons in Hr. cbn [concat] in Hr. rewrite <-app_assoc in Hr.
    apply skip_laid in Hr as (i & Hskip & Hat).
    destruct (Hreads x Hx _ i (between_rest xs ts' Hxs Hf) Hat) as (ps & r1 & Hi & Hok & Hr1).
    apply IH in Hr1 as (pss & r' & Hstar & Hall & Hr').
    exists (ps :: pss), r'. split_and!; [|by constructor|done].
    assert (seq skip p r = Some (ps, r1)) as Hstep
      by (unfold seq; rewrite Hskip; cbn [mbind option_bind]; by rewrite Hi).
    rewrite (star_step _ _ _ _ Hadv Hstep), Hstar. done.
Qed.

Lemma reads_many xs :
  Forall P xs →
  reads (many p) (concat (toks <$> xs)) (λ ps, ∃ pss, ps = concat pss ∧ Forall2 ok xs pss) follow.
Proof.
  intros Hall' ts' i Hf Hat. unfold many. destruct Hall' as [|x xs Hx Hxs].
  - exists [], i. split_and!; [|by exists []|by apply at_tokens_laid].
    unfold opt, seq. by rewrite (Hend ts' Hf i Hat).
  - rewrite fmap_cons in Hat. cbn [concat] in Hat. rewrite <-app_assoc in Hat.
    destruct (Hreads x Hx _ i (between_rest xs ts' Hxs Hf) Hat) as (ps & r1 & Hi & Hok & Hr1).
    apply (star_reads xs ts' r1 Hxs Hf) in Hr1 as (pss & r' & Hstar & Hall & Hr').
    exists (ps ++ concat pss), r'. split_and!; [|exists (ps :: pss); split; [done|by constructor]|done].
    unfold opt, seq at 1. rewrite Hi. cbn [mbind option_bind]. by rewrite Hstar.
Qed.
End many.

(** ** The tokens of a schema *)

Definition valid_ident (x : string) : bool :=
  match x with
  | String c x' => is_alpha c && forallb ident_char (String.list_ascii_of_string x')
  | EmptyString => false
  end.

Definition tokens_term (r : RewriteRule) : list token :=
  match r with This n => [Name n] | Arrow t c => [Name t; Sym "->"; Name c] | _ => [] end.
Definition tokens_operand (op : Rule) (r : RewriteRule) : list token := Sym (text_op op) :: tokens_term r.
Definition tokens_rule (r : RewriteRule) : list token :=
  match rule_operands r with
  | [] => []
  | r1 :: rs => tokens_term r1 ++ concat (tokens_operand (rule_operator r) <$> rs)
  end.
Definition tokens_subject_type (s : SubjectTypeRef) : list token :=
  Name (st_type_name s) :: match st_relation s with Some r => [Sym "#"; Name r] | None => [] end.
Definition tokens_subject_types (l : list SubjectTypeRef) : list token :=
  match l with
  | [] => []
  | s :: l' => tokens_subject_type s ++ concat ((λ s, Sym "|" :: tokens_subject_type s) <$> l')
  end.
Definition tokens_relation (r : RelationDef) : list token :=
  Sym "relation" :: Name (rel_name r) :: Sym ":" :: tokens_subject_types (rel_subject_types r).
Definition tokens_permission (p : PermissionDef) : list token :=
  Sym "permission" :: Name (perm_name p) :: Sym "=" :: tokens_rule (perm_rule p).
Definition tokens_item (x : body_item) : list token :=
  match x with inl r => tokens_relation r | inr p => tokens_permission p end.

(** A definition as it is written, with the order of its body. *)
Record Written := mk_Written { written_name : string; written_body : list body_item }.

Definition tokens_written (w : Written) : list token :=
  Sym "definition" :: Name (written_name w) :: Sym "{" :: concat (tokens_item <$> written_body w) ++ [Sym "}"].
Definition tokens_source (ws : list Written) : list token := concat (tokens_written <$> ws).

(** What it defines. *)
Definition defined_type (w : Written) : TypeDefinition :=
  mk_TypeDefinition (written_name w) (item_relations (written_body w)) (item_permissions (written_body w)).
Definition defined_schema (ws : list Written) : Schema := mk_Schema (defined_type <$> ws).

(** The names of a schema are identifiers. *)
Definition term_names (r : RewriteRule) : bool :=
  match r with This n => valid_ident n | Arrow t c => valid_ident t && valid_ident c | _ => true end.
Definition rule_names (r : RewriteRule) : bool := forallb term_names (rule_operands r).
Definition subject_type_names (s : SubjectTypeRef) : bool :=
  valid_ident (st_type_name s) && match st_relation s with Some r => valid_ident r | None => true end.
Definition relation_names (r : RelationDef) : bool :=
  valid_ident (rel_name r) && forallb subject_type_names (rel_subject_types r).
Definition permission_names (p : PermissionDef) : bool :=
  valid_ident (perm_name p) && rule_names (perm_rule p).
Definition item_names (x : body_item) : bool :=
  match x with inl r => relation_names r | inr p => permission_names p end.
(** What the text of a schema must be for the parser to accept it: names that
    are identifiers, relations with a subject type, rules of one operator, and
    no name given twice. *)
Definition item_ok (x : body_item) : Prop :=
  item_names x = true ∧
  match x with inl r => rel_subject_types r ≠ [] | inr p => flat_rule (perm_rule p) end.
Definition written_ok (w : Written) : Prop :=
  valid_ident (written_name w) = true ∧ Forall item_ok (written_body w) ∧
  NoDup (rel_name <$> item_relations (written_body w)) ∧
  NoDup (perm_name <$> item_permissions (written_body w)).
Definition source_ok (ws : list Written) : Prop :=
  Forall written_ok ws ∧ NoDup (written_name <$> ws).

(** ** The productions on their tokens *)

Lemma ident_tail x i :
  forallb ident_char (String.list_ascii_of_string x) = true → starts ident_char i = false →
  star (alt ASCII_ALPHANUMERIC (lit "_")) (x +:+ i) = Some ([], i).
Proof.
  assert (advances (alt ASCII_ALPHANUMERIC (lit "_"))) as Hadv
    by (apply alt_advances; [apply chr_advances|apply lit_advances]).
  assert (∀ c s, alt ASCII_ALPHANUMERIC (lit "_") (String c s) =
    if ident_char c then Some ([], s) else None) as Hone.
  { intros c s. unfold alt, ASCII_ALPHANUMERIC, chr, ident_char, lit.
    destruct (is_alphanumeric c); [done|]. cbn [strip_prefix orb].
    destruct (Ascii.eqb_spec "_" c) as [<-|Hc]; [done|]. by rewrite bool_decide_false. }
  intros Hx Hi. induction x as [|c x IH].
  - apply star_stop. change (EmptyString +:+ i) with i. destruct i as [|c i]; [done|].
    rewrite Hone. simpl in Hi. by rewrite Hi.
  - simpl in Hx. apply andb_true_iff in Hx as [Hc Hx].
    change (String c x +:+ i) with (String c (x +:+ i)).
    assert (alt ASCII_ALPHANUMERIC (lit "_") (String c (x +:+ i)) = Some ([], x +:+ i)) as Hstep
      by (by rewrite Hone, Hc).
    by rewrite (star_step _ _ _ _ Hadv Hstep), IH.
Qed.

Lemma reads_identifier x : valid_ident x = true → reads identifier [Name x] (λ ps, ps = [ident x]) (λ _, True).
Proof.
  intros Hx ts' i _ (i' & -> & _ & Ha & Hl). cbn [token_text apart] in *. destruct x as [|c x]; [done|]. simpl in Hx.
  apply andb_true_iff in Hx as [Hc Hx]. exists [ident (String c x)], i'. split_and!; [|done..].
  unfold identifier, rule, seq. change (String c x +:+ i') with (String c (x +:+ i')).
  cbn [ASCII_ALPHA chr]. unfold ASCII_ALPHA, chr. rewrite Hc. cbn [mbind option_bind].
  rewrite ident_tail by done. cbn [mbind option_bind app].
  change (String c (x +:+ i')) with (String c x +:+ i'). by rewrite consumed_app.
Qed.

(** *** What may follow *)

Definition head_not (c : ascii) (ts : list token) : Prop :=
  match ts with [] => True | t :: _ => starts (Ascii.eqb c) (token_text t) = false end.

Definition no_arrow (ts : list token) : Prop :=
  match ts with
  | [] => True
  | t :: ts' => starts (Ascii.eqb "-") (token_text t) = false ∨ t = Sym "-" ∧ ∃ y ts'', ts' = y :: ts'' ∧ word y = true
  end.

Definition after_expr (ts : list token) : Prop := head_not "+" ts ∧ head_not "&" ts ∧ head_not "-" ts.

Lemma laid_word_head y ts i : word y = true → laid_out (y :: ts) i → starts (Ascii.eqb ">") i = false.
Proof.
  intros Hy Hl. remember (y :: ts) as tts eqn:Heq. destruct Hl as [| |b t ts' i Hb Ht Ha Hl]; [done..|].
  injection Heq as -> ->. destruct Hb as [|c b Hc _|txt c b _ _ _]; [| |done].
  - unfold word in Hy. destruct (token_text y) as [|c y']; [done|]. change (Ascii.eqb ">" c = false). apply Ascii.eqb_neq.
    intros <-. by vm_compute in Hy.
  - change (Ascii.eqb ">" c = false). apply Ascii.eqb_neq. intros <-. by vm_compute in Hc.
Qed.

Lemma rejects_arrow ts q : no_arrow ts → rejects (lit "->" ;~ q) ts.
Proof.
  intros Hts. apply rejects_seq. destruct ts as [|t ts]; [by apply rejects_lit|].
  destruct Hts as [Ht|(-> & y & ts'' & -> & Hy)]; [by apply rejects_lit|].
  intros i (i' & -> & _ & _ & Hl). apply (laid_word_head _ _ _ Hy) in Hl.
  destruct i' as [|c i']; [done|]. change (Ascii.eqb ">" c = false) in Hl.
  unfold lit. cbn [token_text]. change (strip_prefix "->" ("-" +:+ String c i'))
    with (if bool_decide (">"%char = c) then Some i' else None).
  rewrite bool_decide_false; [done|]. intros <-. by vm_compute in Hl.
Qed.

(** A rule whose pair the walk [f] takes to [x]. *)
Definition yields {A} (name : Rule) (f : Pair → result ParseError A) (x : A) (ps : list Pair) : Prop :=
  ∃ p, ps = [p] ∧ as_rule p = name ∧ f p = Ok x.

Lemma yields_rule {A} name (f : Pair → result ParseError A) x p ts ok follow :
  reads p ts ok follow → (∀ txt inner, ok inner → f (mk_Pair name txt inner) = Ok x) →
  reads (rule name p) ts (yields name f x) follow.
Proof.
  intros Hp Hf. eapply reads_ok; [by apply reads_rule|]. intros ps (txt & inner & -> & Hok).
  eexists. split_and!; [done|done|by apply Hf].
Qed.

Lemma reads_term r :
  is_term r → term_names r = true →
  reads permission_term (tokens_term r) (yields R_permission_term parse_permission_term r) no_arrow.
Proof.
  intros Hr Hn. unfold permission_term. destruct r as [n|cs|cs|b e|t c]; try done; simpl in Hn.
  - apply (yields_rule _ _ _ _ _ (λ ps, ps = [ident n])).
    + apply reads_alt_r.
      * intros ts' Hts. apply rejects_rule. eapply (rejects_seq_r _ _ [Name n]);
          [by apply reads_identifier|done|by apply rejects_arrow].
      * eapply reads_follow; [by apply reads_identifier|done].
    + by intros txt inner ->.
  - apply andb_true_iff in Hn as [Ht Hc].
    apply (yields_rule _ _ _ _ _ (λ ps, ∃ txt, ps = [mk_Pair R_arrow_expr txt [ident t; ident c]])).
    + apply reads_alt_l. eapply reads_ok.
      * apply reads_rule. apply (reads_follow _ _ _ (λ _, True)); [|done].
        eapply (reads_seq _ _ [Name t] [Sym "->"; Name c]); [by apply reads_identifier| |done].
        eapply (reads_seq _ _ [Sym "->"] [Name c]); [apply reads_lit|by apply reads_identifier|done].
      * intros ps (txt & inner & -> & a & b & -> & -> & a' & b' & -> & -> & ->). by exists txt.
    + by intros txt inner (txt' & ->).
Qed.

Lemma reads_op r :
  reads permission_op [Sym (text_op (rule_operator r))]
    (λ ps, ∃ txt, ps = [mk_Pair (rule_operator r) txt []]) (λ _, True).
Proof.
  assert (∀ name t, reads (rule name (lit t)) [Sym t] (λ ps, ∃ txt, ps = [mk_Pair name txt []]) (λ _, True)) as Hop.
  { intros name t. eapply reads_ok; [apply reads_rule, reads_lit|]. intros ps (txt & inner & -> & ->). eauto. }
  unfold permission_op. destruct r; cbn [rule_operator text_op];
    first [ apply reads_alt_l, Hop
          | apply reads_alt_r; [intros ts' _; by apply rejects_rule, rejects_lit|];
            first [ apply reads_alt_l, Hop
                  | apply reads_alt_r; [intros ts' _; by apply rejects_rule, rejects_lit|apply Hop] ] ].
Qed.

Lemma tokens_term_head r : is_term r → term_names r = true → ∃ y ts, tokens_term r = y :: ts ∧ word y = true.
Proof.
  intros Hr Hn. destruct r as [n| | | |t c]; try done; simpl in *.
  - exists (Name n), []. split; [done|]. destruct n as [|c' n]; [done|]. by apply andb_true_iff in Hn as [? _].
  - apply andb_true_iff in Hn as [Ht _]. exists (Name t), [Sym "->"; Name c]. split; [done|].
    destruct t as [|c' t]; [done|]. by apply andb_true_iff in Ht as [? _].
Qed.

(** An operator and its operand. *)
Definition operand_pairs (op : Rule) (r : RewriteRule) (ps : list Pair) : Prop :=
  ∃ p q, ps = [p; q] ∧ as_rule p = op ∧ parse_permission_term q = Ok r.

Lemma operand_pairs_parse op rs pss :
  Forall2 (operand_pairs op) rs pss → parse_ops_and_terms (concat pss) = Ok ((op,.) <$> rs).
Proof.
  induction 1 as [|r ps rs pss (p & q & -> & Hp & Hq) _ IH]; [done|].
  cbn [concat app parse_ops_and_terms]. rewrite Hq. cbn [try]. rewrite IH. cbn [try]. by rewrite Hp.
Qed.

Lemma permission_op_advances : advances permission_op.
Proof. unfold permission_op. repeat apply alt_advances; apply rule_advances, lit_advances. Qed.

Lemma permission_term_no_grow : no_grow permission_term.
Proof.
  apply advances_no_grow, rule_advances, alt_advances; [|apply identifier_advances].
  apply rule_advances, seq_advances_l; [apply identifier_advances|].
  apply seq_no_grow; [apply skip_no_grow|]. apply seq_no_grow; [apply advances_no_grow, lit_advances|].
  apply seq_no_grow; [apply skip_no_grow|]. apply advances_no_grow, identifier_advances.
Qed.

Lemma rejects_op ts : after_expr ts → rejects permission_op ts.
Proof.
  intros (Hp & Ha & Hm). unfold permission_op.
  repeat apply rejects_alt; apply rejects_rule, rejects_lit; by destruct ts.
Qed.

Lemma after_expr_no_arrow ts : after_expr ts → no_arrow ts.
Proof. intros (_ & _ & H). destruct ts as [|t ts]; [done|by left]. Qed.

Lemma operand_no_arrow r0 r ts :
  is_term r → term_names r = true → no_arrow (tokens_operand (rule_operator r0) r ++ ts).
Proof.
  intros Hr Hn. destruct (tokens_term_head r Hr Hn) as (y & ys & Hy & Hw).
  unfold tokens_operand. rewrite Hy. destruct r0; simpl; first [by left|by right; eauto 6].
Qed.

Lemma reads_expr r :
  flat_rule r → rule_names r = true →
  reads permission_expr (tokens_rule r) (yields R_permission_expr parse_permission_expr r) after_expr.
Proof.
  intros Hr Hn. destruct (flat_rule_operands r Hr) as (r1 & rs & Hops & H1 & Hrs).
  unfold rule_names in Hn. rewrite Hops in Hn. simpl in Hn. apply andb_true_iff in Hn as [Hn1 Hns].
  assert (Forall (λ r, is_term r ∧ term_names r = true) rs) as Hall.
  { apply Forall_forall. intros x Hx. split; [by eapply Forall_forall|].
    rewrite forallb_forall in Hns. by apply Hns, list_elem_of_In. }
  unfold tokens_rule. rewrite Hops.
  apply (yields_rule _ _ _ _ _ (λ ps, ∃ p pss, ps = p :: concat pss ∧ parse_permission_term p = Ok r1 ∧
    Forall2 (operand_pairs (rule_operator r)) rs pss)).
  - eapply reads_ok; [eapply reads_seq; [by apply reads_term| |]|].
    + apply (reads_many (λ r, is_term r ∧ term_names r = true) _ (tokens_operand (rule_operator r))
        (operand_pairs (rule_operator r)) no_arrow after_expr).
      * apply seq_advances_l; [apply permission_op_advances|].
        apply seq_no_grow; [apply skip_no_grow|apply permission_term_no_grow].
      * intros x [Hx Hxn]. eapply reads_ok;
          [eapply (reads_seq _ _ [Sym (text_op (rule_operator r))] (tokens_term x));
             [apply reads_op|by apply reads_term|done]|].
        intros ps (a & b & -> & (txt & ->) & (q & -> & _ & Hq)). eexists _, q. by split_and!.
      * intros x ts' [Hx Hxn]. by apply operand_no_arrow.
      * apply after_expr_no_arrow.
      * intros ts' Hts. by apply rejects_seq, rejects_op.
      * done.
    + intros ts' Hts. destruct Hall as [|x xs [Hx Hxn] _]; [by apply after_expr_no_arrow|].
      rewrite fmap_cons. cbn [concat]. rewrite <-app_assoc. by apply operand_no_arrow.
    + intros ps (a & b & -> & (p & -> & _ & Hp) & (pss & -> & Hpss)). by exists p, pss.
  - intros txt inner (p & pss & -> & Hp & Hpss). eapply parse_operands; [done|exact Hops|done|].
    by apply operand_pairs_parse.
Qed.

Lemma reads_permission p :
  flat_rule (perm_rule p) → permission_names p = true →
  reads permission_def (tokens_permission p) (yields R_permission_def parse_permission_def p) after_expr.
Proof.
  intros Hr Hn. apply andb_true_iff in Hn as [Hname Hn].
  apply (yields_rule _ _ _ _ _ (λ ps, ∃ e, ps = [ident (perm_name p); e] ∧
    parse_permission_expr e = Ok (perm_rule p))).
  - eapply reads_ok; [eapply (reads_seq _ _ [Sym "permission"]); [apply reads_lit| |done]|].
    + eapply (reads_seq _ _ [Name (perm_name p)]); [by apply reads_identifier| |done].
      eapply (reads_seq _ _ [Sym "="]); [apply reads_lit|by apply reads_expr|done].
    + intros ps (a & b & -> & -> & a' & b' & -> & -> & a'' & b'' & -> & -> & (e & -> & _ & He)).
      by exists e.
  - intros txt inner (e & -> & He). unfold parse_permission_def. cbn [into_inner next_or try ident as_str].
    rewrite He. by destruct p.
Qed.

Definition after_types (ts : list token) : Prop := head_not "#" ts ∧ head_not "|" ts.

Lemma reads_subject_type s :
  subject_type_names s = true →
  reads subject_type_ref (tokens_subject_type s) (yields R_subject_type_ref parse_subject_type_ref s)
    (head_not "#").
Proof.
  intros Hn. apply andb_true_iff in Hn as [Hname Hrel].
  apply (yields_rule _ _ _ _ _ (λ ps, ps = ident (st_type_name s) ::
    match st_relation s with Some r => [ident r] | None => [] end)).
  - eapply reads_ok; [eapply (reads_seq _ _ [Name (st_type_name s)]
      (match st_relation s with Some r => [Sym "#"; Name r] | None => [] end) _
      (λ ps, ps = match st_relation s with Some r => [ident r] | None => [] end)); [by apply reads_identifier| |done]|].
    + destruct (st_relation s) as [r|].
      * apply reads_opt_some. apply (reads_follow _ _ _ (λ _, True)); [|done]. eapply reads_ok;
          [eapply (reads_seq _ _ [Sym "#"] [Name r]); [apply reads_lit|by apply reads_identifier|done]|].
        by intros ps (a & b & -> & -> & ->).
      * apply reads_opt_none. intros ts' Hts. apply rejects_seq, rejects_lit. by destruct ts'.
    + by intros ps (a & b & -> & -> & ->).
  - intros txt inner ->. by destruct s as [n [r|]].
Qed.

Lemma subject_type_ref_no_grow : no_grow subject_type_ref.
Proof.
  apply rule_no_grow, seq_no_grow; [apply advances_no_grow, identifier_advances|].
  apply seq_no_grow; [apply skip_no_grow|]. apply opt_no_grow, seq_no_grow;
    [apply advances_no_grow, lit_advances|].
  apply seq_no_grow; [apply skip_no_grow|]. apply advances_no_grow, identifier_advances.
Qed.

Lemma collect_subject_types l pss :
  Forall2 (yields R_subject_type_ref parse_subject_type_ref) l pss →
  collect_results parse_subject_type_ref (concat pss) = Ok l.
Proof.
  induction 1 as [|s ps l pss (p & -> & _ & Hp) _ IH]; [done|].
  cbn [concat app collect_results]. rewrite Hp. cbn [try]. by rewrite IH.
Qed.

Lemma reads_subject_types l :
  l ≠ [] → forallb subject_type_names l = true →
  reads subject_type_list (tokens_subject_types l)
    (yields R_subject_type_list (λ p, collect_results parse_subject_type_ref (into_inner p)) l) after_types.
Proof.
  intros Hl Hn. destruct l as [|s l]; [done|]. simpl in Hn. apply andb_true_iff in Hn as [Hs Hn].
  assert (Forall (λ s, subject_type_names s = true) l) as Hall
    by (apply Forall_forall; intros x Hx; rewrite forallb_forall in Hn; by apply Hn, list_elem_of_In).
  apply (yields_rule _ _ _ _ _ (λ ps, ∃ pss, ps = concat pss ∧
    Forall2 (yields R_subject_type_ref parse_subject_type_ref) (s :: l) pss)).
  - eapply reads_ok; [eapply reads_seq; [by apply reads_subject_type| |]|].
    + apply (reads_many (λ s, subject_type_names s = true) _ (λ s, Sym "|" :: tokens_subject_type s)
        (yields R_subject_type_ref parse_subject_type_ref) (head_not "#") after_types).
      * apply seq_advances_l; [apply lit_advances|].
        apply seq_no_grow; [apply skip_no_grow|apply subject_type_ref_no_grow].
      * intros x Hx. eapply reads_ok;
          [eapply (reads_seq _ _ [Sym "|"]); [apply reads_lit|by apply reads_subject_type|done]|].
        by intros ps (a & b & -> & -> & Hb).
      * done.
      * by intros ts' [? ?].
      * intros ts' [_ Hts]. apply rejects_seq, rejects_lit. by destruct ts'.
      * done.
    + intros ts' [Hts _]. by destruct l.
    + intros ps (a & b & -> & Ha & (pss & -> & Hpss)). exists (a :: pss). split; [done|by constructor].
  - intros txt inner (pss & -> & Hpss). by apply collect_subject_types.
Qed.

Lemma reads_relation r :
  rel_subject_types r ≠ [] → relation_names r = true →
  reads relation_def (tokens_relation r) (yields R_relation_def parse_relation_def r) after_types.
Proof.
  intros Hr Hn. apply andb_true_iff in Hn as [Hname Hn].
  apply (yields_rule _ _ _ _ _ (λ ps, ∃ l, ps = [ident (rel_name r); l] ∧
    collect_results parse_subject_type_ref (into_inner l) = Ok (rel_subject_types r))).
  - eapply reads_ok; [eapply (reads_seq _ _ [Sym "relation"]); [apply reads_lit| |done]|].
    + eapply (reads_seq _ _ [Name (rel_name r)]); [by apply reads_identifier| |done].
      eapply (reads_seq _ _ [Sym ":"]); [apply reads_lit|by apply reads_subject_types|done].
    + intros ps (a & b & -> & -> & a' & b' & -> & -> & a'' & b'' & -> & -> & (e & -> & _ & He)).
      by exists e.
  - intros txt inner (l & -> & Hl). unfold parse_relation_def. cbn [into_inner next_or try ident as_str].
    rewrite Hl. by destruct r.
Qed.

(** *** Definitions *)

Definition item_pairs (x : body_item) : list Pair → Prop :=
  match x with
  | inl r => yields R_relation_def parse_relation_def r
  | inr p => yields R_permission_def parse_permission_def p
  end.
Definition after_item (ts : list token) : Prop := after_expr ts ∧ after_types ts.
Definition closes (ts : list token) : Prop := ∃ ts', ts = Sym "}" :: ts'.

Lemma reads_item x : item_ok x → reads (alt relation_def permission_def) (tokens_item x) (item_pairs x) after_item.
Proof.
  destruct x as [r|p]; intros [H1 H2]; cbn [tokens_item item_pairs].
  - apply reads_alt_l. eapply reads_follow; [by apply reads_relation|]. by intros ts' [? ?].
  - apply reads_alt_r.
    + intros ts' _. by apply rejects_rule, rejects_seq, rejects_lit.
    + eapply reads_follow; [by apply reads_permission|]. by intros ts' [? ?].
Qed.

Lemma item_advances : advances (alt relation_def permission_def).
Proof.
  assert (∀ l x q, no_grow q → advances (lit (String l x) ;~ identifier ;~ q)) as H.
  { intros l x q Hq. apply seq_advances_l; [apply lit_advances|].
    apply seq_no_grow; [apply skip_no_grow|].
    apply seq_no_grow; [apply advances_no_grow, identifier_advances|].
    by apply seq_no_grow; [apply skip_no_grow|]. }
  apply alt_advances; apply rule_advances, H;
    (apply seq_no_grow; [apply advances_no_grow, lit_advances|]);
    (apply seq_no_grow; [apply skip_no_grow|]).
  - apply rule_no_grow, seq_no_grow; [apply subject_type_ref_no_grow|].
    apply seq_no_grow; [apply skip_no_grow|]. apply many_no_grow.
    apply seq_no_grow; [apply advances_no_grow, lit_advances|].
    apply seq_no_grow; [apply skip_no_grow|apply subject_type_ref_no_grow].
  - apply rule_no_grow, seq_no_grow; [apply permission_term_no_grow|].
    apply seq_no_grow; [apply skip_no_grow|]. apply many_no_grow.
    apply seq_no_grow; [apply advances_no_grow, permission_op_advances|].
    apply seq_no_grow; [apply skip_no_grow|apply permission_term_no_grow].
Qed.

Lemma yields_list {A} name (f : Pair → result ParseError A) xs pss :
  Forall2 (yields name f) xs pss → Forall2 (λ p y, as_rule p = name ∧ f p = Ok y) (concat pss) xs.
Proof.
  induction 1 as [|x ps xs pss (p & -> & Hp & Hf) _ IH]; [constructor|]. by constructor.
Qed.

Lemma item_pairs_parse xs pss : Forall2 item_pairs xs pss → Forall2 item_parses (concat pss) xs.
Proof.
  induction 1 as [|[r|q] ps xs pss (p & -> & Hp & Hf) _ IH]; [constructor|by constructor..].
Qed.

Lemma reads_body xs :
  Forall item_ok xs →
  reads definition_body (concat (tokens_item <$> xs))
    (λ ps, ∃ txt items, ps = [mk_Pair R_definition_body txt items] ∧ Forall2 item_parses items xs) closes.
Proof.
  intros Hxs. eapply reads_ok.
  - apply reads_rule, (reads_many item_ok _ tokens_item item_pairs after_item closes);
      [apply item_advances|apply reads_item| | | |done].
    + by intros [r|p] ts' _.
    + by intros ts' (ts'' & ->).
    + intros ts' (ts'' & ->). by apply rejects_alt; apply rejects_rule, rejects_seq, rejects_lit.
  - intros ps (txt & inner & -> & pss & -> & Hall). eexists _, _. split; [done|]. by apply item_pairs_parse.
Qed.

Lemma reads_definition w :
  written_ok w →
  reads definition (tokens_written w) (yields R_definition parse_definition (defined_type w)) (λ _, True).
Proof.
  intros (Hname & Hitems & Hr & Hp). eapply yields_rule.
  - eapply (reads_seq _ _ [Sym "definition"]); [apply reads_lit| |done].
    eapply (reads_seq _ _ [Name (written_name w)]); [by apply reads_identifier| |done].
    eapply (reads_seq _ _ [Sym "{"]); [apply reads_lit| |done].
    eapply reads_seq; [by apply reads_body|apply reads_lit|]. intros ts' _. by exists ts'.
  - intros txt inner (a & b & -> & -> & a' & b' & -> & -> & c & d & -> & -> & e & f & -> & Hbody & ->).
    destruct Hbody as (btxt & items & -> & Hall). by apply parse_definition_of.
Qed.

Lemma written_wf w : written_ok w → wf_type (defined_type w).
Proof.
  intros (_ & Hitems & Hr & Hp). split; [done..|]. simpl. clear Hr Hp.
  induction Hitems as [|[r|p] xs [_ Hx] _ IH]; [constructor|done|]. by constructor.
Qed.

Lemma source_wf ws : source_ok ws → wf_schema (defined_schema ws).
Proof.
  intros [Hall Hnd]. split; simpl.
  - rewrite <-list_fmap_compose. done.
  - apply Forall_fmap. eapply Forall_impl; [exact Hall|]. apply written_wf.
Qed.

Lemma definition_advances : advances definition.
Proof.
  apply rule_advances, seq_advances_l; [apply lit_advances|].
  apply seq_no_grow; [apply skip_no_grow|].
  apply seq_no_grow; [apply advances_no_grow, identifier_advances|].
  apply seq_no_grow; [apply skip_no_grow|]. apply seq_no_grow; [apply advances_no_grow, lit_advances|].
  apply seq_no_grow; [apply skip_no_grow|]. apply seq_no_grow;
    [|apply seq_no_grow; [apply skip_no_grow|apply advances_no_grow, lit_advances]].
  apply rule_no_grow, many_no_grow, advances_no_grow, item_advances.
Qed.

Lemma reads_schema ws :
  source_ok ws →
  reads schema (tokens_source ws)
    (λ ps, parse_pairs ps [] ∅ = Ok (schema_types (defined_schema ws))) (λ ts, ts = []).
Proof.
  intros Hok. pose proof (source_wf ws Hok) as Hwf. destruct Hok as [Hws _].
  eapply reads_ok.
  - apply reads_rule.
    eapply (reads_seq SOI _ [] (tokens_source ws) (λ ps, ps = []) (λ ps, ∃ items eoi, ps = items ++ [eoi] ∧ as_rule eoi = R_EOI ∧
      Forall2 (λ p td, as_rule p = R_definition ∧ parse_definition p = Ok td) items (defined_type <$> ws))
      (λ _, True)); [| |done].
    + intros ts' i _ Hat. exists [], i. split_and!; [done|done|by apply at_tokens_laid].
    + rewrite <-(app_nil_r (tokens_source ws)). eapply reads_ok; [eapply (reads_seq _ _ _ []
        _ (λ ps, ps = [mk_Pair R_EOI EmptyString []])) |].
      * apply (reads_many written_ok definition tokens_written
          (λ w, yields R_definition parse_definition (defined_type w)) (λ _, True) (λ ts, ts = []));
          [apply definition_advances|apply reads_definition|done|done| |done].
        intros ts' -> i ->. done.
      * intros ts' i -> ->. exists [mk_Pair R_EOI EmptyString []], EmptyString.
        split_and!; [done|done|constructor; constructor].
      * done.
      * intros ps (a & b & -> & (pss & -> & Hall) & ->). eexists _, _. split_and!; [done|done|].
        by apply yields_list, Forall2_fmap_l.
  - intros ps (txt & inner & -> & a & b & -> & -> & items & eoi & -> & Heoi & Hitems).
    by apply (parse_pairs_of (defined_schema ws)).
Qed.
