(* ===== verification/GrammarSound.v ===== *)
(** * What an accepted text is

    Whatever a production of the grammar accepts is a layout of tokens, and
    when the tree walk takes the pairs to a construct, of the tokens of that
    construct. *)
From Stdlib Require Import Ascii.
From stdpp Require Import base tactics list strings sets gmap.
From S2P Require Import Prelude Numbers Schema Parser ParserSpec Grammar Peg Layout.

(** ** Repetition, from its result *)

Lemma star_inv p (R : list Pair → string → string → Prop) :
  (∀ i, R [] i i) → (∀ i a r b r', p i = Some (a, r) → R b r r' → R (a ++ b) i r') →
  ∀ i ps r, star p i = Some (ps, r) → R ps i r.
Proof.
  intros Hnil Hcons i ps r. unfold star. generalize (S (String.length i)). intros fuel [= H].
  revert i ps r H. induction fuel as [|fuel IH]; intros i ps r; simpl; [by intros [= <- <-]|].
  destruct (p i) as [[a r1]|] eqn:Hi; [|by intros [= <- <-]].
  destruct (rep fuel p r1) as [b r2] eqn:Hr. intros [= <- <-]. eauto.
Qed.

(** It goes on as long as it can. *)
Lemma star_stops p i ps r : advances p → star p i = Some (ps, r) → p r = None.
Proof.
  intros Hp. unfold star. assert (String.length i < S (String.length i)) as Hlen by lia. revert Hlen.
  generalize (S (String.length i)). intros fuel Hlen [= H]. revert i ps r Hlen H.
  induction fuel as [|fuel IH]; intros i ps r Hlen; [lia|]. simpl.
  destruct (p i) as [[a r1]|] eqn:Hi; [|by intros [= <- <-]].
  destruct (rep fuel p r1) as [b r2] eqn:Hr. intros [= <- <-]. apply Hp in Hi. eapply IH; [|done]. lia.
Qed.

(** ** What is skipped *)

Definition gap (i r : string) : Prop :=
  (∃ b, blank b ∧ i = b +:+ r) ∨ r = EmptyString ∧ laid_out [] i.

Lemma blank_app b b' : blank b → blank b' → blank (b +:+ b').
Proof.
  induction 1 as [|c b Hc _ IH|txt c b Htxt Hc _ IH]; intros Hb'; [done| |].
  - change (blank (String c (b +:+ b'))). constructor; auto.
  - rewrite !string_app_assoc. change (String c b +:+ b') with (String c (b +:+ b')). apply blank_comment; auto.
Qed.

Lemma blank_laid b ts i : blank b → laid_out ts i → laid_out ts (b +:+ i).
Proof.
  intros Hb Hl. destruct Hl as [b' Hb'|b' txt Hb' Htxt|b' t ts i Hb' Ht Ha Hl].
  - constructor. by apply blank_app.
  - rewrite <-string_app_assoc. constructor; [by apply blank_app|done].
  - rewrite <-string_app_assoc. constructor; [by apply blank_app|done..].
Qed.

Lemma gap_refl i : gap i i.
Proof. left. exists EmptyString. split; [constructor|done]. Qed.

Lemma gap_trans i j r : gap i j → gap j r → gap i r.
Proof.
  intros [(b & Hb & ->)|[-> Hi]].
  - intros [(b' & Hb' & ->)|[-> Hj]].
    + left. exists (b +:+ b'). split; [by apply blank_app|]. by rewrite string_app_assoc.
    + right. split; [done|]. by apply blank_laid.
  - intros [(b' & Hb' & Heq)|[-> _]]; right; [|done].
    destruct b' as [|c b']; [|done]. by rewrite Heq.
Qed.

Lemma newline_starts i ps r :
  NEWLINE i = Some (ps, r) → ps = [] ∧ ∃ b, blank b ∧ i = b +:+ r ∧ starts is_newline i = true.
Proof.
  assert (∀ n, is_newline (ascii_of_nat n) = true → is_space (ascii_of_nat n) = true) as Hsp
    by (intros n Hn; unfold is_space; by rewrite Hn, orb_true_r).
  unfold NEWLINE, alt. destruct (lit lf i) as [[a r1]|] eqn:H1.
  { apply lit_Some in H1 as [-> ->]. intros [= <- <-]. split; [done|]. exists lf. split_and!; [|done..].
    unfold lf. repeat constructor; by apply Hsp. }
  destruct (lit (cr +:+ lf) i) as [[a r1]|] eqn:H2.
  { apply lit_Some in H2 as [-> ->]. intros [= <- <-]. split; [done|]. exists (cr +:+ lf). split_and!; [|done..].
    unfold lf, cr. repeat constructor; by apply Hsp. }
  intros [-> ->]%lit_Some. split; [done|]. exists cr. split_and!; [|done..].
  unfold cr. repeat constructor; by apply Hsp.
Qed.

Lemma whitespace_blank i ps r : WHITESPACE i = Some (ps, r) → ps = [] ∧ ∃ b, blank b ∧ i = b +:+ r.
Proof.
  unfold WHITESPACE, alt. destruct (lit " " i) as [[a r1]|] eqn:H1.
  { apply lit_Some in H1 as [-> ->]. intros [= <- <-]. split; [done|]. exists " ". split; [|done].
    by repeat constructor. }
  destruct (lit tab i) as [[a r1]|] eqn:H2.
  { apply lit_Some in H2 as [-> ->]. intros [= <- <-]. split; [done|]. exists tab. split; [|done].
    unfold tab. by repeat constructor. }
  intros (-> & b & Hb & -> & _)%newline_starts. eauto.
Qed.

Lemma spaces_blank i ps r :
  star WHITESPACE i = Some (ps, r) →
  ps = [] ∧ ∃ b, blank b ∧ i = b +:+ r ∧ starts is_newline r = false.
Proof.
  intros H. assert (starts is_newline r = false) as Hr.
  { apply star_stops in H; [|apply whitespace_advances]. destruct r as [|c r]; [done|].
    destruct (starts is_newline (String c r)) eqn:Hc; [|done].
    destruct (whitespace_space c r) as (r' & Hr & _); [|by rewrite Hr in H].
    unfold is_space. simpl in Hc. by rewrite Hc, orb_true_r. }
  enough (ps = [] ∧ ∃ b, blank b ∧ i = b +:+ r) as (? & b & ? & ?) by eauto 6. revert H. clear Hr.
  revert i ps r. apply star_inv.
  - intros i. split; [done|]. exists EmptyString. split; [constructor|done].
  - intros i a r b r' (-> & x & Hx & ->)%whitespace_blank (-> & y & Hy & ->). split; [done|].
    exists (x +:+ y). split; [by apply blank_app|]. by rewrite string_app_assoc.
Qed.

Lemma comment_text i ps r :
  COMMENT i = Some (ps, r) →
  ps = [] ∧ ∃ txt, no_newline txt = true ∧ i = "//" +:+ txt +:+ r ∧
    starts (λ c, negb (is_newline c)) r = false.
Proof.
  unfold COMMENT. intros (a & b & r1 & [-> ->]%lit_Some & Hb & ->)%seq_Some. cbn [app].
  assert (starts (λ c, negb (is_newline c)) r = false) as Hr.
  { apply star_stops in Hb; [|apply seq_advances_r; [apply neg_no_grow|apply chr_advances]].
    destruct r as [|c r]; [done|]. simpl. destruct (is_newline c) eqn:Hc; [done|].
    unfold seq, neg in Hb. by rewrite not_newline in Hb. }
  enough (b = [] ∧ ∃ txt, no_newline txt = true ∧ r1 = txt +:+ r) as (-> & txt & ? & ->) by eauto 6.
  revert Hb. clear Hr. revert r1 b r. apply star_inv.
  - intros i. split; [done|]. by exists EmptyString.
  - intros i a r b r' (a1 & a2 & r1 & H1 & H2 & ->)%seq_Some (-> & txt & Htxt & ->).
    unfold neg in H1. destruct (NEWLINE i) eqn:Hn; [done|]. injection H1 as <- <-.
    destruct i as [|c i]; [done|]. injection H2 as <- ->. split; [done|]. exists (String c txt).
    split; [|done]. simpl. rewrite Htxt, andb_true_r. apply negb_true_iff.
    destruct (is_newline c) eqn:Hc; [|done]. destruct (newline_char c (txt +:+ r') Hc) as (? & Heq & _).
    by rewrite Heq in Hn.
Qed.

Lemma comment_gap i ps r : seq COMMENT (star WHITESPACE) i = Some (ps, r) → ps = [] ∧ gap i r.
Proof.
  intros (a & b & r1 & (-> & txt & Htxt & -> & Hr1)%comment_text & (-> & w & Hw & -> & Hr)%spaces_blank & ->)%seq_Some.
  split; [done|]. destruct w as [|c w].
  - change (EmptyString +:+ r) with r in Hr1 |- *. destruct r as [|c r].
    + right. split; [done|]. apply (laid_end_comment EmptyString); [constructor|]. by rewrite string_app_nil.
    + simpl in Hr, Hr1. by rewrite Hr in Hr1.
  - simpl in Hr1. apply negb_false_iff in Hr1. left. exists ("//" +:+ txt +:+ String c w). split.
    + apply blank_comment; [done..|]. inversion Hw as [|? ? ? Hb|? ? ? ? ? ? Heq]; subst; [done|]. by vm_compute in Hr1.
    + by rewrite !string_app_assoc.
Qed.

Lemma skip_gap i ps r : skip i = Some (ps, r) → ps = [] ∧ gap i r.
Proof.
  intros (a & b & r1 & (-> & w & Hw & -> & _)%spaces_blank & Hb & ->)%seq_Some. cbn [app].
  enough (b = [] ∧ gap r1 r) as [-> Hgap].
  { split; [done|]. eapply gap_trans; [left; by eauto|done]. }
  revert Hb. clear. revert r1 b r. apply star_inv.
  - intros i. split; [done|]. apply gap_refl.
  - intros i a r b r' [-> H1]%comment_gap [-> H2]. split; [done|]. by eapply gap_trans.
Qed.

(** ** Layouts with a rest *)

(** The tokens with blanks before them, up to the rest; blanks may follow the
    last one. *)
Inductive laid : list token → string → string → Prop :=
| laid_rest i r : gap i r → laid [] i r
| laid_next t ts i i' r :
    gap i (token_text t +:+ i') → token_ok t = true → apart t i' → laid ts i' r → laid (t :: ts) i r.

Lemma laid_gap ts i j r : gap i j → laid ts j r → laid ts i r.
Proof.
  intros Hij Hl. destruct Hl as [j r Hj|t ts j j' r Hj Ht Ha Hl].
  - constructor. by eapply gap_trans.
  - econstructor; [by eapply gap_trans|done..].
Qed.

Lemma laid_app ts1 ts2 i j r : laid ts1 i j → laid ts2 j r → laid (ts1 ++ ts2) i r.
Proof.
  induction 1 as [i j Hij|t ts i i' j Hi Ht Ha Hl IH]; intros Hj; [by eapply laid_gap|].
  econstructor; [done..|]. by apply IH.
Qed.

Lemma laid_one t r : token_ok t = true → apart t r → laid [t] (token_text t +:+ r) r.
Proof. intros Ht Ha. econstructor; [apply gap_refl|done..|]. constructor. apply gap_refl. Qed.

Lemma laid_laid_out ts i : laid ts i EmptyString → laid_out ts i.
Proof.
  remember EmptyString as r eqn:Hr. intros Hl.
  induction Hl as [i r [(b & Hb & ->)|[_ Hi]]|t ts i i' r [(b & Hb & ->)|[Hi _]] Ht Ha Hl IH]; subst.
  - rewrite string_app_nil. by constructor.
  - done.
  - constructor; auto.
  - exfalso. unfold token_ok in Ht. by destruct (token_text t).
Qed.

(** ** Expressions and what they accept *)

(** What [p] accepts is a layout of tokens [Q] relates to the pairs. *)
Definition tells (p : peg) (Q : list Pair → list token → Prop) : Prop :=
  ∀ i ps r, p i = Some (ps, r) → ∃ ts, Q ps ts ∧ laid ts i r.

Lemma tells_impl p (Q Q' : list Pair → list token → Prop) :
  tells p Q → (∀ ps ts, Q ps ts → Q' ps ts) → tells p Q'.
Proof. intros Hp HQ i ps r (ts & ? & ?)%Hp. eauto. Qed.

Lemma tells_lit t : token_ok (Sym t) = true → tells (lit t) (λ ps ts, ps = [] ∧ ts = [Sym t]).
Proof. intros Ht i ps r [-> ->]%lit_Some. exists [Sym t]. split; [done|]. by apply (laid_one (Sym t)). Qed.

Lemma tells_seq p q Q1 Q2 :
  tells p Q1 → tells q Q2 →
  tells (p ;~ q) (λ ps ts, ∃ a b ta tb, ps = a ++ b ∧ ts = ta ++ tb ∧ Q1 a ta ∧ Q2 b tb).
Proof.
  intros Hp Hq i ps r (a & b & r1 & (ta & Ha & Hla)%Hp &
    (x & y & r2 & [-> Hgap]%skip_gap & (tb & Hb & Hlb)%Hq & ->)%seq_Some & ->)%seq_Some.
  exists (ta ++ tb). split; [by exists a, y, ta, tb|]. eapply laid_app; [done|]. by eapply laid_gap.
Qed.

Lemma tells_alt p q Q1 Q2 : tells p Q1 → tells q Q2 → tells (alt p q) (λ ps ts, Q1 ps ts ∨ Q2 ps ts).
Proof.
  intros Hp Hq i ps r. unfold alt. destruct (p i) as [[a r1]|] eqn:Hi.
  - intros [= <- <-]. apply Hp in Hi as (ts & ? & ?). eauto.
  - intros (ts & ? & ?)%Hq. eauto.
Qed.

Lemma tells_opt p Q : tells p Q → tells (opt p) (λ ps ts, ps = [] ∧ ts = [] ∨ Q ps ts).
Proof.
  intros Hp i ps r. unfold opt. destruct (p i) as [[a r1]|] eqn:Hi; intros [= <- <-].
  - apply Hp in Hi as (ts & ? & ?). eauto.
  - exists []. split; [by left|]. constructor. apply gap_refl.
Qed.

Lemma tells_many p Q :
  tells p Q → tells (many p) (λ ps ts, ∃ pss tss, ps = concat pss ∧ ts = concat tss ∧ Forall2 Q pss tss).
Proof.
  intros Hp i ps r. unfold many, opt. destruct (seq p (star (seq skip p)) i) as [[a r1]|] eqn:Hi; intros [= <- <-].
  - apply seq_Some in Hi as (b & c & r2 & (tb & Hb & Hlb)%Hp & Hstar & ->).
    enough (∃ pss tss, c = concat pss ∧ Forall2 Q pss tss ∧ laid (concat tss) r2 r1)
      as (pss & tss & -> & Hall & Hl).
    { exists (tb ++ concat tss). split; [exists (b :: pss), (tb :: tss); by auto|]. by eapply laid_app. }
    revert Hstar. clear -Hp. revert r2 c r1. apply star_inv.
    + intros i. exists [], []. split_and!; [done|constructor|]. constructor. apply gap_refl.
    + intros i a r b r' (x & y & r1 & [-> Hgap]%skip_gap & (ty & Hy & Hl)%Hp & ->)%seq_Some
        (pss & tss & -> & Hall & Hlr). exists (y :: pss), (ty :: tss). split_and!; [done|by constructor|].
      cbn [concat]. eapply laid_app; [|done]. by eapply laid_gap.
  - exists []. split; [by exists [], []|]. constructor. apply gap_refl.
Qed.

Lemma tells_rule name p Q :
  tells p Q → tells (rule name p) (λ ps ts, ∃ txt inner, ps = [mk_Pair name txt inner] ∧ Q inner ts).
Proof. intros Hp i ps r ([inner r1] & (ts & ? & ?)%Hp & [= <- <-])%bind_Some. eauto 7. Qed.

(** ** The productions *)

Lemma alpha_token c x : is_alpha c = true → token_ok (Name (String c x)) = true.
Proof.
  intros Hc. unfold token_ok. cbn [token_text starts].
  assert (is_space c = false) as ->.
  { unfold is_alpha, in_range, is_space, is_newline in *.
    apply not_true_iff_false. rewrite !orb_true_iff, !Nat.eqb_eq.
    rewrite orb_true_iff, !andb_true_iff, !Nat.leb_le in Hc. lia. }
  assert (Ascii.eqb "/" c = false) as -> by (apply Ascii.eqb_neq; intros <-; by vm_compute in Hc). done.
Qed.

Lemma tells_identifier :
  tells identifier (λ ps ts, ∃ x, valid_ident x = true ∧ ps = [ident x] ∧ ts = [Name x]).
Proof.
  assert (advances (alt ASCII_ALPHANUMERIC (lit "_"))) as Hadv
    by (apply alt_advances; [apply chr_advances|apply lit_advances]).
  assert (∀ c i, alt ASCII_ALPHANUMERIC (lit "_") (String c i) = if ident_char c then Some ([], i) else None) as Hone.
  { intros c i. unfold alt, ASCII_ALPHANUMERIC, chr, ident_char, lit.
    destruct (is_alphanumeric c); [done|]. cbn [strip_prefix orb].
    destruct (Ascii.eqb_spec "_" c) as [<-|Hc]; [done|]. by rewrite bool_decide_false. }
  intros i ps r ([inner r'] & (a & b & r1 & Hc & Hb & ->)%seq_Some & [= <- <-])%bind_Some.
  destruct i as [|c i]; [done|]. unfold ASCII_ALPHA, chr in Hc. destruct (is_alpha c) eqn:Halpha; [|done].
  injection Hc as <- <-. pose proof (star_stops _ _ _ _ Hadv Hb) as Hstop.
  assert (starts ident_char r' = false) as Hr.
  { destruct r' as [|c' r']; [done|]. rewrite Hone in Hstop. simpl. by destruct (ident_char c'). }
  enough (b = [] ∧ ∃ x, forallb ident_char (String.list_ascii_of_string x) = true ∧ i = x +:+ r')
    as (-> & x & Hx & ->).
  { change (String c (x +:+ r')) with (String c x +:+ r'). rewrite consumed_app.
    exists [Name (String c x)]. split.
    - exists (String c x). split_and!; [|done..]. simpl. by rewrite Halpha, Hx.
    - apply (laid_one (Name (String c x))); [by apply alpha_token|done]. }
  revert Hb. clear -Hone. revert i b r'. apply star_inv.
  - intros i. split; [done|]. by exists EmptyString.
  - intros [|c i] a r b r' Hc (-> & x & Hx & ->); [done|]. rewrite Hone in Hc.
    destruct (ident_char c) eqn:Hid; [|done]. injection Hc as <- ->. split; [done|].
    exists (String c x). split; [|done]. simpl. by rewrite Hid, Hx.
Qed.

(** A production with one pair of shape [shaped], whose tokens are good for what
    the walk [f] makes of it. *)
Definition reads_as {A} (shaped : Pair → Prop) (f : Pair → result ParseError A) (good : A → list token → Prop)
    (ps : list Pair) (ts : list token) : Prop :=
  ∃ q, ps = [q] ∧ shaped q ∧ ∀ x, f q = Ok x → good x ts.

Definition good_term (r : RewriteRule) (ts : list token) : Prop :=
  is_term r ∧ term_names r = true ∧ ts = tokens_term r.

Lemma tells_term : tells permission_term (reads_as is_permission_term parse_permission_term good_term).
Proof.
  eapply tells_impl.
  { apply tells_rule, tells_alt; [|apply tells_identifier]. apply tells_rule.
    apply tells_seq; [apply tells_identifier|].
    apply tells_seq; [by apply tells_lit|apply tells_identifier]. }
  intros ps ts (txt & inner & -> & [(txt' & inner' & -> & Harrow)|(x & Hx & -> & ->)]).
  - destruct Harrow as (a & b & ta & tb & -> & -> & (x & Hx & -> & ->) &
      (a' & b' & ta' & tb' & -> & -> & [-> ->] & (y & Hy & -> & ->))).
    eexists. split_and!; [done|split; [done|]; eexists; split; [done|]; left; split; [done|]; by eexists _, _|].
    intros r [= <-]. split_and!; [done| |done]. simpl. by rewrite Hx, Hy.
  - eexists. split_and!; [done|split; [done|]; eexists; by split; [|right]|].
    intros r [= <-]. by split_and!.
Qed.

Lemma tells_op :
  tells permission_op (λ ps ts, ∃ op txt, ps = [mk_Pair op txt []] ∧ ts = [Sym (text_op op)] ∧
    op ∈ [R_union_op; R_intersection_op; R_exclusion_op]).
Proof.
  eapply tells_impl.
  - apply tells_alt; [|apply tells_alt]; by apply tells_rule, tells_lit.
  - intros ps ts [(txt & inner & -> & -> & ->)|[(txt & inner & -> & -> & ->)|(txt & inner & -> & -> & ->)]];
      eexists _, txt; (split_and!; [done|done|set_solver]).
Qed.

(** The operators and operands of an expression, with their tokens. *)
Definition good_operands (ps : list Pair) (ts : list token) : Prop :=
  ops_terms ps ∧ ∀ ots, parse_ops_and_terms ps = Ok ots →
    Forall (λ '(op, r), op ∈ [R_union_op; R_intersection_op; R_exclusion_op] ∧ is_term r ∧ term_names r = true) ots ∧
    ts = concat ((λ '(op, r), tokens_operand op r) <$> ots).

Lemma tells_operands : tells (many (permission_op ;~ permission_term)) good_operands.
Proof.
  eapply tells_impl; [apply tells_many, tells_seq; [apply tells_op|apply tells_term]|].
  intros ps ts (pss & tss & -> & -> & Hall).
  induction Hall as [|p t pss tss Hpt _ [IH1 IH2]].
  { split; [constructor|]. by intros ots [= <-]. }
  destruct Hpt as (a & b & ta & tb & -> & -> & (op & txt & -> & -> & Hop) & (q & -> & Hq & Hgood)).
  split; [by constructor|]. cbn [concat app parse_ops_and_terms].
  intros ots (r & Hr & (more & Hmore & [= <-])%try_Ok)%try_Ok. apply IH2 in Hmore as [Hm ->].
  apply Hgood in Hr as (? & ? & ->). split; [by constructor|done].
Qed.

Lemma one_operator (o : Rule) (ots : list (Rule * RewriteRule)) :
  existsb (λ '(op, _), negb (bool_decide (op = o))) ots = false → ots = (o,.) <$> ots.*2.
Proof.
  induction ots as [|[op r] ots IH]; [done|]. cbn [existsb]. rewrite orb_false_iff, negb_false_iff.
  intros [->%bool_decide_eq_true H]. rewrite !fmap_cons. cbn [snd]. by rewrite <-IH.
Qed.

Definition good_rule (r : RewriteRule) (ts : list token) : Prop :=
  flat_rule r ∧ rule_names r = true ∧ ts = tokens_rule r.

Lemma term_rule r ts : good_term r ts → good_rule r ts.
Proof.
  intros (Hr & Hn & ->). destruct r; try done; (split_and!; [done|by apply andb_true_iff|done]).
Qed.

(** The operands of the rule the walk builds. *)
Lemma operands_rule first op rest r :
  is_term first → term_names first = true → rest ≠ [] →
  Forall (λ r, is_term r ∧ term_names r = true) rest →
  match op with
  | R_union_op => r = Union (first :: rest)
  | R_intersection_op => r = Intersection (first :: rest)
  | R_exclusion_op => ∃ subtract, rest = [subtract] ∧ r = Exclusion first subtract
  | _ => False
  end →
  good_rule r (tokens_term first ++ concat (tokens_operand op <$> rest)).
Proof.
  intros Hf Hfn Hne Hrest Hr.
  assert (Forall is_term rest ∧ forallb term_names rest = true) as [Hterms Hnames].
  { clear Hne Hr. induction Hrest as [|x xs [Hx Hxn] _ [IH1 IH2]]; [done|].
    split; [by constructor|]. cbn [forallb]. by rewrite Hxn, IH2. }
  destruct op; try done.
  3: destruct Hr as (subtract & -> & ->).
  1-2: subst r.
  all: split_and!; [|unfold rule_names; simpl in *; by rewrite Hfn, Hnames|done].
  1-2: split; [destruct rest; [done|simpl; lia]|by constructor].
  split; [done|]. by inversion Hterms.
Qed.

Lemma tells_expr : tells permission_expr (reads_as is_permission_expr parse_permission_expr good_rule).
Proof.
  eapply tells_impl; [apply tells_rule, tells_seq; [apply tells_term|apply tells_operands]|].
  intros ps ts (txt & inner & -> & a & b & ta & tb & -> & -> & (q & -> & Hq & Hgood) & [Hops Hrest]).
  eexists. split_and!; [done|split; [done|]; by eexists _, _|].
  unfold parse_permission_expr. cbn [into_inner next_or try app]. intros r H.
  apply try_Ok in H as (first & Hfirst & (ots & Hots & H)%try_Ok).
  apply Hgood in Hfirst as Hterm. apply Hrest in Hots as [Hall ->].
  destruct ots as [|[op r1] others]; [injection H as <-; rewrite app_nil_r; by apply term_rule|].
  destruct (existsb _ _) eqn:Hsame in H; [done|]. apply one_operator in Hsame as Heq.
  set (rest := ((op, r1) :: others).*2) in *.
  assert (Forall (λ r, is_term r ∧ term_names r = true) rest) as Hterms.
  { apply Forall_fmap. eapply Forall_impl; [exact Hall|]. by intros [? ?] (_ & ? & ?). }
  assert (((λ '(op, r), tokens_operand op r) <$> (op, r1) :: others) = tokens_operand op <$> rest) as ->.
  { rewrite Heq, <-list_fmap_compose. done. }
  destruct Hterm as (Hf & Hfn & ->). apply Forall_cons in Hall as [(Hop & _) _].
  assert (rest ≠ []) as Hne by done.
  destruct op; simpl in H; try done; try injection H as <-;
    try (apply operands_rule; [done..|]; done).
  destruct others as [|]; [|done]. injection H as <-. apply operands_rule; [done..|]. by eexists.
Qed.

Definition good_item (x : body_item) (ts : list token) : Prop := item_ok x ∧ ts = tokens_item x.

Lemma tells_permission :
  tells permission_def (reads_as is_permission_def parse_permission_def (good_item ∘ inr)).
Proof.
  eapply tells_impl.
  { apply tells_rule, tells_seq; [by apply tells_lit|]. apply tells_seq; [apply tells_identifier|].
    apply tells_seq; [by apply tells_lit|apply tells_expr]. }
  intros ps ts (txt & inner & -> & a1 & b1 & ta1 & tb1 & -> & -> & [-> ->] & a2 & b2 & ta2 & tb2 & -> & -> &
    (x & Hx & -> & ->) & a3 & b3 & ta3 & tb3 & -> & -> & [-> ->] & (e & -> & He & Hgood)).
  eexists. split_and!; [done|split; [done|]; by eexists _, _|].
  unfold parse_permission_def. cbn [into_inner next_or try app ident as_str].
  intros p (r & (Hr & Hn & ->)%Hgood & [= <-])%try_Ok. split; [|done]. split; [|done].
  unfold item_names, permission_names. simpl. by rewrite Hx, Hn.
Qed.

Definition good_subject_type (s : SubjectTypeRef) (ts : list token) : Prop :=
  subject_type_names s = true ∧ ts = tokens_subject_type s.

Lemma tells_subject_type :
  tells subject_type_ref (reads_as is_subject_type_ref parse_subject_type_ref good_subject_type).
Proof.
  eapply tells_impl.
  { apply tells_rule, tells_seq; [apply tells_identifier|]. apply tells_opt.
    apply tells_seq; [by apply tells_lit|apply tells_identifier]. }
  intros ps ts (txt & inner & -> & a4 & b4 & ta4 & tb4 & -> & -> & (x & Hx & -> & ->) & Hb).
  destruct Hb as [[-> ->]|(a5 & b5 & ta5 & tb5 & -> & -> & [-> ->] & (y & Hy & -> & ->))]; eexists;
    (split_and!; [done|split; [done|]; eexists _, _; split_and!; [done|done| |simpl; lia]|]);
    [constructor| |by constructor|].
  - intros s [= <-]. split; [|done]. unfold subject_type_names. simpl. by rewrite Hx.
  - intros s [= <-]. split; [|done]. unfold subject_type_names. simpl. by rewrite Hx, Hy.
Qed.

Definition good_subject_types (l : list SubjectTypeRef) (ts : list token) : Prop :=
  l ≠ [] ∧ forallb subject_type_names l = true ∧ ts = tokens_subject_types l.

Lemma tells_subject_types :
  tells subject_type_list (reads_as is_subject_type_list
    (λ p, collect_results parse_subject_type_ref (into_inner p)) good_subject_types).
Proof.
  eapply tells_impl.
  { apply tells_rule, tells_seq; [apply tells_subject_type|]. apply tells_many.
    apply tells_seq; [by apply tells_lit|apply tells_subject_type]. }
  intros ps ts (txt & inner & -> & a6 & b6 & ta6 & tb6 & -> & -> & (q & -> & Hq & Hgood) & (pss & tss & -> & -> & Hall)).
  assert (Forall is_subject_type_ref (concat pss) ∧
    ∀ l, collect_results parse_subject_type_ref (concat pss) = Ok l → forallb subject_type_names l = true ∧
      concat tss = concat ((λ s, Sym "|" :: tokens_subject_type s) <$> l)) as [Hshape Hrest].
  { clear -Hall. induction Hall as [|ps ts pss tss Hpt _ [IH1 IH2]]; [split; [constructor|by intros l [= <-]]|].
    destruct Hpt as (a7 & b7 & ta7 & tb7 & -> & -> & [-> ->] & (p & -> & Hp & Hgood)).
    split; [by constructor|]. cbn [concat app collect_results].
    intros l (s & [Hn ->]%Hgood & (l' & [Hns ->]%IH2 & [= <-])%try_Ok)%try_Ok. split; [|done].
    cbn [forallb]. by rewrite Hn, Hns. }
  eexists. split_and!; [done|split_and!; [done|done|by constructor]|].
  cbn [into_inner app collect_results].
  intros l (s & [Hn ->]%Hgood & (l' & [Hns ->]%Hrest & [= <-])%try_Ok)%try_Ok. split_and!; [done| |done].
  cbn [forallb]. by rewrite Hn, Hns.
Qed.

Lemma tells_relation : tells relation_def (reads_as is_relation_def parse_relation_def (good_item ∘ inl)).
Proof.
  eapply tells_impl.
  { apply tells_rule, tells_seq; [by apply tells_lit|]. apply tells_seq; [apply tells_identifier|].
    apply tells_seq; [by apply tells_lit|apply tells_subject_types]. }
  intros ps ts (txt & inner & -> & a8 & b8 & ta8 & tb8 & -> & -> & [-> ->] & a9 & b9 & ta9 & tb9 & -> & -> &
    (x & Hx & -> & ->) & a10 & b10 & ta10 & tb10 & -> & -> & [-> ->] & (e & -> & He & Hgood)).
  eexists. split_and!; [done|split; [done|]; by eexists _, _|].
  unfold parse_relation_def. cbn [into_inner next_or try app ident as_str].
  intros p (l & (Hl & Hn & ->)%Hgood & [= <-])%try_Ok. split; [|done]. split; [|done].
  unfold item_names, relation_names. simpl. by rewrite Hx, Hn.
Qed.

(** The pairs of a body, with their tokens. *)
Definition is_item (p : Pair) : Prop := is_relation_def p ∨ is_permission_def p.

Definition good_items (ps : list Pair) (ts : list token) : Prop :=
  Forall is_item ps ∧ ∀ xs, Forall2 item_parses ps xs → Forall item_ok xs ∧ ts = concat (tokens_item <$> xs).

Lemma tells_items : tells (many (alt relation_def permission_def)) good_items.
Proof.
  eapply tells_impl; [apply tells_many, tells_alt; [apply tells_relation|apply tells_permission]|].
  intros ps ts (pss & tss & -> & -> & Hall). induction Hall as [|ps ts pss tss Hpt _ [IH1 IH2]].
  { split; [constructor|]. intros xs ->%Forall2_nil_inv_l. by split. }
  assert (∃ q, ps = [q] ∧ is_item q ∧ ∀ x, item_parses q x → good_item x ts) as (q & -> & Hq & Hgood).
  { destruct Hpt as [(q & -> & Hq & Hgood)|(q & -> & Hq & Hgood)]; exists q;
      (split_and!; [done|by (left + right)|]); destruct Hq as [Hrule _]; intros [r|p] [Hr Hx];
      try congruence; by apply Hgood. }
  split; [by constructor|]. cbn [concat app]. intros xs (x & xs' & Hx & Hxs & ->)%Forall2_cons_inv_l.
  apply Hgood in Hx as [Hok ->]. apply IH2 in Hxs as [Hoks ->]. by split; [constructor|].
Qed.

(** What the body loop collects comes from its items. *)
Lemma parse_body_items_inverse name items rels perms sr sp rels' perms' :
  Forall is_item items →
  parse_body_items name items rels perms sr sp = Ok (rels', perms') →
  ∃ xs, Forall2 item_parses items xs ∧ rels' = rels ++ item_relations xs ∧ perms' = perms ++ item_permissions xs.
Proof.
  intros Hitems. revert rels perms sr sp.
  induction Hitems as [|q items [Hq|Hq] _ IH]; intros rels perms sr sp; cbn [parse_body_items].
  - intros [= <- <-]. exists []. by rewrite !app_nil_r.
  - pose proof (proj1 Hq) as Hrule. rewrite Hrule. intros (r & Hr & H)%try_Ok.
    destruct (bool_decide _); [done|]. apply IH in H as (xs & Hxs & -> & ->). exists (inl r :: xs).
    split; [by constructor|]. by rewrite <-app_assoc.
  - pose proof (proj1 Hq) as Hrule. rewrite Hrule. intros (r & Hr & H)%try_Ok.
    destruct (bool_decide _); [done|]. apply IH in H as (xs & Hxs & -> & ->). exists (inr r :: xs).
    split; [by constructor|]. by rewrite <-app_assoc.
Qed.

Definition good_definition (td : TypeDefinition) (ts : list token) : Prop :=
  ∃ w, td = defined_type w ∧ written_ok w ∧ ts = tokens_written w.

Lemma tells_definition : tells definition (reads_as is_definition parse_definition good_definition).
Proof.
  eapply tells_impl.
  { apply tells_rule, tells_seq; [by apply tells_lit|]. apply tells_seq; [apply tells_identifier|].
    apply tells_seq; [by apply tells_lit|]. apply tells_seq; [apply tells_rule, tells_items|by apply tells_lit]. }
  intros ps ts (txt & inner & -> & a11 & b11 & ta11 & tb11 & -> & -> & [-> ->] & a12 & b12 & ta12 & tb12 & -> & -> &
    (x & Hx & -> & ->) & a13 & b13 & ta13 & tb13 & -> & -> & [-> ->] & a14 & b14 & ta14 & tb14 & -> & -> &
    (btxt & items & -> & [Hitems Hgood]) & [-> ->]).
  eexists. split_and!; [done|split; [done|]; by eexists _, _|].
  intros td Htd. apply parse_definition_wf in Htd as Hwf.
  unfold parse_definition in Htd. cbn [into_inner next_or try app ident as_str] in Htd.
  apply try_Ok in Htd as ([rels perms] & H & [= <-]).
  apply parse_body_items_inverse in H as (xs & Hxs & -> & ->); [|done].
  apply Hgood in Hxs as [Hok ->]. destruct Hwf as [Hr Hp _].
  exists (mk_Written x xs). split_and!; [done| |done]. by split_and!.
Qed.
