(* ===== verification/GrammarTheorems.v ===== *)
(** * What the language of schemas is

    A text is accepted with a schema as its result exactly if it lays out the
    tokens of definitions that make up this schema; the syntax errors are
    exactly the texts outside the grammar. *)
From Stdlib Require Import Ascii.
From stdpp Require Import base tactics list strings sets gmap.
From S2P Require Import Prelude Numbers Schema Parser ParserSpec Grammar Peg Layout GrammarSound.

(** ** From an accepted text to its definitions *)

Lemma parse_definitions_inverse ds eoi types seen types' seen' :
  Forall is_definition ds → as_rule eoi = R_EOI →
  parse_definitions (ds ++ [eoi]) types seen = Ok (types', seen') →
  ∃ tds, Forall2 (λ p td, parse_definition p = Ok td) ds tds ∧ types' = types ++ tds.
Proof.
  intros Hds Heoi. revert types seen. induction Hds as [|d ds Hd _ IH]; intros types seen; cbn [app parse_definitions].
  - rewrite Heoi, bool_decide_eq_false_2 by done. intros [= <- <-]. exists []. by rewrite app_nil_r.
  - rewrite bool_decide_eq_true_2 by apply Hd. intros (td & Htd & H)%try_Ok.
    destruct (bool_decide _); [done|]. apply IH in H as (tds & Htds & ->). exists (td :: tds).
    split; [by constructor|]. by rewrite <-app_assoc.
Qed.

(** The pairs of the definitions of a text, with their tokens. *)
Definition good_definitions (ps : list Pair) (ts : list token) : Prop :=
  Forall is_definition ps ∧ ∀ tds, Forall2 (λ p td, parse_definition p = Ok td) ps tds →
    ∃ ws, tds = defined_type <$> ws ∧ Forall written_ok ws ∧ ts = tokens_source ws.

Lemma tells_definitions : tells (many definition) good_definitions.
Proof.
  eapply tells_impl; [apply tells_many, tells_definition|].
  intros ps ts (pss & tss & -> & -> & Hall). induction Hall as [|ps ts pss tss Hpt _ [IH1 IH2]].
  { split; [constructor|]. intros tds ->%Forall2_nil_inv_l. exists []. by split_and!. }
  destruct Hpt as (q & -> & Hq & Hgood). split; [by constructor|]. cbn [concat app].
  intros tds (td & tds' & Htd & Htds & ->)%Forall2_cons_inv_l.
  apply Hgood in Htd as (w & -> & Hw & ->). apply IH2 in Htds as (ws & -> & Hws & ->).
  exists (w :: ws). by split_and!; [|constructor|].
Qed.

Lemma grammar_parse_tells text pairs :
  grammar_parse text = Some pairs →
  is_schema_output pairs ∧ ∀ tds, parse_pairs pairs [] ∅ = Ok tds →
    ∃ ws, tds = defined_type <$> ws ∧ source_ok ws ∧ laid_out (tokens_source ws) text.
Proof.
  unfold grammar_parse. destruct (schema text) as [[ps r]|] eqn:Hi; simpl; [|done]. intros [= <-].
  apply bind_Some in Hi as ([inner r'] & Hi & [= <- <-]).
  apply seq_Some in Hi as (? & b & r1 & [= <- <-] & Hi & ->).
  apply seq_Some in Hi as (? & ps & r2 & [-> Hgap]%skip_gap & Hi & ->).
  apply seq_Some in Hi as (ds & e & r3 & (ts & [Hds Hgood] & Hl)%tells_definitions & Hi & ->).
  apply seq_Some in Hi as (? & eoi & r4 & [-> Hgap2]%skip_gap & Heoi & ->). cbn [app].
  destruct r4 as [|]; [|done]. injection Heoi as <- <-.
  split; [by eexists _, _, _|]. intros tds Htds.
  assert (wf_schema (mk_Schema tds)) as [Hnd _]
    by (eapply (parse_pairs_inv _ [] ∅); [reflexivity|split; constructor|exact Htds]).
  cbn [parse_pairs as_rule into_inner] in Htds. rewrite bool_decide_eq_true_2 in Htds by done.
  apply try_Ok in Htds as ([types seen] & H & [= <-]).
  apply parse_definitions_inverse in H as (tds' & Htds & ->); [|done..].
  apply Hgood in Htds as (ws & -> & Hws & ->). exists ws. split_and!; [done| |].
  - split; [done|]. simpl in Hnd. by rewrite <-list_fmap_compose in Hnd.
  - apply laid_laid_out. eapply laid_gap; [done|].
    rewrite <-(app_nil_r (tokens_source ws)). eapply laid_app; [done|]. by constructor.
Qed.

Lemma layouts_parse pest_parse ws text :
  pest_follows pest_parse → source_ok ws → laid_out (tokens_source ws) text →
  parse_schema pest_parse text = Ok (defined_schema ws).
Proof.
  intros Hpest Hok Hl. specialize (Hpest text).
  assert (∃ ps, grammar_parse text = Some ps ∧ parse_pairs ps [] ∅ = Ok (schema_types (defined_schema ws)))
    as (ps & Hps & Hpairs).
  { unfold grammar_parse, schema, rule, seq at 1. cbn [SOI mbind option_bind].
    apply skip_laid in Hl as (i & Hskip & Hat).
    rewrite <-(app_nil_r (tokens_source ws)) in Hat.
    destruct (reads_schema ws Hok [] i eq_refl Hat) as (ps & r & Hi & Hpairs & _).
    unfold schema, rule in Hi. apply bind_Some in Hi as ([inner r1] & Hseq & [= <- <-]).
    assert (skip i = Some ([], i)) as Hi.
    { rewrite app_nil_r in Hat. destruct (at_tokens_stop _ _ Hat). by apply skip_stop. }
    unfold seq at 1 in Hseq. cbn [SOI mbind option_bind] in Hseq.
    unfold seq at 1 in Hseq. rewrite Hi in Hseq. cbn [mbind option_bind] in Hseq.
    unfold seq at 1. rewrite Hskip. cbn [mbind option_bind].
    destruct ((many definition ;~ EOI) i) as [[b r2]|]; [|done]. cbn [mbind option_bind] in *.
    injection Hseq as <- <-. cbn [fmap option_fmap option_map fst]. eexists. split; [done|].
    cbn [parse_pairs as_rule into_inner app] in *. exact Hpairs. }
  rewrite Hps in Hpest. unfold parse_schema. rewrite Hpest. cbn [map_err try]. by rewrite Hpairs.
Qed.

(** ** The theorems *)

(** C29: The language of schemas: [parse_schema] answers the schema [s] for a
    text exactly if the text lays out, with any spaces, tabs, line breaks and
    comments between the tokens, definitions that make up [s] -- the relations
    and permissions of a type in the order of [s], the two kinds interleaved in
    any way, every name an identifier, a subject type for every relation, one
    operator in every rule, and no name defined twice. *)
Theorem parse_schema_language pest_parse text s :
  pest_follows pest_parse →
  (parse_schema pest_parse text = Ok s ↔
   ∃ ws, s = defined_schema ws ∧ source_ok ws ∧ laid_out (tokens_source ws) text).
Proof.
  intros Hpest. split.
  - intros Hs. apply parse_schema_Ok in Hs as (ps & Hps & Htypes).
    specialize (Hpest text). destruct (grammar_parse text) as [pairs|] eqn:Hg.
    + rewrite Hpest in Hps. injection Hps as ->. apply grammar_parse_tells in Hg as [_ Hg].
      apply Hg in Htypes as (ws & Htypes & Hok & Hl). exists ws. split_and!; [|done..]. destruct s; simpl in *; by subst.
    + destruct Hpest as (msg & Hpest). by rewrite Hpest in Hps.
  - intros (ws & -> & Hok & Hl). by apply layouts_parse.
Qed.

(** C30: The syntax errors of [parse_schema] are exactly the texts outside the
    grammar: no text of the language is refused as malformed, whichever tree it
    has, and none outside is accepted or refused for another reason. *)
Theorem syntax_errors_exact pest_parse text :
  pest_follows pest_parse →
  ((∃ m, parse_schema pest_parse text = Err (Syntax m)) ↔ grammar_parse text = None).
Proof.
  intros Hpest. specialize (Hpest text). unfold parse_schema.
  destruct (grammar_parse text) as [pairs|] eqn:Hg.
  - rewrite Hpest. cbn [map_err try]. apply grammar_parse_tells in Hg as [Hg _]. apply grammar_schema in Hg. split; [|done].
    intros (m & H). apply try_Err in H as [H|(? & ? & ?)]; [by apply Hg in H|done].
  - destruct Hpest as (msg & ->). cbn [map_err try]. split; [done|]. by exists msg.
Qed.

(** A parser that answers what the grammar says. *)
Definition grammar_pest : pest_parser := λ text,
  match grammar_parse text with Some pairs => Ok pairs | None => Err "expected definition" end.

Lemma grammar_pest_follows : pest_follows grammar_pest.
Proof. intros text. unfold grammar_pest. destruct (grammar_parse text); [done|by eexists]. Qed.

(** Tokens, each with the blanks before it. *)
Definition lay (l : list (string * token)) (last : string) : string :=
  foldr (λ '(b, t) rest, b +:+ token_text t +:+ rest) last l.

(** The permission is written between the relations, and nothing is between
    [definition] and [user]. *)
Definition note_layout : list (string * token) :=
  [("// people" +:+ lf, Sym "definition"); ("", Name "user"); ("", Sym "{"); ("", Sym "}");
   (lf +:+ tab, Sym "definition"); ("  ", Name "note"); ("", Sym "{");
   (lf, Sym "relation"); (" ", Name "owner"); ("", Sym ":"); ("", Name "user"); ("", Sym "|"); (" ", Name "team");
   (" ", Sym "#"); ("", Name "member");
   (" ", Sym "permission"); (" ", Name "view"); ("", Sym "="); ("", Name "owner"); ("", Sym "->");
   (" ", Name "view"); (" // less" +:+ lf, Sym "-"); ("", Name "banned");
   (lf, Sym "relation"); (" ", Name "banned"); (" ", Sym ":"); ("", Name "user"); ("", Sym "}")].

Definition note_source : list Written :=
  [mk_Written "user" [];
   mk_Written "note"
     [inl (mk_RelationDef "owner" [mk_SubjectTypeRef "user" None; mk_SubjectTypeRef "team" (Some "member")]);
      inr (mk_PermissionDef "view" (Exclusion (Arrow "owner" "view") (This "banned")));
      inl (mk_RelationDef "banned" [mk_SubjectTypeRef "user" None])]].

Lemma note_source_ok : source_ok note_source.
Proof.
  split; [|by apply (bool_decide_unpack _); vm_compute].
  repeat constructor; try done; by (apply (bool_decide_unpack _); vm_compute).
Qed.

Lemma note_laid_out : laid_out (tokens_source note_source) (lay note_layout " // end").
Proof.
  change (tokens_source note_source) with note_layout.*2. unfold note_layout. cbn [lay foldr fmap list_fmap snd].
  repeat (apply laid_token;
    [solve [ repeat (apply blank_space; [reflexivity|]);
             first [ apply blank_nil
                   | apply (blank_comment " people" (ascii_of_nat 10) ""); [done..|apply blank_nil]
                   | apply (blank_comment " less" (ascii_of_nat 10) ""); [done..|apply blank_nil] ] ]
    | reflexivity
    | first [exact I|reflexivity] |]).
  apply (laid_end_comment " " " end"); [|reflexivity].
  apply blank_space; [reflexivity|apply blank_nil].
Qed.

Lemma parse_schema_language_witness :
  parse_schema grammar_pest (lay note_layout " // end") = Ok (defined_schema note_source).
Proof.
  apply (parse_schema_language grammar_pest (lay note_layout " // end") (defined_schema note_source));
    [apply grammar_pest_follows|].
  exists note_source. split; [reflexivity|]. split; [apply note_source_ok|apply note_laid_out].
Defined.

Lemma syntax_errors_exact_witness :
  ∃ m, parse_schema grammar_pest "definition user { relation }" = Err (Syntax m).
Proof.
  apply (syntax_errors_exact grammar_pest "definition user { relation }"); [apply grammar_pest_follows|].
  vm_compute. reflexivity.
Defined.
