(* ===== verification/Engine.v ===== *)
(** * The engine's effects ([crates/kraalzibar-core/src/engine/mod.rs])

    Check and expand are [async] functions whose only effect is
    [TupleReader::read_tuples] and whose errors are [CheckError]s.  They are
    modelled as programs of an inductive free monad: a program is done with a
    [Result], or reads tuples and goes on with what the reader answers.  The
    reader is not part of a program, so the same program is run against any
    reader ([run]) and under any interleaving with other requests ([exec]). *)
From stdpp Require Import base tactics list strings relations.
From S2P Require Import Prelude Tuples.

Inductive CheckError :=
| TypeNotFound (type_name : string)
| PermissionNotFound (type_name permission : string)
| RelationNotFound (type_name relation : string)
| MaxDepthExceeded (depth : nat)
| StorageError (msg : string).

#[export] Instance CheckError_eq_dec : EqDecision CheckError.
Proof. solve_decision. Defined.

Record EngineConfig := mk_EngineConfig { max_depth : nat; max_concurrent_branches : nat }.

Definition engine_config_default : EngineConfig := mk_EngineConfig 6 10.

(** The trait [TupleReader]: what one call of [read_tuples] answers. *)
Abbreviation TupleReader :=
  (TupleFilter → option SnapshotToken → result CheckError (list Tuple)).

(** ** Programs *)

Inductive prog (A : Type) : Type :=
| Done (r : result CheckError A)
| Read (filter : TupleFilter) (snapshot : option SnapshotToken)
       (k : result CheckError (list Tuple) → prog A).
Arguments Done {A} r.
Arguments Read {A} filter snapshot k.

Definition ret {A} (a : A) : prog A := Done (Ok a).
Definition throw {A} (e : CheckError) : prog A := Done (Err e).

(** [p.await?] followed by [f] *)
Fixpoint bind {A B} (p : prog A) (f : A → prog B) : prog B :=
  match p with
  | Done (Ok a) => f a
  | Done (Err e) => Done (Err e)
  | Read filter snapshot k => Read filter snapshot (λ r, bind (k r) f)
  end.

Notation "'let!' x := e 'in' k" := (bind e (λ x, k))
  (at level 10, x name, e at level 200, k at level 200) : kz_scope.

(** [self.reader.read_tuples(&filter, snapshot)] *)
Definition read_tuples (filter : TupleFilter) (snapshot : option SnapshotToken)
    : prog (list Tuple) := Read filter snapshot Done.

(** [for x in l { if f(x).await? { return Ok(true); } } Ok(false)] *)
Definition any_child {A} (f : A → prog bool) : list A → prog bool :=
  fix loop l :=
    match l with
    | [] => ret false
    | x :: l' => let! b := f x in if b then ret true else loop l'
    end.

(** [for x in l { if !f(x).await? { return Ok(false); } } Ok(true)] *)
Definition all_children {A} (f : A → prog bool) : list A → prog bool :=
  fix loop l :=
    match l with
    | [] => ret true
    | x :: l' => let! b := f x in if negb b then ret false else loop l'
    end.

(** [let mut v = Vec::new(); for x in l { v.push(f(x).await?); } Ok(v)] *)
Definition map_children {A B} (f : A → prog B) : list A → prog (list B) :=
  fix loop l :=
    match l with
    | [] => ret []
    | x :: l' => let! y := f x in let! ys := loop l' in ret (y :: ys)
    end.

(** ** Equivalence of programs

    Same reads in the same order and, for every answer, equivalent rests. *)

Inductive prog_equiv {A} : Equiv (prog A) :=
| Done_equiv r : Done r ≡ Done r
| Read_equiv f s k k' : (∀ r, k r ≡ k' r) → Read f s k ≡ Read f s k'.
#[export] Existing Instance prog_equiv.

#[export] Instance prog_equivalence {A} : Equivalence (≡@{prog A}).
Proof.
  split.
  - intros p. induction p; by constructor.
  - intros p q. induction 1; by constructor.
  - intros p q q' Hpq. revert q'. induction Hpq as [|f s k k' _ IH]; intros q' Hr; [done|].
    inversion Hr; subst. constructor. eauto.
Qed.

Lemma bind_proper {A B} (p p' : prog A) (f f' : A → prog B) :
  p ≡ p' → (∀ a, f a ≡ f' a) → bind p f ≡ bind p' f'.
Proof.
  intros Hp Hf. induction Hp as [[a|e]|g s k k' _ IH]; simpl; [apply Hf|done|by constructor].
Qed.

#[export] Instance bind_proper' {A B} :
  Proper ((≡) ==> pointwise_relation _ (≡) ==> (≡)) (@bind A B).
Proof. intros p p' Hp f f' Hf. by apply bind_proper. Qed.

Lemma any_child_proper {A} (f g : A → prog bool) l :
  (∀ x, x ∈ l → f x ≡ g x) → any_child f l ≡ any_child g l.
Proof.
  induction l as [|x l IH]; intros H; simpl; [done|].
  apply bind_proper; [apply H; set_solver|]. intros []; [done|]. apply IH. set_solver.
Qed.

Lemma all_children_proper {A} (f g : A → prog bool) l :
  (∀ x, x ∈ l → f x ≡ g x) → all_children f l ≡ all_children g l.
Proof.
  induction l as [|x l IH]; intros H; simpl; [done|].
  apply bind_proper; [apply H; set_solver|]. intros []; [|done]. apply IH. set_solver.
Qed.

Lemma map_children_proper {A B} (f g : A → prog B) l :
  (∀ x, x ∈ l → f x ≡ g x) → map_children f l ≡ map_children g l.
Proof.
  induction l as [|x l IH]; intros H; simpl; [done|].
  apply bind_proper; [apply H; set_solver|]. intros y.
  apply bind_proper; [apply IH; set_solver|done].
Qed.

(** ** Running a program against a reader *)

Fixpoint run {A} (rd : TupleReader) (p : prog A) : result CheckError A :=
  match p with
  | Done r => r
  | Read f s k => run rd (k (rd f s))
  end.

Section run.
Context (rd : TupleReader).

Lemma run_bind {A B} (p : prog A) (f : A → prog B) :
  run rd (bind p f) = try (run rd p) (λ a, run rd (f a)).
Proof. induction p as [[a|e]|g s k IH]; simpl; [done..|apply IH]. Qed.

Lemma run_read f s : run rd (read_tuples f s) = rd f s.
Proof. done. Qed.

Lemma run_ret {A} (a : A) : run rd (ret a) = Ok a.
Proof. done. Qed.

#[export] Instance run_proper {A} : Proper ((≡) ==> (=)) (@run A rd).
Proof. intros p p'. induction 1; simpl; auto. Qed.

Lemma run_any_true {A} (f : A → prog bool) l :
  run rd (any_child f l) = Ok true → ∃ x, x ∈ l ∧ run rd (f x) = Ok true.
Proof.
  induction l as [|x l IH]; simpl; [done|]. rewrite run_bind. intros ([] & ? & H)%try_Ok.
  - exists x. split; [set_solver|done].
  - destruct (IH H) as (y & ? & ?). exists y. split; [set_solver|done].
Qed.

Lemma run_any_false {A} (f : A → prog bool) l :
  run rd (any_child f l) = Ok false → ∀ x, x ∈ l → run rd (f x) = Ok false.
Proof.
  induction l as [|x l IH]; simpl; [set_solver|]. rewrite run_bind.
  intros ([] & ? & H)%try_Ok y; [done|]. rewrite elem_of_cons. intros [->|Hy]; eauto.
Qed.

Lemma run_all_true {A} (f : A → prog bool) l :
  run rd (all_children f l) = Ok true → ∀ x, x ∈ l → run rd (f x) = Ok true.
Proof.
  induction l as [|x l IH]; simpl; [set_solver|]. rewrite run_bind.
  intros ([] & ? & H)%try_Ok y; [|done]. rewrite elem_of_cons. intros [->|Hy]; eauto.
Qed.

Lemma run_all_false {A} (f : A → prog bool) l :
  run rd (all_children f l) = Ok false → ∃ x, x ∈ l ∧ run rd (f x) = Ok false.
Proof.
  induction l as [|x l IH]; simpl; [done|]. rewrite run_bind. intros ([] & ? & H)%try_Ok.
  - destruct (IH H) as (y & ? & ?). exists y. split; [set_solver|done].
  - exists x. split; [set_solver|done].
Qed.

(** When no element fails, the loops compute [existsb] and [forallb]. *)
Lemma run_any_total {A} (f : A → prog bool) (b : A → bool) l :
  (∀ x, x ∈ l → run rd (f x) = Ok (b x)) → run rd (any_child f l) = Ok (existsb b l).
Proof.
  induction l as [|x l IH]; intros H; simpl; [done|]. rewrite run_bind, H by set_solver. simpl.
  destruct (b x); [done|]. apply IH. set_solver.
Qed.

Lemma run_all_total {A} (f : A → prog bool) (b : A → bool) l :
  (∀ x, x ∈ l → run rd (f x) = Ok (b x)) → run rd (all_children f l) = Ok (forallb b l).
Proof.
  induction l as [|x l IH]; intros H; simpl; [done|]. rewrite run_bind, H by set_solver. simpl.
  destruct (b x); [|done]. apply IH. set_solver.
Qed.

Lemma run_any_returns {A} (f : A → prog bool) l :
  (∀ x, x ∈ l → ∃ b, run rd (f x) = Ok b) → ∃ b, run rd (any_child f l) = Ok b.
Proof.
  induction l as [|x l IH]; intros H; simpl; [by eexists|]. rewrite run_bind.
  destruct (H x) as [[] ->]; [set_solver|by eexists|]. apply IH. set_solver.
Qed.

Lemma run_all_returns {A} (f : A → prog bool) l :
  (∀ x, x ∈ l → ∃ b, run rd (f x) = Ok b) → ∃ b, run rd (all_children f l) = Ok b.
Proof.
  induction l as [|x l IH]; intros H; simpl; [by eexists|]. rewrite run_bind.
  destruct (H x) as [[] ->]; [set_solver| |by eexists]. apply IH. set_solver.
Qed.

(** An error of a loop is an error of one of its elements. *)
Lemma run_any_Err {A} (f : A → prog bool) l e :
  run rd (any_child f l) = Err e → ∃ x, x ∈ l ∧ run rd (f x) = Err e.
Proof.
  induction l as [|x l IH]; simpl; [done|]. rewrite run_bind.
  intros [?|([] & _ & H)]%try_Err; [by set_solver|done|]. set_solver.
Qed.

Lemma run_all_Err {A} (f : A → prog bool) l e :
  run rd (all_children f l) = Err e → ∃ x, x ∈ l ∧ run rd (f x) = Err e.
Proof.
  induction l as [|x l IH]; simpl; [done|]. rewrite run_bind.
  intros [?|([] & _ & H)]%try_Err; [by set_solver| |done]. set_solver.
Qed.

Lemma run_map_Err {A B} (f : A → prog B) l e :
  run rd (map_children f l) = Err e → ∃ x, x ∈ l ∧ run rd (f x) = Err e.
Proof.
  induction l as [|x l IH]; simpl; [done|]. rewrite run_bind.
  intros [?|(y & _ & H)]%try_Err; [by set_solver|]. rewrite run_bind in H.
  apply try_Err in H as [?|(? & _ & ?)]; [set_solver|done].
Qed.

Lemma run_map_Ok {A B} (f : A → prog B) l ys :
  run rd (map_children f l) = Ok ys → Forall2 (λ x y, run rd (f x) = Ok y) l ys.
Proof.
  revert ys. induction l as [|x l IH]; intros ys; simpl; [intros [= <-]; constructor|].
  rewrite run_bind. intros (y & ? & H)%try_Ok. rewrite run_bind in H.
  apply try_Ok in H as (ys' & ? & [= <-]). constructor; eauto.
Qed.
End run.

(** ** Running a program among other requests

    [exec env rd w p res]: started when the store is in state [w], the program
    can answer [res] when between any two of its reads the other requests move
    the store along [env]. *)
Section exec.
Context {W : Type} (env : W → W → Prop) (rd : W → TupleReader).

Inductive exec {A} : W → prog A → result CheckError A → Prop :=
| exec_done w r : exec w (Done r) r
| exec_read w w' f s k res :
    rtc env w w' → exec w' (k (rd w' f s)) res → exec w (Read f s k) res.

(** The execution whose reads see the listed states in turn, and the last
    state from then on. *)
Fixpoint run_schedule {A} (sched : list W) (w : W) (p : prog A) {struct p} : result CheckError A :=
  match p with
  | Done r => r
  | Read f s k =>
      let w' := default w (head sched) in
      run_schedule (tail sched) w' (k (rd w' f s))
  end.

Fixpoint schedule_ok (w : W) (sched : list W) : Prop :=
  match sched with
  | [] => True
  | w' :: sched' => rtc env w w' ∧ schedule_ok w' sched'
  end.

Lemma exec_schedule {A} sched w (p : prog A) res :
  schedule_ok w sched → run_schedule sched w p = res → exec w p res.
Proof.
  intros Hok <-. revert sched w Hok. induction p as [r|f s k IH]; intros sched w Hok; [constructor|].
  simpl. apply (exec_read w (default w (head sched))).
  - destruct sched; [apply rtc_refl|apply Hok].
  - apply IH. destruct sched; [done|apply Hok].
Qed.

(** Every read of a program is at snapshot [s], and it stops with the error of
    a read that fails. *)
Inductive reads_at {A} (s : option SnapshotToken) : prog A → Prop :=
| reads_at_done r : reads_at s (Done r)
| reads_at_read f k :
    (∀ e, k (Err e) = Done (Err e)) → (∀ r, reads_at s (k r)) → reads_at s (Read f s k).

Lemma reads_at_bind {A B} s (p : prog A) (f : A → prog B) :
  reads_at s p → (∀ a, reads_at s (f a)) → reads_at s (bind p f).
Proof.
  intros Hp Hf. induction Hp as [[]|f' k Herr _ IH]; simpl; [apply Hf|constructor|constructor; [|done]].
  intros e. by rewrite Herr.
Qed.

Lemma reads_at_any {A} s (f : A → prog bool) l :
  (∀ x, x ∈ l → reads_at s (f x)) → reads_at s (any_child f l).
Proof.
  induction l as [|x l IH]; intros H; simpl; [constructor|].
  apply reads_at_bind; [apply H; set_solver|]. intros []; [constructor|apply IH; set_solver].
Qed.

Lemma reads_at_all {A} s (f : A → prog bool) l :
  (∀ x, x ∈ l → reads_at s (f x)) → reads_at s (all_children f l).
Proof.
  induction l as [|x l IH]; intros H; simpl; [constructor|].
  apply reads_at_bind; [apply H; set_solver|]. intros []; [apply IH; set_solver|constructor].
Qed.

Lemma reads_at_map {A B} s (f : A → prog B) l :
  (∀ x, x ∈ l → reads_at s (f x)) → reads_at s (map_children f l).
Proof.
  induction l as [|x l IH]; intros H; simpl; [constructor|].
  apply reads_at_bind; [apply H; set_solver|]. intros y.
  apply reads_at_bind; [apply IH; set_solver|]. constructor.
Qed.

Lemma run_reads_at {A} (rd1 rd2 : TupleReader) s (p : prog A) :
  reads_at s p → (∀ f, rd1 f s = rd2 f s) → run rd1 p = run rd2 p.
Proof. intros Hp Hs. induction Hp as [|f k _ _ IH]; simpl; [done|]. by rewrite Hs. Qed.

(** If the other requests never change what a read at [s] answers, the
    interleaving does not matter. *)
Lemma exec_stable {A} s (p : prog A) w res :
  reads_at s p → (∀ w', rtc env w w' → ∀ f, rd w' f s = rd w f s) →
  exec w p res → res = run (rd w) p.
Proof.
  intros Hp Hst Hex. induction Hex as [|w w' f s' k res Hw _ IH]; [done|].
  inversion Hp as [|? ? _ Hk]; subst. simpl. rewrite <-(Hst w' Hw f). rewrite IH.
  - eapply run_reads_at; [done|]. auto.
  - done.
  - intros w'' Hw'' f'. rewrite (Hst w''), (Hst w'); [done..|by etrans].
Qed.
End exec.
