(* ===== verification/Check.v ===== *)
(** * The check engine ([crates/kraalzibar-core/src/engine/check.rs])

    [evaluate_rule] recurses on the rewrite rule and, through a permission
    reference or an arrow, on the rule of another permission with the depth
    one higher.  Its budget is the number of such jumps left before the guard
    [ctx.depth > self.config.max_depth] must fire, so the recursion of the
    model is structural in (budget, rule); [evaluate_rule_unfold] shows that
    with this budget the equations of the source hold as written. *)
From stdpp Require Import base tactics list strings gmap.
From S2P Require Import Prelude Tuples Schema Engine.

Record CheckRequest := mk_CheckRequest {
  cr_object_type : string;
  cr_object_id : string;
  cr_permission : string;
  cr_subject_type : string;
  cr_subject_id : string;
  cr_snapshot : option SnapshotToken }.

Record CheckResult := mk_CheckResult { allowed : bool }.

(** [(target_type, target_id, computed_perm)] *)
Abbreviation visit_key := (string * string * string)%type.

Record CheckContext := mk_CheckContext {
  c_subject_type : string;
  c_subject_id : string;
  c_snapshot : option SnapshotToken;
  depth : nat;
  visited : gset visit_key }.

(** [let mut child_ctx = ctx.clone(); child_ctx.depth += 1;] *)
Definition deeper (ctx : CheckContext) : CheckContext :=
  mk_CheckContext (c_subject_type ctx) (c_subject_id ctx) (c_snapshot ctx)
    (S (depth ctx)) (visited ctx).

(** The same, with [child_ctx.visited.insert(visit_key)]. *)
Definition deeper_visiting (ctx : CheckContext) (key : visit_key) : CheckContext :=
  mk_CheckContext (c_subject_type ctx) (c_subject_id ctx) (c_snapshot ctx)
    (S (depth ctx)) ({[key]} ∪ visited ctx).

Section CheckEngine.
Context (schema : Schema) (config : EngineConfig).

(** What [evaluate_this] and [evaluate_arrow] call on the rule they reach. *)
Abbreviation rule_evaluator := (RewriteRule → string → string → CheckContext → prog bool).

(** The body of the loop over the tuples of a relation. *)
Definition tuple_grants (ctx : CheckContext) (tuple : Tuple) : prog bool :=
  match subject_relation (subject tuple) with
  | None =>
      ret (bool_decide (subject_type (subject tuple) = c_subject_type ctx)
           && bool_decide (subject_id (subject tuple) = c_subject_id ctx))
  | Some rel =>
      let! userset_tuples :=
        read_tuples (userset_filter (subject_type (subject tuple)) (subject_id (subject tuple)) rel
                       (c_subject_type ctx) (c_subject_id ctx)) (c_snapshot ctx) in
      ret (negb (bool_decide (userset_tuples = [])))
  end.

Definition evaluate_this (evaluate_rule : rule_evaluator)
    (name object_type object_id : string) (ctx : CheckContext) : prog bool :=
  let! type_def := Done (ok_or (get_type schema object_type) (TypeNotFound object_type)) in
  match get_permission type_def name with
  | Some perm_def => evaluate_rule (perm_rule perm_def) object_type object_id (deeper ctx)
  | None =>
      match get_relation type_def name with
      | Some _ =>
          let! tuples :=
            read_tuples (object_relation_filter object_type object_id name) (c_snapshot ctx) in
          any_child (tuple_grants ctx) tuples
      | None => throw (RelationNotFound object_type name)
      end
  end.

(** The body of the loop over the tuples of the tupleset relation; [ret false]
    is both [continue] and a target that is not allowed. *)
Definition arrow_target (evaluate_rule : rule_evaluator)
    (computed_perm : string) (ctx : CheckContext) (tuple : Tuple) : prog bool :=
  let target_type := subject_type (subject tuple) in
  let target_id := subject_id (subject tuple) in
  let key := (target_type, target_id, computed_perm) in
  if bool_decide (key ∈ visited ctx) then ret false
  else
    let! target_type_def := Done (ok_or (get_type schema target_type) (TypeNotFound target_type)) in
    let! perm_def := Done (ok_or (get_permission target_type_def computed_perm)
                             (PermissionNotFound target_type computed_perm)) in
    evaluate_rule (perm_rule perm_def) target_type target_id (deeper_visiting ctx key).

Definition evaluate_arrow (evaluate_rule : rule_evaluator)
    (tupleset_rel computed_perm object_type object_id : string) (ctx : CheckContext) : prog bool :=
  let! tuples :=
    read_tuples (object_relation_filter object_type object_id tupleset_rel) (c_snapshot ctx) in
  any_child (arrow_target evaluate_rule computed_perm ctx) tuples.

Fixpoint evaluate_rule_budget (budget : nat) : rule_evaluator :=
  fix evaluate (rule : RewriteRule) (object_type object_id : string) (ctx : CheckContext)
      : prog bool :=
    let jump : rule_evaluator :=
      match budget with
      | 0 => λ _ _ _ child_ctx, throw (MaxDepthExceeded (depth child_ctx))
      | S budget' => evaluate_rule_budget budget'
      end in
    if max_depth config <? depth ctx then throw (MaxDepthExceeded (depth ctx))
    else
      match rule with
      | This name => evaluate_this jump name object_type object_id ctx
      | Union children => any_child (λ child, evaluate child object_type object_id ctx) children
      | Intersection children =>
          all_children (λ child, evaluate child object_type object_id ctx) children
      | Exclusion base excluded =>
          let! base_result := evaluate base object_type object_id ctx in
          if negb base_result then ret false
          else let! excluded_result := evaluate excluded object_type object_id ctx in
               ret (negb excluded_result)
      | Arrow tupleset_rel computed_perm =>
          evaluate_arrow jump tupleset_rel computed_perm object_type object_id ctx
      end.

Definition evaluate_rule : rule_evaluator := λ rule object_type object_id ctx,
  evaluate_rule_budget (max_depth config - depth ctx) rule object_type object_id ctx.

Definition initial_context (request : CheckRequest) : CheckContext :=
  mk_CheckContext (cr_subject_type request) (cr_subject_id request) (cr_snapshot request) 0 ∅.

Definition check (request : CheckRequest) : prog CheckResult :=
  let! type_def := Done (ok_or (get_type schema (cr_object_type request))
                           (TypeNotFound (cr_object_type request))) in
  let! perm_def := Done (ok_or (get_permission type_def (cr_permission request))
                           (PermissionNotFound (cr_object_type request) (cr_permission request))) in
  let! allowed := evaluate_rule (perm_rule perm_def) (cr_object_type request)
                    (cr_object_id request) (initial_context request) in
  ret (mk_CheckResult allowed).

(** ** The budget is enough *)

Lemma evaluate_this_proper (ev ev' : rule_evaluator) name ot oid ctx :
  (∀ r, ev r ot oid (deeper ctx) ≡ ev' r ot oid (deeper ctx)) →
  evaluate_this ev name ot oid ctx ≡ evaluate_this ev' name ot oid ctx.
Proof.
  intros H. unfold evaluate_this. apply bind_proper; [done|]. intros td.
  destruct (get_permission td name); [apply H|done].
Qed.

Lemma evaluate_arrow_proper (ev ev' : rule_evaluator) ts cp ot oid ctx :
  (∀ r tt ti, ev r tt ti (deeper_visiting ctx (tt, ti, cp)) ≡
              ev' r tt ti (deeper_visiting ctx (tt, ti, cp))) →
  evaluate_arrow ev ts cp ot oid ctx ≡ evaluate_arrow ev' ts cp ot oid ctx.
Proof.
  intros H. unfold evaluate_arrow. apply bind_proper; [done|]. intros tuples.
  apply any_child_proper. intros t _. unfold arrow_target. case_bool_decide; [done|].
  apply bind_proper; [done|]. intros td. apply bind_proper; [done|]. intros pd. apply H.
Qed.

Definition jump_of (budget : nat) : rule_evaluator :=
  match budget with
  | 0 => λ _ _ _ child_ctx, throw (MaxDepthExceeded (depth child_ctx))
  | S budget' => evaluate_rule_budget budget'
  end.

(** One unfolding of the recursion, with the recursive calls [ev] on the
    operands and [jump] on the rules of other permissions. *)
Definition rule_body (ev jump : rule_evaluator) (rule : RewriteRule)
    (object_type object_id : string) (ctx : CheckContext) : prog bool :=
  if max_depth config <? depth ctx then throw (MaxDepthExceeded (depth ctx))
  else
    match rule with
    | This name => evaluate_this jump name object_type object_id ctx
    | Union children => any_child (λ child, ev child object_type object_id ctx) children
    | Intersection children =>
        all_children (λ child, ev child object_type object_id ctx) children
    | Exclusion base excluded =>
        let! base_result := ev base object_type object_id ctx in
        if negb base_result then ret false
        else let! excluded_result := ev excluded object_type object_id ctx in
             ret (negb excluded_result)
    | Arrow tupleset_rel computed_perm =>
        evaluate_arrow jump tupleset_rel computed_perm object_type object_id ctx
    end.

Lemma budget_unfold b rule ot oid ctx :
  evaluate_rule_budget b rule ot oid ctx =
  rule_body (evaluate_rule_budget b) (jump_of b) rule ot oid ctx.
Proof. by destruct b, rule. Qed.

Lemma budget_guard b rule ot oid ctx :
  max_depth config < depth ctx →
  evaluate_rule_budget b rule ot oid ctx = throw (MaxDepthExceeded (depth ctx)).
Proof.
  intros H. rewrite budget_unfold. unfold rule_body.
  by rewrite (proj2 (Nat.ltb_lt _ _) H).
Qed.

(** [rule_body] only looks at its calls on the operands, and on contexts one
    level deeper. *)
Lemma rule_body_proper (ev ev' jump jump' : rule_evaluator) rule ot oid ctx :
  (∀ r, operand r rule → ev r ot oid ctx ≡ ev' r ot oid ctx) →
  (depth ctx ≤ max_depth config → ∀ r tt ti c, depth c = S (depth ctx) →
     jump r tt ti c ≡ jump' r tt ti c) →
  rule_body ev jump rule ot oid ctx ≡ rule_body ev' jump' rule ot oid ctx.
Proof.
  intros Hev Hjump. unfold rule_body.
  destruct (Nat.ltb_spec (max_depth config) (depth ctx)) as [|Hd]; [done|]. specialize (Hjump Hd).
  destruct rule as [name|cs|cs|b e|ts cp].
  - apply evaluate_this_proper. intros r. by apply Hjump.
  - apply any_child_proper. auto.
  - apply all_children_proper. auto.
  - apply bind_proper; [apply Hev; by left|]. intros []; [|done].
    apply bind_proper; [apply Hev; by right|done].
  - apply evaluate_arrow_proper. intros r tt ti. by apply Hjump.
Qed.

(** All budgets that cover the remaining depth give the same program. *)
Lemma budget_enough b b' rule ot oid ctx :
  max_depth config - depth ctx ≤ b → max_depth config - depth ctx ≤ b' →
  evaluate_rule_budget b rule ot oid ctx ≡ evaluate_rule_budget b' rule ot oid ctx.
Proof.
  revert b' rule ot oid ctx. induction b as [b IHbudget] using lt_wf_ind. intros b' rule.
  rule_induction rule; intros ot oid ctx Hb Hb'; rewrite !budget_unfold; apply rule_body_proper;
    try (intros r Hr; simpl in Hr; try done; rewrite ?Forall_forall in *; naive_solver);
    intros Hd r tt ti c Hc; destruct b, b'; simpl; try done;
    rewrite ?budget_guard by lia; try done; apply IHbudget; lia.
Qed.

(** The recursion of the source, without a budget. *)
Lemma evaluate_rule_unfold rule ot oid ctx :
  evaluate_rule rule ot oid ctx ≡ rule_body evaluate_rule evaluate_rule rule ot oid ctx.
Proof.
  unfold evaluate_rule. rewrite budget_unfold. apply rule_body_proper; [done|].
  intros Hd r tt ti c Hc. destruct (max_depth config - depth ctx) as [|b] eqn:Hb; simpl.
  - by rewrite budget_guard by lia.
  - apply budget_enough; lia.
Qed.

(** ** Every read is at the request's snapshot *)

Lemma reads_at_read_tuples s f : reads_at s (read_tuples f s).
Proof. by repeat constructor. Qed.

Lemma tuple_grants_reads_at ctx t : reads_at (c_snapshot ctx) (tuple_grants ctx t).
Proof.
  unfold tuple_grants, ret. case_match; [|constructor].
  apply reads_at_bind; [apply reads_at_read_tuples|constructor].
Qed.

Lemma evaluate_rule_reads_at b rule ot oid ctx :
  reads_at (c_snapshot ctx) (evaluate_rule_budget b rule ot oid ctx).
Proof.
  revert rule ot oid ctx. induction b as [b IHbudget] using lt_wf_ind. intros rule.
  assert (∀ r ot oid ctx, reads_at (c_snapshot ctx) (jump_of b r ot oid ctx)) as Hjump.
  { intros r ot oid ctx. destruct b; [constructor|]. apply IHbudget. lia. }
  rule_induction rule; intros ot oid ctx; rewrite budget_unfold; unfold rule_body;
    (case_match; [constructor|]).
  - unfold evaluate_this. apply reads_at_bind; [constructor|]. intros td.
    case_match; [apply (Hjump _ _ _ (deeper ctx))|]. case_match; [|constructor].
    apply reads_at_bind; [apply reads_at_read_tuples|]. intros tuples. apply reads_at_any.
    intros t _. apply tuple_grants_reads_at.
  - apply reads_at_any. intros c Hc. rewrite Forall_forall in IHcs. by apply IHcs.
  - apply reads_at_all. intros c Hc. rewrite Forall_forall in IHcs. by apply IHcs.
  - apply reads_at_bind; [apply IHrb|]. intros []; [|constructor].
    apply reads_at_bind; [apply IHre|constructor].
  - unfold evaluate_arrow. apply reads_at_bind; [apply reads_at_read_tuples|]. intros tuples.
    apply reads_at_any. intros t _. unfold arrow_target. case_bool_decide; [constructor|].
    apply reads_at_bind; [constructor|]. intros td. apply reads_at_bind; [constructor|]. intros pd.
    apply (Hjump _ _ _ (deeper_visiting ctx _)).
Qed.

Lemma check_reads_at request : reads_at (cr_snapshot request) (check request).
Proof.
  unfold check. apply reads_at_bind; [constructor|]. intros td.
  apply reads_at_bind; [constructor|]. intros pd. apply reads_at_bind; [|constructor].
  apply (evaluate_rule_reads_at _ _ _ _ (initial_context request)).
Qed.
End CheckEngine.
