(* ===== verification/CheckSpec.v ===== *)
(** * The meaning of a permission, and the check engine against it

    [grants] and [refuses] say, from the schema and the stored tuples alone,
    when a rule gives a subject access to an object and when it does not; they
    know nothing of depth, visited sets, short-circuits or orders of
    evaluation.  The engine is compared with them on every answer [Ok b]. *)
From stdpp Require Import base tactics list strings sets gmap.
From S2P Require Import Prelude Tuples Schema Engine Check.

Section semantics.
Context (schema : Schema) (T : list Tuple) (st si : string).

(** The object a tuple points at. *)
Abbreviation target_type t := (subject_type (subject t)).
Abbreviation target_id t := (subject_id (subject t)).

(** The tuples stored under a relation of an object. *)
Definition related (ot oid name : string) (t : Tuple) : Prop :=
  t ∈ T ∧ object t = mk_ObjectRef ot oid ∧ relation t = name.

(** A tuple of the relation names the subject, or names a userset of which
    the subject is a direct member (one level). *)
Definition stored_grant (ot oid name : string) : Prop :=
  ∃ t, related ot oid name t ∧
    (subject t = direct st si ∨
     ∃ rel, subject_relation (subject t) = Some rel ∧
       mk_Tuple (mk_ObjectRef (target_type t) (target_id t)) rel (direct st si) ∈ T).

(** The rule an arrow evaluates on the target of a tuple. *)
Definition target_rule (t : Tuple) (cp : string) : option RewriteRule :=
  td ← get_type schema (target_type t); pd ← get_permission td cp; Some (perm_rule pd).

Inductive grants : RewriteRule → string → string → Prop :=
| g_permission name ot oid td pd :
    get_type schema ot = Some td → get_permission td name = Some pd →
    grants (perm_rule pd) ot oid → grants (This name) ot oid
| g_relation name ot oid td :
    get_type schema ot = Some td → get_permission td name = None →
    is_Some (get_relation td name) → stored_grant ot oid name → grants (This name) ot oid
| g_union c cs ot oid : c ∈ cs → grants c ot oid → grants (Union cs) ot oid
| g_intersection cs ot oid : (∀ c, c ∈ cs → grants c ot oid) → grants (Intersection cs) ot oid
| g_exclusion b e ot oid : grants b ot oid → refuses e ot oid → grants (Exclusion b e) ot oid
| g_arrow ts cp ot oid t rule :
    related ot oid ts t → target_rule t cp = Some rule →
    grants rule (target_type t) (target_id t) → grants (Arrow ts cp) ot oid
with refuses : RewriteRule → string → string → Prop :=
| r_permission name ot oid td pd :
    get_type schema ot = Some td → get_permission td name = Some pd →
    refuses (perm_rule pd) ot oid → refuses (This name) ot oid
| r_relation name ot oid td :
    get_type schema ot = Some td → get_permission td name = None →
    ¬ stored_grant ot oid name → refuses (This name) ot oid
| r_union cs ot oid : (∀ c, c ∈ cs → refuses c ot oid) → refuses (Union cs) ot oid
| r_intersection c cs ot oid : c ∈ cs → refuses c ot oid → refuses (Intersection cs) ot oid
| r_exclusion_base b e ot oid : refuses b ot oid → refuses (Exclusion b e) ot oid
| r_exclusion_excluded b e ot oid : grants e ot oid → refuses (Exclusion b e) ot oid
| r_arrow ts cp ot oid :
    (∀ t rule, related ot oid ts t → target_rule t cp = Some rule →
       refuses rule (target_type t) (target_id t)) → refuses (Arrow ts cp) ot oid.

Scheme grants_mind := Minimality for grants Sort Prop
  with refuses_mind := Minimality for refuses Sort Prop.

(** No subject is both granted and refused. *)
Lemma grants_not_refuses r ot oid : grants r ot oid → ¬ refuses r ot oid.
Proof.
  apply (grants_mind (λ r ot oid, ¬ refuses r ot oid) (λ r ot oid, ¬ grants r ot oid));
    intros; intros Hinv; inversion Hinv; simplify_eq; naive_solver.
Qed.

(** ** What an evaluation returns, read off one step of the recursion *)

Context (config : EngineConfig) (snap : option SnapshotToken).

(** The reader answers, in any order, exactly the stored tuples that match. *)
Definition faithful (rd : TupleReader) : Prop :=
  ∀ f, ∃ l, rd f snap = Ok l ∧ ∀ t, t ∈ l ↔ t ∈ T ∧ matches f t = true.

Context (rd : TupleReader) (Hrd : faithful rd).

Definition for_subject (ctx : CheckContext) : Prop :=
  c_subject_type ctx = st ∧ c_subject_id ctx = si ∧ c_snapshot ctx = snap.

Definition ev (r : RewriteRule) (ot oid : string) (ctx : CheckContext) : result CheckError bool :=
  run rd (evaluate_rule schema config r ot oid ctx).

Lemma ev_unfold r ot oid ctx :
  ev r ot oid ctx =
  run rd (rule_body schema config (evaluate_rule schema config) (evaluate_rule schema config)
            r ot oid ctx).
Proof. unfold ev. by rewrite (evaluate_rule_unfold schema config r ot oid ctx). Qed.

Lemma for_subject_deeper ctx : for_subject ctx → for_subject (deeper ctx).
Proof. done. Qed.
Lemma for_subject_visiting ctx key : for_subject ctx → for_subject (deeper_visiting ctx key).
Proof. done. Qed.
#[local] Hint Resolve for_subject_deeper for_subject_visiting : kz.

Lemma run_related ot oid name :
  ∃ l, run rd (read_tuples (object_relation_filter ot oid name) snap) = Ok l ∧
    ∀ t, t ∈ l ↔ related ot oid name t.
Proof.
  destruct (Hrd (object_relation_filter ot oid name)) as (l & Hl & Hin).
  exists l. split; [done|]. intros t. rewrite Hin. by rewrite matches_object_relation.
Qed.

Lemma run_tuple_grants ctx t :
  for_subject ctx →
  ∃ b, run rd (tuple_grants ctx t) = Ok b ∧
    (b = true ↔ subject t = direct st si ∨
       ∃ rel, subject_relation (subject t) = Some rel ∧
         mk_Tuple (mk_ObjectRef (target_type t) (target_id t)) rel (direct st si) ∈ T).
Proof.
  intros (Hst & Hsi & Hs). unfold tuple_grants.
  destruct t as [o r [sty sid [rel|]]]; simpl; rewrite Hst, Hsi, ?Hs.
  - destruct (Hrd (userset_filter sty sid rel st si)) as (l & Hl & Hin). rewrite Hl. simpl.
    eexists; split; [done|]. rewrite negb_true_iff, bool_decide_eq_false. split.
    + intros Hne. right. exists rel. split; [done|]. destruct l as [|t l]; [done|].
      destruct (proj1 (Hin t)) as [Ht Hm]; [set_solver|]. by apply matches_userset in Hm as ->.
    + intros [|(rel' & [= <-] & Ht)] ->; [done|].
      apply (not_elem_of_nil (mk_Tuple (mk_ObjectRef sty sid) rel (direct st si))).
      apply Hin. split; [done|]. by apply matches_userset.
  - eexists; split; [done|]. rewrite andb_true_iff, !bool_decide_eq_true. unfold direct.
    split; [intros [-> ->]; by left|intros [[= -> ->]|(? & ? & ?)]; done].
Qed.

Lemma run_stored_grant ctx l ot oid name b :
  for_subject ctx → (∀ t, t ∈ l ↔ related ot oid name t) →
  run rd (any_child (tuple_grants ctx) l) = Ok b → b = true ↔ stored_grant ot oid name.
Proof.
  intros Hctx Hl Hrun. destruct b; [split; [intros _|done]|split; [done|intros (t & Ht%Hl & Hg)]].
  - apply run_any_true in Hrun as (t & Ht%Hl & Hrun). exists t. split; [done|].
    destruct (run_tuple_grants ctx t Hctx) as (b & Hb & Hiff). rewrite Hrun in Hb. naive_solver.
  - apply (run_any_false _ _ _ Hrun) in Ht as Hf. clear Hrun; rename Hf into Hrun.
    destruct (run_tuple_grants ctx t Hctx) as (b & Hb & Hiff). rewrite Hrun in Hb. naive_solver.
Qed.

(** [key ∈ visited], for the target of a tuple. *)
Definition cut (ctx : CheckContext) (cp : string) (t : Tuple) : Prop :=
  (target_type t, target_id t, cp) ∈ visited ctx.

Definition ev_target (ctx : CheckContext) (cp : string) (t : Tuple) (rule : RewriteRule) :=
  ev rule (target_type t) (target_id t)
     (deeper_visiting ctx (target_type t, target_id t, cp)).

Lemma run_arrow_target ctx cp t b :
  run rd (arrow_target schema (evaluate_rule schema config) cp ctx t) = Ok b →
  (cut ctx cp t ∧ b = false) ∨
  (¬ cut ctx cp t ∧ ∃ rule, target_rule t cp = Some rule ∧ ev_target ctx cp t rule = Ok b).
Proof.
  unfold arrow_target, cut, target_rule. case_bool_decide as Hv.
  - intros [= <-]. by left.
  - rewrite run_bind. intros (td & Htd & H)%try_Ok. simpl in Htd. apply ok_or_Ok in Htd.
    rewrite run_bind in H. apply try_Ok in H as (pd & Hpd & H). simpl in Hpd. apply ok_or_Ok in Hpd.
    right. split; [done|]. exists (perm_rule pd). split; [|done].
    rewrite Htd. simpl. by rewrite Hpd.
Qed.

Lemma ev_cases r ot oid ctx b :
  for_subject ctx → ev r ot oid ctx = Ok b →
  depth ctx ≤ max_depth config ∧
  match r with
  | This name => ∃ td, get_type schema ot = Some td ∧
      ((∃ pd, get_permission td name = Some pd ∧ ev (perm_rule pd) ot oid (deeper ctx) = Ok b) ∨
       (get_permission td name = None ∧ is_Some (get_relation td name) ∧
        (b = true ↔ stored_grant ot oid name)))
  | Union cs => if b then ∃ c, c ∈ cs ∧ ev c ot oid ctx = Ok true
                else ∀ c, c ∈ cs → ev c ot oid ctx = Ok false
  | Intersection cs => if b then ∀ c, c ∈ cs → ev c ot oid ctx = Ok true
                       else ∃ c, c ∈ cs ∧ ev c ot oid ctx = Ok false
  | Exclusion base ex =>
      (ev base ot oid ctx = Ok false ∧ b = false) ∨
      (ev base ot oid ctx = Ok true ∧ ev ex ot oid ctx = Ok (negb b))
  | Arrow ts cp =>
      if b then ∃ t rule, related ot oid ts t ∧ ¬ cut ctx cp t ∧
                  target_rule t cp = Some rule ∧ ev_target ctx cp t rule = Ok true
      else ∀ t, related ot oid ts t → cut ctx cp t ∨
             (¬ cut ctx cp t ∧ ∃ rule, target_rule t cp = Some rule ∧ ev_target ctx cp t rule = Ok false)
  end.
Proof.
  intros Hctx. rewrite ev_unfold. unfold rule_body. destruct (Nat.ltb_spec (max_depth config) (depth ctx)) as [|Hd]; [done|].
  intros H. split; [done|]. destruct r as [name|cs|cs|base ex|ts cp].
  - unfold evaluate_this in H. rewrite run_bind in H. apply try_Ok in H as (td & Htd & H).
    simpl in Htd. apply ok_or_Ok in Htd. exists td. split; [done|].
    destruct (get_permission td name) as [pd|]; [by eauto|].
    destruct (get_relation td name) as [rel|]; [|done]. right. split_and!; [done..|].
    rewrite run_bind, (proj2 (proj2 Hctx)) in H.
    destruct (run_related ot oid name) as (l & Hl & Hin). rewrite Hl in H.
    by eapply run_stored_grant.
  - destruct b; [by apply run_any_true in H|]. by apply run_any_false.
  - destruct b; [by apply run_all_true|]. by apply run_all_false in H.
  - rewrite run_bind in H. apply try_Ok in H as ([] & Hbase & H); simpl in H; [|by left; simplify_eq].
    rewrite run_bind in H. apply try_Ok in H as (x & Hx & H). simpl in H. right. split; [done|].
    unfold ev. rewrite Hx. simplify_eq. by rewrite negb_involutive.
  - unfold evaluate_arrow in H. rewrite run_bind, (proj2 (proj2 Hctx)) in H.
    destruct (run_related ot oid ts) as (l & Hl & Hin). rewrite Hl in H. simpl in H. destruct b.
    + apply run_any_true in H as (t & Ht%Hin & [[_ ?]|(? & rule & ? & ?)]%run_arrow_target);
        [done|]. exists t, rule. split_and!; done.
    + intros t Ht%Hin. apply (run_any_false _ _ _ H) in Ht.
      apply run_arrow_target in Ht as [[? _]|]; auto.
Qed.

(** Induction along the recursion of the engine: on the operands with the same
    context, and on any rule and object one level deeper. *)
Lemma ev_induction (P : RewriteRule → string → string → CheckContext → Prop) :
  (∀ r ot oid ctx,
     (depth ctx ≤ max_depth config →
        ∀ r' ot' oid' ctx', depth ctx' = S (depth ctx) → P r' ot' oid' ctx') →
     (∀ r', operand r' r → P r' ot oid ctx) → P r ot oid ctx) →
  ∀ r ot oid ctx, P r ot oid ctx.
Proof.
  intros Hstep r ot oid ctx. remember (S (max_depth config) - depth ctx) as n eqn:Hn.
  revert r ot oid ctx Hn. induction n as [n IHn] using lt_wf_ind.
  intros r ot oid. rule_induction r; intros ctx Hn; (apply Hstep;
    [intros Hd r' ot' oid' ctx' Hc; eapply IHn; [|done]; lia|]);
    try (intros r' Hr; simpl in Hr; try done; rewrite ?Forall_forall in *; naive_solver).
Qed.

(** ** Without exclusions, a positive answer is a grant *)

Lemma target_rule_exclusion_free t cp rule :
  schema_exclusion_free schema = true → target_rule t cp = Some rule → exclusion_free rule = true.
Proof.
  unfold target_rule. intros Hs Hr. apply bind_Some in Hr as (td & Htd & Hr).
  apply bind_Some in Hr as (pd & Hpd & [= <-]). eauto with kz.
Qed.
#[local] Hint Resolve target_rule_exclusion_free : kz.

Lemma ev_true_grants r ot oid ctx :
  schema_exclusion_free schema = true → exclusion_free r = true → for_subject ctx →
  ev r ot oid ctx = Ok true → grants r ot oid.
Proof.
  intros Hs. revert r ot oid ctx. apply (ev_induction (λ r ot oid ctx, _ → _ → _ → _)).
  intros r ot oid ctx IHjump IHop Hr Hctx [Hd H]%ev_cases; [|done]. specialize (IHjump Hd).
  assert (∀ r', operand r' r → exclusion_free r' = true) as Hop by eauto with kz.
  destruct r as [name|cs|cs|base ex|ts cp]; [| | |done|].
  - destruct H as (td & Htd & [(pd & Hpd & Hev)|(Hpd & Hrel & Hst)]).
    + eapply g_permission; [done..|]. refine (IHjump _ _ _ (deeper ctx) eq_refl _ _ Hev); eauto with kz.
    + eapply g_relation; [done..|]. by apply Hst.
  - destruct H as (c & Hc & Hev). eapply g_union; [done|]. by apply (IHop c Hc (Hop c Hc)), Hev.
  - apply g_intersection. intros c Hc. by apply (IHop c Hc (Hop c Hc)), H.
  - destruct H as (t & rule & Ht & _ & Hrule & Hev). eapply g_arrow; [done..|].
    refine (IHjump _ _ _ (deeper_visiting ctx _) eq_refl _ _ Hev); eauto with kz.
Qed.

(** ** Without exclusions, a grant is never refused

    [derives n] is [grants] with at most [n] permission references and arrows
    on a path.  The target of a shortest derivation cannot be among the
    objects visited on the way to it: cutting cycles loses nothing. *)
Inductive derives : nat → RewriteRule → string → string → Prop :=
| d_permission n name ot oid td pd :
    get_type schema ot = Some td → get_permission td name = Some pd →
    derives n (perm_rule pd) ot oid → derives (S n) (This name) ot oid
| d_relation n name ot oid td :
    get_type schema ot = Some td → get_permission td name = None →
    stored_grant ot oid name → derives n (This name) ot oid
| d_union n c cs ot oid : c ∈ cs → derives n c ot oid → derives n (Union cs) ot oid
| d_intersection n cs ot oid :
    (∀ c, c ∈ cs → derives n c ot oid) → derives n (Intersection cs) ot oid
| d_arrow n ts cp ot oid t rule :
    related ot oid ts t → target_rule t cp = Some rule →
    derives n rule (target_type t) (target_id t) → derives (S n) (Arrow ts cp) ot oid.

Lemma derives_le n m r ot oid : derives n r ot oid → n ≤ m → derives m r ot oid.
Proof.
  intros H. revert m. induction H; intros m Hm.
  - destruct m as [|m]; [lia|]. eapply d_permission; [done..|]. apply IHderives. lia.
  - by eapply d_relation.
  - eapply d_union; eauto.
  - apply d_intersection. eauto.
  - destruct m as [|m]; [lia|]. eapply d_arrow; [done..|]. apply IHderives. lia.
Qed.

Lemma derives_all (cs : list RewriteRule) ot oid :
  (∀ c, c ∈ cs → ∃ n, derives n c ot oid) → ∃ n, ∀ c, c ∈ cs → derives n c ot oid.
Proof.
  clear Hrd. induction cs as [|c cs IH]; intros H; [exists 0; set_solver|].
  destruct (H c) as [n Hn]; [set_solver|]. destruct IH as [m Hm]; [set_solver|].
  exists (n `max` m). intros c'. rewrite elem_of_cons. intros [->|Hc].
  - eapply derives_le; [done|lia].
  - eapply derives_le; [eauto|lia].
Qed.

Lemma grants_derives r ot oid :
  schema_exclusion_free schema = true → grants r ot oid → exclusion_free r = true →
  ∃ n, derives n r ot oid.
Proof.
  intros Hs H. induction H as
    [name ot oid td pd Htd Hpd _ IH|name ot oid td Htd Hpd _ Hg|c cs ot oid Hc _ IH
    |cs ot oid _ IH| |ts cp ot oid t rule Ht Hrule _ IH]; intros Hr.
  - destruct IH as [n IH]; [eauto with kz|]. exists (S n). by eapply d_permission.
  - exists 0. by eapply d_relation.
  - destruct IH as [n IH]; [by apply (exclusion_free_operand c (Union cs))|].
    exists n. by eapply d_union.
  - destruct (derives_all cs ot oid) as [n Hn].
    { intros c Hc. by apply IH, (exclusion_free_operand c (Intersection cs)). }
    exists n. by apply d_intersection.
  - done.
  - destruct IH as [n IH]; [eauto with kz|]. exists (S n). by eapply d_arrow.
Qed.

(** A shortest derivation exists, up to double negation. *)
Lemma derives_shortest n r ot oid :
  derives n r ot oid →
  ¬ ¬ ∃ k, k ≤ n ∧ derives k r ot oid ∧ ∀ m, m < k → ¬ derives m r ot oid.
Proof.
  induction n as [n IH] using lt_wf_ind. intros Hn Hno. apply Hno. exists n. split_and!; [done..|].
  intros m Hm Hd. apply (IH m Hm Hd). intros (k & ? & ?). apply Hno. exists k. split; [lia|done].
Qed.

(** No visited object has a derivation shorter than [n]. *)
Definition visited_longer (n : nat) (ctx : CheckContext) : Prop :=
  ∀ t cp rule m, cut ctx cp t → target_rule t cp = Some rule → m < n →
    ¬ derives m rule (target_type t) (target_id t).

Lemma visited_longer_le n m ctx : visited_longer n ctx → m ≤ n → visited_longer m ctx.
Proof. intros H Hm t cp rule k ???. apply (H t cp rule k); [done..|lia]. Qed.

Lemma visited_longer_visit n ctx t cp rule :
  visited_longer n ctx → target_rule t cp = Some rule →
  (∀ m, m < n → ¬ derives m rule (target_type t) (target_id t)) →
  visited_longer n (deeper_visiting ctx (target_type t, target_id t, cp)).
Proof.
  intros H Hrule Hno t' cp' rule' m Hcut Hrule' Hm. unfold cut in Hcut. simpl in Hcut.
  apply elem_of_union in Hcut as [Heq%elem_of_singleton|Hcut]; [|by eapply H].
  injection Heq as Ht Hi Hcp. unfold target_rule in *. rewrite Hcp, Ht, Hrule in Hrule'.
  injection Hrule' as <-. rewrite Ht, Hi. by apply Hno.
Qed.

Lemma derives_ev_not_false n r ot oid :
  derives n r ot oid → ∀ ctx, for_subject ctx → visited_longer n ctx → ev r ot oid ctx ≠ Ok false.
Proof.
  revert r ot oid. induction n as [n IHn] using lt_wf_ind. intros r ot oid H.
  induction H as [n name ot oid td pd Htd Hpd H _|n name ot oid td Htd Hpd Hg
    |n c cs ot oid Hc _ IH|n cs ot oid _ IH|n ts cp ot oid t rule Ht Hrule Hd _];
    intros ctx Hctx HV [_ Hev]%ev_cases; try done.
  - destruct Hev as (td' & Htd' & [(pd' & Hpd' & Hev)|(Hpd' & _)]); simplify_eq.
    refine (IHn n _ _ _ _ H _ _ _ Hev); [lia|done|]. eapply visited_longer_le; [exact HV|lia].
  - destruct Hev as (td' & Htd' & [(pd' & Hpd' & Hev)|(Hpd' & _ & Hev)]); simplify_eq.
    apply Hev in Hg. done.
  - by eapply IH; [..|apply Hev].
  - destruct Hev as (c & Hc & Hev). by eapply IH.
  - destruct (Hev t Ht) as [Hcut|(_ & rule' & Hrule' & Hf)]; [by eapply (HV t cp rule n); auto|].
    simplify_eq. apply (derives_shortest _ _ _ _ Hd). intros (k & Hk & Hdk & Hmin).
    refine (IHn k _ _ _ _ Hdk _ _ _ Hf); [lia|by apply for_subject_visiting|].
    eapply visited_longer_visit; [|done..]. eapply visited_longer_le; [exact HV|lia].
Qed.

(** ** Hierarchies: every operator, both answers

    When the tuples an arrow can follow lead strictly down some rank, no
    target has been visited before, so nothing is cut. *)
Section hierarchy.
Context (rank : string → string → nat).

Definition descending : Prop :=
  ∀ t, t ∈ T → arrow_relation schema (relation t) →
    rank (target_type t) (target_id t) < rank (object_type (object t)) (object_id (object t)).

Context (Hrank : descending).

Definition known (r : RewriteRule) : Prop := ∀ ts, ts ∈ tuplesets r → arrow_relation schema ts.

Definition visited_above (ot oid : string) (ctx : CheckContext) : Prop :=
  ∀ tt ti cp, (tt, ti, cp) ∈ visited ctx → rank ot oid ≤ rank tt ti.

Lemma known_rule ot td name pd :
  get_type schema ot = Some td → get_permission td name = Some pd → known (perm_rule pd).
Proof. intros ?? ts Hts. by eapply arrow_relation_rule. Qed.

Lemma known_target t cp rule : target_rule t cp = Some rule → known rule.
Proof.
  unfold target_rule. intros Hr. apply bind_Some in Hr as (td & Htd & Hr).
  apply bind_Some in Hr as (pd & Hpd & [= <-]). by eapply known_rule.
Qed.

Lemma arrow_not_cut ot oid ts cp t ctx :
  known (Arrow ts cp) → related ot oid ts t → visited_above ot oid ctx →
  ¬ cut ctx cp t ∧
  visited_above (target_type t) (target_id t)
    (deeper_visiting ctx (target_type t, target_id t, cp)).
Proof.
  intros Hk (Ht & Ho & Hr) Hv.
  assert (rank (target_type t) (target_id t) < rank ot oid) as Hlt.
  { pose proof (Hrank t Ht) as H. rewrite Ho, Hr in H. apply H, Hk. set_solver. }
  split; [intros Hc%Hv; lia|]. intros tt ti cp' [Heq%elem_of_singleton|Hc%Hv]%elem_of_union.
  - by simplify_eq.
  - lia.
Qed.

Lemma ev_hierarchy r ot oid ctx b :
  known r → visited_above ot oid ctx → for_subject ctx → ev r ot oid ctx = Ok b →
  if b then grants r ot oid else refuses r ot oid.
Proof.
  revert r ot oid ctx b. apply (ev_induction (λ r ot oid ctx, ∀ b, _ → _ → _ → _ → _)).
  intros r ot oid ctx IHjump IHop b Hk Hv Hctx [Hd H]%ev_cases; [|done]. specialize (IHjump Hd).
  assert (∀ r' b', operand r' r → ev r' ot oid ctx = Ok b' →
            if b' then grants r' ot oid else refuses r' ot oid) as Hop.
  { intros r' b' Hr'. apply IHop; [done| |done..]. intros ts Hts. apply Hk.
    by eapply tuplesets_operand. }
  assert (∀ r' b', known r' → ev r' ot oid (deeper ctx) = Ok b' →
            if b' then grants r' ot oid else refuses r' ot oid) as Hjump.
  { intros r' b' Hr'. by apply IHjump. }
  destruct r as [name|cs|cs|base ex|ts cp].
  - destruct H as (td & Htd & [(pd & Hpd & Hev)|(Hpd & Hrel & Hst)]).
    + apply Hjump in Hev; [|by eapply known_rule].
      destruct b; [by eapply g_permission|by eapply r_permission].
    + destruct b; [eapply g_relation; [done..|]; by apply Hst|].
      eapply r_relation; [done..|]. intros Hg%Hst. done.
  - destruct b.
    + destruct H as (c & Hc & Hev). eapply g_union; [done|]. by apply (Hop c true).
    + apply r_union. intros c Hc. by apply (Hop c false), H.
  - destruct b.
    + apply g_intersection. intros c Hc. by apply (Hop c true), H.
    + destruct H as (c & Hc & Hev). eapply r_intersection; [done|]. by apply (Hop c false).
  - destruct H as [[Hb ->]|[Hb He]].
    + apply r_exclusion_base. apply (Hop base false); [by left|done].
    + apply Hop in Hb; [|by left]. apply Hop in He; [|by right].
      destruct b; [by apply g_exclusion|by apply r_exclusion_excluded].
  - destruct b.
    + destruct H as (t & rule & Ht & _ & Hrule & Hev).
      destruct (arrow_not_cut ot oid ts cp t ctx) as [_ Hv']; [done..|].
      eapply g_arrow; [done..|]. refine (IHjump _ _ _ _ _ true _ Hv' _ Hev); [done| |done].
      by eapply known_target.
    + apply r_arrow. intros t rule Ht Hrule.
      destruct (arrow_not_cut ot oid ts cp t ctx) as [Hnc Hv']; [done..|].
      destruct (H t Ht) as [|(_ & rule' & Hrule' & Hev)]; [done|]. simplify_eq.
      refine (IHjump _ _ _ _ _ false _ Hv' _ Hev); [done| |done]. by eapply known_target.
Qed.
End hierarchy.

(** ** When the engine answers

    [resolves n]: every name the evaluation of a rule can meet is declared,
    and no path of permission references and arrows is longer than [n]. *)
Inductive resolves : nat → RewriteRule → string → string → Prop :=
| rs_permission n name ot oid td pd :
    get_type schema ot = Some td → get_permission td name = Some pd →
    resolves n (perm_rule pd) ot oid → resolves (S n) (This name) ot oid
| rs_relation n name ot oid td :
    get_type schema ot = Some td → get_permission td name = None →
    is_Some (get_relation td name) → resolves n (This name) ot oid
| rs_union n cs ot oid : (∀ c, c ∈ cs → resolves n c ot oid) → resolves n (Union cs) ot oid
| rs_intersection n cs ot oid :
    (∀ c, c ∈ cs → resolves n c ot oid) → resolves n (Intersection cs) ot oid
| rs_exclusion n b e ot oid :
    resolves n b ot oid → resolves n e ot oid → resolves n (Exclusion b e) ot oid
| rs_arrow n ts cp ot oid :
    (∀ t, related ot oid ts t → is_Some (target_rule t cp)) →
    (∀ t rule, related ot oid ts t → target_rule t cp = Some rule →
       resolves n rule (target_type t) (target_id t)) →
    resolves (S n) (Arrow ts cp) ot oid.

Lemma ev_resolves n r ot oid :
  resolves n r ot oid → ∀ ctx, for_subject ctx → depth ctx + n ≤ max_depth config →
  ∃ b, ev r ot oid ctx = Ok b.
Proof.
  induction 1 as [n name ot oid td pd Htd Hpd _ IH|n name ot oid td Htd Hpd [rel Hrel]
    |n cs ot oid _ IH|n cs ot oid _ IH|n base ex ot oid _ IHb _ IHe|n ts cp ot oid H _ IH];
    intros ctx Hctx Hd; rewrite ev_unfold; unfold rule_body; (destruct (Nat.ltb_spec (max_depth config) (depth ctx)); [lia|]).
  - unfold evaluate_this. rewrite Htd. simpl. rewrite Hpd. apply IH; [done|simpl; lia].
  - unfold evaluate_this. rewrite run_bind, Htd. cbn [run try ok_or].
    rewrite Hpd, Hrel, run_bind, (proj2 (proj2 Hctx)).
    destruct (run_related ot oid name) as (l & -> & Hl). simpl. apply run_any_returns.
    intros t _. destruct (run_tuple_grants ctx t Hctx) as (b & Hb & _). eauto.
  - apply run_any_returns. intros c Hc. by apply IH.
  - apply run_all_returns. intros c Hc. by apply IH.
  - rewrite run_bind. destruct (IHb ctx Hctx Hd) as [x Hx]. unfold ev in Hx. rewrite Hx. simpl.
    destruct x; simpl; [|by eauto]. rewrite run_bind. destruct (IHe ctx Hctx Hd) as [y Hy].
    unfold ev in Hy. rewrite Hy. simpl. eauto.
  - unfold evaluate_arrow. rewrite run_bind, (proj2 (proj2 Hctx)).
    destruct (run_related ot oid ts) as (l & -> & Hl). simpl. apply run_any_returns.
    intros t Ht%Hl. unfold arrow_target. case_bool_decide; [by eexists|].
    destruct (H t Ht) as [rule Hrule]. specialize (IH t rule Ht Hrule).
    unfold target_rule in Hrule. apply bind_Some in Hrule as (td & Htd & Hrule).
    apply bind_Some in Hrule as (pd & Hpd & [= <-]). rewrite Htd. simpl. rewrite Hpd. simpl.
    apply IH; [done|simpl; lia].
Qed.
End semantics.
