(* ===== verification/CheckTheorems.v ===== *)
(** * What [CheckEngine::check] guarantees

    Exactness against [grants]/[refuses], when an answer is produced, what
    each error means, and the effect of the depth limit. *)
From stdpp Require Import base tactics list strings sets gmap.
From S2P Require Import Prelude Tuples Schema Engine Check CheckSpec.

(** The reader of the tests: a list of tuples, searched with [matches]. *)
Definition list_reader (T : list Tuple) : TupleReader := λ f _, Ok (filter (λ t, matches f t = true) T).

Lemma list_reader_faithful T snap : faithful T snap (list_reader T).
Proof.
  intros f. eexists; split; [done|]. intros t. rewrite list_elem_of_filter. tauto.
Qed.

Definition permitted (schema : Schema) (T : list Tuple) (request : CheckRequest) : Prop :=
  ∃ td pd, get_type schema (cr_object_type request) = Some td ∧
    get_permission td (cr_permission request) = Some pd ∧
    grants schema T (cr_subject_type request) (cr_subject_id request) (perm_rule pd)
      (cr_object_type request) (cr_object_id request).

Definition forbidden (schema : Schema) (T : list Tuple) (request : CheckRequest) : Prop :=
  ∃ td pd, get_type schema (cr_object_type request) = Some td ∧
    get_permission td (cr_permission request) = Some pd ∧
    refuses schema T (cr_subject_type request) (cr_subject_id request) (perm_rule pd)
      (cr_object_type request) (cr_object_id request).

Section check.
Context (schema : Schema) (config : EngineConfig) (rd : TupleReader) (request : CheckRequest).

(** The lookups of [check], then the evaluation from the initial context. *)
Lemma run_check :
  run rd (check schema config request) =
    let? td := ok_or (get_type schema (cr_object_type request))
                 (TypeNotFound (cr_object_type request)) in
    let? pd := ok_or (get_permission td (cr_permission request))
                 (PermissionNotFound (cr_object_type request) (cr_permission request)) in
    let? b := ev schema config rd (perm_rule pd) (cr_object_type request) (cr_object_id request)
                (initial_context request) in
    Ok (mk_CheckResult b).
Proof.
  unfold check. rewrite run_bind. cbn [run].
  destruct (ok_or (get_type _ _) _) as [td|]; [|done]. cbn [try]. rewrite run_bind. cbn [run].
  destruct (ok_or (get_permission _ _) _) as [pd|]; [|done]. cbn [try]. rewrite run_bind.
  by destruct (run rd (evaluate_rule _ _ _ _ _ _)) eqn:H; unfold ev; rewrite H.
Qed.

Lemma run_check_Ok res :
  run rd (check schema config request) = Ok res →
  ∃ td pd, get_type schema (cr_object_type request) = Some td ∧
    get_permission td (cr_permission request) = Some pd ∧
    ev schema config rd (perm_rule pd) (cr_object_type request) (cr_object_id request)
      (initial_context request) = Ok (allowed res).
Proof.
  rewrite run_check. intros H. inv_result. by eexists _, _.
Qed.

Lemma for_subject_initial :
  for_subject (cr_subject_type request) (cr_subject_id request) (cr_snapshot request)
    (initial_context request).
Proof. done. Qed.
End check.

(** Without exclusions the evaluation decides the permission. *)
Lemma check_decides schema config rd T request td pd b :
  schema_exclusion_free schema = true → faithful T (cr_snapshot request) rd →
  get_type schema (cr_object_type request) = Some td →
  get_permission td (cr_permission request) = Some pd →
  ev schema config rd (perm_rule pd) (cr_object_type request) (cr_object_id request)
    (initial_context request) = Ok b →
  b = true ↔ permitted schema T request.
Proof.
  intros Hs Hrd Htd Hpd Hev. unfold permitted. split.
  - intros ->. exists td, pd. split_and!; [done..|].
    eapply ev_true_grants; [exact Hrd|done| |apply for_subject_initial|exact Hev]. eauto with kz.
  - intros (td' & pd' & ? & ? & Hg). simplify_eq.
    apply grants_derives in Hg as [n Hg]; [|done|by eauto with kz].
    apply not_false_is_true. intros ->. revert Hev.
    eapply derives_ev_not_false; [exact Hrd|exact Hg|done|]. intros ????. set_solver.
Qed.

(** ** Errors *)

Section errors.
Context (schema : Schema) (config : EngineConfig) (rd : TupleReader).

(** What an error that does not come from the reader says. *)
Definition error_meaning (e : CheckError) : Prop :=
  match e with
  | TypeNotFound ty => get_type schema ty = None
  | PermissionNotFound ty perm =>
      ∃ td, get_type schema ty = Some td ∧ get_permission td perm = None
  | RelationNotFound ty rel =>
      ∃ td, get_type schema ty = Some td ∧ get_permission td rel = None ∧ get_relation td rel = None
  | MaxDepthExceeded d => d = S (max_depth config)
  | StorageError _ => False
  end.

Definition explained (snap : option SnapshotToken) (e : CheckError) : Prop :=
  (∃ f, rd f snap = Err e) ∨ error_meaning e.

Lemma tuple_grants_Err ctx t e :
  run rd (tuple_grants ctx t) = Err e → explained (c_snapshot ctx) e.
Proof.
  unfold tuple_grants. destruct (subject_relation (subject t)) as [rel|]; [|by intros [=]].
  rewrite run_bind. intros [H|(? & _ & ?)]%try_Err; [|done]. left. eexists; exact H.
Qed.

Lemma ev_Err r ot oid ctx e :
  depth ctx ≤ S (max_depth config) → ev schema config rd r ot oid ctx = Err e →
  explained (c_snapshot ctx) e.
Proof.
  revert r ot oid ctx. apply (ev_induction config (λ r ot oid ctx, _ → _ → _)).
  intros r ot oid ctx IHjump IHop Hd. rewrite ev_unfold. unfold rule_body.
  destruct (Nat.ltb_spec (max_depth config) (depth ctx)) as [|Hle].
  { intros [= <-]. right. simpl. lia. }
  specialize (IHjump Hle). destruct r as [name|cs|cs|base ex|ts cp].
  - unfold evaluate_this. rewrite run_bind. cbn [run].
    intros [[Htd <-]%ok_or_Err|(td & Htd%ok_or_Ok & H)]%try_Err; [by right|].
    destruct (get_permission td name) as [pd|] eqn:Hpd.
    { refine (IHjump _ _ _ (deeper ctx) eq_refl _ H). simpl. lia. }
    destruct (get_relation td name) as [rel|] eqn:Hrel; [|injection H as <-; right; by exists td].
    rewrite run_bind in H. apply try_Err in H as [H|(l & _ & H)]; [left; eexists; exact H|].
    apply run_any_Err in H as (t & _ & H). by eapply tuple_grants_Err.
  - intros (c & Hc & H)%run_any_Err. by apply (IHop c Hc).
  - intros (c & Hc & H)%run_all_Err. by apply (IHop c Hc).
  - rewrite run_bind. intros [H|([] & _ & H)]%try_Err; [apply (IHop base); [by left|done..]| |done].
    simpl in H. rewrite run_bind in H. apply try_Err in H as [H|(? & _ & ?)]; [|done].
    apply (IHop ex); [by right|done..].
  - unfold evaluate_arrow. rewrite run_bind.
    intros [H|(l & _ & (t & _ & H)%run_any_Err)]%try_Err; [left; eexists; exact H|].
    unfold arrow_target in H. case_bool_decide; [done|]. rewrite run_bind in H. cbn [run] in H.
    apply try_Err in H as [[Htd <-]%ok_or_Err|(td & Htd%ok_or_Ok & H)]; [by right|].
    rewrite run_bind in H. cbn [run] in H.
    apply try_Err in H as [[Hpd <-]%ok_or_Err|(pd & Hpd%ok_or_Ok & H)]; [right; by exists td|].
    refine (IHjump _ _ _ (deeper_visiting ctx _) eq_refl _ H). simpl. lia.
Qed.
End errors.

(** ** The depth limit *)

Section depth.
Context (schema : Schema) (config config' : EngineConfig) (rd : TupleReader).
Context (Hconfig : max_depth config ≤ max_depth config').

(** Everything [p] answers, [q] answers. *)
Definition answers_le {A} (p q : prog A) : Prop := ∀ a, run rd p = Ok a → run rd q = Ok a.

Lemma answers_le_bind {A B} (p q : prog A) (f g : A → prog B) :
  answers_le p q → (∀ a, answers_le (f a) (g a)) → answers_le (bind p f) (bind q g).
Proof.
  intros Hp Hf b. rewrite !run_bind. intros (a & Ha%Hp & Hb%Hf)%try_Ok. rewrite Ha. done.
Qed.

Lemma answers_le_any {A} (f g : A → prog bool) l :
  (∀ x, x ∈ l → answers_le (f x) (g x)) → answers_le (any_child f l) (any_child g l).
Proof.
  induction l as [|x l IH]; intros H; [by intros ?|]. apply answers_le_bind; [apply H; set_solver|].
  intros []; [by intros ?|]. apply IH. set_solver.
Qed.

Lemma answers_le_all {A} (f g : A → prog bool) l :
  (∀ x, x ∈ l → answers_le (f x) (g x)) → answers_le (all_children f l) (all_children g l).
Proof.
  induction l as [|x l IH]; intros H; [by intros ?|]. apply answers_le_bind; [apply H; set_solver|].
  intros []; [|by intros ?]. apply IH. set_solver.
Qed.

Lemma rule_body_le ev ev' jump jump' rule ot oid ctx :
  (∀ r, operand r rule → answers_le (ev r ot oid ctx) (ev' r ot oid ctx)) →
  (depth ctx ≤ max_depth config → ∀ r tt ti c, depth c = S (depth ctx) →
     answers_le (jump r tt ti c) (jump' r tt ti c)) →
  answers_le (rule_body schema config ev jump rule ot oid ctx)
             (rule_body schema config' ev' jump' rule ot oid ctx).
Proof.
  intros Hev Hjump. unfold rule_body.
  destruct (Nat.ltb_spec (max_depth config) (depth ctx)) as [|Hd]; [by intros ?|].
  destruct (Nat.ltb_spec (max_depth config') (depth ctx)); [lia|]. specialize (Hjump Hd).
  destruct rule as [name|cs|cs|base ex|ts cp].
  - apply answers_le_bind; [by intros ?|]. intros td.
    destruct (get_permission td name); [by apply Hjump|by intros ?].
  - apply answers_le_any. auto.
  - apply answers_le_all. auto.
  - apply answers_le_bind; [apply Hev; by left|]. intros []; [|by intros ?].
    apply answers_le_bind; [apply Hev; by right|by intros ? ?].
  - apply answers_le_bind; [by intros ?|]. intros l. apply answers_le_any. intros t _.
    unfold arrow_target. case_bool_decide; [by intros ?|].
    apply answers_le_bind; [by intros ?|]. intros td. apply answers_le_bind; [by intros ?|].
    intros pd. by apply Hjump.
Qed.

Lemma evaluate_rule_le r ot oid ctx :
  answers_le (evaluate_rule schema config r ot oid ctx) (evaluate_rule schema config' r ot oid ctx).
Proof.
  revert r ot oid ctx. apply (ev_induction config). intros r ot oid ctx IHjump IHop b.
  rewrite (evaluate_rule_unfold schema config), (evaluate_rule_unfold schema config').
  revert b. apply rule_body_le; [done|]. intros Hd r' tt ti c. by apply IHjump.
Qed.
End depth.

(** ** A schema with a folder hierarchy, for the witnesses *)

Definition folder_schema : Schema := mk_Schema [
  mk_TypeDefinition "user" [] [];
  mk_TypeDefinition "group" [mk_RelationDef "member" [mk_SubjectTypeRef "user" None]] [];
  mk_TypeDefinition "folder"
    [mk_RelationDef "parent" [mk_SubjectTypeRef "folder" None];
     mk_RelationDef "viewer" [mk_SubjectTypeRef "user" None; mk_SubjectTypeRef "group" (Some "member")]]
    [mk_PermissionDef "view" (Union [This "viewer"; Arrow "parent" "view"])]].

Definition banned_schema : Schema := mk_Schema (schema_types folder_schema ++ [
  mk_TypeDefinition "document"
    [mk_RelationDef "parent" [mk_SubjectTypeRef "folder" None];
     mk_RelationDef "banned" [mk_SubjectTypeRef "user" None]]
    [mk_PermissionDef "read" (Exclusion (Arrow "parent" "view") (This "banned"))]]).

Definition tuple_to (ot oid rel : string) (s : SubjectRef) : Tuple :=
  mk_Tuple (mk_ObjectRef ot oid) rel s.

(** Two folders, each the parent of the other. *)
Definition cyclic_tuples : list Tuple := [
  tuple_to "folder" "a" "parent" (direct "folder" "b");
  tuple_to "folder" "b" "parent" (direct "folder" "a");
  tuple_to "folder" "b" "viewer" (userset "group" "g" "member");
  tuple_to "group" "g" "member" (direct "user" "alice")].

Definition banned_tuples : list Tuple := [
  tuple_to "document" "d" "parent" (direct "folder" "b");
  tuple_to "folder" "b" "viewer" (userset "group" "g" "member");
  tuple_to "group" "g" "member" (direct "user" "alice");
  tuple_to "group" "g" "member" (direct "user" "bob");
  tuple_to "document" "d" "banned" (direct "user" "bob")].

Definition request_for (ot oid perm user : string) : CheckRequest :=
  mk_CheckRequest ot oid perm "user" user None.

(** ** The theorems *)

(** C1: On a schema without exclusions and a reader that answers exactly the
    stored tuples at the request's snapshot, every answer of [check] is exact:
    allowed if and only if the permission is granted.  The tuples may contain
    cycles, and the reader may order its answers as it likes. *)
Theorem check_exact schema config rd T request res :
  schema_exclusion_free schema = true →
  faithful T (cr_snapshot request) rd →
  run rd (check schema config request) = Ok res →
  allowed res = true ↔ permitted schema T request.
Proof. intros Hs Hrd (td & pd & ? & ? & ?)%run_check_Ok. by eapply check_decides. Qed.

Lemma check_exact_witness :
  run (list_reader cyclic_tuples)
    (check folder_schema engine_config_default (request_for "folder" "a" "view" "alice")) =
    Ok (mk_CheckResult true) ∧
  run (list_reader cyclic_tuples)
    (check folder_schema engine_config_default (request_for "folder" "a" "view" "bob")) =
    Ok (mk_CheckResult false) ∧
  permitted folder_schema cyclic_tuples (request_for "folder" "a" "view" "alice") ∧
  ¬ permitted folder_schema cyclic_tuples (request_for "folder" "a" "view" "bob").
Proof.
  split; [vm_compute; reflexivity|]. split; [vm_compute; reflexivity|]. split.
  - apply (check_exact folder_schema engine_config_default (list_reader cyclic_tuples) cyclic_tuples
      (request_for "folder" "a" "view" "alice") (mk_CheckResult true));
      [reflexivity|apply list_reader_faithful|vm_compute; reflexivity|reflexivity].
  - intros H. apply (check_exact folder_schema engine_config_default (list_reader cyclic_tuples)
      cyclic_tuples (request_for "folder" "a" "view" "bob") (mk_CheckResult false)) in H;
      [discriminate H|reflexivity|apply list_reader_faithful|vm_compute; reflexivity].
Defined.

(** C2: On any schema, exclusions included, when the tuples that arrows follow
    lead down a hierarchy, every answer of [check] is exact both ways: a
    positive one is granted and a negative one is refused. *)
Theorem check_exact_on_hierarchies schema config rd T rank request res :
  descending schema T rank →
  faithful T (cr_snapshot request) rd →
  run rd (check schema config request) = Ok res →
  if allowed res then permitted schema T request else forbidden schema T request.
Proof.
  intros Hrank Hrd (td & pd & Htd & Hpd & Hev)%run_check_Ok.
  apply (ev_hierarchy _ _ (cr_subject_type request) (cr_subject_id request) _ _ _ Hrd _ Hrank)
    in Hev; [|by eapply known_rule| |done].
  - destruct (allowed res); by exists td, pd.
  - intros ???. set_solver.
Qed.

Lemma check_exact_on_hierarchies_witness :
  permitted banned_schema banned_tuples (request_for "document" "d" "read" "alice") ∧
  forbidden banned_schema banned_tuples (request_for "document" "d" "read" "bob").
Proof.
  assert (descending banned_schema banned_tuples
    (λ ot _, if bool_decide (ot = "document") then 1 else 0)) as Hrank.
  { intros t Ht Hr%elem_of_arrow_relations. vm_compute in Hr. unfold banned_tuples in Ht.
    set_unfold in Hr. set_unfold in Ht.
    destruct Ht as [->|[->|[->|[->|[->|[]]]]]]; destruct_or? Hr; try discriminate Hr; vm_compute; lia. }
  split.
  - apply (check_exact_on_hierarchies banned_schema engine_config_default
      (list_reader banned_tuples) banned_tuples _ (request_for "document" "d" "read" "alice")
      (mk_CheckResult true) Hrank); [apply list_reader_faithful|vm_compute; reflexivity].
  - apply (check_exact_on_hierarchies banned_schema engine_config_default
      (list_reader banned_tuples) banned_tuples _ (request_for "document" "d" "read" "bob")
      (mk_CheckResult false) Hrank); [apply list_reader_faithful|vm_compute; reflexivity].
Defined.

(** C3: [check] answers: when the permission exists, every name its evaluation
    can meet is declared and no path of permission references and arrows is
    longer than [max_depth], no error is possible. *)
Theorem check_answers schema config rd T n request td pd :
  faithful T (cr_snapshot request) rd →
  get_type schema (cr_object_type request) = Some td →
  get_permission td (cr_permission request) = Some pd →
  resolves schema T n (perm_rule pd) (cr_object_type request) (cr_object_id request) →
  n ≤ max_depth config →
  ∃ res, run rd (check schema config request) = Ok res.
Proof.
  intros Hrd Htd Hpd Hn Hle. rewrite run_check, Htd. cbn [ok_or try]. rewrite Hpd. cbn [ok_or try].
  eapply (ev_resolves _ _ (cr_subject_type request) (cr_subject_id request) config) in Hn as [b ->];
    [by eexists|exact Hrd|done|simpl; lia].
Qed.

Lemma check_answers_witness :
  ∃ res, run (list_reader banned_tuples)
    (check banned_schema engine_config_default (request_for "document" "d" "read" "alice")) = Ok res.
Proof.
  eapply (check_answers banned_schema engine_config_default (list_reader banned_tuples)
    banned_tuples 3); [apply list_reader_faithful|reflexivity|reflexivity| |simpl; lia].
  simpl. constructor.
  - constructor.
    + intros t (Ht & Ho & Hr). unfold banned_tuples in Ht. set_unfold in Ht.
      destruct Ht as [->|[->|[->|[->|[->|[]]]]]]; simplify_eq/=. by eexists.
    + intros t rule (Ht & Ho & Hr) Hrule. unfold banned_tuples in Ht. set_unfold in Ht.
      destruct Ht as [->|[->|[->|[->|[->|[]]]]]]; simplify_eq/=. injection Hrule as <-.
      constructor. intros c Hc. set_unfold in Hc. destruct Hc as [->|[->|[]]].
      * eapply rs_relation; [reflexivity..|by eexists].
      * constructor; intros t ? (Ht & Ho & Hr') || intros t (Ht & Ho & Hr');
          unfold banned_tuples in Ht; set_unfold in Ht;
          destruct Ht as [->|[->|[->|[->|[->|[]]]]]]; simplify_eq/=.
  - eapply rs_relation; [reflexivity..|by eexists].
Defined.

(** Raising [max_depth] never changes an answer: a check that succeeds
    under one limit succeeds with the same result under any larger one. *)
Theorem check_depth_monotone schema config config' rd request res :
  max_depth config ≤ max_depth config' →
  run rd (check schema config request) = Ok res →
  run rd (check schema config' request) = Ok res.
Proof.
  intros Hle. rewrite !run_check. intros H. inv_result.
  match goal with H : ev _ _ _ _ _ _ _ = Ok _ |- _ => apply (evaluate_rule_le schema config config') in H as Hev end;
    [|done].
  repeat match goal with H : _ = Some _ |- _ => rewrite H; clear H; cbn [ok_or try] end.
  unfold ev. rewrite Hev. done.
Qed.

Lemma check_depth_monotone_witness :
  run (list_reader cyclic_tuples)
    (check folder_schema (mk_EngineConfig 50 10) (request_for "folder" "a" "view" "alice")) =
    Ok (mk_CheckResult true).
Proof.
  apply (check_depth_monotone folder_schema engine_config_default); [simpl; lia|].
  vm_compute. reflexivity.
Defined.

(** C33: Every error of [check] is truthful: it is an error the reader answered
    to a read at the request's snapshot, or it names a type, permission or
    relation that the schema does not declare, or it reports the first depth
    past the limit. *)
Theorem check_errors_truthful schema config rd request e :
  run rd (check schema config request) = Err e →
  (∃ f, rd f (cr_snapshot request) = Err e) ∨ error_meaning schema config e.
Proof.
  rewrite run_check. intros [[Htd <-]%ok_or_Err|(td & Htd%ok_or_Ok & H)]%try_Err; [by right|].
  apply try_Err in H as [[Hpd <-]%ok_or_Err|(pd & Hpd%ok_or_Ok & H)]; [right; by exists td|].
  apply try_Err in H as [H|(? & _ & ?)]; [|done]. apply ev_Err in H; [done|simpl; lia].
Qed.

Lemma check_errors_truthful_witness :
  (∃ f, list_reader cyclic_tuples f None = Err (MaxDepthExceeded 2)) ∨
  error_meaning folder_schema (mk_EngineConfig 1 10) (MaxDepthExceeded 2).
Proof.
  apply (check_errors_truthful folder_schema (mk_EngineConfig 1 10)
    (list_reader cyclic_tuples) (request_for "folder" "a" "view" "bob")).
  vm_compute. reflexivity.
Defined.
