(* ===== verification/Natural.v ===== *)
(** * The recursion of the check engine as a natural semantics

    [engine/check.rs] rule by rule, with neither a budget nor a program of
    reads: a derivation is a finite run of [CheckEngine::evaluate_rule] against
    a reader.  [evaluation_total] says that every call has exactly one, and that
    the budgeted function of [Check] returns its result. *)
From stdpp Require Import base tactics list strings sets gmap.
From S2P Require Import Prelude Tuples Schema Engine Check CheckSpec CheckTheorems.

(** [for x in l { if f(x)? { return Ok(true); } } Ok(false)], where [f x]
    returns what [P x] derives. *)
Inductive some_of {A} (P : A → result CheckError bool → Prop) : list A → result CheckError bool → Prop :=
| some_nil : some_of P [] (Ok false)
| some_true x l : P x (Ok true) → some_of P (x :: l) (Ok true)
| some_next x l res : P x (Ok false) → some_of P l res → some_of P (x :: l) res
| some_err x l e : P x (Err e) → some_of P (x :: l) (Err e).

(** [for x in l { if !f(x)? { return Ok(false); } } Ok(true)] *)
Inductive each_of {A} (P : A → result CheckError bool → Prop) : list A → result CheckError bool → Prop :=
| each_nil : each_of P [] (Ok true)
| each_false x l : P x (Ok false) → each_of P (x :: l) (Ok false)
| each_next x l res : P x (Ok true) → each_of P l res → each_of P (x :: l) res
| each_err x l e : P x (Err e) → each_of P (x :: l) (Err e).

Section natural.
Context (schema : Schema) (config : EngineConfig) (rd : TupleReader).

(** Whether one tuple of a relation grants: by naming the subject, or by a
    userset that stores the subject as a direct member. *)
Inductive member (ctx : CheckContext) (t : Tuple) : result CheckError bool → Prop :=
| member_is :
    subject t = mk_SubjectRef (c_subject_type ctx) (c_subject_id ctx) None → member ctx t (Ok true)
| member_is_not :
    subject_relation (subject t) = None →
    subject t ≠ mk_SubjectRef (c_subject_type ctx) (c_subject_id ctx) None → member ctx t (Ok false)
| member_userset rel l :
    subject_relation (subject t) = Some rel →
    rd (mk_TupleFilter (Some (subject_type (subject t))) (Some (subject_id (subject t))) (Some rel)
          (Some (c_subject_type ctx)) (Some (c_subject_id ctx)) (Some None)) (c_snapshot ctx) = Ok l →
    member ctx t (Ok (bool_decide (l ≠ [])))
| member_fails rel e :
    subject_relation (subject t) = Some rel →
    rd (mk_TupleFilter (Some (subject_type (subject t))) (Some (subject_id (subject t))) (Some rel)
          (Some (c_subject_type ctx)) (Some (c_subject_id ctx)) (Some None)) (c_snapshot ctx) = Err e →
    member ctx t (Err e).

(** [..Default::default()] *)
Abbreviation tuples_of ot oid rel := (mk_TupleFilter (Some ot) (Some oid) (Some rel) None None None).

Inductive evaluates : RewriteRule → string → string → CheckContext → result CheckError bool → Prop :=
| eval_too_deep r ot oid ctx :
    max_depth config < depth ctx → evaluates r ot oid ctx (Err (MaxDepthExceeded (depth ctx)))
| eval_no_type name ot oid ctx :
    depth ctx ≤ max_depth config → get_type schema ot = None →
    evaluates (This name) ot oid ctx (Err (TypeNotFound ot))
| eval_permission name ot oid ctx td pd res :
    depth ctx ≤ max_depth config → get_type schema ot = Some td → get_permission td name = Some pd →
    evaluates (perm_rule pd) ot oid
      (mk_CheckContext (c_subject_type ctx) (c_subject_id ctx) (c_snapshot ctx) (S (depth ctx)) (visited ctx))
      res →
    evaluates (This name) ot oid ctx res
| eval_no_relation name ot oid ctx td :
    depth ctx ≤ max_depth config → get_type schema ot = Some td → get_permission td name = None →
    get_relation td name = None →
    evaluates (This name) ot oid ctx (Err (RelationNotFound ot name))
| eval_relation name ot oid ctx td rel l res :
    depth ctx ≤ max_depth config → get_type schema ot = Some td → get_permission td name = None →
    get_relation td name = Some rel → rd (tuples_of ot oid name) (c_snapshot ctx) = Ok l →
    some_of (member ctx) l res →
    evaluates (This name) ot oid ctx res
| eval_relation_fails name ot oid ctx td rel e :
    depth ctx ≤ max_depth config → get_type schema ot = Some td → get_permission td name = None →
    get_relation td name = Some rel → rd (tuples_of ot oid name) (c_snapshot ctx) = Err e →
    evaluates (This name) ot oid ctx (Err e)
| eval_union cs ot oid ctx res :
    depth ctx ≤ max_depth config → some_of (λ c, evaluates c ot oid ctx) cs res →
    evaluates (Union cs) ot oid ctx res
| eval_intersection cs ot oid ctx res :
    depth ctx ≤ max_depth config → each_of (λ c, evaluates c ot oid ctx) cs res →
    evaluates (Intersection cs) ot oid ctx res
| eval_not_in_base base excluded ot oid ctx :
    depth ctx ≤ max_depth config → evaluates base ot oid ctx (Ok false) →
    evaluates (Exclusion base excluded) ot oid ctx (Ok false)
| eval_base_fails base excluded ot oid ctx e :
    depth ctx ≤ max_depth config → evaluates base ot oid ctx (Err e) →
    evaluates (Exclusion base excluded) ot oid ctx (Err e)
| eval_excluded base excluded ot oid ctx b :
    depth ctx ≤ max_depth config → evaluates base ot oid ctx (Ok true) →
    evaluates excluded ot oid ctx (Ok b) →
    evaluates (Exclusion base excluded) ot oid ctx (Ok (negb b))
| eval_excluded_fails base excluded ot oid ctx e :
    depth ctx ≤ max_depth config → evaluates base ot oid ctx (Ok true) →
    evaluates excluded ot oid ctx (Err e) →
    evaluates (Exclusion base excluded) ot oid ctx (Err e)
| eval_arrow ts cp ot oid ctx l res :
    depth ctx ≤ max_depth config → rd (tuples_of ot oid ts) (c_snapshot ctx) = Ok l →
    some_of (follows cp ctx) l res →
    evaluates (Arrow ts cp) ot oid ctx res
| eval_arrow_fails ts cp ot oid ctx e :
    depth ctx ≤ max_depth config → rd (tuples_of ot oid ts) (c_snapshot ctx) = Err e →
    evaluates (Arrow ts cp) ot oid ctx (Err e)
(** An arrow through one tuple: nothing where the path has already been. *)
with follows : string → CheckContext → Tuple → result CheckError bool → Prop :=
| follow_visited cp ctx t :
    (subject_type (subject t), subject_id (subject t), cp) ∈ visited ctx → follows cp ctx t (Ok false)
| follow_no_type cp ctx t :
    (subject_type (subject t), subject_id (subject t), cp) ∉ visited ctx →
    get_type schema (subject_type (subject t)) = None →
    follows cp ctx t (Err (TypeNotFound (subject_type (subject t))))
| follow_no_permission cp ctx t td :
    (subject_type (subject t), subject_id (subject t), cp) ∉ visited ctx →
    get_type schema (subject_type (subject t)) = Some td → get_permission td cp = None →
    follows cp ctx t (Err (PermissionNotFound (subject_type (subject t)) cp))
| follow cp ctx t td pd res :
    (subject_type (subject t), subject_id (subject t), cp) ∉ visited ctx →
    get_type schema (subject_type (subject t)) = Some td → get_permission td cp = Some pd →
    evaluates (perm_rule pd) (subject_type (subject t)) (subject_id (subject t))
      (mk_CheckContext (c_subject_type ctx) (c_subject_id ctx) (c_snapshot ctx) (S (depth ctx))
         ({[(subject_type (subject t), subject_id (subject t), cp)]} ∪ visited ctx)) res →
    follows cp ctx t res.

(** ** The functions compute it *)

Lemma some_of_run {A} (P : A → result CheckError bool → Prop) f l res :
  (∀ x r, x ∈ l → P x r ↔ run rd (f x) = r) → some_of P l res ↔ run rd (any_child f l) = res.
Proof.
  intros HP. split.
  - induction 1 as [|x l Hx|x l res Hx _ IH|x l e Hx]; cbn [any_child]; [done|..];
      rewrite run_bind; apply HP in Hx as ->; try done; try by set_solver.
  - intros <-. induction l as [|x l IH]; cbn [any_child]; [constructor|]. rewrite run_bind.
    assert (P x (run rd (f x))) as Hx by (apply HP; [set_solver|done]).
    destruct (run rd (f x)) as [[]|e]; cbn [try]; [by constructor| |by constructor].
    constructor; [done|]. apply IH. intros y r Hy. apply HP. set_solver.
Qed.

Lemma each_of_run {A} (P : A → result CheckError bool → Prop) f l res :
  (∀ x r, x ∈ l → P x r ↔ run rd (f x) = r) → each_of P l res ↔ run rd (all_children f l) = res.
Proof.
  intros HP. split.
  - induction 1 as [|x l Hx|x l res Hx _ IH|x l e Hx]; cbn [all_children]; [done|..];
      rewrite run_bind; apply HP in Hx as ->; try done; try by set_solver.
  - intros <-. induction l as [|x l IH]; cbn [all_children]; [constructor|]. rewrite run_bind.
    assert (P x (run rd (f x))) as Hx by (apply HP; [set_solver|done]).
    destruct (run rd (f x)) as [[]|e]; cbn [try negb]; [|by constructor..].
    constructor; [done|]. apply IH. intros y r Hy. apply HP. set_solver.
Qed.

Lemma member_run ctx t res : member ctx t res ↔ run rd (tuple_grants ctx t) = res.
Proof.
  unfold tuple_grants, userset_filter. destruct t as [o r [sty sid [rel|]]]; cbn [subject subject_type subject_id
    subject_relation]; rewrite ?run_bind; cbn [run read_tuples].
  - split.
    + intros H. inversion H as [|? Hn|rel' l Hr Hrd|rel' e Hr Hrd]; simplify_eq/=; rewrite Hrd; cbn [try]; [|done].
      cbn. by rewrite <-bool_decide_not.
    + intros <-. destruct (rd _ _) as [l|e] eqn:Hrd; cbn [try]; [|by eapply member_fails].
      cbn. rewrite <-bool_decide_not. by eapply member_userset.
  - rewrite <-bool_decide_and. split.
    + intros H. inversion H as [Hs|Hr Hn|rel' l Hr|rel' e Hr]; simplify_eq/=.
      * by rewrite bool_decide_eq_true_2.
      * rewrite bool_decide_eq_false_2; [done|]. intros [-> ->]. done.
    + intros <-. case_bool_decide as Hb.
      * destruct Hb as [-> ->]. by apply member_is.
      * apply member_is_not; [done|]. simpl. naive_solver.
Qed.

(** What a jump to the rule of another permission needs to know. *)
Abbreviation jumps_agree ctx :=
  (∀ r ot oid ctx', depth ctx' = S (depth ctx) →
     ∀ res, evaluates r ot oid ctx' res ↔ run rd (evaluate_rule schema config r ot oid ctx') = res).

(** The last rule of a derivation, when the lookups before it are known. *)
Ltac last_rule H :=
  inversion H;
  repeat match goal with E : rd ?f ?s = _, E' : rd ?f ?s = _ |- _ => rewrite E in E' end;
  simplify_eq; try lia; try done.

Lemma this_run name ot oid ctx res :
  depth ctx ≤ max_depth config → jumps_agree ctx →
  evaluates (This name) ot oid ctx res ↔
    run rd (evaluate_this schema (evaluate_rule schema config) name ot oid ctx) = res.
Proof.
  intros Hd IH. unfold evaluate_this. rewrite run_bind. cbn [run].
  destruct (get_type schema ot) as [td|] eqn:Ht; cbn [ok_or try].
  2: { split; [intros H; last_rule H|intros <-; by constructor]. }
  destruct (get_permission td name) as [pd|] eqn:Hp.
  { rewrite <-IH by done. split; [intros H; last_rule H|by eapply eval_permission]. }
  destruct (get_relation td name) as [rel|] eqn:Hr.
  2: { split; [intros H; last_rule H|intros <-; by eapply eval_no_relation]. }
  rewrite run_bind. cbn [run read_tuples]. unfold object_relation_filter.
  destruct (rd _ _) as [l|e] eqn:Hrd; cbn [try].
  - rewrite <-some_of_run by (intros; apply member_run).
    split; [intros H; last_rule H|by eapply eval_relation].
  - split; [intros H; last_rule H|intros <-; by eapply eval_relation_fails].
Qed.

Lemma follows_run cp ctx t res :
  jumps_agree ctx →
  follows cp ctx t res ↔ run rd (arrow_target schema (evaluate_rule schema config) cp ctx t) = res.
Proof.
  intros IH. unfold arrow_target. case_bool_decide as Hv.
  { split; [intros H; last_rule H|intros <-; by constructor]. }
  rewrite run_bind. cbn [run].
  destruct (get_type schema (subject_type (subject t))) as [td|] eqn:Ht; cbn [ok_or try].
  2: { split; [intros H; last_rule H|intros <-; by constructor]. }
  rewrite run_bind. cbn [run]. destruct (get_permission td cp) as [pd|] eqn:Hp; cbn [ok_or try].
  2: { split; [intros H; last_rule H|intros <-; by eapply follow_no_permission]. }
  rewrite <-IH by done. split; [intros H; last_rule H|by eapply follow].
Qed.

Lemma exclusion_run base ex ot oid ctx res :
  depth ctx ≤ max_depth config →
  (∀ r, evaluates base ot oid ctx r ↔ run rd (evaluate_rule schema config base ot oid ctx) = r) →
  (∀ r, evaluates ex ot oid ctx r ↔ run rd (evaluate_rule schema config ex ot oid ctx) = r) →
  evaluates (Exclusion base ex) ot oid ctx res ↔
    run rd (let! base_result := evaluate_rule schema config base ot oid ctx in
            if negb base_result then ret false
            else let! excluded_result := evaluate_rule schema config ex ot oid ctx in
                 ret (negb excluded_result)) = res.
Proof.
  intros Hd Hb He. rewrite run_bind. split.
  - intros H. inversion H; subst; try lia;
      repeat match goal with
        | E : evaluates base _ _ _ _ |- _ => apply Hb in E; rewrite E
        | E : evaluates ex _ _ _ _ |- _ => apply He in E end;
      cbn [try negb run ret]; rewrite ?run_bind; try done; cbn [try negb]; rewrite ?run_bind;
      match goal with E : run rd (evaluate_rule _ _ ex _ _ _) = _ |- _ => by rewrite E end.
  - intros <-. pose proof (proj2 (Hb _) eq_refl) as Hbase. pose proof (proj2 (He _) eq_refl) as Hex.
    destruct (run rd (evaluate_rule schema config base ot oid ctx)) as [[]|e]; cbn [try negb].
    + rewrite run_bind. destruct (run rd (evaluate_rule schema config ex ot oid ctx)) as [b|e];
        [by apply eval_excluded|by apply eval_excluded_fails].
    + by apply eval_not_in_base.
    + by apply eval_base_fails.
Qed.

Lemma evaluates_run r ot oid ctx res :
  evaluates r ot oid ctx res ↔ run rd (evaluate_rule schema config r ot oid ctx) = res.
Proof.
  revert r ot oid ctx res. apply (ev_induction config (λ r ot oid ctx, ∀ res, _ ↔ _)).
  intros r ot oid ctx IHjump IHop res. rewrite (evaluate_rule_unfold schema config). unfold rule_body.
  destruct (Nat.ltb_spec (max_depth config) (depth ctx)) as [Hd|Hd].
  { split; [intros H; last_rule H|intros <-; by constructor]. }
  specialize (IHjump Hd). destruct r as [name|cs|cs|base ex|ts cp].
  - by apply this_run.
  - rewrite <-some_of_run by (intros c res' Hc; by apply IHop).
    split; [intros H; last_rule H|by apply eval_union].
  - rewrite <-each_of_run by (intros c res' Hc; by apply IHop).
    split; [intros H; last_rule H|by apply eval_intersection].
  - apply exclusion_run; [done|apply IHop; by left|apply IHop; by right].
  - unfold evaluate_arrow. rewrite run_bind. cbn [run read_tuples]. unfold object_relation_filter.
    destruct (rd _ _) as [l|e] eqn:Hrd; cbn [try].
    + rewrite <-some_of_run by (intros; by apply follows_run).
      split; [intros H; last_rule H|by eapply eval_arrow].
    + split; [intros H; last_rule H|intros <-; by eapply eval_arrow_fails].
Qed.
End natural.

(** C34: Every evaluation terminates, with one result: for any schema, cyclic
    permissions and cyclic tuples included, any depth limit, reader, rule and
    context, the recursion of [evaluate_rule] has a finite derivation for
    exactly one result, an answer or an error, and [evaluate_rule] returns that
    one.  The derivations are those of the rules of the source, read off its
    branches: the depth guard, the lookups and their errors, the loops that
    stop early, the userset lookup of a tuple and the visited targets. *)
Theorem evaluation_total schema config rd r ot oid ctx :
  ∃ res, evaluates schema config rd r ot oid ctx res ∧
    (∀ res', evaluates schema config rd r ot oid ctx res' → res' = res) ∧
    run rd (evaluate_rule schema config r ot oid ctx) = res.
Proof.
  exists (run rd (evaluate_rule schema config r ot oid ctx)). split; [by apply evaluates_run|].
  split; [|done]. intros res' H. symmetry. by apply evaluates_run.
Qed.
