(* ===== verification/Expand.v ===== *)
(** * The expand engine ([crates/kraalzibar-core/src/engine/expand.rs])

    [expand] runs the recursion of [check] without a subject and without
    short-circuits, and returns the tree of what it found.  Its recursion is
    budgeted as that of [Check]; [eval_tree] asks a tree whether it reaches a
    subject, and [expand_agrees_with_check] relates the two engines. *)
From stdpp Require Import base tactics list strings gmap.
From S2P Require Import Prelude Tuples Schema Engine Check CheckSpec CheckTheorems.

Record ExpandRequest := mk_ExpandRequest {
  xr_object_type : string;
  xr_object_id : string;
  xr_permission : string;
  xr_snapshot : option SnapshotToken }.

Inductive ExpandTree :=
| Leaf (subject : SubjectRef)
| TreeThis (relation : string) (subjects : list ExpandTree)
| TreeUnion (children : list ExpandTree)
| TreeIntersection (children : list ExpandTree)
| TreeExclusion (base excluded : ExpandTree)
| TreeArrow (tupleset_relation computed_permission : string) (children : list ExpandTree).

Record ExpandContext := mk_ExpandContext {
  x_snapshot : option SnapshotToken;
  x_depth : nat;
  x_visited : gset visit_key }.

(** [ExpandContext { depth: ctx.depth + 1, visited: ctx.visited.clone(), .. }] *)
Definition expand_deeper (ctx : ExpandContext) : ExpandContext :=
  mk_ExpandContext (x_snapshot ctx) (S (x_depth ctx)) (x_visited ctx).

(** The same, with [child_visited.insert(visit_key)]. *)
Definition expand_deeper_visiting (ctx : ExpandContext) (key : visit_key) : ExpandContext :=
  mk_ExpandContext (x_snapshot ctx) (S (x_depth ctx)) ({[key]} ∪ x_visited ctx).

Section ExpandEngine.
Context (schema : Schema) (config : EngineConfig).

Abbreviation rule_expander := (RewriteRule → string → string → ExpandContext → prog ExpandTree).

(** The leaves one tuple of the relation pushes to [subjects]. *)
Definition tuple_leaves (ctx : ExpandContext) (tuple : Tuple) : prog (list ExpandTree) :=
  match subject_relation (subject tuple) with
  | Some rel =>
      let! userset_tuples :=
        read_tuples (object_relation_filter (subject_type (subject tuple))
                       (subject_id (subject tuple)) rel) (x_snapshot ctx) in
      ret (map (λ ut, Leaf (subject ut)) userset_tuples)
  | None => ret [Leaf (subject tuple)]
  end.

Definition expand_this (expand_rule : rule_expander)
    (name object_type object_id : string) (ctx : ExpandContext) : prog ExpandTree :=
  let! type_def := Done (ok_or (get_type schema object_type) (TypeNotFound object_type)) in
  match get_permission type_def name with
  | Some perm_def => expand_rule (perm_rule perm_def) object_type object_id (expand_deeper ctx)
  | None =>
      match get_relation type_def name with
      | Some _ =>
          let! tuples :=
            read_tuples (object_relation_filter object_type object_id name) (x_snapshot ctx) in
          let! subjects := map_children (tuple_leaves ctx) tuples in
          ret (TreeThis name (concat subjects))
      | None => throw (RelationNotFound object_type name)
      end
  end.

(** The children one tuple of the tupleset relation pushes: none on
    [continue], else one. *)
Definition expand_target (expand_rule : rule_expander)
    (computed_perm : string) (ctx : ExpandContext) (tuple : Tuple) : prog (list ExpandTree) :=
  let target_type := subject_type (subject tuple) in
  let target_id := subject_id (subject tuple) in
  let key := (target_type, target_id, computed_perm) in
  if bool_decide (key ∈ x_visited ctx) then ret []
  else
    let! target_type_def := Done (ok_or (get_type schema target_type) (TypeNotFound target_type)) in
    let! perm_def := Done (ok_or (get_permission target_type_def computed_perm)
                             (PermissionNotFound target_type computed_perm)) in
    let! child_tree := expand_rule (perm_rule perm_def) target_type target_id
                         (expand_deeper_visiting ctx key) in
    ret [child_tree].

Definition expand_arrow (expand_rule : rule_expander)
    (tupleset_rel computed_perm object_type object_id : string) (ctx : ExpandContext)
    : prog ExpandTree :=
  let! tuples :=
    read_tuples (object_relation_filter object_type object_id tupleset_rel) (x_snapshot ctx) in
  let! children := map_children (expand_target expand_rule computed_perm ctx) tuples in
  ret (TreeArrow tupleset_rel computed_perm (concat children)).

Fixpoint expand_rule_budget (budget : nat) : rule_expander :=
  fix expand (rule : RewriteRule) (object_type object_id : string) (ctx : ExpandContext)
      : prog ExpandTree :=
    let jump : rule_expander :=
      match budget with
      | 0 => λ _ _ _ child_ctx, throw (MaxDepthExceeded (x_depth child_ctx))
      | S budget' => expand_rule_budget budget'
      end in
    if max_depth config <? x_depth ctx then throw (MaxDepthExceeded (x_depth ctx))
    else
      match rule with
      | This name => expand_this jump name object_type object_id ctx
      | Union children =>
          let! expanded := map_children (λ child, expand child object_type object_id ctx) children in
          ret (TreeUnion expanded)
      | Intersection children =>
          let! expanded := map_children (λ child, expand child object_type object_id ctx) children in
          ret (TreeIntersection expanded)
      | Exclusion base excluded =>
          let! base_tree := expand base object_type object_id ctx in
          let! excluded_tree := expand excluded object_type object_id ctx in
          ret (TreeExclusion base_tree excluded_tree)
      | Arrow tupleset_rel computed_perm =>
          expand_arrow jump tupleset_rel computed_perm object_type object_id ctx
      end.

Definition expand_rule : rule_expander := λ rule object_type object_id ctx,
  expand_rule_budget (max_depth config - x_depth ctx) rule object_type object_id ctx.

Definition expand (request : ExpandRequest) : prog ExpandTree :=
  let! type_def := Done (ok_or (get_type schema (xr_object_type request))
                           (TypeNotFound (xr_object_type request))) in
  let! perm_def := Done (ok_or (get_permission type_def (xr_permission request))
                           (PermissionNotFound (xr_object_type request) (xr_permission request))) in
  expand_rule (perm_rule perm_def) (xr_object_type request) (xr_object_id request)
    (mk_ExpandContext (xr_snapshot request) 0 ∅).

(** ** The budget is enough *)

Definition expand_jump (budget : nat) : rule_expander :=
  match budget with
  | 0 => λ _ _ _ child_ctx, throw (MaxDepthExceeded (x_depth child_ctx))
  | S budget' => expand_rule_budget budget'
  end.

Definition expand_body (ex jump : rule_expander) (rule : RewriteRule)
    (object_type object_id : string) (ctx : ExpandContext) : prog ExpandTree :=
  if max_depth config <? x_depth ctx then throw (MaxDepthExceeded (x_depth ctx))
  else
    match rule with
    | This name => expand_this jump name object_type object_id ctx
    | Union children =>
        let! expanded := map_children (λ child, ex child object_type object_id ctx) children in
        ret (TreeUnion expanded)
    | Intersection children =>
        let! expanded := map_children (λ child, ex child object_type object_id ctx) children in
        ret (TreeIntersection expanded)
    | Exclusion base excluded =>
        let! base_tree := ex base object_type object_id ctx in
        let! excluded_tree := ex excluded object_type object_id ctx in
        ret (TreeExclusion base_tree excluded_tree)
    | Arrow tupleset_rel computed_perm =>
        expand_arrow jump tupleset_rel computed_perm object_type object_id ctx
    end.

Lemma expand_budget_unfold b rule ot oid ctx :
  expand_rule_budget b rule ot oid ctx =
  expand_body (expand_rule_budget b) (expand_jump b) rule ot oid ctx.
Proof. by destruct b, rule. Qed.

Lemma expand_guard b rule ot oid ctx :
  max_depth config < x_depth ctx →
  expand_rule_budget b rule ot oid ctx = throw (MaxDepthExceeded (x_depth ctx)).
Proof.
  intros H. rewrite expand_budget_unfold. unfold expand_body.
  by rewrite (proj2 (Nat.ltb_lt _ _) H).
Qed.

Lemma expand_body_proper (ex ex' jump jump' : rule_expander) rule ot oid ctx :
  (∀ r, operand r rule → ex r ot oid ctx ≡ ex' r ot oid ctx) →
  (x_depth ctx ≤ max_depth config → ∀ r tt ti c, x_depth c = S (x_depth ctx) →
     jump r tt ti c ≡ jump' r tt ti c) →
  expand_body ex jump rule ot oid ctx ≡ expand_body ex' jump' rule ot oid ctx.
Proof.
  intros Hex Hjump. unfold expand_body.
  destruct (Nat.ltb_spec (max_depth config) (x_depth ctx)) as [|Hd]; [done|]. specialize (Hjump Hd).
  destruct rule as [name|cs|cs|b e|ts cp].
  - unfold expand_this. apply bind_proper; [done|]. intros td.
    destruct (get_permission td name); [by apply Hjump|done].
  - apply bind_proper; [apply map_children_proper; auto|done].
  - apply bind_proper; [apply map_children_proper; auto|done].
  - apply bind_proper; [apply Hex; by left|]. intros b'.
    apply bind_proper; [apply Hex; by right|done].
  - unfold expand_arrow. apply bind_proper; [done|]. intros tuples.
    apply bind_proper; [|done]. apply map_children_proper. intros t _.
    unfold expand_target. case_bool_decide; [done|]. apply bind_proper; [done|]. intros td.
    apply bind_proper; [done|]. intros pd. apply bind_proper; [by apply Hjump|done].
Qed.

Lemma expand_budget_enough b b' rule ot oid ctx :
  max_depth config - x_depth ctx ≤ b → max_depth config - x_depth ctx ≤ b' →
  expand_rule_budget b rule ot oid ctx ≡ expand_rule_budget b' rule ot oid ctx.
Proof.
  revert b' rule ot oid ctx. induction b as [b IHbudget] using lt_wf_ind. intros b' rule.
  rule_induction rule; intros ot oid ctx Hb Hb'; rewrite !expand_budget_unfold;
    apply expand_body_proper;
    try (intros r Hr; simpl in Hr; try done; rewrite ?Forall_forall in *; naive_solver);
    intros Hd r tt ti c Hc; destruct b, b'; simpl; try done;
    rewrite ?expand_guard by lia; try done; apply IHbudget; lia.
Qed.

Lemma expand_rule_unfold rule ot oid ctx :
  expand_rule rule ot oid ctx ≡ expand_body expand_rule expand_rule rule ot oid ctx.
Proof.
  unfold expand_rule. rewrite expand_budget_unfold. apply expand_body_proper; [done|].
  intros Hd r tt ti c Hc. destruct (max_depth config - x_depth ctx) as [|b] eqn:Hb; simpl.
  - by rewrite expand_guard by lia.
  - apply expand_budget_enough; lia.
Qed.

(** Every read is at the request's snapshot. *)
Lemma expand_rule_reads_at b rule ot oid ctx :
  reads_at (x_snapshot ctx) (expand_rule_budget b rule ot oid ctx).
Proof.
  revert rule ot oid ctx. induction b as [b IHbudget] using lt_wf_ind. intros rule.
  assert (∀ r ot oid ctx, reads_at (x_snapshot ctx) (expand_jump b r ot oid ctx)) as Hjump.
  { intros r ot oid ctx. destruct b; [constructor|]. apply IHbudget. lia. }
  rule_induction rule; intros ot oid ctx; rewrite expand_budget_unfold; unfold expand_body;
    (case_match; [constructor|]).
  - unfold expand_this. apply reads_at_bind; [constructor|]. intros td.
    case_match; [apply (Hjump _ _ _ (expand_deeper ctx))|]. case_match; [|constructor].
    apply reads_at_bind; [apply reads_at_read_tuples|]. intros tuples.
    apply reads_at_bind; [|constructor]. apply reads_at_map. intros t _.
    unfold tuple_leaves. case_match; [|constructor].
    apply reads_at_bind; [apply reads_at_read_tuples|constructor].
  - apply reads_at_bind; [|constructor]. apply reads_at_map. intros c Hc.
    rewrite Forall_forall in IHcs. by apply IHcs.
  - apply reads_at_bind; [|constructor]. apply reads_at_map. intros c Hc.
    rewrite Forall_forall in IHcs. by apply IHcs.
  - apply reads_at_bind; [apply IHrb|]. intros b'. apply reads_at_bind; [apply IHre|constructor].
  - unfold expand_arrow. apply reads_at_bind; [apply reads_at_read_tuples|]. intros tuples.
    apply reads_at_bind; [|constructor]. apply reads_at_map. intros t _.
    unfold expand_target. case_bool_decide; [constructor|].
    apply reads_at_bind; [constructor|]. intros td. apply reads_at_bind; [constructor|]. intros pd.
    apply reads_at_bind; [|constructor]. apply (Hjump _ _ _ (expand_deeper_visiting ctx _)).
Qed.

Lemma expand_reads_at request : reads_at (xr_snapshot request) (expand request).
Proof.
  unfold expand. apply reads_at_bind; [constructor|]. intros td.
  apply reads_at_bind; [constructor|]. intros pd.
  apply (expand_rule_reads_at _ _ _ _ (mk_ExpandContext (xr_snapshot request) 0 ∅)).
Qed.
End ExpandEngine.

(** ** What a tree says about a subject *)

Fixpoint eval_tree (s : SubjectRef) (tree : ExpandTree) : bool :=
  match tree with
  | Leaf s' => bool_decide (s' = s)
  | TreeThis _ trees | TreeUnion trees | TreeArrow _ _ trees => existsb (eval_tree s) trees
  | TreeIntersection trees => forallb (eval_tree s) trees
  | TreeExclusion base excluded => eval_tree s base && negb (eval_tree s excluded)
  end.

(** *** Induction on trees *)
Section ExpandTree_ind.
Context (P : ExpandTree → Prop).
Context (HLeaf : ∀ s, P (Leaf s)).
Context (HThis : ∀ rel cs, Forall P cs → P (TreeThis rel cs)).
Context (HUnion : ∀ cs, Forall P cs → P (TreeUnion cs)).
Context (HInter : ∀ cs, Forall P cs → P (TreeIntersection cs)).
Context (HExcl : ∀ b e, P b → P e → P (TreeExclusion b e)).
Context (HArrow : ∀ ts cp cs, Forall P cs → P (TreeArrow ts cp cs)).

Fixpoint tree_ind (t : ExpandTree) : P t :=
  let fix children (cs : list ExpandTree) : Forall P cs :=
    match cs with
    | [] => Forall_nil_2 P
    | c :: cs' => Forall_cons_2 P c cs' (tree_ind c) (children cs')
    end in
  match t with
  | Leaf s => HLeaf s
  | TreeThis rel cs => HThis rel cs (children cs)
  | TreeUnion cs => HUnion cs (children cs)
  | TreeIntersection cs => HInter cs (children cs)
  | TreeExclusion b e => HExcl b e (tree_ind b) (tree_ind e)
  | TreeArrow ts cp cs => HArrow ts cp cs (children cs)
  end.
End ExpandTree_ind.

(** *** The operators of a tree come from the rules

    With [full], intersections (of at least one operand) and exclusions may
    occur; without, only unions. *)
Section operators.
Context (full : bool).

Definition nonempty {A} (l : list A) : bool := match l with [] => false | _ => true end.

Fixpoint rule_operators (r : RewriteRule) : bool :=
  match r with
  | This _ | Arrow _ _ => true
  | Union cs => forallb rule_operators cs
  | Intersection cs => full && nonempty cs && forallb rule_operators cs
  | Exclusion b e => full && rule_operators b && rule_operators e
  end.

Fixpoint tree_operators (t : ExpandTree) : bool :=
  match t with
  | Leaf _ => true
  | TreeThis _ cs | TreeUnion cs | TreeArrow _ _ cs => forallb tree_operators cs
  | TreeIntersection cs => full && nonempty cs && forallb tree_operators cs
  | TreeExclusion b e => full && tree_operators b && tree_operators e
  end.

Definition schema_operators (s : Schema) : Prop :=
  ∀ ot td name pd, get_type s ot = Some td → get_permission td name = Some pd →
    rule_operators (perm_rule pd) = true.

Lemma forallb_concat {A} (p : A → bool) ls : forallb p (concat ls) = forallb (forallb p) ls.
Proof. induction ls as [|l ls IH]; [done|]. simpl. by rewrite forallb_app, IH. Qed.

Lemma run_map_forallb {A B} rd (f : A → prog B) (p : B → bool) l ys :
  run rd (map_children f l) = Ok ys →
  (∀ x y, x ∈ l → run rd (f x) = Ok y → p y = true) → forallb p ys = true.
Proof.
  intros H%run_map_Ok Hp. induction H as [|x y l ys Hx _ IH]; [done|]. simpl.
  rewrite (Hp x y) by (done || set_solver). apply IH. intros x' y' Hx'. apply Hp. set_solver.
Qed.

Lemma map_children_nonempty {A B} rd (f : A → prog B) l ys :
  run rd (map_children f l) = Ok ys → nonempty ys = nonempty l.
Proof. intros H%run_map_Ok. by destruct H. Qed.

Lemma tuple_leaves_operators rd ctx t ys :
  run rd (tuple_leaves ctx t) = Ok ys → forallb tree_operators ys = true.
Proof.
  unfold tuple_leaves. destruct (subject_relation (subject t)); [|by intros [= <-]].
  rewrite run_bind. intros (us & _ & [= <-])%try_Ok. by induction us.
Qed.

Lemma expand_target_operators schema rd expander computed ctx t ys :
  schema_operators schema →
  (∀ r ot oid key tree, rule_operators r = true →
     run rd (expander r ot oid (expand_deeper_visiting ctx key)) = Ok tree → tree_operators tree = true) →
  run rd (expand_target schema expander computed ctx t) = Ok ys → forallb tree_operators ys = true.
Proof.
  intros Hs Hjump. unfold expand_target. case_bool_decide as Hv; [by intros [= <-]|]. rewrite run_bind.
  intros (td & Htd%ok_or_Ok & H)%try_Ok. rewrite run_bind in H.
  apply try_Ok in H as (pd & Hpd%ok_or_Ok & H). rewrite run_bind in H.
  apply try_Ok in H as (tree' & Htree & [= <-]). simpl. rewrite andb_true_r.
  by eapply Hjump; [by eapply Hs|exact Htree].
Qed.

Lemma expand_rule_operators schema config rd r ot oid ctx tree :
  schema_operators schema → rule_operators r = true →
  run rd (expand_rule schema config r ot oid ctx) = Ok tree → tree_operators tree = true.
Proof.
  intros Hs. assert (∀ c, ∃ ctx, depth ctx = x_depth c) as Hctx
    by (intros c; by exists (mk_CheckContext "" "" None (x_depth c) ∅)).
  destruct (Hctx ctx) as [cctx Hd]. revert tree. revert ctx Hd. revert r ot oid cctx.
  apply (ev_induction config (λ r ot oid cctx, ∀ ctx, _ → ∀ tree, _ → _ → _)).
  intros r ot oid cctx IHjump IHop ctx Hd tree Hr.
  rewrite (expand_rule_unfold schema config r ot oid ctx). unfold expand_body. rewrite <-Hd.
  destruct (Nat.ltb_spec (max_depth config) (depth cctx)) as [|Hle]; [done|]. specialize (IHjump Hle).
  assert (∀ r' ot' oid' ctx' tree, x_depth ctx' = S (depth cctx) → rule_operators r' = true →
    run rd (expand_rule schema config r' ot' oid' ctx') = Ok tree → tree_operators tree = true) as Hjump.
  { intros r' ot' oid' ctx' tree' Hd'. destruct (Hctx ctx') as [cctx' Hcc].
    apply (IHjump _ _ _ cctx'); [congruence|done]. }
  assert (∀ r' tree, operand r' r → rule_operators r' = true →
    run rd (expand_rule schema config r' ot oid ctx) = Ok tree → tree_operators tree = true) as Hop.
  { intros r' tree' Hr'. by apply IHop. }
  clear IHjump IHop. destruct r as [name|cs|cs|b e|ts cp]; simpl in Hr.
  - unfold expand_this. rewrite run_bind. intros (td & Htd%ok_or_Ok & H)%try_Ok.
    destruct (get_permission td name) as [pd|] eqn:Hpd.
    { eapply (Hjump _ _ _ (expand_deeper ctx)); [by simpl; rewrite Hd|by eapply Hs|exact H]. }
    destruct (get_relation td name); [|done]. rewrite run_bind in H.
    apply try_Ok in H as (l & _ & H). rewrite run_bind in H.
    apply try_Ok in H as (yss & Hyss & [= <-]). simpl. rewrite forallb_concat.
    eapply run_map_forallb; [exact Hyss|]. intros t ys _. apply tuple_leaves_operators.
  - rewrite run_bind. intros (ys & Hys & [= <-])%try_Ok. simpl. rewrite forallb_forall in Hr.
    eapply run_map_forallb; [exact Hys|]. intros c y Hc. apply Hop; [done|].
    by apply Hr, list_elem_of_In.
  - rewrite run_bind. intros (ys & Hys & [= <-])%try_Ok. simpl.
    apply andb_true_iff in Hr as [Hne Hr]. rewrite (map_children_nonempty _ _ _ _ Hys), Hne.
    rewrite forallb_forall in Hr. eapply run_map_forallb; [exact Hys|]. intros c y Hc.
    apply Hop; [done|]. by apply Hr, list_elem_of_In.
  - rewrite run_bind. intros (y & Hy & H)%try_Ok. rewrite run_bind in H.
    apply try_Ok in H as (y' & Hy' & [= <-]). apply andb_true_iff in Hr as [Hr He].
    apply andb_true_iff in Hr as [Hf Hb]. simpl.
    rewrite Hf, (Hop b y (or_introl eq_refl) Hb Hy). by apply (Hop e y' (or_intror eq_refl)).
  - unfold expand_arrow. rewrite run_bind. intros (l & _ & H)%try_Ok. rewrite run_bind in H.
    apply try_Ok in H as (yss & Hyss & [= <-]). simpl. rewrite forallb_concat.
    eapply run_map_forallb; [exact Hyss|]. intros t ys _. apply expand_target_operators; [done|].
    intros r' ot' oid' key tree'. apply Hjump. simpl. by rewrite Hd.
Qed.
End operators.

Section agreement.
Context (schema : Schema) (config : EngineConfig) (T : list Tuple).
Context (snap : option SnapshotToken) (rd : TupleReader) (Hrd : faithful T snap rd).
Context (st si : string).

Definition same_context (xctx : ExpandContext) (ctx : CheckContext) : Prop :=
  x_snapshot xctx = c_snapshot ctx ∧ x_depth xctx = depth ctx ∧ x_visited xctx = visited ctx.

(** The loops of the two engines over the same list. *)
Lemma any_child_concat {A} (f : A → prog bool) (g : A → prog (list ExpandTree)) l yss :
  run rd (map_children g l) = Ok yss →
  (∀ x ys, run rd (g x) = Ok ys →
     run rd (f x) = Ok (existsb (eval_tree (direct st si)) ys)) →
  run rd (any_child f l) = Ok (existsb (eval_tree (direct st si)) (concat yss)).
Proof.
  intros H%run_map_Ok Hf. induction H as [|x ys l yss Hx _ IH]; simpl; [done|].
  rewrite run_bind, (Hf x ys Hx). simpl. rewrite existsb_app. by destruct (existsb _ ys).
Qed.

Lemma any_child_map {A} (f : A → prog bool) (g : A → prog ExpandTree) l ys :
  run rd (map_children g l) = Ok ys →
  (∀ x y, x ∈ l → run rd (g x) = Ok y → run rd (f x) = Ok (eval_tree (direct st si) y)) →
  run rd (any_child f l) = Ok (existsb (eval_tree (direct st si)) ys) ∧
  run rd (all_children f l) = Ok (forallb (eval_tree (direct st si)) ys).
Proof.
  intros H%run_map_Ok Hf. induction H as [|x y l ys Hx _ IH]; simpl; [done|].
  rewrite !run_bind, (Hf x y) by (done || set_solver). simpl.
  destruct IH as [IH1 IH2]; [intros; apply Hf; [set_solver|done]|].
  by destruct (eval_tree _ y).
Qed.

Lemma tuple_leaves_agree xctx ctx t ys :
  same_context xctx ctx → for_subject st si snap ctx →
  run rd (tuple_leaves xctx t) = Ok ys →
  run rd (tuple_grants ctx t) = Ok (existsb (eval_tree (direct st si)) ys).
Proof.
  intros (Hs & _ & _) Hctx Hys. destruct (run_tuple_grants T st si snap rd Hrd ctx t Hctx)
    as (b & -> & Hb). f_equal. apply eq_bool_prop_intro.
  assert (b = true ↔ existsb (eval_tree (direct st si)) ys = true) as Hiff; [|by destruct b, (existsb _ _); naive_solver].
  rewrite Hb. clear Hb. destruct Hctx as (_ & _ & Hsnap). unfold tuple_leaves in Hys.
  destruct (subject_relation (subject t)) as [rel|] eqn:Hrel.
  - rewrite run_bind, Hs, Hsnap in Hys.
    destruct (run_related T snap rd Hrd (subject_type (subject t)) (subject_id (subject t)) rel)
      as (l & Hl & Hin). rewrite Hl in Hys. injection Hys as <-.
    rewrite existsb_exists. setoid_rewrite <-list_elem_of_In. split.
    + intros [Hd|(rel' & ? & Ht)]; [by rewrite Hd in Hrel|]. simplify_eq.
      eexists. split; [apply list_elem_of_fmap; eexists; split; [done|]; by apply Hin; split_and!|].
      simpl. by rewrite bool_decide_eq_true.
    + intros (y & (ut & -> & (Ht & Ho & Hr)%Hin)%list_elem_of_fmap & Hy). simpl in Hy.
      rewrite bool_decide_eq_true in Hy. right. exists rel. split; [done|].
      destruct ut; simplify_eq/=. congruence.
  - injection Hys as <-. simpl. rewrite orb_false_r, bool_decide_eq_true. naive_solver.
Qed.

Lemma expand_rule_agrees r ot oid xctx ctx tree :
  same_context xctx ctx → for_subject st si snap ctx →
  run rd (expand_rule schema config r ot oid xctx) = Ok tree →
  ev schema config rd r ot oid ctx = Ok (eval_tree (direct st si) tree).
Proof.
  revert r ot oid ctx xctx tree. apply (ev_induction config
    (λ r ot oid ctx, ∀ xctx tree, _ → _ → _ → _)).
  intros r ot oid ctx IHjump IHop xctx tree Hx Hctx.
  rewrite ev_unfold, (expand_rule_unfold schema config r ot oid xctx).
  pose proof Hx as (Hsnap & Hdepth & Hvis). unfold rule_body, expand_body. rewrite Hdepth.
  destruct (Nat.ltb_spec (max_depth config) (depth ctx)) as [|Hd]; [done|]. specialize (IHjump Hd).
  destruct r as [name|cs|cs|b e|ts cp].
  - unfold expand_this, evaluate_this. rewrite !run_bind. intros (td & -> & H)%try_Ok. cbn [try].
    destruct (get_permission td name) as [pd|].
    { eapply (IHjump _ _ _ (deeper ctx)); [done| |done|exact H].
      unfold same_context. simpl. by rewrite Hdepth. }
    destruct (get_relation td name); [|done]. rewrite run_bind, Hsnap in H. rewrite run_bind.
    apply try_Ok in H as (l & -> & H). cbn [try]. rewrite run_bind in H.
    apply try_Ok in H as (yss & Hyss & [= <-]). simpl. eapply any_child_concat; [exact Hyss|].
    intros t ys. by apply tuple_leaves_agree.
  - rewrite run_bind. intros (ys & Hys & [= <-])%try_Ok. simpl.
    eapply any_child_map; [exact Hys|]. intros r y Hr. by apply (IHop r Hr).
  - rewrite run_bind. intros (ys & Hys & [= <-])%try_Ok. simpl.
    eapply any_child_map; [exact Hys|]. intros r y Hr. by apply (IHop r Hr).
  - rewrite !run_bind. intros (y & Hy & H)%try_Ok. rewrite run_bind in H.
    apply try_Ok in H as (y' & Hy' & [= <-]). simpl.
    apply (IHop b (or_introl eq_refl)) in Hy; [|done..]. unfold ev in Hy. rewrite Hy. cbn [try].
    apply (IHop e (or_intror eq_refl)) in Hy'; [|done..]. unfold ev in Hy'.
    destruct (eval_tree _ y); [|done]. cbn [negb]. rewrite run_bind, Hy'. done.
  - unfold expand_arrow, evaluate_arrow. rewrite !run_bind, Hsnap.
    intros (l & -> & H)%try_Ok. cbn [try]. rewrite run_bind in H.
    apply try_Ok in H as (yss & Hyss & [= <-]). simpl. eapply any_child_concat; [exact Hyss|].
    intros t ys. unfold expand_target, arrow_target. rewrite Hvis. case_bool_decide as Hv.
    { by intros [= <-]. }
    rewrite !run_bind. intros (td & -> & H)%try_Ok. cbn [try]. rewrite run_bind in H.
    rewrite run_bind. apply try_Ok in H as (pd & -> & H). cbn [try]. rewrite run_bind in H.
    apply try_Ok in H as (tree & Htree & [= <-]). simpl. rewrite orb_false_r.
    eapply (IHjump _ _ _ (deeper_visiting ctx _)); [done| |done|exact Htree].
    unfold same_context. simpl. by rewrite Hdepth, Hvis.
Qed.
End agreement.

(** The same for a whole request. *)
Lemma expand_check schema config rd T request tree st si :
  faithful T (xr_snapshot request) rd →
  run rd (expand schema config request) = Ok tree →
  run rd (check schema config
            (mk_CheckRequest (xr_object_type request) (xr_object_id request)
               (xr_permission request) st si (xr_snapshot request))) =
  Ok (mk_CheckResult (eval_tree (direct st si) tree)).
Proof.
  intros Hrd. rewrite run_check. cbn [cr_object_type cr_object_id cr_permission].
  unfold expand. rewrite run_bind. cbn [run].
  intros (td & -> & H)%try_Ok. cbn [try]. rewrite run_bind in H. cbn [run] in H.
  apply try_Ok in H as (pd & -> & H). cbn [try].
  eapply (expand_rule_agrees schema config T (xr_snapshot request) rd Hrd st si) in H as ->;
    done.
Qed.

(** ** The theorems *)

(** C4: Expanding a permission and checking it agree for every subject: when
    [expand] returns a tree, [check] of any subject at the same snapshot
    answers, and its answer is what the tree says about that subject. *)
Theorem expand_agrees_with_check schema config rd T request tree st si :
  faithful T (xr_snapshot request) rd →
  run rd (expand schema config request) = Ok tree →
  run rd (check schema config
            (mk_CheckRequest (xr_object_type request) (xr_object_id request)
               (xr_permission request) st si (xr_snapshot request))) =
  Ok (mk_CheckResult (eval_tree (direct st si) tree)).
Proof. apply expand_check. Qed.

Definition banned_tree : ExpandTree :=
  TreeExclusion
    (TreeArrow "parent" "view"
       [TreeUnion [TreeThis "viewer" [Leaf (direct "user" "alice"); Leaf (direct "user" "bob")];
                   TreeArrow "parent" "view" []]])
    (TreeThis "banned" [Leaf (direct "user" "bob")]).

Lemma expand_agrees_with_check_witness :
  run (list_reader banned_tuples) (expand banned_schema engine_config_default
    (mk_ExpandRequest "document" "d" "read" None)) = Ok banned_tree ∧
  run (list_reader banned_tuples) (check banned_schema engine_config_default
    (request_for "document" "d" "read" "alice")) = Ok (mk_CheckResult true) ∧
  run (list_reader banned_tuples) (check banned_schema engine_config_default
    (request_for "document" "d" "read" "bob")) = Ok (mk_CheckResult false).
Proof.
  split; [vm_compute; reflexivity|]. split.
  - apply (expand_agrees_with_check banned_schema engine_config_default (list_reader banned_tuples)
      banned_tuples (mk_ExpandRequest "document" "d" "read" None) banned_tree "user" "alice");
      [apply list_reader_faithful|vm_compute; reflexivity].
  - apply (expand_agrees_with_check banned_schema engine_config_default (list_reader banned_tuples)
      banned_tuples (mk_ExpandRequest "document" "d" "read" None) banned_tree "user" "bob");
      [apply list_reader_faithful|vm_compute; reflexivity].
Defined.
