(* ===== verification/Cost.v ===== *)
(** * What an evaluation costs ([crates/kraalzibar-core/src/engine/])

    The reads of an evaluation are counted ([reads]) and bounded ([costs]) for
    both engines: whatever cycles the tuples have, they are at most a power of
    the size of the schema and of the answers, with the depth limit as the
    exponent.  Sub-checks that two branches share are evaluated once per
    branch, so the exponent is real: [ladder_reads_double]. *)
From stdpp Require Import base tactics list strings sets gmap.
From S2P Require Import Prelude Tuples Schema Engine Check CheckSpec CheckTheorems Expand.

(** The reads of a program whose [i]-th read is answered by [rds i]: other
    clients may write between any two of them. *)
Fixpoint reads {A} (rds : nat → TupleReader) (i : nat) (p : prog A) : nat :=
  match p with
  | Done _ => 0
  | Read filter snapshot k => S (reads rds (S i) (k (rds i filter snapshot)))
  end.

(** Every answer of the reader has at most [T] tuples. *)
Definition answers_within (T : nat) (rd : TupleReader) : Prop :=
  ∀ f s l, rd f s = Ok l → length l ≤ T.

(** ** Programs of at most [n] reads *)
Section costs.
Context (T : nat).

(** At most [n] reads, as long as no read answers more than [T] tuples. *)
Inductive costs {A} : nat → prog A → Prop :=
| costs_done n r : costs n (Done r)
| costs_read n f s k :
    (∀ r, (∀ l, r = Ok l → length l ≤ T) → costs n (k r)) → costs (S n) (Read f s k).

Lemma costs_reads {A} n (p : prog A) rds i :
  costs n p → (∀ j, answers_within T (rds j)) → reads rds i p ≤ n.
Proof.
  intros Hp Hrds. revert i.
  induction Hp as [n r|n f s k _ IH]; intros i; simpl; [lia|].
  apply le_n_S, IH. intros l. apply Hrds.
Qed.

Lemma costs_weaken {A} m n (p : prog A) : costs m p → m ≤ n → costs n p.
Proof.
  intros Hp. revert n. induction Hp as [m r|m f s k _ IH]; intros n Hn; [constructor|].
  destruct n as [|n]; [lia|]. constructor. intros r Hr. apply IH; [done|lia].
Qed.

Lemma costs_bind {A B} m n (p : prog A) (f : A → prog B) :
  costs m p → (∀ a, costs n (f a)) → costs (m + n) (bind p f).
Proof.
  intros Hp Hf. induction Hp as [m [a|e]|m g s k _ IH]; simpl; [|constructor|].
  - apply (costs_weaken n); [apply Hf|lia].
  - constructor. exact IH.
Qed.

(** A lookup in the schema reads nothing. *)
Lemma costs_lookup {A B} n (r : result CheckError A) (f : A → prog B) :
  (∀ a, r = Ok a → costs n (f a)) → costs n (bind (Done r) f).
Proof. destruct r as [a|e]; simpl; [auto|constructor]. Qed.

(** What follows a read may use that its answer is small. *)
Lemma costs_read_bind {B} n f s (g : list Tuple → prog B) :
  (∀ l, length l ≤ T → costs n (g l)) → costs (S n) (bind (read_tuples f s) g).
Proof. intros Hg. simpl. constructor. intros [l|e] Hl; simpl; [auto|constructor]. Qed.

(** Loops cost the sum of what their turns cost. *)
Section loops.
Context {A : Type} (c : A → nat).

Lemma costs_any (f : A → prog bool) l :
  (∀ x, x ∈ l → costs (c x) (f x)) → costs (sum_list_with c l) (any_child f l).
Proof.
  induction l as [|x l IH]; intros H; simpl; [constructor|].
  apply costs_bind; [apply H; set_solver|]. intros []; [constructor|]. apply IH. set_solver.
Qed.

Lemma costs_all (f : A → prog bool) l :
  (∀ x, x ∈ l → costs (c x) (f x)) → costs (sum_list_with c l) (all_children f l).
Proof.
  induction l as [|x l IH]; intros H; simpl; [constructor|].
  apply costs_bind; [apply H; set_solver|]. intros []; [|constructor]. apply IH. set_solver.
Qed.

Lemma costs_map {B} (f : A → prog B) l :
  (∀ x, x ∈ l → costs (c x) (f x)) → costs (sum_list_with c l) (map_children f l).
Proof.
  induction l as [|x l IH]; intros H; simpl; [constructor|].
  apply costs_bind; [apply H; set_solver|]. intros y.
  rewrite <-(Nat.add_0_r (sum_list_with c l)).
  apply costs_bind; [apply IH; set_solver|]. constructor.
Qed.
End loops.

Lemma costs_then_ret {A B} n (p : prog A) (g : A → B) :
  costs n p → costs n (let! a := p in ret (g a)).
Proof.
  intros Hp. rewrite <-(Nat.add_0_r n). apply costs_bind; [done|]. constructor.
Qed.
End costs.

Lemma sum_list_const {A} (n : nat) (l : list A) : sum_list_with (λ _, n) l = length l * n.
Proof. induction l; simpl; lia. Qed.

Lemma sum_list_mul {A} (c : A → nat) n l : sum_list_with (λ x, c x * n) l = sum_list_with c l * n.
Proof. induction l; simpl; lia. Qed.

Lemma sum_list_ge {A} (c : A → nat) x l : x ∈ l → c x ≤ sum_list_with c l.
Proof. induction 1; simpl; lia. Qed.

(** ** The size of a schema *)

(** The references and arrows of a rule. *)
Fixpoint leaves (r : RewriteRule) : nat :=
  match r with
  | This _ | Arrow _ _ => 1
  | Union cs | Intersection cs => sum_list_with leaves cs
  | Exclusion b e => leaves b + leaves e
  end.

(** The most leaves of the rule of a permission. *)
Definition schema_leaves (s : Schema) : nat :=
  max_list (concat (map (λ td, map (leaves ∘ perm_rule) (type_permissions td)) (schema_types s))).

Lemma max_list_elem x l : x ∈ l → x ≤ max_list l.
Proof. induction 1; simpl; lia. Qed.

Lemma leaves_bounded s ot td name pd :
  get_type s ot = Some td → get_permission td name = Some pd →
  leaves (perm_rule pd) ≤ schema_leaves s.
Proof.
  intros [Ht _]%get_type_Some [Hp _]%get_permission_Some. apply max_list_elem.
  apply list_elem_of_In, in_concat. exists (map (leaves ∘ perm_rule) (type_permissions td)).
  split; apply in_map_iff; eexists; (split; [done|]); by apply list_elem_of_In.
Qed.
#[export] Hint Resolve leaves_bounded : kz.

(** ** The bound *)
Section bound.
Context (schema : Schema) (config : EngineConfig) (T : nat).

Abbreviation L := (schema_leaves schema).

(** The reads of the rule of a permission, with [b] jumps left. *)
Definition rule_bound (b : nat) : nat := (L * (1 + T)) ^ S b.

(** Those of a jump with [b] jumps left, and of a leaf. *)
Definition jump_bound (b : nat) : nat := match b with 0 => 0 | S b' => rule_bound b' end.
Definition leaf_bound (b : nat) : nat := (1 + T) * max 1 (jump_bound b).

Lemma rule_bound_enough b n : n ≤ L → n * leaf_bound b ≤ rule_bound b.
Proof.
  intros Hn. destruct (decide (L = 0)) as [HL|HL]; [replace n with 0 by lia; lia|].
  unfold leaf_bound, rule_bound. etrans; [apply Nat.mul_le_mono_r, Hn|].
  rewrite Nat.pow_succ_r', Nat.mul_assoc. apply Nat.mul_le_mono_l.
  destruct b as [|b]; simpl jump_bound; [done|]. apply Nat.max_lub; [|done].
  apply Nat.le_succ_l, Nat.neq_0_lt_0, Nat.pow_nonzero. nia.
Qed.

Lemma leaf_bound_read n b : n ≤ 1 ∨ n ≤ jump_bound b → S (T * n) ≤ leaf_bound b.
Proof. unfold leaf_bound. intros [?|?]; nia. Qed.

Lemma leaf_bound_jump b : jump_bound b ≤ leaf_bound b.
Proof. unfold leaf_bound. nia. Qed.

(** A read, then a loop over its answer. *)
Lemma costs_tuples {B} n b f s (g : list Tuple → prog B) :
  n ≤ 1 ∨ n ≤ jump_bound b →
  (∀ l, costs T (sum_list_with (λ _, n) l) (g l)) →
  costs T (leaf_bound b) (bind (read_tuples f s) g).
Proof.
  intros Hn Hg. apply (costs_weaken _ (S (T * n))); [|by apply leaf_bound_read].
  apply costs_read_bind. intros l Hl. eapply costs_weaken; [apply Hg|].
  rewrite sum_list_const. nia.
Qed.

(** What a jump into the rule of a permission may cost. *)
Abbreviation jump_costs b jump :=
  (∀ ot td name pd tt ti ctx, get_type schema ot = Some td → get_permission td name = Some pd →
     costs T (jump_bound b) (jump (perm_rule pd) tt ti ctx)).

(** *** Check *)

Lemma tuple_grants_costs ctx t : costs T 1 (tuple_grants ctx t).
Proof.
  unfold tuple_grants. case_match; [|constructor]. apply costs_then_ret. apply costs_read. constructor.
Qed.

Lemma evaluate_this_costs b jump name ot oid ctx :
  jump_costs b jump → costs T (leaf_bound b) (evaluate_this schema jump name ot oid ctx).
Proof.
  intros Hjump. apply costs_lookup. intros td Htd%ok_or_Ok.
  destruct (get_permission td name) as [pd|] eqn:Hpd.
  { eapply costs_weaken; [by eapply Hjump|apply leaf_bound_jump]. }
  destruct (get_relation td name); [|constructor].
  apply (costs_tuples 1); [by left|]. intros l. apply (costs_any _ (λ _, 1)). intros t _.
  apply tuple_grants_costs.
Qed.

Lemma evaluate_arrow_costs b jump ts cp ot oid ctx :
  jump_costs b jump → costs T (leaf_bound b) (evaluate_arrow schema jump ts cp ot oid ctx).
Proof.
  intros Hjump. apply (costs_tuples (jump_bound b)); [by right|]. intros l.
  apply (costs_any _ (λ _, jump_bound b)). intros t _. unfold arrow_target.
  case_bool_decide; [constructor|]. apply costs_lookup. intros td Htd%ok_or_Ok.
  apply costs_lookup. intros pd Hpd%ok_or_Ok. by eapply Hjump.
Qed.

Lemma rule_body_costs b jump rule ot oid ctx :
  jump_costs b jump →
  (∀ r, operand r rule → costs T (leaves r * leaf_bound b) (evaluate_rule_budget schema config b r ot oid ctx)) →
  costs T (leaves rule * leaf_bound b)
    (rule_body schema config (evaluate_rule_budget schema config b) jump rule ot oid ctx).
Proof.
  intros Hjump Hop. unfold rule_body. case_match; [constructor|].
  destruct rule as [name|cs|cs|base ex|ts cp]; simpl leaves.
  - rewrite Nat.mul_1_l. by apply evaluate_this_costs.
  - rewrite <-sum_list_mul. by apply costs_any.
  - rewrite <-sum_list_mul. by apply costs_all.
  - rewrite Nat.mul_add_distr_r. apply costs_bind; [apply Hop; by left|]. intros []; [|constructor].
    apply costs_then_ret, Hop. by right.
  - rewrite Nat.mul_1_l. by apply evaluate_arrow_costs.
Qed.

Lemma evaluate_rule_costs b rule ot oid ctx :
  costs T (leaves rule * leaf_bound b) (evaluate_rule_budget schema config b rule ot oid ctx).
Proof.
  revert rule ot oid ctx. induction b as [b IHbudget] using lt_wf_ind. intros rule.
  assert (jump_costs b (jump_of schema config b)) as Hjump.
  { intros ot td name pd tt ti ctx Htd Hpd. destruct b as [|b]; [constructor|].
    eapply costs_weaken; [apply IHbudget; lia|]. eauto using rule_bound_enough with kz. }
  rule_induction rule; intros ot oid ctx; rewrite budget_unfold; apply rule_body_costs; try done;
    intros r Hr; simpl in Hr; try done; rewrite ?Forall_forall in *; naive_solver.
Qed.

Lemma check_costs request : costs T (rule_bound (max_depth config)) (check schema config request).
Proof.
  apply costs_lookup. intros td Htd%ok_or_Ok. apply costs_lookup. intros pd Hpd%ok_or_Ok.
  apply costs_then_ret. eapply costs_weaken; [apply evaluate_rule_costs|].
  simpl. rewrite Nat.sub_0_r. eauto using rule_bound_enough with kz.
Qed.

(** *** Expand *)

Lemma tuple_leaves_costs ctx t : costs T 1 (tuple_leaves ctx t).
Proof.
  unfold tuple_leaves. case_match; [|constructor]. apply costs_then_ret. apply costs_read. constructor.
Qed.

Lemma expand_this_costs b jump name ot oid ctx :
  jump_costs b jump → costs T (leaf_bound b) (expand_this schema jump name ot oid ctx).
Proof.
  intros Hjump. apply costs_lookup. intros td Htd%ok_or_Ok.
  destruct (get_permission td name) as [pd|] eqn:Hpd.
  { eapply costs_weaken; [by eapply Hjump|apply leaf_bound_jump]. }
  destruct (get_relation td name); [|constructor].
  apply (costs_tuples 1); [by left|]. intros l. apply costs_then_ret.
  apply (costs_map _ (λ _, 1)). intros t _. apply tuple_leaves_costs.
Qed.

Lemma expand_arrow_costs b jump ts cp ot oid ctx :
  jump_costs b jump → costs T (leaf_bound b) (expand_arrow schema jump ts cp ot oid ctx).
Proof.
  intros Hjump. apply (costs_tuples (jump_bound b)); [by right|]. intros l. apply costs_then_ret.
  apply (costs_map _ (λ _, jump_bound b)). intros t _. unfold expand_target.
  case_bool_decide; [constructor|]. apply costs_lookup. intros td Htd%ok_or_Ok.
  apply costs_lookup. intros pd Hpd%ok_or_Ok. apply costs_then_ret. by eapply Hjump.
Qed.

Lemma expand_body_costs b jump rule ot oid ctx :
  jump_costs b jump →
  (∀ r, operand r rule → costs T (leaves r * leaf_bound b) (expand_rule_budget schema config b r ot oid ctx)) →
  costs T (leaves rule * leaf_bound b)
    (expand_body schema config (expand_rule_budget schema config b) jump rule ot oid ctx).
Proof.
  intros Hjump Hop. unfold expand_body. case_match; [constructor|].
  destruct rule as [name|cs|cs|base ex|ts cp]; simpl leaves.
  - rewrite Nat.mul_1_l. by apply expand_this_costs.
  - rewrite <-sum_list_mul. by apply costs_then_ret, costs_map.
  - rewrite <-sum_list_mul. by apply costs_then_ret, costs_map.
  - rewrite Nat.mul_add_distr_r. apply costs_bind; [apply Hop; by left|]. intros tree.
    apply costs_then_ret, Hop. by right.
  - rewrite Nat.mul_1_l. by apply expand_arrow_costs.
Qed.

Lemma expand_rule_costs b rule ot oid ctx :
  costs T (leaves rule * leaf_bound b) (expand_rule_budget schema config b rule ot oid ctx).
Proof.
  revert rule ot oid ctx. induction b as [b IHbudget] using lt_wf_ind. intros rule.
  assert (jump_costs b (expand_jump schema config b)) as Hjump.
  { intros ot td name pd tt ti ctx Htd Hpd. destruct b as [|b]; [constructor|].
    eapply costs_weaken; [apply IHbudget; lia|]. eauto using rule_bound_enough with kz. }
  rule_induction rule; intros ot oid ctx; rewrite expand_budget_unfold; apply expand_body_costs;
    try done; intros r Hr; simpl in Hr; try done; rewrite ?Forall_forall in *; naive_solver.
Qed.

Lemma expand_costs request :
  costs T (rule_bound (max_depth config)) (expand schema config request).
Proof.
  apply costs_lookup. intros td Htd%ok_or_Ok. apply costs_lookup. intros pd Hpd%ok_or_Ok.
  eapply costs_weaken; [apply expand_rule_costs|].
  simpl. rewrite Nat.sub_0_r. eauto using rule_bound_enough with kz.
Qed.
End bound.

(** ** Shared sub-checks are evaluated again

    A ladder of folders, two to a layer, each the child of both folders of the
    layer below.  A check from a folder of layer [n] that finds no viewer reads
    the rungs of layer [k] once for each of the [2 ^ (n - k)] ways to them:
    [4 * n] tuples, and a number of reads that doubles with every layer. *)

Fixpoint rung (k : nat) (side : string) : string :=
  match k with 0 => side | S k' => "x" +:+ rung k' side end.

Definition sides : list string := ["a"; "b"].

(** The folder of a layer is in both folders of the layer below. *)
Definition rung_parents (k : nat) (side : string) : list Tuple :=
  match k with
  | 0 => []
  | S k' => map (λ below, tuple_to "folder" (rung k side) "parent" (direct "folder" (rung k' below))) sides
  end.

Fixpoint ladder (n : nat) : list Tuple :=
  match n with
  | 0 => []
  | S n' => rung_parents n "a" ++ rung_parents n "b" ++ ladder n'
  end.

(** *** Runs that answer, with the reads they make *)
Section spends.
Context (rd : TupleReader).

(** The program answers [a] after exactly [n] reads of [rd]. *)
Definition spends {A} (p : prog A) (n : nat) (a : A) : Prop :=
  run rd p = Ok a ∧ ∀ i, reads (λ _, rd) i p = n.

#[export] Instance reads_proper {A} rds i : Proper ((≡) ==> (=)) (@reads A rds i).
Proof. intros p p' Hp. revert i. induction Hp; intros i; simpl; auto. Qed.

#[export] Instance spends_proper {A} : Proper ((≡) ==> (=) ==> (=) ==> iff) (@spends A).
Proof.
  intros p p' Hp n _ <- a _ <-. unfold spends.
  split; intros [Hrun Hn]; (split; [rewrite <-Hrun; by rewrite Hp|]); intros i; rewrite <-(Hn i);
    by rewrite Hp.
Qed.

Lemma reads_shift {A} i j (p : prog A) : reads (λ _, rd) i p = reads (λ _, rd) j p.
Proof. revert i j. induction p; intros i j; simpl; auto. Qed.

Lemma spends_bind {A B} (p : prog A) (f : A → prog B) m n a b :
  spends p m a → spends (f a) n b → spends (bind p f) (m + n) b.
Proof.
  intros [Hp Hm] [Hf Hn]. split; [by rewrite run_bind, Hp|]. intros i. rewrite <-(Hm i).
  clear Hm. revert i. induction p as [[a'|e]|g s k IH]; intros i; simpl in *; [|done|].
  - injection Hp as ->. apply Hn.
  - f_equal. by apply IH.
Qed.

Lemma spends_ret {A} (a : A) : spends (ret a) 0 a.
Proof. done. Qed.

Lemma spends_read f s l : rd f s = Ok l → spends (read_tuples f s) 1 l.
Proof. done. Qed.

(** A loop that finds nothing makes the reads of every turn. *)
Lemma spends_any_false {A} (f : A → prog bool) n l :
  (∀ x, x ∈ l → spends (f x) n false) → spends (any_child f l) (length l * n) false.
Proof.
  induction l as [|x l IH]; intros H; simpl; [apply spends_ret|].
  eapply spends_bind; [apply H; set_solver|]. apply IH. set_solver.
Qed.
End spends.

(** *** The ladder *)

Lemma rung_inj j k c c' :
  c ∈ sides → c' ∈ sides → rung j c = rung k c' → j = k ∧ c = c'.
Proof.
  unfold sides. intros Hc Hc'. revert k. induction j as [|j IH]; intros [|k]; simpl; [done|..].
  - set_solver.
  - set_solver.
  - intros [= H]. destruct (IH k H). auto.
Qed.

Lemma rung_parents_filter j k c c' rel :
  c ∈ sides → c' ∈ sides →
  filter (λ t, matches (object_relation_filter "folder" (rung j c) rel) t = true) (rung_parents k c') =
    if decide (rel = "parent" ∧ j = k ∧ c = c') then rung_parents k c' else [].
Proof.
  intros Hc Hc'. destruct k as [|k]; [by case_decide|]. cbn [rung_parents sides map].
  case_decide as Heq.
  - destruct Heq as (-> & -> & ->). by rewrite !filter_cons_True by by apply matches_object_relation.
  - rewrite !filter_cons_False; [done|..]; intros [[= Hr] Hrel]%matches_object_relation; apply Heq;
      symmetry in Hr; apply (rung_inj j (S k)) in Hr; naive_solver.
Qed.

Lemma ladder_filter n k c rel :
  c ∈ sides →
  filter (λ t, matches (object_relation_filter "folder" (rung k c) rel) t = true) (ladder n) =
    if decide (rel = "parent" ∧ k ≤ n) then rung_parents k c else [].
Proof.
  intros Hc. induction n as [|n IH]; cbn [ladder].
  { case_decide; [|done]. by replace k with 0 by lia. }
  rewrite !filter_app, !rung_parents_filter, IH by (done || set_solver).
  destruct (decide (rel = "parent")) as [->|Hrel]; [|by rewrite !decide_False by naive_solver].
  destruct (decide (k = S n)) as [->|Hk].
  - rewrite (decide_False (P := _ ∧ S n ≤ n)), (decide_True (P := _ ∧ S n ≤ S n)) by naive_solver lia.
    assert (c = "a" ∨ c = "b") as [-> | ->] by set_solver.
    + by rewrite decide_True, decide_False, !app_nil_r by naive_solver.
    + by rewrite decide_False, decide_True, !app_nil_r by naive_solver.
  - rewrite !(decide_False (P := _ ∧ k = S n ∧ _)) by naive_solver. apply decide_ext. naive_solver lia.
Qed.

(** One step of the recursion, above the depth limit. *)
Ltac step_rule :=
  rewrite evaluate_rule_unfold; unfold rule_body; rewrite (proj2 (Nat.ltb_ge _ _)) by lia.

(** The rule of [view] in [folder_schema]. *)
Definition view_rule : RewriteRule := Union [This "viewer"; Arrow "parent" "view"].

(** No folder of a layer below [k] was visited. *)
Definition unvisited (k : nat) (ctx : CheckContext) : Prop :=
  ∀ j c, j < k → c ∈ sides → ("folder", rung j c, "view") ∉ visited ctx.

Lemma unvisited_below k c ctx :
  c ∈ sides → unvisited (S k) ctx → unvisited k (deeper_visiting ctx ("folder", rung k c, "view")).
Proof.
  intros Hc Hv j d Hj Hd. simpl. rewrite not_elem_of_union, not_elem_of_singleton.
  split; [|by apply Hv; [lia|]]. intros [= H]. apply rung_inj in H as [-> _]; [lia|done..].
Qed.

Section ladder.
Context (config : EngineConfig) (n : nat).

Abbreviation rd := (list_reader (ladder n)).

Lemma ladder_viewers k c ctx :
  c ∈ sides → depth ctx ≤ max_depth config →
  spends rd (evaluate_rule folder_schema config (This "viewer") "folder" (rung k c) ctx) 1 false.
Proof.
  intros Hc Hd. step_rule. unfold evaluate_this. change 1 with (0 + (1 + 0)).
  eapply spends_bind; [by apply spends_ret|]. simpl get_permission.
  apply (spends_bind rd _ _ 1 0 []); [|apply spends_ret]. apply spends_read. unfold list_reader.
  by rewrite ladder_filter, decide_False by naive_solver.
Qed.

Lemma ladder_parents k c s :
  k ≤ n → c ∈ sides →
  spends rd (read_tuples (object_relation_filter "folder" (rung k c) "parent") s) 1 (rung_parents k c).
Proof.
  intros Hk Hc. apply spends_read. unfold list_reader. by rewrite ladder_filter, decide_True.
Qed.

Lemma double_reads k : 2 ^ (S k + 2) - 2 = 1 + (1 + 2 * (2 ^ (k + 2) - 2)) + 0.
Proof.
  replace (S k + 2) with (S (S (S k))) by lia. replace (k + 2) with (S (S k)) by lia.
  rewrite !Nat.pow_succ_r'. pose proof (Nat.pow_nonzero 2 k). lia.
Qed.

Lemma ladder_spends k c ctx :
  k ≤ n → c ∈ sides → depth ctx + k ≤ max_depth config → unvisited k ctx →
  spends rd (evaluate_rule folder_schema config view_rule "folder" (rung k c) ctx) (2 ^ (k + 2) - 2) false.
Proof.
  revert c ctx. induction k as [|k IH]; intros c ctx Hn Hc Hd Hv; step_rule.
  - apply (spends_bind rd _ _ 1 1 false); [apply ladder_viewers; [done|lia]|].
    apply (spends_bind rd _ _ 1 0 false); [|apply spends_ret].
    step_rule. apply (spends_bind rd _ _ 1 0 []); [|apply spends_ret]. by apply ladder_parents.
  - rewrite double_reads, <-Nat.add_assoc. apply (spends_bind rd _ _ _ _ false); [apply ladder_viewers; [done|lia]|].
    apply (spends_bind rd _ _ _ _ false); [|apply spends_ret].
    step_rule. apply (spends_bind rd _ _ _ _ (rung_parents (S k) c)); [by apply ladder_parents|].
    apply (spends_any_false _ _ _ (rung_parents (S k) c)). intros t.
    intros (below & -> & Hbelow)%list_elem_of_fmap. unfold arrow_target. cbn.
    rewrite bool_decide_eq_false_2 by (apply Hv; [lia|done]).
    apply IH; [lia|done|simpl; lia|by apply unvisited_below].
Qed.
End ladder.

(** Any depth limit, any ladder within it: the reads of a check that is denied
    are exponential in the number of stored tuples. *)
Lemma ladder_reads_double config n user snapshot :
  n ≤ max_depth config →
  spends (list_reader (ladder n))
    (check folder_schema config (mk_CheckRequest "folder" (rung n "a") "view" "user" user snapshot))
    (2 ^ (n + 2) - 2) (mk_CheckResult false) ∧
  length (ladder n) = 4 * n.
Proof.
  intros Hn. split.
  - unfold check. apply (spends_bind _ _ _ 0 _ _ _ (spends_ret _ _)).
    apply (spends_bind _ _ _ 0 _ _ _ (spends_ret _ _)).
    rewrite <-(Nat.add_0_r (_ - _)). eapply spends_bind; [|apply spends_ret].
    apply ladder_spends; [done|set_solver|done|]. intros j c _ _. apply not_elem_of_empty.
  - clear Hn. induction n as [|n IH]; [done|]. cbn [ladder]. rewrite !length_app, IH. simpl. lia.
Qed.

(** ** The theorem *)

(** C37: However the stored tuples loop and whatever other clients write between
    the reads of a request, [check] and [expand] make a bounded number of reads
    before they answer: if no read answers more than [T] tuples, at most
    [(schema_leaves * (1 + T)) ^ (max_depth + 1)]. *)
Theorem check_reads_bounded schema config T rds :
  (∀ i, answers_within T (rds i)) →
  (∀ request, reads rds 0 (check schema config request) ≤
     (schema_leaves schema * (1 + T)) ^ S (max_depth config)) ∧
  (∀ request, reads rds 0 (expand schema config request) ≤
     (schema_leaves schema * (1 + T)) ^ S (max_depth config)).
Proof.
  intros Hrds. split; intros request; eapply costs_reads; [apply check_costs|done|apply expand_costs|done].
Qed.

(** Readers between which another client deletes and restores the tuples. *)
Definition flickering (i : nat) : TupleReader := list_reader (if Nat.odd i then [] else cyclic_tuples).

Lemma flickering_within i : answers_within 4 (flickering i).
Proof.
  intros f s l [= <-]. etrans; [apply length_filter|]. destruct (Nat.odd i); simpl; lia.
Qed.

Lemma check_reads_bounded_witness :
  reads (λ _, list_reader cyclic_tuples) 0
    (check folder_schema engine_config_default (request_for "folder" "a" "view" "eve")) = 7 ∧
  reads flickering 0
    (check folder_schema engine_config_default (request_for "folder" "a" "view" "eve")) ≤
  (schema_leaves folder_schema * (1 + 4)) ^ 7.
Proof.
  split; [vm_compute; reflexivity|].
  apply (check_reads_bounded folder_schema engine_config_default 4 flickering).
  exact flickering_within.
Defined.
