(* ===== verification/Storage.v ===== *)
(** * The storage interfaces ([crates/kraalzibar-storage/src/traits.rs])

    The traits [RelationshipStore] and [SchemaStore] as classes of operations
    on the state of one tenant's store, and [VersionedStore]: what a store
    promises its clients.  [Memory] discharges the laws for the in-memory
    store; the garbage collector and the service are verified against them. *)
From stdpp Require Import base tactics list strings pretty relations sorting.
From S2P Require Import Prelude Tuples Engine.

Inductive StorageError :=
| EmptyDeleteFilter
| SnapshotAhead (requested current : Z)
| Internal (msg : string).

#[export] Instance StorageError_eq_dec : EqDecision StorageError.
Proof. solve_decision. Defined.

(** [#[error(..)]]: the [Display] of an error *)
Definition storage_error_display (e : StorageError) : string :=
  match e with
  | EmptyDeleteFilter => "delete filter must have at least one field set"
  | SnapshotAhead requested current =>
      "snapshot " +:+ pretty requested +:+ " is ahead of current " +:+ pretty current
  | Internal msg => "internal storage error: " +:+ msg
  end.

(** The methods take [&self] on a shared handle: a method that changes the
    store returns its next state. *)
Class RelationshipStore (S : Type) := {
  store_write : list TupleWrite → list TupleFilter → S → result StorageError SnapshotToken * S;
  store_read : S → TupleFilter → option SnapshotToken → option nat →
               result StorageError (list Tuple);
  store_snapshot : S → result StorageError SnapshotToken;
  store_list_object_ids : S → string → option SnapshotToken → option nat →
                          result StorageError (list string) }.

Class SchemaStore (S : Type) := {
  store_write_schema : string → S → result StorageError unit * S;
  store_read_schema : S → result StorageError (option string) }.

(** ** The specification of a store

    A store is a sequence of versions, numbered up to [now]; a version is a
    list of tuples without repetitions.  A write makes the next version and
    leaves every earlier one as it was. *)

Section written.
Context {S : Type} (inv : S → Prop) (now : S → Z) (view : S → Z → list Tuple).

(** [s'] is [s] after the writes [ws] and the deletes [ds]. *)
Record written (ws : list TupleWrite) (ds : list TupleFilter) (s s' : S) : Prop := {
  written_inv : inv s';
  written_now : now s' = (now s + 1)%Z;
  written_past v : (v ≤ now s)%Z → view s' v = view s v;
  written_present t :
    t ∈ view s' (now s') ↔
    (t ∈ view s (now s) ∧ existsb (λ f, matches f t) ds = false) ∨ t ∈ tuple_of_write <$> ws }.
End written.

Definition deletes_something (ds : list TupleFilter) : bool := forallb has_any_field ds.

Definition ids_of_type (ot : string) (ts : list Tuple) : list string :=
  dedup (sort_by string_leb
    (map (λ t, object_id (object t)) (filter (λ t, object_type (object t) = ot) ts))).

Lemma ids_of_type_spec ot ts :
  StronglySorted (λ i j, string_leb i j = true) (ids_of_type ot ts) ∧ NoDup (ids_of_type ot ts) ∧
  ∀ id, id ∈ ids_of_type ot ts ↔ ∃ t, t ∈ ts ∧ object t = mk_ObjectRef ot id.
Proof.
  unfold ids_of_type.
  assert (StronglySorted (λ i j, string_leb i j = true) (sort_by string_leb
    (map (λ t, object_id (object t)) (filter (λ t, object_type (object t) = ot) ts))))
    as Hs by (apply sort_by_sorted; [apply string_leb_total|apply string_leb_trans]).
  split_and!; [by apply dedup_sorted|by eapply (dedup_NoDup (λ i j, string_leb i j = true))|].
  intros id. rewrite elem_of_dedup, elem_of_sort_by, list_elem_of_In, in_map_iff.
  setoid_rewrite <-list_elem_of_In. setoid_rewrite list_elem_of_filter. split.
  - intros (t & <- & <- & Ht). exists t. by destruct t as [[]].
  - intros (t & Ht & Ho). exists t. by rewrite Ho.
Qed.

Class VersionedStore (S : Type) `{RelationshipStore S, SchemaStore S} := {
  store_inv : S → Prop;
  now : S → Z;
  view : S → Z → list Tuple;

  view_NoDup s v : store_inv s → (v ≤ now s)%Z → NoDup (view s v);
  store_snapshot_now s : store_inv s → store_snapshot s = Ok (mk_SnapshotToken (now s));
  store_read_at s f v limit :
    store_inv s → (v ≤ now s)%Z →
    store_read s f (Some (mk_SnapshotToken v)) limit =
      Ok (limit_to limit (filter (λ t, matches f t = true) (view s v)));
  store_read_now s f limit :
    store_inv s →
    store_read s f None limit =
      Ok (limit_to limit (filter (λ t, matches f t = true) (view s (now s))));
  store_read_ahead s f v limit :
    store_inv s → (now s < v)%Z →
    store_read s f (Some (mk_SnapshotToken v)) limit = Err (SnapshotAhead v (now s));
  store_ids_at s ot v limit :
    store_inv s → (v ≤ now s)%Z →
    store_list_object_ids s ot (Some (mk_SnapshotToken v)) limit =
      Ok (limit_to limit (ids_of_type ot (view s v)));
  store_ids_now s ot limit :
    store_inv s →
    store_list_object_ids s ot None limit = Ok (limit_to limit (ids_of_type ot (view s (now s))));
  store_ids_ahead s ot v limit :
    store_inv s → (now s < v)%Z →
    store_list_object_ids s ot (Some (mk_SnapshotToken v)) limit = Err (SnapshotAhead v (now s));
  store_write_rejected s ws ds :
    deletes_something ds = false → store_write ws ds s = (Err EmptyDeleteFilter, s);
  store_write_ok s ws ds :
    store_inv s → deletes_something ds = true → (now s + 1 < u64_max)%Z →
    ∃ s', store_write ws ds s = (Ok (mk_SnapshotToken (now s + 1)), s') ∧
      written store_inv now view ws ds s s' ∧ store_read_schema s' = store_read_schema s;
  store_write_schema_ok s d :
    store_inv s →
    ∃ s', store_write_schema d s = (Ok tt, s') ∧ store_inv s' ∧ now s' = now s ∧
      (∀ v, view s' v = view s v) ∧ store_read_schema s' = Ok (Some d);
  store_read_schema_ok s : store_inv s → is_ok (store_read_schema s) = true }.

(** ** [StoreFactory]

    [call_store tenant method]: [factory.for_tenant(tenant)], then one method
    call on the handle.  Its laws: each tenant has a store of its own. *)
Class StoreFactory (F Uuid S : Type) := {
  call_store {A} : TenantId Uuid → (S → A * S) → F → A * F }.

Class IsolatedStores (F Uuid S : Type) `{StoreFactory F Uuid S, VersionedStore S} := {
  factory_ok : F → Prop;
  tenant_view : TenantId Uuid → F → S;
  tenant_view_inv t f : factory_ok f → store_inv (tenant_view t f);
  call_store_spec {A} t (m : S → A * S) f :
    factory_ok f → store_inv (m (tenant_view t f)).2 →
    ∃ f', call_store t m f = ((m (tenant_view t f)).1, f') ∧ factory_ok f' ∧
      tenant_view t f' = (m (tenant_view t f)).2 ∧
      ∀ t', t' ≠ t → tenant_view t' f' = tenant_view t' f }.

(** ** What follows for every store *)

(** Requests of other clients between two reads: any sequence of writes. *)
Section steps.
Context {S : Type} `{VersionedStore S}.

Inductive store_step : S → S → Prop :=
| step_write s ws ds :
    (now s + 1 < u64_max)%Z → store_step s (store_write ws ds s).2
| step_schema s d : store_step s (store_write_schema d s).2.

Lemma store_step_spec s s' :
  store_inv s → store_step s s' →
  store_inv s' ∧ (now s ≤ now s')%Z ∧ ∀ v, (v ≤ now s)%Z → view s' v = view s v.
Proof.
  intros Hinv Hstep. destruct Hstep as [s ws ds Hroom|s d].
  - destruct (deletes_something ds) eqn:Hds.
    + destruct (store_write_ok s ws ds) as (s' & -> & [] & _); [done..|]. simpl.
      split_and!; [done|lia|done].
    + rewrite store_write_rejected by done. simpl. split_and!; [done|lia|done].
  - destruct (store_write_schema_ok s d) as (s' & -> & ? & Hn & ? & _); [done|]. simpl.
    split_and!; [done|lia|done].
Qed.

Lemma store_steps_spec s s' :
  rtc store_step s s' → store_inv s →
  store_inv s' ∧ (now s ≤ now s')%Z ∧ ∀ v, (v ≤ now s)%Z → view s' v = view s v.
Proof.
  induction 1 as [s|s s1 s' Hstep _ IH]; intros Hinv; [split_and!; [done|lia|done]|].
  apply store_step_spec in Hstep as (Hinv1 & Hle & Hv); [|done].
  destruct (IH Hinv1) as (? & ? & Hv'). split_and!; [done|lia|].
  intros v Hvle. rewrite Hv' by lia. by apply Hv.
Qed.

(** Reads at a version that exists are the same for ever after. *)
Lemma store_read_stable s s' f v limit :
  rtc store_step s s' → store_inv s → (v ≤ now s)%Z →
  store_read s' f (Some (mk_SnapshotToken v)) limit =
  store_read s f (Some (mk_SnapshotToken v)) limit.
Proof.
  intros Hsteps Hinv Hv. destruct (store_steps_spec s s' Hsteps Hinv) as (Hinv' & Hle & Hview).
  rewrite !store_read_at by (done || lia). by rewrite Hview.
Qed.
End steps.

(** ** The engine's reader over a store
    ([crates/kraalzibar-server/src/adapter.rs], [StoreTupleReader]) *)

Definition store_tuple_reader {S} `{RelationshipStore S} (store : S) : TupleReader :=
  λ filter snapshot,
    map_err (λ e, Engine.StorageError (storage_error_display e))
      (store_read store filter snapshot None).
