(* ===== verification/Memory.v ===== *)
(** * The in-memory store ([crates/kraalzibar-storage/src/memory.rs])

    One [InnerState] behind a mutex per tenant: every method runs alone on it.
    [MemoryStore] discharges the laws of [VersionedStore]. *)
From stdpp Require Import base tactics list strings gmap sorting.
From S2P Require Import Prelude Tuples Storage.

Definition ACTIVE_TX_ID : Z := u64_max.

Record StoredTuple := mk_StoredTuple {
  s_object_type : string;
  s_object_id : string;
  s_relation : string;
  s_subject_type : string;
  s_subject_id : string;
  s_subject_relation : option string;
  s_created_tx_id : Z;
  s_deleted_tx_id : Z }.

Definition matches_write (t : StoredTuple) (write : TupleWrite) : bool :=
  bool_decide (s_object_type t = object_type (w_object write))
  && bool_decide (s_object_id t = object_id (w_object write))
  && bool_decide (s_relation t = w_relation write)
  && bool_decide (s_subject_type t = subject_type (w_subject write))
  && bool_decide (s_subject_id t = subject_id (w_subject write))
  && bool_decide (s_subject_relation t = subject_relation (w_subject write)).

Definition is_active (t : StoredTuple) : bool := bool_decide (s_deleted_tx_id t = ACTIVE_TX_ID).

Definition visible_at (snapshot : Z) (t : StoredTuple) : bool :=
  (s_created_tx_id t <=? snapshot)%Z && (snapshot <? s_deleted_tx_id t)%Z.

Definition to_tuple (t : StoredTuple) : Tuple :=
  let subject := match s_subject_relation t with
                 | None => direct (s_subject_type t) (s_subject_id t)
                 | Some rel => userset (s_subject_type t) (s_subject_id t) rel
                 end in
  mk_Tuple (mk_ObjectRef (s_object_type t) (s_object_id t)) (s_relation t) subject.

Definition matches_filter (filter : TupleFilter) (t : StoredTuple) : bool :=
  matches filter (to_tuple t).

Record InnerState := mk_InnerState {
  current_tx : Z;
  tuples : list StoredTuple;
  mem_schema : option string }.

Definition default_state : InnerState := mk_InnerState 0 [] None.

(** ** [write] *)

(** [state.tuples[i].deleted_tx_id = tx_id] *)
Definition set_deleted (tx_id : Z) (t : StoredTuple) : StoredTuple :=
  mk_StoredTuple (s_object_type t) (s_object_id t) (s_relation t) (s_subject_type t)
    (s_subject_id t) (s_subject_relation t) (s_created_tx_id t) tx_id.

Definition to_delete (ts : list StoredTuple) (deletes : list TupleFilter) : list nat :=
  map fst (List.filter
    (λ p : nat * StoredTuple, is_active p.2 && existsb (λ f, matches_filter f p.2) deletes)
    (enumerate ts)).

Definition delete_at (tx_id : Z) (idxs : list nat) (ts : list StoredTuple) : list StoredTuple :=
  foldl (λ ts i, alter (set_deleted tx_id) i ts) ts idxs.

(** The key of the [seen] set. *)
Definition write_key (w : TupleWrite) : string * string * string * string * string * option string :=
  (object_type (w_object w), object_id (w_object w), w_relation w,
   subject_type (w_subject w), subject_id (w_subject w), subject_relation (w_subject w)).

Definition stored_of_write (tx_id : Z) (w : TupleWrite) : StoredTuple :=
  mk_StoredTuple (object_type (w_object w)) (object_id (w_object w)) (w_relation w)
    (subject_type (w_subject w)) (subject_id (w_subject w)) (subject_relation (w_subject w))
    tx_id ACTIVE_TX_ID.

Definition active_dup (idxs : list nat) (w : TupleWrite) (ts : list StoredTuple) : bool :=
  existsb (λ p : nat * StoredTuple, is_active p.2 && negb (bool_decide (p.1 ∈ idxs)) && matches_write p.2 w)
    (enumerate ts).

(** The loop over [writes]. *)
Fixpoint push_writes (tx_id : Z) (idxs : list nat)
    (seen : gset (string * string * string * string * string * option string))
    (writes : list TupleWrite) (ts : list StoredTuple) : list StoredTuple :=
  match writes with
  | [] => ts
  | w :: writes' =>
      let key := write_key w in
      if bool_decide (key ∈ seen) then push_writes tx_id idxs seen writes' ts
      else
        let seen := {[key]} ∪ seen in
        if active_dup idxs w ts then push_writes tx_id idxs seen writes' ts
        else push_writes tx_id idxs seen writes' (ts ++ [stored_of_write tx_id w])
  end.

Definition mem_write (writes : list TupleWrite) (deletes : list TupleFilter) (state : InnerState)
    : result StorageError SnapshotToken * InnerState :=
  if existsb (λ filter, negb (has_any_field filter)) deletes then (Err EmptyDeleteFilter, state)
  else
    let idxs := to_delete (tuples state) deletes in
    let tx_id := u64_add (current_tx state) 1 in
    let ts := delete_at tx_id idxs (tuples state) in
    let ts := push_writes tx_id idxs ∅ writes ts in
    (Ok (mk_SnapshotToken tx_id), mk_InnerState tx_id ts (mem_schema state)).

(** ** The reads *)

(** The version a read is at. *)
Definition read_version (snapshot : option SnapshotToken) (state : InnerState)
    : result StorageError Z :=
  match snapshot with
  | Some token =>
      let val := token_value token in
      if (current_tx state <? val)%Z then Err (SnapshotAhead val (current_tx state)) else Ok val
  | None => Ok (current_tx state)
  end.

Definition mem_read (state : InnerState) (filter : TupleFilter)
    (snapshot : option SnapshotToken) (limit : option nat) : result StorageError (list Tuple) :=
  let? snap := read_version snapshot state in
  Ok (limit_to limit
        (map to_tuple (List.filter (λ t, visible_at snap t && matches_filter filter t) (tuples state)))).

Definition mem_snapshot (state : InnerState) : result StorageError SnapshotToken :=
  Ok (mk_SnapshotToken (current_tx state)).

Definition mem_list_object_ids (state : InnerState) (object_type : string)
    (snapshot : option SnapshotToken) (limit : option nat) : result StorageError (list string) :=
  let? snap := read_version snapshot state in
  let ids := map s_object_id
    (List.filter (λ t, visible_at snap t && bool_decide (s_object_type t = object_type)) (tuples state)) in
  Ok (limit_to limit (dedup (sort_by string_leb ids))).

Definition mem_write_schema (definition : string) (state : InnerState)
    : result StorageError unit * InnerState :=
  (Ok tt, mk_InnerState (current_tx state) (tuples state) (Some definition)).

Definition mem_read_schema (state : InnerState) : result StorageError (option string) :=
  Ok (mem_schema state).

#[export] Instance MemoryRelationshipStore : RelationshipStore InnerState := {
  store_write := mem_write; store_read := mem_read;
  store_snapshot := mem_snapshot; store_list_object_ids := mem_list_object_ids }.

#[export] Instance MemorySchemaStore : SchemaStore InnerState := {
  store_write_schema := mem_write_schema; store_read_schema := mem_read_schema }.

(** ** The store as a sequence of versions *)

Definition mem_view (state : InnerState) (v : Z) : list Tuple :=
  map to_tuple (List.filter (visible_at v) (tuples state)).

Definition active_tuples (ts : list StoredTuple) : list Tuple :=
  map to_tuple (List.filter is_active ts).

(** A stored tuple was created by a past write and, unless it is active,
    deleted by a later past one. *)
Definition stored_ok (tx : Z) (t : StoredTuple) : Prop :=
  (s_created_tx_id t ≤ tx)%Z ∧ (s_created_tx_id t < s_deleted_tx_id t)%Z ∧
  (s_deleted_tx_id t = ACTIVE_TX_ID ∨ s_deleted_tx_id t ≤ tx)%Z.

Record mem_inv (state : InnerState) : Prop := {
  mem_inv_tx : (0 ≤ current_tx state < u64_max)%Z;
  mem_inv_stored : Forall (stored_ok (current_tx state)) (tuples state);
  mem_inv_NoDup v : (v ≤ current_tx state)%Z → NoDup (mem_view state v) }.

Lemma stored_tuple_key t w : matches_write t w = true ↔ to_tuple t = tuple_of_write w.
Proof.
  unfold matches_write, to_tuple, tuple_of_write. destruct t as [a b c d e f ? ?], w as [[] ? []].
  simpl. rewrite !andb_true_iff, !bool_decide_eq_true. split.
  - intros. destruct_and!. subst. by case_match.
  - intros Heq. destruct f; simplify_eq/=; done.
Qed.

Lemma to_tuple_of_write tx w : to_tuple (stored_of_write tx w) = tuple_of_write w.
Proof. by destruct w as [[] ? [? ? []]]. Qed.

Lemma write_key_inj w w' : write_key w = write_key w' ↔ tuple_of_write w = tuple_of_write w'.
Proof. destruct w as [[] ? []], w' as [[] ? []]. split; intros; simplify_eq/=; done. Qed.

(** The active tuples are those visible now. *)
Lemma visible_now tx t :
  stored_ok tx t → (tx < u64_max)%Z → visible_at tx t = is_active t.
Proof.
  intros (Hc & Hcd & Hd) Htx. unfold visible_at, is_active, ACTIVE_TX_ID in *.
  apply eq_true_iff_eq. rewrite andb_true_iff, Z.leb_le, Z.ltb_lt, bool_decide_eq_true. lia.
Qed.

Lemma filter_ext {A} (p q : A → bool) l :
  (∀ x, x ∈ l → p x = q x) → List.filter p l = List.filter q l.
Proof. intros H. apply filter_ext_in. intros x Hx. apply H. by apply list_elem_of_In. Qed.

Lemma filter_none {A} (p : A → bool) l : Forall (λ x, p x = false) l → List.filter p l = [].
Proof. induction 1 as [|x l Hx _ IH]; simpl; [done|]. by rewrite Hx. Qed.

Lemma view_now tx ts schema :
  (tx < u64_max)%Z → Forall (stored_ok tx) ts →
  mem_view (mk_InnerState tx ts schema) tx = active_tuples ts.
Proof.
  intros Htx Hts. unfold mem_view, active_tuples. simpl. f_equal. apply filter_ext.
  intros t Ht. apply visible_now; [|done]. rewrite Forall_forall in Hts. auto.
Qed.

(** ** [write], step by step *)

Lemma to_tuple_set_deleted tx t : to_tuple (set_deleted tx t) = to_tuple t.
Proof. done. Qed.

Lemma delete_at_lookup tx idxs ts j :
  delete_at tx idxs ts !! j =
    if bool_decide (j ∈ idxs) then set_deleted tx <$> ts !! j else ts !! j.
Proof.
  revert ts. induction idxs as [|i idxs IH]; intros ts; [done|]. simpl. rewrite IH.
  destruct (decide (i = j)) as [->|Hij].
  - rewrite list_lookup_alter_eq, (bool_decide_true (j ∈ j :: idxs)) by set_solver.
    case_bool_decide; [|done]. by destruct (ts !! j).
  - rewrite list_lookup_alter_ne by done.
    by rewrite (bool_decide_ext (j ∈ idxs) (j ∈ i :: idxs)) by set_solver.
Qed.

Lemma elem_of_to_delete ts ds i :
  i ∈ to_delete ts ds ↔
  ∃ t, ts !! i = Some t ∧ is_active t && existsb (λ f, matches_filter f t) ds = true.
Proof.
  unfold to_delete. rewrite list_elem_of_In, in_map_iff. setoid_rewrite filter_In.
  setoid_rewrite <-list_elem_of_In. split.
  - intros ([i' t] & <- & Hin%enumerate_lookup & Ht). by exists t.
  - intros (t & Hin & Ht). exists (i, t). by rewrite enumerate_lookup.
Qed.

(** What the deletes do to one stored tuple. *)
Definition marked (tx : Z) (ds : list TupleFilter) (t : StoredTuple) : StoredTuple :=
  if is_active t && existsb (λ f, matches_filter f t) ds then set_deleted tx t else t.

Lemma delete_at_marked tx ts ds : delete_at tx (to_delete ts ds) ts = map (marked tx ds) ts.
Proof.
  apply list_eq. intros j. rewrite delete_at_lookup. change (map (marked tx ds) ts) with (marked tx ds <$> ts).
  rewrite list_lookup_fmap. destruct (ts !! j) as [t|] eqn:Hj; [|by case_bool_decide].
  simpl. unfold marked. case_bool_decide as Hin.
  - apply elem_of_to_delete in Hin as (t' & Ht' & Hm). simplify_eq. by rewrite Hm.
  - destruct (_ && _) eqn:Hm; [|done]. destruct Hin. apply elem_of_to_delete. by exists t.
Qed.

Lemma active_dup_spec idxs w ts :
  (∀ i t, i ∈ idxs → ts !! i = Some t → is_active t = false) →
  active_dup idxs w ts = true ↔ tuple_of_write w ∈ active_tuples ts.
Proof.
  intros Hidxs. unfold active_dup, active_tuples. rewrite existsb_exists.
  rewrite (list_elem_of_In _ (tuple_of_write w)), in_map_iff. setoid_rewrite filter_In.
  setoid_rewrite <-list_elem_of_In. split.
  - intros ([i t] & Hin%enumerate_lookup & Ht). simpl in Ht.
    apply andb_true_iff in Ht as [Ht Hw]. apply andb_true_iff in Ht as [Ha _].
    exists t. split_and!; [by apply stored_tuple_key|by eapply list_elem_of_lookup_2|done].
  - intros (t & Hw & [i Hin]%list_elem_of_lookup & Ha). exists (i, t).
    split; [by apply enumerate_lookup|]. simpl. rewrite Ha, (proj2 (stored_tuple_key t w) Hw).
    rewrite bool_decide_false; [done|]. intros Hi. rewrite (Hidxs i t Hi Hin) in Ha. done.
Qed.

Lemma active_tuples_app ts ts' : active_tuples (ts ++ ts') = active_tuples ts ++ active_tuples ts'.
Proof. unfold active_tuples. by rewrite List.filter_app, map_app. Qed.

Lemma active_tuples_write tx w : active_tuples [stored_of_write tx w] = [tuple_of_write w].
Proof.
  unfold active_tuples. cbn [List.filter]. unfold is_active. rewrite bool_decide_true by done.
  simpl. by rewrite to_tuple_of_write.
Qed.

(** The loop appends the writes that are not active yet, each once. *)
Lemma push_writes_spec tx idxs writes seen ts :
  (∀ i t, i ∈ idxs → ts !! i = Some t → is_active t = false) →
  (∀ i, i ∈ idxs → i < length ts) →
  (∀ w, write_key w ∈ seen → tuple_of_write w ∈ active_tuples ts) →
  NoDup (active_tuples ts) →
  ∃ new, push_writes tx idxs seen writes ts = ts ++ new ∧
    Forall (λ t, s_created_tx_id t = tx ∧ s_deleted_tx_id t = ACTIVE_TX_ID) new ∧
    NoDup (active_tuples (ts ++ new)) ∧
    ∀ t, t ∈ active_tuples (ts ++ new) ↔ t ∈ active_tuples ts ∨ t ∈ tuple_of_write <$> writes.
Proof.
  revert seen ts. induction writes as [|w writes IH]; intros seen ts Hi Hlen Hseen Hnd.
  { exists []. rewrite app_nil_r. split_and!; [done|constructor|done|]. set_solver. }
  cbn [push_writes]. rewrite fmap_cons. case_bool_decide as Hw.
  { destruct (IH seen ts Hi Hlen Hseen Hnd) as (new & -> & ? & ? & Hin). exists new.
    split_and!; [done..|]. intros t. rewrite Hin, elem_of_cons. apply Hseen in Hw. naive_solver. }
  destruct (active_dup idxs w ts) eqn:Hdup.
  - apply active_dup_spec in Hdup; [|done].
    destruct (IH ({[write_key w]} ∪ seen) ts Hi Hlen) as (new & -> & ? & ? & Hin); [|done|].
    { intros w' [Heq%elem_of_singleton|?]%elem_of_union; [|auto]. apply write_key_inj in Heq. by rewrite Heq. }
    exists new. split_and!; [done..|]. intros t. rewrite Hin, elem_of_cons. naive_solver.
  - assert (tuple_of_write w ∉ active_tuples ts) as Hnew.
    { intros Hin%(active_dup_spec idxs); [|done]. congruence. }
    destruct (IH ({[write_key w]} ∪ seen) (ts ++ [stored_of_write tx w])) as (new & -> & Hf & ? & Hin).
    + intros i t Hidx. rewrite lookup_app_l by auto. by apply Hi.
    + intros i Hidx%Hlen. rewrite length_app. lia.
    + intros w'. rewrite active_tuples_app, active_tuples_write, elem_of_app, list_elem_of_singleton.
      intros [Heq%elem_of_singleton|?%Hseen]%elem_of_union; [right; by apply write_key_inj|by left].
    + rewrite active_tuples_app, active_tuples_write. by apply NoDup_snoc.
    + exists (stored_of_write tx w :: new). rewrite <-app_assoc in *. simpl in *.
      split_and!; [done|by constructor|done|]. intros t.
      rewrite Hin, active_tuples_app, active_tuples_write, elem_of_app, !elem_of_cons,
        elem_of_nil. tauto.
Qed.

(** ** The write as a new version *)

(** No version up to [tx] shows what a later write did. *)
Lemma marked_visible tx tx' ds v t :
  stored_ok tx t → (v ≤ tx)%Z → (tx < tx')%Z → (tx' < u64_max)%Z →
  visible_at v (marked tx' ds t) = visible_at v t.
Proof.
  intros (Hc & Hcd & Hd) Hv Htx Htx'. unfold marked. destruct (is_active t) eqn:Ha; [|done].
  destruct (existsb _ _); [|done]. unfold is_active in Ha. rewrite bool_decide_eq_true in Ha.
  unfold visible_at, ACTIVE_TX_ID in *. simpl. f_equal. apply eq_true_iff_eq.
  rewrite !Z.ltb_lt. lia.
Qed.

Lemma marked_to_tuple tx ds t : to_tuple (marked tx ds t) = to_tuple t.
Proof. unfold marked. by case_match. Qed.

Lemma marked_ok tx ds t :
  stored_ok tx t → (tx + 1 < u64_max)%Z → stored_ok (tx + 1) (marked (tx + 1) ds t).
Proof.
  unfold stored_ok, marked. intros (? & ? & ?) Htx. case_match; simpl; lia.
Qed.

Lemma marked_active tx ds t :
  (tx < u64_max)%Z →
  is_active (marked tx ds t) = is_active t && negb (existsb (λ f, matches_filter f t) ds).
Proof.
  intros Htx. unfold marked. destruct (is_active t) eqn:Ha; simpl; [|done].
  destruct (existsb _ _); [|done]. unfold is_active. simpl. apply bool_decide_eq_false.
  unfold ACTIVE_TX_ID. lia.
Qed.

Lemma filter_map_marked (p q : StoredTuple → bool) tx ds ts :
  (∀ t, t ∈ ts → p (marked tx ds t) = q t) →
  map to_tuple (List.filter p (map (marked tx ds) ts)) = map to_tuple (List.filter q ts).
Proof.
  induction ts as [|t ts IH]; intros H; [done|]. simpl. rewrite (H t) by set_solver.
  assert (∀ t, t ∈ ts → p (marked tx ds t) = q t) as Hts by (intros; apply H; set_solver).
  specialize (IH Hts). destruct (q t); simpl; rewrite ?marked_to_tuple; by rewrite IH.
Qed.

Lemma active_tuples_marked tx ds ts :
  (tx < u64_max)%Z →
  active_tuples (map (marked tx ds) ts) =
  List.filter (λ t, negb (existsb (λ f, matches f t) ds)) (active_tuples ts).
Proof.
  intros Htx. unfold active_tuples.
  rewrite (filter_map_marked _ (λ t, is_active t && negb (existsb (λ f, matches_filter f t) ds)))
    by (intros; by apply marked_active).
  induction ts as [|t ts IH]; [done|]. simpl. destruct (is_active t); simpl; [|done].
  unfold matches_filter at 1. destruct (existsb _ _); simpl; [done|]. by f_equal.
Qed.

Lemma deletes_something_existsb ds :
  existsb (λ filter, negb (has_any_field filter)) ds = negb (deletes_something ds).
Proof.
  unfold deletes_something. induction ds as [|f ds IH]; [done|]. simpl. rewrite IH.
  by destruct (has_any_field f).
Qed.

Lemma mem_write_spec ws ds state :
  mem_inv state → deletes_something ds = true → (current_tx state + 1 < u64_max)%Z →
  ∃ state', mem_write ws ds state = (Ok (mk_SnapshotToken (current_tx state + 1)), state') ∧
    written mem_inv current_tx mem_view ws ds state state' ∧ mem_schema state' = mem_schema state.
Proof.
  intros [Htx Hst Hnd] Hds Hroom. unfold mem_write.
  rewrite deletes_something_existsb, Hds. cbn [negb].
  rewrite u64_add_small by (unfold is_u64, u64_max in *; lia).
  eexists; split; [done|]. split; [|done].
  set (tx := (current_tx state + 1)%Z). rewrite delete_at_marked.
  set (ts := map (marked tx ds) (tuples state)).
  assert (Forall (stored_ok tx) ts) as Hts.
  { apply Forall_map. eapply Forall_impl; [exact Hst|]. intros t Ht. by apply marked_ok. }
  assert (active_tuples (tuples state) = mem_view state (current_tx state)) as Hact.
  { destruct state. symmetry. apply view_now; [simpl in *; lia|done]. }
  destruct (push_writes_spec tx (to_delete (tuples state) ds) ws ∅ ts) as (new & Hpush & Hnew & Hndn & Hin).
  { intros i t (t' & Ht' & Hm)%elem_of_to_delete. unfold ts.
    change (map ?f ?l) with (f <$> l). rewrite list_lookup_fmap, Ht'. intros [= <-].
    rewrite marked_active by (unfold tx; lia). apply andb_true_iff in Hm as [-> ->]. done. }
  { intros i (t' & Ht'%lookup_lt_Some & _)%elem_of_to_delete. unfold ts. by rewrite length_map. }
  { set_solver. }
  { unfold ts. rewrite active_tuples_marked by (unfold tx; lia). rewrite Hact.
    apply NoDup_ListNoDup, List.NoDup_filter, NoDup_ListNoDup, Hnd. lia. }
  rewrite Hpush. assert (Forall (stored_ok tx) (ts ++ new)) as Hall.
  { apply Forall_app. split; [done|]. eapply Forall_impl; [exact Hnew|]. unfold stored_ok.
    intros t [-> ->]. unfold ACTIVE_TX_ID, tx in *. lia. }
  assert (∀ v, (v ≤ current_tx state)%Z →
    mem_view (mk_InnerState tx (ts ++ new) (mem_schema state)) v = mem_view state v) as Hpast.
  { intros v Hv. unfold mem_view. simpl. rewrite List.filter_app, map_app. unfold ts.
    rewrite (filter_map_marked _ (visible_at v)).
    - rewrite (filter_none _ new), app_nil_r; [done|]. eapply Forall_impl; [exact Hnew|].
      intros t [Hc _]. unfold visible_at. apply andb_false_iff. left. apply Z.leb_gt. unfold tx in *. lia.
    - intros t Ht. rewrite Forall_forall in Hst. eapply marked_visible; [by apply Hst|done|unfold tx; lia..]. }
  assert (mem_view (mk_InnerState tx (ts ++ new) (mem_schema state)) tx = active_tuples (ts ++ new))
    as Hnow by (apply view_now; [unfold tx; lia|done]).
  split; [split|..].
  - simpl. unfold tx. lia.
  - done.
  - intros v Hv. simpl in Hv. destruct (Z.eq_dec v tx) as [->|]; [by rewrite Hnow|].
    rewrite Hpast by (unfold tx in *; lia). apply Hnd. unfold tx in *. lia.
  - done.
  - intros v Hv. by apply Hpast.
  - intros t. simpl. rewrite Hnow, Hin, <-Hact. unfold ts. rewrite active_tuples_marked by (unfold tx; lia).
    rewrite list_elem_of_In, filter_In, <-list_elem_of_In, negb_true_iff. done.
Qed.

(** ** The laws of [VersionedStore] *)

Lemma filter_bool {A} (p : A → bool) l : List.filter p l = filter (λ x, p x = true) l.
Proof.
  induction l as [|x l IH]; [done|]. rewrite filter_cons. simpl. rewrite IH.
  by destruct (p x).
Qed.

Lemma view_filter f state v :
  map to_tuple (List.filter (λ t, visible_at v t && matches_filter f t) (tuples state)) =
  filter (λ t, matches f t = true) (mem_view state v).
Proof.
  unfold mem_view. rewrite <-filter_bool. induction (tuples state) as [|t ts IH]; [done|]. simpl.
  destruct (visible_at v t); simpl; [|done]. unfold matches_filter at 1.
  destruct (matches f _); simpl; by rewrite IH.
Qed.

Lemma view_ids ot state v :
  dedup (sort_by string_leb (map s_object_id
    (List.filter (λ t, visible_at v t && bool_decide (s_object_type t = ot)) (tuples state)))) =
  ids_of_type ot (mem_view state v).
Proof.
  unfold ids_of_type, mem_view. do 2 f_equal.
  induction (tuples state) as [|t ts IH]; [done|]. simpl.
  destruct (visible_at v t); simpl; [|done]. rewrite filter_cons. simpl.
  case_bool_decide; case_decide; simpl; by rewrite ?IH.
Qed.

Lemma read_version_at v state :
  (v ≤ current_tx state)%Z → read_version (Some (mk_SnapshotToken v)) state = Ok v.
Proof. intros Hv. simpl. by rewrite (proj2 (Z.ltb_ge _ _)). Qed.

Lemma read_version_ahead v state :
  (current_tx state < v)%Z →
  read_version (Some (mk_SnapshotToken v)) state = Err (SnapshotAhead v (current_tx state)).
Proof. intros Hv. simpl. by rewrite (proj2 (Z.ltb_lt _ _)). Qed.

#[export] Program Instance MemoryStore : VersionedStore InnerState := {
  store_inv := mem_inv; now := current_tx; view := mem_view }.
Next Obligation. intros s v [_ _ H]. apply H. Qed.
Next Obligation. done. Qed.
Next Obligation.
  intros s f v limit _ Hv. cbn [store_read MemoryRelationshipStore]. unfold mem_read.
  rewrite read_version_at by done. simpl. by rewrite view_filter.
Qed.
Next Obligation.
  intros s f limit _. cbn [store_read MemoryRelationshipStore]. unfold mem_read. simpl.
  by rewrite view_filter.
Qed.
Next Obligation.
  intros s f v limit _ Hv. cbn [store_read MemoryRelationshipStore]. unfold mem_read.
  by rewrite read_version_ahead.
Qed.
Next Obligation.
  intros s ot v limit _ Hv. cbn [store_list_object_ids MemoryRelationshipStore].
  unfold mem_list_object_ids. rewrite read_version_at by done. simpl. by rewrite view_ids.
Qed.
Next Obligation.
  intros s ot limit _. cbn [store_list_object_ids MemoryRelationshipStore].
  unfold mem_list_object_ids. simpl. by rewrite view_ids.
Qed.
Next Obligation.
  intros s ot v limit _ Hv. cbn [store_list_object_ids MemoryRelationshipStore].
  unfold mem_list_object_ids. by rewrite read_version_ahead.
Qed.
Next Obligation.
  intros s ws ds Hds. cbn [store_write MemoryRelationshipStore]. unfold mem_write.
  by rewrite deletes_something_existsb, Hds.
Qed.
Next Obligation.
  intros s ws ds Hinv Hds Hroom.
  destruct (mem_write_spec ws ds s Hinv Hds Hroom) as (s' & ? & ? & Hsch). exists s'.
  split_and!; [done..|]. simpl. unfold mem_read_schema. by rewrite Hsch.
Qed.
Next Obligation. intros s d [Htx Hst Hnd]. eexists. split_and!; done. Qed.
Next Obligation. done. Qed.

Lemma default_state_inv : mem_inv default_state.
Proof. split; [done|constructor|constructor]. Qed.

(** ** [InMemoryStoreFactory]

    A handle is an [Arc] of a mutex: a location of a heap of states, so that
    all handles of a tenant share one state. *)
Section factory.
Context {Uuid : Type} `{Countable Uuid}.

Record FactoryState := mk_FactoryState {
  stores : gmap (TenantId Uuid) nat;
  heap : list InnerState }.

Definition factory_new : FactoryState := mk_FactoryState ∅ [].

(** [stores.entry(tenant_id.clone()).or_default().clone()] *)
Definition for_tenant (tenant_id : TenantId Uuid) (fs : FactoryState) : nat * FactoryState :=
  match stores fs !! tenant_id with
  | Some handle => (handle, fs)
  | None =>
      let handle := length (heap fs) in
      (handle, mk_FactoryState (<[tenant_id := handle]> (stores fs)) (heap fs ++ [default_state]))
  end.

(** A method call through a handle. *)
Definition with_handle {A} (handle : nat) (method : InnerState → A * InnerState)
    (fs : FactoryState) : option (A * FactoryState) :=
  state ← heap fs !! handle;
  let '(res, state') := method state in
  Some (res, mk_FactoryState (stores fs) (<[handle := state']> (heap fs))).

(** The state a tenant sees: its own, or the empty store it will get. *)
Definition tenant_state (tenant_id : TenantId Uuid) (fs : FactoryState) : InnerState :=
  match stores fs !! tenant_id with
  | Some handle => default default_state (heap fs !! handle)
  | None => default_state
  end.

Record factory_inv (fs : FactoryState) : Prop := {
  factory_range t h : stores fs !! t = Some h → h < length (heap fs);
  factory_inj t t' h : stores fs !! t = Some h → stores fs !! t' = Some h → t = t';
  factory_states : Forall mem_inv (heap fs) }.

Lemma factory_new_inv : factory_inv factory_new.
Proof. split; simpl; [done..|constructor]. Qed.

Lemma for_tenant_spec t fs :
  factory_inv fs →
  let '(h, fs') := for_tenant t fs in
  factory_inv fs' ∧ stores fs' !! t = Some h ∧ (∀ t', tenant_state t' fs' = tenant_state t' fs).
Proof.
  intros [Hr Hi Hs]. unfold for_tenant. destruct (stores fs !! t) as [h|] eqn:Ht; [done|].
  split_and!.
  - split; simpl.
    + intros t' h. rewrite length_app, lookup_insert_Some. simpl.
      intros [[_ <-]|[_ ?%Hr]]; lia.
    + intros t1 t2 h. rewrite !lookup_insert_Some.
      intros [[<- <-]|[? H1]] [[<- Hh]|[? H2]]; try done.
      * apply Hr in H2. lia.
      * subst. apply Hr in H1. lia.
      * by eapply Hi.
    + apply Forall_app. split; [done|]. constructor; [apply default_state_inv|constructor].
  - simpl. by rewrite lookup_insert_eq.
  - intros t'. unfold tenant_state. simpl. rewrite lookup_insert. case_decide as Htt.
    + subst. rewrite Ht, lookup_app_r, Nat.sub_diag by done. done.
    + destruct (stores fs !! t') as [h|] eqn:Ht'; [|done].
      by rewrite lookup_app_l by eauto.
Qed.

Lemma with_handle_spec {A} t h (method : InnerState → A * InnerState) fs :
  factory_inv fs → stores fs !! t = Some h → mem_inv (method (tenant_state t fs)).2 →
  ∃ fs', with_handle h method fs = Some ((method (tenant_state t fs)).1, fs') ∧
    factory_inv fs' ∧ stores fs' = stores fs ∧
    tenant_state t fs' = (method (tenant_state t fs)).2 ∧
    ∀ t', t' ≠ t → tenant_state t' fs' = tenant_state t' fs.
Proof.
  intros [Hr Hi Hs] Ht Hm. unfold with_handle, tenant_state in *. rewrite Ht in *.
  destruct (heap fs !! h) as [s|] eqn:Hh.
  2: { apply lookup_ge_None in Hh. apply Hr in Ht. lia. }
  simpl in *. destruct (method s) as [res s'] eqn:Hms. simpl in *.
  eexists. split_and!; [done| |done|..].
  - split; simpl; [|done|].
    + intros t' h'. rewrite length_insert. apply Hr.
    + by apply Forall_insert.
  - simpl. rewrite Ht, list_lookup_insert_eq by by eapply Hr. done.
  - intros t' Hne. simpl. destruct (stores fs !! t') as [h'|] eqn:Ht'; [|done].
    rewrite list_lookup_insert_ne; [done|]. intros ->. apply Hne. by eapply Hi.
Qed.

Lemma tenant_state_inv t fs : factory_inv fs → mem_inv (tenant_state t fs).
Proof.
  intros [_ _ Hs]. unfold tenant_state. destruct (stores fs !! t) as [h|]; [|apply default_state_inv].
  destruct (heap fs !! h) as [s|] eqn:Hh; [|apply default_state_inv].
  by eapply (Forall_lookup_1 mem_inv).
Qed.

(** The handle of [for_tenant] is in the heap, so the last branch is dead. *)
#[export] Instance MemoryStoreFactory : StoreFactory FactoryState Uuid InnerState := {
  call_store A t method fs :=
    let '(handle, fs) := for_tenant t fs in
    match with_handle handle method fs with
    | Some r => r
    | None => ((method default_state).1, fs)
    end }.

#[export] Program Instance MemoryIsolatedStores : IsolatedStores FactoryState Uuid InnerState := {
  factory_ok := factory_inv; tenant_view := tenant_state }.
Next Obligation. intros t f. apply tenant_state_inv. Qed.
Next Obligation.
  intros A t m f Hf Hm. cbn [call_store MemoryStoreFactory]. pose proof (for_tenant_spec t f Hf) as Hspec.
  destruct (for_tenant t f) as [h f1]. destruct Hspec as (Hf1 & Ht & Hsame).
  destruct (with_handle_spec t h m f1) as (f2 & -> & ? & _ & Hown & Hother);
    [done..|by rewrite Hsame|].
  exists f2. rewrite Hsame in *. split_and!; [done..|].
  intros t' Hne. by rewrite Hother.
Qed.
End factory.

(** ** The theorems *)

Definition demo_tuple (id user : string) : Tuple :=
  mk_Tuple (mk_ObjectRef "document" id) "viewer" (direct "user" user).
Definition demo_write (id user : string) : TupleWrite :=
  mk_TupleWrite (mk_ObjectRef "document" id) "viewer" (direct "user" user).

(** Two documents, then the second one is taken from bob. *)
Definition demo_state1 : InnerState :=
  (mem_write [demo_write "b" "bob"; demo_write "a" "alice"; demo_write "b" "bob"] [] default_state).2.
Definition demo_state2 : InnerState :=
  (mem_write [] [exact_filter (demo_tuple "b" "bob")] demo_state1).2.

(** C8: [write] on every branch: a delete filter without fields rejects the
    request and changes nothing; otherwise the write makes exactly one new
    version, in which the matched tuples are gone and every written tuple is
    present once, and no earlier version changes. *)
Theorem mem_write_exact ws ds state :
  mem_inv state → (current_tx state + 1 < u64_max)%Z →
  match mem_write ws ds state with
  | (Ok token, state') =>
      token = mk_SnapshotToken (current_tx state + 1) ∧
      written mem_inv current_tx mem_view ws ds state state'
  | (Err e, state') =>
      e = EmptyDeleteFilter ∧ state' = state ∧ ∃ f, f ∈ ds ∧ f = filter_default
  end.
Proof.
  intros Hinv Hroom. destruct (deletes_something ds) eqn:Hds.
  - by destruct (mem_write_spec ws ds state Hinv Hds Hroom) as (s' & -> & ? & _).
  - unfold mem_write. rewrite deletes_something_existsb, Hds. simpl. split_and!; [done..|].
    assert (existsb (λ f, negb (has_any_field f)) ds = true) as (f & Hf & Hn)%existsb_exists
      by (by rewrite deletes_something_existsb, Hds).
    exists f. rewrite negb_true_iff, has_any_field_false in Hn. by rewrite list_elem_of_In.
Qed.

Lemma mem_write_exact_witness :
  written mem_inv current_tx mem_view
    [demo_write "b" "bob"; demo_write "a" "alice"; demo_write "b" "bob"] [] default_state demo_state1 ∧
  mem_view demo_state1 1 = [demo_tuple "b" "bob"; demo_tuple "a" "alice"].
Proof.
  split; [|reflexivity].
  apply (mem_write_exact [demo_write "b" "bob"; demo_write "a" "alice"; demo_write "b" "bob"] []
    default_state); [apply default_state_inv|reflexivity].
Defined.

(** C9: [read] answers exactly the tuples of one version that match the
    filter, each once, cut at the limit; the version is the requested snapshot
    or, without one, the current version; a snapshot from the future is
    refused. *)
Theorem mem_read_exact state f snapshot limit :
  mem_inv state →
  match mem_read state f snapshot limit with
  | Ok l => ∃ v, (v ≤ current_tx state)%Z ∧
      default (current_tx state) (token_value <$> snapshot) = v ∧
      l = limit_to limit (filter (λ t, matches f t = true) (mem_view state v)) ∧ NoDup l
  | Err e => ∃ v, snapshot = Some (mk_SnapshotToken v) ∧ (current_tx state < v)%Z ∧
      e = SnapshotAhead v (current_tx state)
  end.
Proof.
  intros Hinv. unfold mem_read. destruct (read_version snapshot state) as [v|e] eqn:Hv; simpl.
  - assert ((v ≤ current_tx state)%Z ∧ default (current_tx state) (token_value <$> snapshot) = v) as [Hle Heq].
    { destruct snapshot as [[z]|]; simpl in *; [|by simplify_eq].
      destruct (Z.ltb_spec (current_tx state) z); simplify_eq. done. }
    exists v. rewrite view_filter. split_and!; [done..|].
    eapply sublist_NoDup; [|apply limit_to_sublist]. apply NoDup_filter, mem_inv_NoDup; done.
  - destruct snapshot as [[z]|]; simpl in Hv; [|done].
    destruct (Z.ltb_spec (current_tx state) z); simplify_eq. by exists z.
Qed.

Lemma mem_read_exact_witness :
  mem_inv demo_state2 ∧
  mem_read demo_state2 filter_default (Some (mk_SnapshotToken 1)) None =
    Ok [demo_tuple "b" "bob"; demo_tuple "a" "alice"] ∧
  NoDup [demo_tuple "b" "bob"; demo_tuple "a" "alice"] ∧
  mem_read demo_state2 filter_default None None = Ok [demo_tuple "a" "alice"].
Proof.
  assert (mem_inv demo_state2) as Hinv.
  { destruct (mem_write_spec [demo_write "b" "bob"; demo_write "a" "alice"; demo_write "b" "bob"] []
      default_state default_state_inv eq_refl eq_refl) as (s1 & Hs1 & [Hinv1 _ _ _] & _).
    assert (s1 = demo_state1) as -> by (unfold demo_state1; by rewrite Hs1).
    destruct (mem_write_spec [] [exact_filter (demo_tuple "b" "bob")] demo_state1 Hinv1
      eq_refl eq_refl) as (s2 & Hs2 & [Hinv2 _ _ _] & _).
    assert (s2 = demo_state2) as -> by (unfold demo_state2; by rewrite Hs2). done. }
  split; [done|]. split; [reflexivity|]. split; [|reflexivity].
  pose proof (mem_read_exact demo_state2 filter_default (Some (mk_SnapshotToken 1)) None Hinv)
    as (v & _ & _ & _ & Hnd). exact Hnd.
Defined.

(** [list_object_ids] answers the identifiers of exactly the objects of
    the type that have a tuple at the version, in increasing order and without
    repetition, cut at the limit. *)
Theorem mem_list_object_ids_exact state ot snapshot limit v :
  read_version snapshot state = Ok v →
  ∃ ids, mem_list_object_ids state ot snapshot limit = Ok (limit_to limit ids) ∧
    StronglySorted (λ i j, string_leb i j = true) ids ∧ NoDup ids ∧
    ∀ id, id ∈ ids ↔ ∃ t, t ∈ mem_view state v ∧ object t = mk_ObjectRef ot id.
Proof.
  intros Hv. unfold mem_list_object_ids. rewrite Hv. simpl. eexists; split; [done|].
  rewrite view_ids. apply ids_of_type_spec.
Qed.

Lemma mem_list_object_ids_exact_witness :
  ∃ ids, mem_list_object_ids demo_state1 "document" None (Some 1) = Ok (limit_to (Some 1) ids) ∧
    StronglySorted (λ i j, string_leb i j = true) ids ∧ NoDup ids ∧
    ∀ id, id ∈ ids ↔ ∃ t, t ∈ mem_view demo_state1 1 ∧ object t = mk_ObjectRef "document" id.
Proof. apply (mem_list_object_ids_exact demo_state1 "document" None (Some 1) 1). reflexivity. Defined.

(** C12: Tenants are isolated: a write by one tenant, through the handle the
    factory gives it, has the effect of that write on the tenant's own store
    and none on the store of any other tenant, and every handle of the tenant
    obtained later sees it. *)
Theorem tenant_isolation {Uuid} `{Countable Uuid} (fs : @FactoryState Uuid _ _) t ws ds :
  factory_inv fs → (current_tx (tenant_state t fs) + 1 < u64_max)%Z →
  let '(handle, fs1) := for_tenant t fs in
  ∃ fs2, with_handle handle (mem_write ws ds) fs1 =
           Some ((mem_write ws ds (tenant_state t fs)).1, fs2) ∧
    factory_inv fs2 ∧
    tenant_state t fs2 = (mem_write ws ds (tenant_state t fs)).2 ∧
    (for_tenant t fs2).1 = handle ∧
    ∀ t', t' ≠ t → tenant_state t' fs2 = tenant_state t' fs.
Proof.
  intros Hfs Hroom. pose proof (for_tenant_spec t fs Hfs) as Hspec.
  destruct (for_tenant t fs) as [handle fs1]. destruct Hspec as (Hfs1 & Ht & Hsame).
  pose proof (tenant_state_inv t fs Hfs) as Hinv.
  destruct (with_handle_spec t handle (mem_write ws ds) fs1) as (fs2 & Heq & Hfs2 & Hst & Hown & Hother);
    [done..| |].
  - rewrite Hsame. pose proof (mem_write_exact ws ds _ Hinv Hroom) as Hw.
    destruct (mem_write ws ds _) as [[tok|e] s']; [by destruct Hw as [_ []]|by destruct Hw as (_ & -> & _)].
  - exists fs2. rewrite Hsame in Heq, Hown. split_and!; [done..| |].
    + unfold for_tenant. by rewrite Hst, Ht.
    + intros t' Hne. by rewrite Hother.
Qed.

Lemma tenant_isolation_witness :
  let '(handle, fs1) := for_tenant (mk_TenantId 1%positive) factory_new in
  ∃ fs2, with_handle handle (mem_write [demo_write "a" "alice"] []) fs1 =
           Some (Ok (mk_SnapshotToken 1), fs2) ∧ factory_inv fs2 ∧
    tenant_state (mk_TenantId 1%positive) fs2 = (mem_write [demo_write "a" "alice"] [] default_state).2 ∧
    (for_tenant (mk_TenantId 1%positive) fs2).1 = handle ∧
    ∀ t', t' ≠ mk_TenantId 1%positive → tenant_state t' fs2 = tenant_state t' factory_new.
Proof.
  exact (tenant_isolation factory_new (mk_TenantId 1%positive) [demo_write "a" "alice"] []
    factory_new_inv eq_refl).
Defined.
