(* ===== verification/Gc.v ===== *)
(** * The garbage collector ([crates/kraalzibar-storage/src/gc.rs])

    [run_gc_cycle] reads the tuples of the current version and deletes, with
    one exact filter each, those the schema no longer declares.  It is verified
    against the interface [VersionedStore], and with other requests running
    between its store calls. *)
From stdpp Require Import base tactics list strings relations.
From S2P Require Import Prelude Tuples Schema Storage Memory.

Definition is_orphan (schema : Schema) (tuple : Tuple) : bool :=
  match get_type schema (object_type (object tuple)) with
  | None => true
  | Some td => negb (existsb (λ r, bool_decide (rel_name r = relation tuple)) (type_relations td))
  end.

(** The loop over [all_tuples]. *)
Definition orphan_filters (schema : Schema) (all_tuples : list Tuple) : list TupleFilter :=
  map exact_filter (List.filter (is_orphan schema) all_tuples).

Section gc.
Context {S : Type} `{RelationshipStore S}.

(** [interfere n] is what other requests do to the store before the [n]th of
    the three calls that follow an [await]. *)
Definition run_gc_cycle (interfere : nat → S → S) (schema : Schema) (store : S)
    : result StorageError nat * S :=
  match store_snapshot store with
  | Err e => (Err e, store)
  | Ok snapshot =>
      let store := interfere 0 store in
      match store_read store filter_default (Some snapshot) None with
      | Err e => (Err e, store)
      | Ok all_tuples =>
          let filters := orphan_filters schema all_tuples in
          let count := length filters in
          if bool_decide (filters = []) then (Ok count, store)
          else
            let store := interfere 1 store in
            let '(res, store) := store_write [] filters store in
            match res with
            | Err e => (Err e, store)
            | Ok _ => (Ok count, store)
            end
      end
  end.
End gc.

(** [schema] declares the tuple's relation on its object type. *)
Definition declared (schema : Schema) (t : Tuple) : Prop :=
  ∃ td, get_type schema (object_type (object t)) = Some td ∧
    relation t ∈ rel_name <$> type_relations td.

Lemma is_orphan_spec schema t : is_orphan schema t = false ↔ declared schema t.
Proof.
  unfold is_orphan, declared. destruct (get_type schema _) as [td|]; [|naive_solver].
  rewrite negb_false_iff, existsb_exists. setoid_rewrite bool_decide_eq_true.
  setoid_rewrite <-list_elem_of_In. setoid_rewrite list_elem_of_fmap. naive_solver.
Qed.

Lemma orphan_filters_matches schema ts t :
  existsb (λ f, matches f t) (orphan_filters schema ts) = true ↔ t ∈ ts ∧ ¬ declared schema t.
Proof.
  rewrite <-is_orphan_spec, not_false_iff_true, existsb_exists. unfold orphan_filters.
  setoid_rewrite in_map_iff. setoid_rewrite filter_In. setoid_rewrite <-list_elem_of_In. split.
  - intros (f & (t' & <- & Ht' & Ho) & Hm). apply matches_exact in Hm as ->. done.
  - intros [Ht Ho]. exists (exact_filter t). split; [by exists t|]. by apply matches_exact.
Qed.

Lemma orphan_filters_some schema ts : deletes_something (orphan_filters schema ts) = true.
Proof.
  unfold deletes_something. rewrite forallb_forall. unfold orphan_filters.
  intros f (t & <- & _)%in_map_iff. done.
Qed.

Lemma filter_default_all (ts : list Tuple) : filter (λ t, matches filter_default t = true) ts = ts.
Proof.
  induction ts as [|t ts IH]; [done|]. rewrite filter_cons, decide_True; [by rewrite IH|].
  apply matches_default.
Qed.

Section gc_spec.
Context {S : Type} `{VersionedStore S}.
Context (interfere : nat → S → S) (Hinterfere : ∀ n s, rtc store_step s (interfere n s)).

Definition before_write (s : S) : S := interfere 1 (interfere 0 s).

Lemma before_write_steps s : rtc store_step s (before_write s).
Proof. unfold before_write. etrans; eauto. Qed.

(** One cycle: what it reports, and the version it makes. *)
Lemma run_gc_cycle_spec schema s :
  store_inv s →
  let orphans := List.filter (is_orphan schema) (view s (now s)) in
  (orphans ≠ [] → now (before_write s) + 1 < u64_max)%Z →
  ∃ s', run_gc_cycle interfere schema s = (Ok (length orphans), s') ∧
    ((orphans = [] ∧ s' = interfere 0 s) ∨
     (orphans ≠ [] ∧ written store_inv now view [] (orphan_filters schema (view s (now s)))
                       (before_write s) s')).
Proof.
  intros Hinv orphans Hroom. unfold run_gc_cycle. rewrite store_snapshot_now by done.
  rewrite (store_read_stable s) by done. rewrite store_read_at by done. simpl.
  rewrite filter_default_all.
  assert (length (orphan_filters schema (view s (now s))) = length orphans) as ->
    by (unfold orphan_filters; by rewrite length_map).
  case_bool_decide as Hnil.
  - eexists; split; [done|]. left. split; [|done]. by apply map_eq_nil in Hnil.
  - assert (orphans ≠ []) as Hne.
    { intros Ho. apply Hnil. unfold orphan_filters. fold orphans. by rewrite Ho. }
    destruct (store_steps_spec _ _ (before_write_steps s) Hinv) as (Hi & _ & _).
    destruct (store_write_ok (before_write s) [] (orphan_filters schema (view s (now s))))
      as (s' & Heq & Hw & _); [done|apply orphan_filters_some|by apply Hroom|].
    unfold before_write in Heq. rewrite Heq. exists s'. split; [done|]. by right.
Qed.
End gc_spec.

(** Some tuple is an orphan unless all are declared. *)
Lemma orphans_nil schema ts :
  List.filter (is_orphan schema) ts = [] ↔ ∀ t, t ∈ ts → declared schema t.
Proof.
  split.
  - intros Hnil t Ht. apply is_orphan_spec. apply not_true_iff_false. intros Ho.
    assert (In t (List.filter (is_orphan schema) ts)) as Hin
      by (apply filter_In; by rewrite <-list_elem_of_In).
    by rewrite Hnil in Hin.
  - intros H. apply filter_none, Forall_forall. intros t Ht. by apply is_orphan_spec, H.
Qed.

(** ** The theorems *)

Definition gc_schema : Schema := mk_Schema [
  mk_TypeDefinition "document" [mk_RelationDef "owner" [mk_SubjectTypeRef "user" None]] []].

Definition gc_state : InnerState :=
  (mem_write [demo_write "a" "alice";
              mk_TupleWrite (mk_ObjectRef "document" "a") "owner" (direct "user" "alice")] []
     default_state).2.

Lemma gc_state_inv : mem_inv gc_state.
Proof.
  destruct (mem_write_spec [demo_write "a" "alice";
    mk_TupleWrite (mk_ObjectRef "document" "a") "owner" (direct "user" "alice")] []
    default_state default_state_inv eq_refl eq_refl) as (s1 & Hs1 & [Hinv1 _ _ _] & _).
  unfold gc_state. by rewrite Hs1.
Qed.

(** C27: Run alone, a garbage-collection cycle removes exactly the tuples whose
    type or relation the schema does not declare and reports how many they
    were; a second cycle finds nothing and writes nothing. *)
Theorem gc_removes_exactly_orphans {S} `{VersionedStore S} schema (s : S) :
  store_inv s → (now s + 1 < u64_max)%Z →
  ∃ s', run_gc_cycle (λ _ s, s) schema s =
      (Ok (length (List.filter (is_orphan schema) (view s (now s)))), s') ∧
    (∀ t, t ∈ view s' (now s') ↔ t ∈ view s (now s) ∧ declared schema t) ∧
    run_gc_cycle (λ _ s, s) schema s' = (Ok 0, s').
Proof.
  intros Hinv Hroom. assert (∀ (n : nat) (s : S), rtc store_step s s) as Hid by done.
  destruct (run_gc_cycle_spec _ Hid schema s Hinv (λ _, Hroom)) as (s' & Hrun & Hcase).
  exists s'. split; [done|].
  assert (store_inv s' ∧ ∀ t, t ∈ view s' (now s') ↔ t ∈ view s (now s) ∧ declared schema t)
    as [Hinv' Hview].
  { destruct Hcase as [[Hnil ->]|[_ [Hinv' _ _ Hw]]]; (split; [done|]); intros t.
    - split; [|tauto]. intros Ht. split; [done|]. revert t Ht. by apply orphans_nil.
    - rewrite Hw. unfold before_write. rewrite <-not_true_iff_false, orphan_filters_matches, fmap_nil.
      rewrite elem_of_nil. destruct (decide (is_orphan schema t = false)) as [Ho|Ho];
        rewrite is_orphan_spec in Ho; tauto. }
  split; [done|].
  assert (List.filter (is_orphan schema) (view s' (now s')) = []) as Hnone
    by (apply orphans_nil; intros t Ht%Hview; tauto).
  destruct (run_gc_cycle_spec _ Hid schema s' Hinv') as (s'' & -> & [[_ ->]|[? _]]);
    rewrite ?Hnone; done.
Qed.

Lemma gc_removes_exactly_orphans_witness :
  ∃ s', run_gc_cycle (λ _ s, s) gc_schema gc_state = (Ok 1, s') ∧
    (∀ t, t ∈ mem_view s' (current_tx s') ↔
          t ∈ mem_view gc_state 1 ∧ declared gc_schema t) ∧
    run_gc_cycle (λ _ s, s) gc_schema s' = (Ok 0, s').
Proof. exact (gc_removes_exactly_orphans gc_schema gc_state gc_state_inv eq_refl). Defined.

(** C28: Whatever other requests run between its store calls, a cycle never
    deletes a tuple the schema declares, leaves every earlier version as it
    was, and when it ends the orphans it saw are gone. *)
Theorem gc_safe_under_interference {S} `{VersionedStore S} interfere schema (s : S) :
  (∀ n s, rtc store_step s (interfere n s)) → store_inv s →
  (now (before_write interfere s) + 1 < u64_max)%Z →
  List.filter (is_orphan schema) (view s (now s)) ≠ [] →
  ∃ s', run_gc_cycle interfere schema s =
      (Ok (length (List.filter (is_orphan schema) (view s (now s)))), s') ∧
    (∀ t, declared schema t →
       t ∈ view s' (now s') ↔ t ∈ view (before_write interfere s) (now (before_write interfere s))) ∧
    (∀ t, t ∈ view s (now s) → ¬ declared schema t → t ∉ view s' (now s')) ∧
    (∀ v, (v ≤ now (before_write interfere s))%Z → view s' v = view (before_write interfere s) v).
Proof.
  intros Hint Hinv Hroom Hne.
  destruct (run_gc_cycle_spec interfere Hint schema s Hinv (λ _, Hroom))
    as (s' & Hrun & [[? _]|[_ [Hinv' _ Hpast Hw]]]); [done|].
  exists s'. split_and!; [done|..|done]; intros t;
    rewrite Hw, <-not_true_iff_false, orphan_filters_matches, fmap_nil, elem_of_nil; tauto.
Qed.

(** Before the cycle's write, somebody declares bob the owner of a document. *)
Definition gc_interference (n : nat) (s : InnerState) : InnerState :=
  match n with
  | 0 => s
  | _ => if bool_decide (current_tx s + 1 < u64_max)%Z
         then (store_write [mk_TupleWrite (mk_ObjectRef "document" "b") "owner" (direct "user" "bob")] [] s).2
         else s
  end.

Lemma gc_safe_under_interference_witness :
  ∃ s', run_gc_cycle gc_interference gc_schema gc_state =
      (Ok (length (List.filter (is_orphan gc_schema) (view gc_state (now gc_state)))), s') ∧
    (∀ t, declared gc_schema t →
       t ∈ view s' (now s') ↔
       t ∈ view (before_write gc_interference gc_state) (now (before_write gc_interference gc_state))) ∧
    (∀ t, t ∈ view gc_state (now gc_state) → ¬ declared gc_schema t → t ∉ view s' (now s')) ∧
    (∀ v, (v ≤ now (before_write gc_interference gc_state))%Z →
       view s' v = view (before_write gc_interference gc_state) v).
Proof.
  apply (gc_safe_under_interference gc_interference gc_schema gc_state).
  - intros [|n] s; [apply rtc_refl|]. unfold gc_interference. case_bool_decide; [|apply rtc_refl].
    apply rtc_once. by constructor.
  - exact gc_state_inv.
  - vm_compute. reflexivity.
  - vm_compute. discriminate.
Defined.
