(* ===== verification/StoreCheck.v ===== *)
(** * Checks over a store that others write to

    [CheckEngine] and [ExpandEngine] read through [StoreTupleReader]
    ([Storage.store_tuple_reader]) one filter at a time, and other requests
    write between the reads.  At a snapshot token the interleaving cannot be
    observed; without a token it can. *)
From stdpp Require Import base tactics list strings relations.
From S2P Require Import Prelude Tuples Schema Engine Check CheckSpec CheckTheorems Expand Storage Memory.

Section store.
Context {S : Type} `{VersionedStore S}.

(** An execution of a program of the engine while other requests run. *)
Definition interleaved {A} (s : S) (p : prog A) (res : result CheckError A) : Prop :=
  exec store_step store_tuple_reader s p res.

Lemma store_reader_at s v :
  store_inv s → (v ≤ now s)%Z →
  faithful (view s v) (Some (mk_SnapshotToken v)) (store_tuple_reader s).
Proof.
  intros Hinv Hv f. unfold store_tuple_reader. rewrite store_read_at by done. simpl.
  eexists; split; [done|]. intros t. rewrite list_elem_of_filter. tauto.
Qed.

Lemma store_reader_now s :
  store_inv s → faithful (view s (now s)) None (store_tuple_reader s).
Proof.
  intros Hinv f. unfold store_tuple_reader. rewrite store_read_now by done. simpl.
  eexists; split; [done|]. intros t. rewrite list_elem_of_filter. tauto.
Qed.

Lemma store_reader_stable s s' v :
  store_inv s → (v ≤ now s)%Z → rtc store_step s s' →
  ∀ f, store_tuple_reader s' f (Some (mk_SnapshotToken v)) =
       store_tuple_reader s f (Some (mk_SnapshotToken v)).
Proof.
  intros Hinv Hv Hsteps f. unfold store_tuple_reader. by rewrite (store_read_stable s s').
Qed.

Lemma interleaved_stable {A} s v (p : prog A) res :
  store_inv s → (v ≤ now s)%Z → reads_at (Some (mk_SnapshotToken v)) p →
  interleaved s p res → res = run (store_tuple_reader s) p.
Proof.
  intros Hinv Hv Hp. eapply exec_stable; [exact Hp|]. intros w' Hw'. by apply store_reader_stable.
Qed.
End store.

(** A schema whose permission needs two relations. *)
Definition both_schema : Schema := mk_Schema [
  mk_TypeDefinition "document"
    [mk_RelationDef "a" [mk_SubjectTypeRef "user" None]; mk_RelationDef "b" [mk_SubjectTypeRef "user" None]]
    [mk_PermissionDef "view" (Intersection [This "a"; This "b"])]].

Definition alice_write (rel : string) : TupleWrite :=
  mk_TupleWrite (mk_ObjectRef "document" "d") rel (direct "user" "alice").

(** Alice has [a]; then one write takes [a] away and gives [b]. *)
Definition both_state1 : InnerState := (store_write [alice_write "a"] [] default_state).2.
Definition both_state2 : InnerState :=
  (store_write [alice_write "b"] [exact_filter (tuple_of_write (alice_write "a"))] both_state1).2.

Definition both_request (snapshot : option SnapshotToken) : CheckRequest :=
  mk_CheckRequest "document" "d" "view" "user" "alice" snapshot.

Lemma both_state1_inv : mem_inv both_state1.
Proof.
  destruct (mem_write_spec [alice_write "a"] [] default_state default_state_inv eq_refl eq_refl)
    as (s1 & Hs1 & [Hinv1 _ _ _] & _).
  unfold both_state1. cbn [store_write MemoryRelationshipStore]. by rewrite Hs1.
Qed.

Lemma both_steps : rtc store_step both_state1 both_state2.
Proof.
  apply rtc_once. apply (step_write both_state1 [alice_write "b"]
    [exact_filter (tuple_of_write (alice_write "a"))]). vm_compute. reflexivity.
Qed.

(** ** The theorems *)

(** A check at a snapshot token the store has reached is untouched by
    concurrency: whatever other requests write between its reads, it answers
    what it answers when run alone, now and in every later state of the
    store. *)
Theorem check_at_snapshot_stable {S} `{VersionedStore S} (s s' : S) schema config request v res :
  store_inv s → cr_snapshot request = Some (mk_SnapshotToken v) → (v ≤ now s)%Z →
  rtc store_step s s' →
  interleaved s' (check schema config request) res →
  res = run (store_tuple_reader s) (check schema config request).
Proof.
  intros Hinv Hsnap Hv Hsteps Hex. destruct (store_steps_spec s s' Hsteps Hinv) as (Hinv' & Hle & _).
  pose proof (check_reads_at schema config request) as Hreads. rewrite Hsnap in Hreads.
  rewrite (interleaved_stable s' v _ res Hinv' (Z.le_trans _ _ _ Hv Hle) Hreads Hex).
  eapply run_reads_at; [exact Hreads|]. by apply store_reader_stable.
Qed.

Lemma check_at_snapshot_stable_witness :
  run (store_tuple_reader both_state2)
    (check both_schema engine_config_default (both_request (Some (mk_SnapshotToken 1)))) =
  run (store_tuple_reader both_state1)
    (check both_schema engine_config_default (both_request (Some (mk_SnapshotToken 1)))).
Proof.
  apply (check_at_snapshot_stable both_state1 both_state2 both_schema engine_config_default
    (both_request (Some (mk_SnapshotToken 1))) 1).
  - exact both_state1_inv.
  - reflexivity.
  - vm_compute. discriminate.
  - apply both_steps.
  - apply (exec_schedule _ _ []); [done|]. vm_compute. reflexivity.
Defined.

(** C6: End to end: on a schema without exclusions, a check at a token the
    store has reached, run while other requests write, answers exactly whether
    the permission is granted by the tuples of that version. *)
Theorem concurrent_check_exact {S} `{VersionedStore S} (s : S) schema config request v res :
  schema_exclusion_free schema = true → store_inv s →
  cr_snapshot request = Some (mk_SnapshotToken v) → (v ≤ now s)%Z →
  interleaved s (check schema config request) (Ok res) →
  allowed res = true ↔ permitted schema (view s v) request.
Proof.
  intros Hsch Hinv Hsnap Hv Hex.
  pose proof (check_reads_at schema config request) as Hreads. rewrite Hsnap in Hreads.
  apply (interleaved_stable s v) in Hex; [|done..].
  rewrite run_check in Hex. symmetry in Hex. rewrite <-run_check in Hex.
  apply run_check_Ok in Hex as (td & pd & Htd & Hpd & Hev).
  pose proof (store_reader_at s v Hinv Hv) as Hrd. rewrite <-Hsnap in Hrd.
  by eapply check_decides.
Qed.

Lemma concurrent_check_exact_witness :
  ¬ permitted both_schema (view both_state1 1) (both_request (Some (mk_SnapshotToken 1))).
Proof.
  intros Hp. apply (concurrent_check_exact both_state1 both_schema engine_config_default
    (both_request (Some (mk_SnapshotToken 1))) 1 (mk_CheckResult false)) in Hp.
  - discriminate Hp.
  - reflexivity.
  - exact both_state1_inv.
  - reflexivity.
  - vm_compute. discriminate.
  - (* between the two reads, the other request takes [a] away *)
    apply (exec_schedule _ _ [both_state1; both_state2]); [|vm_compute; reflexivity].
    split; [apply rtc_refl|]. split; [apply both_steps|done].
Defined.

(** Without a token a check is not at any version: an execution of it
    allows access that no version of the store grants, because its two reads
    see two different versions. *)
Theorem tokenless_check_mixes_versions :
  let request := both_request None in
  interleaved both_state1 (check both_schema engine_config_default request)
    (Ok (mk_CheckResult true)) ∧
  rtc store_step both_state1 both_state2 ∧
  ∀ v, (0 ≤ v ≤ now both_state2)%Z → ¬ permitted both_schema (view both_state2 v) request.
Proof.
  intros request.
  split_and!; [|apply both_steps|].
  - apply (exec_schedule _ _ [both_state1; both_state2]); [|vm_compute; reflexivity].
    split; [apply rtc_refl|]. split; [apply both_steps|done].
  - intros v Hv Hp.
    assert (v = 0 ∨ v = 1 ∨ v = 2)%Z as Hcases.
    { change (now both_state2) with 2%Z in Hv. lia. }
    assert (∀ T, run (list_reader T) (check both_schema engine_config_default request) =
              Ok (mk_CheckResult false) → ¬ permitted both_schema T request) as Hno.
    { intros T Hrun Hperm. apply run_check_Ok in Hrun as (td & pd & Htd & Hpd & Hev).
      eapply check_decides in Hperm; [|reflexivity|apply list_reader_faithful|exact Htd|exact Hpd|exact Hev].
      discriminate Hperm. }
    destruct Hcases as [->|[->| ->]]; revert Hp; apply Hno; vm_compute; reflexivity.
Qed.
