(* ===== verification/Cache.v ===== *)
(** * The interface of a cache

    The service keeps two caches of the [moka] crate.  They are a parameter of
    the model: a cache may forget entries at any time (capacity, time to live),
    but it answers only with what was inserted last for the key and not
    invalidated since. *)
From stdpp Require Import base tactics gmap.
From S2P Require Import Prelude.

Class Cache (C K V : Type) := {
  cache_get : K → C → option V * C;
  cache_insert : K → V → C → C;
  cache_invalidate : K → C → C;
  cache_invalidate_all : C → C }.

Class CacheLaws (C K V : Type) `{Cache C K V} := {
  (** What the cache may answer for a key. *)
  cached : C → K → V → Prop;
  cache_get_answer c k v : (cache_get k c).1 = Some v → cached c k v;
  cache_get_keeps c k k' v : cached (cache_get k c).2 k' v → cached c k' v;
  cache_insert_cached c k v k' v' :
    cached (cache_insert k v c) k' v' → (k' = k ∧ v' = v) ∨ cached c k' v';
  cache_invalidate_cached c k k' v : cached (cache_invalidate k c) k' v → k' ≠ k ∧ cached c k' v;
  cache_invalidate_all_cached c k v : ¬ cached (cache_invalidate_all c) k v }.

(** A cache that never forgets. *)
Section gmap_cache.
Context {K V : Type} `{Countable K}.

#[export] Instance gmap_cache : Cache (gmap K V) K V := {
  cache_get k c := (c !! k, c);
  cache_insert k v c := <[k := v]> c;
  cache_invalidate k c := delete k c;
  cache_invalidate_all _ := ∅ }.

#[export] Program Instance gmap_cache_laws : CacheLaws (gmap K V) K V := {
  cached c k v := c !! k = Some v }.
Next Obligation. done. Qed.
Next Obligation. done. Qed.
Next Obligation. intros c k v k' v'. simpl. rewrite lookup_insert_Some. naive_solver. Qed.
Next Obligation. intros c k k' v. simpl. rewrite lookup_delete_Some. naive_solver. Qed.
Next Obligation. intros c k v. simpl. by rewrite lookup_empty. Qed.
End gmap_cache.
