(* ===== verification/Metrics.v ===== *)
(** * Metrics ([crates/kraalzibar-server/src/metrics.rs])

    Counters and histograms on atomics, with the Prometheus rendering.  [f64]
    is the standard library's [spec_float] at binary64.  [observe] is also
    modelled as the sequence of atomic steps it is, with many threads at
    once. *)
From Stdlib Require Import SpecFloat.
From stdpp Require Import base tactics list strings gmap pretty relations.
From S2P Require Import Prelude.

(** ** [f64] *)

Abbreviation f64 := spec_float.
Definition f64_add (x y : f64) : f64 := SFadd 53 1024 x y.
Definition f64_div (x y : f64) : f64 := SFdiv 53 1024 x y.
Definition f64_leb (x y : f64) : bool := SFleb x y.
Definition f64_zero : f64 := S754_zero false.
(** [n as f64]: round to nearest, ties to even *)
Definition f64_of_Z (n : Z) : f64 := binary_normalize 53 1024 n 0 false.

(** [std::time::Duration] and [as_secs_f64] *)
Record Duration := mk_Duration { as_secs : Z; subsec_nanos : Z }.
Definition as_secs_f64 (d : Duration) : f64 :=
  f64_add (f64_of_Z (as_secs d)) (f64_div (f64_of_Z (subsec_nanos d)) (f64_of_Z 1000000000)).

Definition BUCKET_BOUNDARIES : list f64 := [
  S754_finite false 4611686018427388 (-62);  (* 0.001 *)
  S754_finite false 5764607523034235 (-60);  (* 0.005 *)
  S754_finite false 5764607523034235 (-59);  (* 0.01 *)
  S754_finite false 7205759403792794 (-58);  (* 0.025 *)
  S754_finite false 7205759403792794 (-57);  (* 0.05 *)
  S754_finite false 7205759403792794 (-56);  (* 0.1 *)
  S754_finite false 4503599627370496 (-54);  (* 0.25 *)
  S754_finite false 4503599627370496 (-53);  (* 0.5 *)
  S754_finite false 4503599627370496 (-52);  (* 1.0 *)
  S754_finite false 5629499534213120 (-51);  (* 2.5 *)
  S754_finite false 5629499534213120 (-50);  (* 5.0 *)
  S754_finite false 5629499534213120 (-49)   (* 10.0 *) ].

(** [fetch_add(1)] *)
Definition fetch_add1 (n : Z) : Z := u64_add n 1.

(** ** [Histogram] *)

Record Histogram := mk_Histogram { buckets : list Z; sum_bits : f64; h_count : Z }.

Definition histogram_new : Histogram :=
  mk_Histogram (map (λ _, 0%Z) BUCKET_BOUNDARIES) f64_zero 0.

(** The loop over the boundaries, from bucket [i] on. *)
Fixpoint observe_buckets (value : f64) (i : nat) (boundaries : list f64) (bs : list Z) : list Z :=
  match boundaries with
  | [] => bs
  | boundary :: boundaries' =>
      observe_buckets value (S i) boundaries'
        (if f64_leb value boundary then alter fetch_add1 i bs else bs)
  end.

Definition observe (value : f64) (h : Histogram) : Histogram :=
  mk_Histogram (observe_buckets value 0 BUCKET_BOUNDARIES (buckets h))
    (f64_add (sum_bits h) value) (fetch_add1 (h_count h)).

(** [self.buckets[index]] panics out of range. *)
Definition bucket_count (h : Histogram) (index : nat) : option Z := buckets h !! index.

(** ** [MethodMetrics] and [Metrics] *)

Record MethodMetrics := mk_MethodMetrics { requests : Z; duration : Histogram }.

Definition method_metrics_new : MethodMetrics := mk_MethodMetrics 0 histogram_new.

Definition record (elapsed : Duration) (mm : MethodMetrics) : MethodMetrics :=
  mk_MethodMetrics (fetch_add1 (requests mm)) (observe (as_secs_f64 elapsed) (duration mm)).

Record Metrics := mk_Metrics {
  request_total : Z;
  request_success : Z;
  request_error : Z;
  schema_cache_hits : Z;
  schema_cache_misses : Z;
  check_cache_hits : Z;
  check_cache_misses : Z;
  method_metrics : gmap string MethodMetrics }.

Definition metrics_default : Metrics := mk_Metrics 0 0 0 0 0 0 0 ∅.

(** [map.entry(method).or_insert_with(MethodMetrics::new)], then [record]. *)
Definition record_method_request (method : string) (elapsed : Duration) (m : Metrics) : Metrics :=
  let mm := default method_metrics_new (method_metrics m !! method) in
  mk_Metrics (request_total m) (request_success m) (request_error m) (schema_cache_hits m)
    (schema_cache_misses m) (check_cache_hits m) (check_cache_misses m)
    (<[method := record elapsed mm]> (method_metrics m)).

Definition record_request (m : Metrics) : Metrics :=
  mk_Metrics (fetch_add1 (request_total m)) (request_success m) (request_error m)
    (schema_cache_hits m) (schema_cache_misses m) (check_cache_hits m) (check_cache_misses m)
    (method_metrics m).
Definition record_success (m : Metrics) : Metrics :=
  mk_Metrics (request_total m) (fetch_add1 (request_success m)) (request_error m)
    (schema_cache_hits m) (schema_cache_misses m) (check_cache_hits m) (check_cache_misses m)
    (method_metrics m).
Definition record_error (m : Metrics) : Metrics :=
  mk_Metrics (request_total m) (request_success m) (fetch_add1 (request_error m))
    (schema_cache_hits m) (schema_cache_misses m) (check_cache_hits m) (check_cache_misses m)
    (method_metrics m).
Definition record_schema_cache_hit (m : Metrics) : Metrics :=
  mk_Metrics (request_total m) (request_success m) (request_error m)
    (fetch_add1 (schema_cache_hits m)) (schema_cache_misses m) (check_cache_hits m)
    (check_cache_misses m) (method_metrics m).
Definition record_schema_cache_miss (m : Metrics) : Metrics :=
  mk_Metrics (request_total m) (request_success m) (request_error m)
    (schema_cache_hits m) (fetch_add1 (schema_cache_misses m)) (check_cache_hits m)
    (check_cache_misses m) (method_metrics m).
Definition record_check_cache_hit (m : Metrics) : Metrics :=
  mk_Metrics (request_total m) (request_success m) (request_error m)
    (schema_cache_hits m) (schema_cache_misses m) (fetch_add1 (check_cache_hits m))
    (check_cache_misses m) (method_metrics m).
Definition record_check_cache_miss (m : Metrics) : Metrics :=
  mk_Metrics (request_total m) (request_success m) (request_error m)
    (schema_cache_hits m) (schema_cache_misses m) (check_cache_hits m)
    (fetch_add1 (check_cache_misses m)) (method_metrics m).

(** ** Rendering

    The standard library's [Display] of [f64] (the shortest decimal that reads
    back) is the parameter [f64_display]. *)
Section render.
Context (f64_display : f64 → string).

Definition newline : string := String (Ascii.ascii_of_nat 10) EmptyString.
Definition dquote : string := String (Ascii.ascii_of_nat 34) EmptyString.

(** [method="..."] and [le="..."] *)
Definition label (name value : string) : string := name +:+ "=" +:+ dquote +:+ value +:+ dquote.

Definition render_bucket (name method le : string) (count : Z) : string :=
  name +:+ "_bucket{" +:+ label "method" method +:+ "," +:+ label "le" le +:+ "} "
  +:+ pretty count +:+ newline.

Definition histogram_render (h : Histogram) (name method : string) : string :=
  foldr String.append EmptyString
    (zip_with (λ boundary count, render_bucket name method (f64_display boundary) count)
       BUCKET_BOUNDARIES (buckets h))
  +:+ render_bucket name method "+Inf" (h_count h)
  +:+ name +:+ "_sum{" +:+ label "method" method +:+ "} " +:+ f64_display (sum_bits h) +:+ newline
  +:+ name +:+ "_count{" +:+ label "method" method +:+ "} " +:+ pretty (h_count h) +:+ newline.

(** The [# HELP] and [# TYPE] lines, and the value of a counter. *)
Definition render_header (name help kind : string) : string :=
  "# HELP " +:+ name +:+ " " +:+ help +:+ newline +:+ "# TYPE " +:+ name +:+ " " +:+ kind +:+ newline.
Definition render_counter (name help : string) (value : Z) : string :=
  render_header name help "counter" +:+ name +:+ " " +:+ pretty value +:+ newline.

Definition sorted_methods (m : Metrics) : list string :=
  sort_by string_leb (map fst (map_to_list (method_metrics m))).

Definition render_methods (m : Metrics) : string :=
  let methods := omap (λ name, mm ← method_metrics m !! name; Some (name, mm)) (sorted_methods m) in
  if bool_decide (methods = []) then EmptyString
  else
    render_header "kraalzibar_method_requests_total" "Total requests per method." "counter"
    +:+ foldr String.append EmptyString
          (map (λ p, "kraalzibar_method_requests_total{" +:+ label "method" p.1 +:+ "} "
                     +:+ pretty (requests p.2) +:+ newline) methods)
    +:+ render_header "kraalzibar_request_duration_seconds" "Request duration histogram." "histogram"
    +:+ foldr String.append EmptyString
          (map (λ p, histogram_render (duration p.2) "kraalzibar_request_duration_seconds" p.1) methods).

Definition render_prometheus (m : Metrics) : string :=
  render_counter "kraalzibar_requests_total" "Total number of requests." (request_total m)
  +:+ render_counter "kraalzibar_requests_success_total" "Total successful requests." (request_success m)
  +:+ render_counter "kraalzibar_requests_error_total" "Total failed requests." (request_error m)
  +:+ render_counter "kraalzibar_schema_cache_hits_total" "Schema cache hits." (schema_cache_hits m)
  +:+ render_counter "kraalzibar_schema_cache_misses_total" "Schema cache misses." (schema_cache_misses m)
  +:+ render_counter "kraalzibar_check_cache_hits_total" "Check cache hits." (check_cache_hits m)
  +:+ render_counter "kraalzibar_check_cache_misses_total" "Check cache misses." (check_cache_misses m)
  +:+ render_methods m.

(** [metrics_handler] *)
Definition metrics_handler (m : Metrics) : Z * list (string * string) * string :=
  (200%Z, [("content-type", "text/plain; version=0.0.4; charset=utf-8")], render_prometheus m).
End render.

(** ** [observe] as atomic steps

    Each line of the body is an atomic operation; [compare_exchange_weak] may
    fail at any time and then the loop loads again. *)

Inductive observer :=
| Start (value : f64)                      (* before [count.fetch_add] *)
| Retry (value : f64)                      (* before [sum_bits.load] *)
| Loaded (value old : f64)                 (* before [compare_exchange_weak] *)
| Bucketing (value : f64) (i : nat)        (* before bucket [i] *)
| Finished (value : f64).

Inductive observer_step : Histogram → observer → Histogram → observer → Prop :=
| ob_count h v :
    observer_step h (Start v)
      (mk_Histogram (buckets h) (sum_bits h) (fetch_add1 (h_count h))) (Retry v)
| ob_load h v : observer_step h (Retry v) h (Loaded v (sum_bits h))
| ob_exchange h v old :
    sum_bits h = old →
    observer_step h (Loaded v old)
      (mk_Histogram (buckets h) (f64_add old v) (h_count h)) (Bucketing v 0)
| ob_exchange_fails h v old : observer_step h (Loaded v old) h (Retry v)
| ob_bucket h v i boundary :
    BUCKET_BOUNDARIES !! i = Some boundary →
    observer_step h (Bucketing v i)
      (mk_Histogram (if f64_leb v boundary then alter fetch_add1 i (buckets h) else buckets h)
         (sum_bits h) (h_count h)) (Bucketing v (S i))
| ob_finish h v :
    observer_step h (Bucketing v (length BUCKET_BOUNDARIES)) h (Finished v).

Inductive observers_step : Histogram * list observer → Histogram * list observer → Prop :=
| obs_step h h' t t' before after :
    observer_step h t h' t' →
    observers_step (h, before ++ t :: after) (h', before ++ t' :: after).

Definition observed_value (t : observer) : f64 :=
  match t with Start v | Retry v | Loaded v _ | Bucketing v _ | Finished v => v end.
(** The value, once it is in the sum. *)
Definition in_sum (t : observer) : option f64 :=
  match t with Bucketing v _ | Finished v => Some v | _ => None end.
Definition in_count (t : observer) : bool := match t with Start _ => false | _ => true end.
(** The thread has gone past bucket [j] and counted itself there. *)
Definition in_bucket (j : nat) (boundary : f64) (t : observer) : bool :=
  match t with
  | Bucketing v i => (j <? i) && f64_leb v boundary
  | Finished v => f64_leb v boundary
  | _ => false
  end.

Definition counted {A} (p : A → bool) (l : list A) : Z := Z.of_nat (length (List.filter p l)).

Lemma counted_middle {A} (p : A → bool) before x after :
  counted p (before ++ x :: after) = (counted p (before ++ after) + (if p x then 1 else 0))%Z.
Proof.
  unfold counted. rewrite !List.filter_app, !length_app. simpl. destruct (p x); simpl; lia.
Qed.

Lemma counted_le {A} (p : A → bool) l : (0 ≤ counted p l ≤ Z.of_nat (length l))%Z.
Proof. unfold counted. pose proof (List.filter_length_le p l). lia. Qed.

Lemma fetch_add1_counted {A} (p : A → bool) before x after :
  (Z.of_nat (length (before ++ x :: after)) < u64_modulus)%Z → p x = true →
  fetch_add1 (counted p (before ++ after)) = counted p (before ++ x :: after).
Proof.
  intros Hlen Hp. rewrite counted_middle, Hp. apply u64_add_small.
  pose proof (counted_le p (before ++ after)). rewrite !length_app in *. simpl in *.
  split; lia.
Qed.

(** What is true between any two steps of the threads. *)
Record histogram_inv (values : list f64) (hs : Histogram * list observer) : Prop := {
  hi_values : map observed_value hs.2 = values;
  hi_count : h_count hs.1 = counted in_count hs.2;
  hi_sum : ∃ order, order ≡ₚ omap in_sum hs.2 ∧ sum_bits hs.1 = foldl f64_add f64_zero order;
  hi_length : length (buckets hs.1) = length BUCKET_BOUNDARIES;
  hi_buckets j boundary : BUCKET_BOUNDARIES !! j = Some boundary →
    buckets hs.1 !! j = Some (counted (in_bucket j boundary) hs.2) }.

Lemma omap_middle {A B} (f : A → option B) before x after :
  omap f (before ++ x :: after) = omap f before ++ option_list (f x) ++ omap f after.
Proof. rewrite omap_app. simpl. by destruct (f x). Qed.

Lemma histogram_inv_start values : histogram_inv values (histogram_new, map Start values).
Proof.
  split; cbn [fst snd histogram_new buckets sum_bits h_count].
  - rewrite map_map. apply map_id.
  - unfold counted. induction values; [done|]. done.
  - exists []. split; [|done]. induction values; [done|]. done.
  - done.
  - intros j boundary Hj. change (map ?f ?l) with (f <$> l). rewrite list_lookup_fmap, Hj.
    cbn [fmap option_fmap option_map]. f_equal. unfold counted. by induction values.
Qed.

(** Steps that neither count nor add anything. *)
Lemma counted_same {A} (p : A → bool) before x x' after :
  p x = p x' → counted p (before ++ x :: after) = counted p (before ++ x' :: after).
Proof. intros Hp. by rewrite !counted_middle, Hp. Qed.

(** The histogram after a step of one thread, for a bucket it does not touch or touches. *)
Lemma bucket_step before after v i j boundary boundary' (bs : list Z) :
  (Z.of_nat (length (before ++ Bucketing v i :: after)) < u64_modulus)%Z →
  BUCKET_BOUNDARIES !! i = Some boundary → BUCKET_BOUNDARIES !! j = Some boundary' →
  bs !! j = Some (counted (in_bucket j boundary') (before ++ Bucketing v i :: after)) →
  (if f64_leb v boundary then alter fetch_add1 i bs else bs) !! j =
  Some (counted (in_bucket j boundary') (before ++ Bucketing v (S i) :: after)).
Proof.
  intros Hlen Hi Hj Hbs. destruct (decide (i = j)) as [->|Hij].
  - assert (boundary' = boundary) as -> by congruence. destruct (f64_leb v boundary) eqn:Hv.
    + rewrite list_lookup_alter_eq, Hbs. simpl. f_equal.
      rewrite (counted_middle _ before (Bucketing v j) after). simpl. rewrite Nat.ltb_irrefl, Z.add_0_r.
      apply fetch_add1_counted; [by rewrite !length_app in *|]. simpl.
      by rewrite Hv, (proj2 (Nat.ltb_lt j (S j))) by lia.
    + rewrite Hbs. f_equal. apply counted_same. simpl. by rewrite Hv, !andb_false_r.
  - assert ((if f64_leb v boundary then alter fetch_add1 i bs else bs) !! j = bs !! j) as ->
      by (destruct (f64_leb v boundary); [by apply list_lookup_alter_ne|done]).
    rewrite Hbs. f_equal. apply counted_same. simpl. f_equal.
    apply eq_true_iff_eq. rewrite !Nat.ltb_lt. lia.
Qed.

Lemma histogram_inv_step values hs hs' :
  (Z.of_nat (length values) < u64_modulus)%Z →
  histogram_inv values hs → observers_step hs hs' → histogram_inv values hs'.
Proof.
  intros Hlen [Hv Hc (order & Hperm & Hsum) Hl Hb] Hstep.
  destruct Hstep as [h h' t t' before after Hstep]. cbn [fst snd] in *.
  assert (Z.of_nat (length (before ++ t :: after)) < u64_modulus)%Z as Hlen'
    by (rewrite <-Hv, length_map in Hlen; done).
  assert (observed_value t' = observed_value t) as Hvt by (by destruct Hstep).
  assert (map observed_value (before ++ t' :: after) = values) as Hv'
    by (rewrite <-Hv, !map_app; simpl; by rewrite Hvt).
  rewrite omap_middle in Hperm.
  destruct Hstep as [h v|h v|h v old Hold|h v old|h v i boundary Hi|h v];
    (split; cbn [fst snd h_count sum_bits buckets] in *; [exact Hv'|..]);
    try (rewrite ?omap_middle; exists order; done);
    try (by rewrite Hc; apply counted_same);
    try done;
    try (intros j boundary' Hj; rewrite (Hb j boundary' Hj); f_equal; by apply counted_same).
  - rewrite Hc, (counted_middle _ before (Start v) after). simpl. rewrite Z.add_0_r.
    apply fetch_add1_counted; [by rewrite !length_app in *|done].
  - exists (order ++ [v]). rewrite omap_middle. simpl in *. split.
    + rewrite Hperm. solve_Permutation.
    + by rewrite foldl_app, <-Hsum, <-Hold.
  - by destruct (f64_leb v boundary); rewrite ?length_alter.
  - intros j boundary' Hj. by apply (bucket_step before after v i j boundary boundary'); [..|apply Hb].
  - intros j boundary' Hj. rewrite (Hb j boundary' Hj). f_equal. apply counted_same. simpl.
    rewrite (proj2 (Nat.ltb_lt j _)); [done|]. by apply lookup_lt_Some in Hj.
Qed.

Lemma histogram_inv_steps values hs :
  (Z.of_nat (length values) < u64_modulus)%Z →
  rtc observers_step (histogram_new, map Start values) hs → histogram_inv values hs.
Proof.
  intros Hlen Hsteps. pose proof (histogram_inv_start values) as Hinv. revert Hinv.
  induction Hsteps as [hs|hs1 hs2 hs3 Hstep _ IH]; [done|]. intros Hinv. apply IH.
  by eapply histogram_inv_step.
Qed.

(** One thread that runs alone does what [observe] says. *)
Lemma observe_buckets_steps before after v todo i h :
  drop i BUCKET_BOUNDARIES = todo → i ≤ length BUCKET_BOUNDARIES →
  rtc observers_step (h, before ++ Bucketing v i :: after)
    (mk_Histogram (observe_buckets v i todo (buckets h)) (sum_bits h) (h_count h),
     before ++ Finished v :: after).
Proof.
  revert i h. induction todo as [|boundary todo IH]; intros i h Hdrop Hi.
  - assert (i = length BUCKET_BOUNDARIES) as ->
      by (apply (f_equal length) in Hdrop; rewrite length_drop in Hdrop; simpl in *; lia).
    destruct h. apply rtc_once. constructor. constructor.
  - assert (BUCKET_BOUNDARIES !! i = Some boundary) as Hb.
    { rewrite <-(Nat.add_0_r i), <-lookup_drop, Hdrop. done. }
    eapply rtc_l; [constructor; by apply ob_bucket|].
    refine (IH (S i) (mk_Histogram _ (sum_bits h) (h_count h)) _ _).
    + by rewrite <-Nat.add_1_r, <-drop_drop, Hdrop.
    + by apply lookup_lt_Some in Hb.
Qed.

Lemma observe_steps before after v h :
  rtc observers_step (h, before ++ Start v :: after) (observe v h, before ++ Finished v :: after).
Proof.
  eapply rtc_l; [constructor; apply ob_count|]. eapply rtc_l; [constructor; apply ob_load|].
  eapply rtc_l; [constructor; by apply ob_exchange|].
  apply (observe_buckets_steps before after v BUCKET_BOUNDARIES 0
    (mk_Histogram (buckets h) (f64_add (sum_bits h) v) (fetch_add1 (h_count h)))); [done|lia].
Qed.

Lemma observe_alone_steps h h' before values :
  foldl (λ h v, observe v h) h values = h' →
  rtc observers_step (h, before ++ map Start values) (h', before ++ map Finished values).
Proof.
  intros <-. revert h before. induction values as [|v vs IH]; intros h before; [done|].
  simpl. etrans; [apply observe_steps|]. specialize (IH (observe v h) (before ++ [Finished v])).
  by rewrite <-!app_assoc in IH.
Qed.

(** ** The theorems *)

(** C35: Concurrent observations are not lost: when every one of fewer than
    2^64 threads that share a new histogram has finished [observe], under any
    interleaving of their atomic steps, the count is the number of threads,
    each bucket counts exactly the values up to its boundary, and the sum is
    the floating-point sum of all the values in some order. *)
Theorem concurrent_observations_exact values h :
  (Z.of_nat (length values) < u64_modulus)%Z →
  rtc observers_step (histogram_new, map Start values) (h, map Finished values) →
  h_count h = Z.of_nat (length values) ∧
  (∃ order, order ≡ₚ values ∧ sum_bits h = foldl f64_add f64_zero order) ∧
  ∀ j boundary, BUCKET_BOUNDARIES !! j = Some boundary →
    bucket_count h j = Some (counted (λ v, f64_leb v boundary) values).
Proof.
  intros Hlen Hsteps. destruct (histogram_inv_steps values _ Hlen Hsteps)
    as [_ Hc (order & Hperm & Hsum) _ Hb]. cbn [fst snd] in *.
  assert (∀ (p : observer → bool) (q : f64 → bool), (∀ v, p (Finished v) = q v) →
            counted p (map Finished values) = counted q values) as Hcounted.
  { intros p q Hpq. unfold counted. clear -Hpq. induction values as [|v vs IH]; [done|]. simpl.
    rewrite Hpq. destruct (q v); simpl; lia. }
  split_and!.
  - rewrite Hc, (Hcounted _ (λ _, true)) by done. unfold counted. f_equal. clear.
    induction values; simpl; congruence.
  - exists order. split; [|done]. rewrite Hperm. clear. induction values as [|v vs IH]; [done|].
    simpl. by rewrite IH.
  - intros j boundary Hj. unfold bucket_count. rewrite (Hb j boundary Hj). f_equal. by apply Hcounted.
Qed.

Definition two_observations : Histogram :=
  mk_Histogram [0; 0; 0; 0; 0; 0; 0; 0; 1; 1; 2; 2]%Z (f64_of_Z 4) 2.

Lemma concurrent_observations_exact_witness :
  let values := [f64_of_Z 3; f64_of_Z 1] in
  rtc observers_step (histogram_new, map Start values) (two_observations, map Finished values) ∧
  h_count two_observations = Z.of_nat (length values) ∧
  (∃ order, order ≡ₚ values ∧ sum_bits two_observations = foldl f64_add f64_zero order) ∧
  ∀ j boundary, BUCKET_BOUNDARIES !! j = Some boundary →
    bucket_count two_observations j = Some (counted (λ v, f64_leb v boundary) values).
Proof.
  intros values.
  assert (rtc observers_step (histogram_new, map Start values)
            (two_observations, map Finished values)) as Hsteps.
  { apply (observe_alone_steps histogram_new two_observations [] values). vm_compute. reflexivity. }
  split; [exact Hsteps|]. apply concurrent_observations_exact; [reflexivity|exact Hsteps].
Defined.
