(* ===== verification/Service.v ===== *)
(** * The authorization service ([crates/kraalzibar-server/src/service.rs])

    The operations behind both the REST and the gRPC API.  The service holds a
    store per tenant (through a [StoreFactory]), a cache of parsed schemas, a
    cache of check results, and optional metrics; an operation is a function
    from the state of the service to a [Result] and the next state.  The pest
    parser and the two caches (moka) are parameters. *)
From stdpp Require Import base tactics list strings gmap pretty.
From S2P Require Import Prelude Tuples Schema Validation Parser Engine Check Expand Storage Cache.
From S2P Require Import Metrics.

(** ** Errors ([error.rs]) *)

Inductive ApiError :=
| ApiCheck (e : CheckError)
| ApiStorage (e : Storage.StorageError)
| ApiParse (e : ParseError)
| ApiValidation (errors : list ValidationError)
| ApiBreakingChanges (changes : list BreakingChange)
| SchemaNotFound.

Definition check_error_display (e : CheckError) : string :=
  match e with
  | TypeNotFound ty => "type not found: " +:+ ty
  | PermissionNotFound ty permission =>
      "permission '" +:+ permission +:+ "' not found on type '" +:+ ty +:+ "'"
  | RelationNotFound ty rel => "relation '" +:+ rel +:+ "' not found on type '" +:+ ty +:+ "'"
  | MaxDepthExceeded depth => "max depth exceeded: " +:+ pretty depth
  | Engine.StorageError msg => "storage error: " +:+ msg
  end.

Definition parse_error_display (e : ParseError) : string :=
  match e with
  | Syntax msg => "syntax error: " +:+ msg
  | MixedOperators =>
      "mixed operators in permission expression: use only one of +, &, - per expression"
  | MultipleExclusions => "exclusion (-) supports exactly two operands: base - excluded"
  | DuplicateType ty => "duplicate type: " +:+ ty
  | DuplicateRelation ty rel => "duplicate relation '" +:+ rel +:+ "' in type '" +:+ ty +:+ "'"
  | DuplicatePermission ty permission =>
      "duplicate permission '" +:+ permission +:+ "' in type '" +:+ ty +:+ "'"
  end.

Definition validation_error_display (e : ValidationError) : string :=
  match e with
  | TooManyTypes count limit =>
      "too many types: " +:+ pretty count +:+ " exceeds limit of " +:+ pretty limit
  | TooManyRelations ty count limit =>
      "too many relations in type '" +:+ ty +:+ "': " +:+ pretty count
      +:+ " exceeds limit of " +:+ pretty limit
  | TooManyPermissions ty count limit =>
      "too many permissions in type '" +:+ ty +:+ "': " +:+ pretty count
      +:+ " exceeds limit of " +:+ pretty limit
  end.

(** [.join(sep)] *)
Fixpoint join (sep : string) (l : list string) : string :=
  match l with
  | [] => EmptyString
  | [s] => s
  | s :: l' => s +:+ sep +:+ join sep l'
  end.

Definition format_validation_errors (errors : list ValidationError) : string :=
  join "; " (map validation_error_display errors).

Definition api_error_display (e : ApiError) : string :=
  match e with
  | ApiCheck e => "check error: " +:+ check_error_display e
  | ApiStorage e => "storage error: " +:+ storage_error_display e
  | ApiParse e => "parse error: " +:+ parse_error_display e
  | ApiValidation errors => "schema validation errors: " +:+ format_validation_errors errors
  | ApiBreakingChanges _ => "breaking schema changes detected (use force=true to override)"
  | SchemaNotFound => "schema not found"
  end.

(** ** Inputs and outputs *)

Inductive Consistency :=
| FullConsistency
| MinimizeLatency
| AtLeastAsFresh (token : SnapshotToken)
| AtExactSnapshot (token : SnapshotToken).

Record CheckPermissionInput := mk_CheckPermissionInput {
  ci_object_type : string; ci_object_id : string; ci_permission : string;
  ci_subject_type : string; ci_subject_id : string; ci_consistency : Consistency }.

Record CheckPermissionOutput := mk_CheckPermissionOutput {
  co_allowed : bool; co_snapshot : option SnapshotToken }.

Record ExpandPermissionInput := mk_ExpandPermissionInput {
  ei_object_type : string; ei_object_id : string; ei_permission : string;
  ei_consistency : Consistency }.

Record ExpandPermissionOutput := mk_ExpandPermissionOutput {
  eo_tree : ExpandTree; eo_snapshot : option SnapshotToken }.

Record LookupSubjectsInput := mk_LookupSubjectsInput {
  si_object_type : string; si_object_id : string; si_permission : string;
  si_subject_type : string; si_consistency : Consistency }.

Record LookupSubjectsOutput := mk_LookupSubjectsOutput {
  so_subjects : list SubjectRef; so_snapshot : option SnapshotToken }.

Record LookupResourcesInput := mk_LookupResourcesInput {
  ri_resource_type : string; ri_permission : string;
  ri_subject_type : string; ri_subject_id : string;
  ri_consistency : Consistency; ri_limit : option nat }.

Record LookupResourcesOutput := mk_LookupResourcesOutput {
  ro_resource_ids : list string; ro_snapshot : option SnapshotToken }.

Record ReadRelationshipsOutput := mk_ReadRelationshipsOutput {
  rro_tuples : list Tuple; rro_snapshot : option SnapshotToken }.

Record WriteSchemaOutput := mk_WriteSchemaOutput { breaking_changes_overridden : bool }.

Record CheckCacheKey (Uuid : Type) := mk_CheckCacheKey {
  k_tenant_id : TenantId Uuid;
  k_object_type : string; k_object_id : string; k_permission : string;
  k_subject_type : string; k_subject_id : string;
  k_snapshot : SnapshotToken }.
Arguments mk_CheckCacheKey {Uuid} _ _ _ _ _ _ _.
Arguments k_tenant_id {Uuid} _.
Arguments k_object_type {Uuid} _.
Arguments k_object_id {Uuid} _.
Arguments k_permission {Uuid} _.
Arguments k_subject_type {Uuid} _.
Arguments k_subject_id {Uuid} _.
Arguments k_snapshot {Uuid} _.

#[export] Instance CheckCacheKey_eq_dec `{EqDecision Uuid} : EqDecision (CheckCacheKey Uuid).
Proof. solve_decision. Defined.
#[export] Instance CheckCacheKey_countable `{Countable Uuid} : Countable (CheckCacheKey Uuid).
Proof.
  apply (inj_countable'
    (λ k, (k_tenant_id k, k_object_type k, k_object_id k, k_permission k, k_subject_type k,
           k_subject_id k, k_snapshot k))
    (λ '(t, ot, oi, p, st, si, s), mk_CheckCacheKey t ot oi p st si s)). by intros [].
Defined.

(** ** The audit log ([audit.rs]): the events traced at target "audit" *)

Inductive AuditEvent (Uuid : Type) :=
| SchemaWritten (tenant_id : TenantId Uuid) (force breaking_changes_overridden : bool)
                (snapshot_token : string)
| RelationshipsWritten (tenant_id : TenantId Uuid) (write_count delete_count : nat)
                       (snapshot_token : Z)
| AuthSuccess (tenant_id : TenantId Uuid) (key_id : string)
| AuthFailure (reason key_id : string).
Arguments SchemaWritten {Uuid} _ _ _ _.
Arguments RelationshipsWritten {Uuid} _ _ _ _.
Arguments AuthSuccess {Uuid} _ _.
Arguments AuthFailure {Uuid} _ _.

Section audit.
Context {Uuid : Type}.

Definition audit_schema_write (tenant_id : TenantId Uuid) (force overridden : bool)
    (token : option string) : AuditEvent Uuid :=
  SchemaWritten tenant_id force overridden (default EmptyString token).

Definition audit_relationship_write (tenant_id : TenantId Uuid) (write_count delete_count : nat)
    (token : SnapshotToken) : AuditEvent Uuid :=
  RelationshipsWritten tenant_id write_count delete_count (token_value token).

Definition audit_auth_success (tenant_id : TenantId Uuid) (key_id : string) : AuditEvent Uuid :=
  AuthSuccess tenant_id key_id.

Definition audit_auth_failure (reason : string) (key_id : option string) : AuditEvent Uuid :=
  AuthFailure reason (default "unknown" key_id).
End audit.

(** ** [collect_subjects] *)

Fixpoint collect_subjects (tree : ExpandTree) (subject_type : string) : list SubjectRef :=
  match tree with
  | Leaf s => if bool_decide (Tuples.subject_type s = subject_type) then [s] else []
  | TreeThis _ children | TreeUnion children | TreeIntersection children | TreeArrow _ _ children =>
      concat (map (λ child, collect_subjects child subject_type) children)
  | TreeExclusion base _ => collect_subjects base subject_type
  end.

(** [a.subject_type.cmp(&b.subject_type).then(a.subject_id.cmp(&b.subject_id))] *)
Definition subject_cmp_leb (a b : SubjectRef) : bool :=
  if bool_decide (subject_type a = subject_type b)
  then string_leb (subject_id a) (subject_id b)
  else string_leb (subject_type a) (subject_type b).

Section service.
Context {Uuid F S SC CC : Type}.
Context `{StoreFactory F Uuid S, RelationshipStore S, SchemaStore S}.
Context `{Cache SC (TenantId Uuid) Schema, Cache CC (CheckCacheKey Uuid) bool}.
Context (pest_parse : pest_parser) (engine_config : EngineConfig) (schema_limits : SchemaLimits).

Record AuthzService := mk_AuthzService {
  factory : F;
  schema_cache : SC;
  check_cache : CC;
  service_metrics : option Metrics;
  audit_log : list (AuditEvent Uuid) }.

(** ** Operations as state and error passing *)

Definition svc (A : Type) : Type := AuthzService → result ApiError A * AuthzService.

Definition svc_ret {A} (a : A) : svc A := λ sv, (Ok a, sv).
Definition svc_fail {A} (e : ApiError) : svc A := λ sv, (Err e, sv).
Definition svc_bind {A B} (m : svc A) (k : A → svc B) : svc B := λ sv,
  match m sv with (Ok a, sv') => k a sv' | (Err e, sv') => (Err e, sv') end.

Notation "'let*' x := e 'in' k" := (svc_bind e (λ x, k))
  (at level 10, x name, e at level 200, k at level 200).

Definition lift {A} (r : result ApiError A) : svc A := λ sv, (r, sv).

(** A call on the tenant's store, with its error as [ApiError]. *)
Definition on_store {E A} (to_api : E → ApiError) (tenant_id : TenantId Uuid)
    (method : S → result E A * S) : svc A := λ sv,
  let '(r, f) := call_store tenant_id method (factory sv) in
  (map_err to_api r,
   mk_AuthzService f (schema_cache sv) (check_cache sv) (service_metrics sv) (audit_log sv)).

Definition read_store {E A} (to_api : E → ApiError) (tenant_id : TenantId Uuid)
    (query : S → result E A) : svc A := on_store to_api tenant_id (λ s, (query s, s)).

(** [engine.check(&request).await?] on [StoreTupleReader::new(store)] *)
Definition run_engine {A} (tenant_id : TenantId Uuid) (p : prog A) : svc A :=
  read_store ApiCheck tenant_id (λ s, run (store_tuple_reader s) p).

Definition with_metrics (f : Metrics → Metrics) : svc unit := λ sv,
  (Ok tt, mk_AuthzService (factory sv) (schema_cache sv) (check_cache sv)
            (f <$> service_metrics sv) (audit_log sv)).

Definition audit (event : AuditEvent Uuid) : svc unit := λ sv,
  (Ok tt, mk_AuthzService (factory sv) (schema_cache sv) (check_cache sv)
            (service_metrics sv) (audit_log sv ++ [event])).

Definition get_cached_schema (tenant_id : TenantId Uuid) : svc (option Schema) := λ sv,
  let '(o, c) := cache_get tenant_id (schema_cache sv) in
  (Ok o, mk_AuthzService (factory sv) c (check_cache sv) (service_metrics sv) (audit_log sv)).
Definition update_schema_cache (f : SC → SC) : svc unit := λ sv,
  (Ok tt, mk_AuthzService (factory sv) (f (schema_cache sv)) (check_cache sv)
            (service_metrics sv) (audit_log sv)).
Definition get_cached_check (key : CheckCacheKey Uuid) : svc (option bool) := λ sv,
  let '(o, c) := cache_get key (check_cache sv) in
  (Ok o, mk_AuthzService (factory sv) (schema_cache sv) c (service_metrics sv) (audit_log sv)).
Definition update_check_cache (f : CC → CC) : svc unit := λ sv,
  (Ok tt, mk_AuthzService (factory sv) (schema_cache sv) (f (check_cache sv))
            (service_metrics sv) (audit_log sv)).

(** ** The operations *)

Definition resolve_snapshot (tenant_id : TenantId Uuid) (consistency : Consistency)
    : svc (option SnapshotToken) :=
  match consistency with
  | FullConsistency =>
      let* token := read_store ApiStorage tenant_id store_snapshot in svc_ret (Some token)
  | MinimizeLatency => svc_ret None
  | AtLeastAsFresh token | AtExactSnapshot token => svc_ret (Some token)
  end.

Definition load_schema_cached (tenant_id : TenantId Uuid) : svc Schema :=
  let* cached := get_cached_schema tenant_id in
  match cached with
  | Some schema => let* _ := with_metrics record_schema_cache_hit in svc_ret schema
  | None =>
      let* _ := with_metrics record_schema_cache_miss in
      let* text := read_store ApiStorage tenant_id store_read_schema in
      let* schema_text := lift (ok_or text SchemaNotFound) in
      let* schema := lift (map_err ApiParse (parse_schema pest_parse schema_text)) in
      let* _ := update_schema_cache (cache_insert tenant_id schema) in
      svc_ret schema
  end.

(** The engine part of a check, common to both branches. *)
Definition check_with_engine (tenant_id : TenantId Uuid) (input : CheckPermissionInput)
    (snapshot : option SnapshotToken) : svc CheckResult :=
  let* schema := load_schema_cached tenant_id in
  run_engine tenant_id
    (check schema engine_config
       (mk_CheckRequest (ci_object_type input) (ci_object_id input) (ci_permission input)
          (ci_subject_type input) (ci_subject_id input) snapshot)).

Definition cache_key (tenant_id : TenantId Uuid) (input : CheckPermissionInput)
    (snap : SnapshotToken) : CheckCacheKey Uuid :=
  mk_CheckCacheKey tenant_id (ci_object_type input) (ci_object_id input) (ci_permission input)
    (ci_subject_type input) (ci_subject_id input) snap.

Definition check_permission (tenant_id : TenantId Uuid) (input : CheckPermissionInput)
    : svc CheckPermissionOutput :=
  let* snapshot := resolve_snapshot tenant_id (ci_consistency input) in
  match snapshot with
  | Some snap =>
      let key := cache_key tenant_id input snap in
      let* hit := get_cached_check key in
      match hit with
      | Some cached_allowed =>
          let* _ := with_metrics record_check_cache_hit in
          svc_ret (mk_CheckPermissionOutput cached_allowed snapshot)
      | None =>
          let* _ := with_metrics record_check_cache_miss in
          let* res := check_with_engine tenant_id input snapshot in
          let* _ := update_check_cache (cache_insert key (allowed res)) in
          svc_ret (mk_CheckPermissionOutput (allowed res) snapshot)
      end
  | None =>
      let* res := check_with_engine tenant_id input snapshot in
      svc_ret (mk_CheckPermissionOutput (allowed res) snapshot)
  end.

Definition expand_permission_tree (tenant_id : TenantId Uuid) (input : ExpandPermissionInput)
    : svc ExpandPermissionOutput :=
  let* snapshot := resolve_snapshot tenant_id (ei_consistency input) in
  let* schema := load_schema_cached tenant_id in
  let* tree := run_engine tenant_id
    (expand schema engine_config
       (mk_ExpandRequest (ei_object_type input) (ei_object_id input) (ei_permission input) snapshot)) in
  svc_ret (mk_ExpandPermissionOutput tree snapshot).

Definition write_relationships (tenant_id : TenantId Uuid) (writes : list TupleWrite)
    (deletes : list TupleFilter) : svc SnapshotToken :=
  let* token := on_store ApiStorage tenant_id (store_write writes deletes) in
  let* _ := update_check_cache cache_invalidate_all in
  let* _ := audit (audit_relationship_write tenant_id (length writes) (length deletes) token) in
  svc_ret token.

Definition read_relationships (tenant_id : TenantId Uuid) (filter : TupleFilter)
    (consistency : Consistency) (limit : option nat) : svc ReadRelationshipsOutput :=
  let* snapshot := resolve_snapshot tenant_id consistency in
  let* tuples := read_store ApiStorage tenant_id (λ s, store_read s filter snapshot limit) in
  svc_ret (mk_ReadRelationshipsOutput tuples snapshot).

(** The breaking changes against the stored schema, if there is one. *)
Definition breaking_against (existing_text : option string) (new_schema : Schema)
    : result ApiError (list BreakingChange) :=
  match existing_text with
  | Some old_text =>
      let? old_schema := map_err ApiParse (parse_schema pest_parse old_text) in
      Ok (detect_breaking_changes old_schema new_schema)
  | None => Ok []
  end.

(** The part of [write_schema] before the store is written: whether breaking
    changes are overridden, or why the schema is refused. *)
Definition accept_schema (tenant_id : TenantId Uuid) (definition : string) (force : bool) : svc bool :=
  let* new_schema := lift (map_err ApiParse (parse_schema pest_parse definition)) in
  let* _ := lift (map_err ApiValidation (validate_schema_limits new_schema schema_limits)) in
  let* existing_text := read_store ApiStorage tenant_id store_read_schema in
  let* breaking := lift (breaking_against existing_text new_schema) in
  if negb (bool_decide (breaking = [])) && negb force then svc_fail (ApiBreakingChanges breaking)
  else svc_ret (negb (bool_decide (breaking = []))).

Definition write_schema (tenant_id : TenantId Uuid) (definition : string) (force : bool)
    : svc WriteSchemaOutput :=
  let* overridden := accept_schema tenant_id definition force in
  let* _ := on_store ApiStorage tenant_id (store_write_schema definition) in
  let* _ := update_schema_cache (cache_invalidate tenant_id) in
  let* _ := update_check_cache cache_invalidate_all in
  let* _ := audit (audit_schema_write tenant_id force overridden None) in
  svc_ret (mk_WriteSchemaOutput overridden).

Definition read_schema (tenant_id : TenantId Uuid) : svc (option string) :=
  read_store ApiStorage tenant_id store_read_schema.

Definition lookup_subjects (tenant_id : TenantId Uuid) (input : LookupSubjectsInput)
    : svc LookupSubjectsOutput :=
  let* out := expand_permission_tree tenant_id
    (mk_ExpandPermissionInput (si_object_type input) (si_object_id input) (si_permission input)
       (si_consistency input)) in
  let subjects := dedup (sort_by subject_cmp_leb (collect_subjects (eo_tree out) (si_subject_type input))) in
  svc_ret (mk_LookupSubjectsOutput subjects (eo_snapshot out)).

(** The loop over the object ids, with [results.len()] so far. *)
Fixpoint lookup_loop (tenant_id : TenantId Uuid) (request_for : string → prog CheckResult)
    (limit : nat) (results : list string) (object_ids : list string) : svc (list string) :=
  match object_ids with
  | [] => svc_ret results
  | object_id :: object_ids' =>
      if limit <=? length results then svc_ret results
      else
        let* check_result := run_engine tenant_id (request_for object_id) in
        lookup_loop tenant_id request_for limit
          (if allowed check_result then results ++ [object_id] else results) object_ids'
  end.

Definition lookup_resources (tenant_id : TenantId Uuid) (input : LookupResourcesInput)
    : svc LookupResourcesOutput :=
  let* snapshot := resolve_snapshot tenant_id (ri_consistency input) in
  let* object_ids :=
    read_store ApiStorage tenant_id (λ s, store_list_object_ids s (ri_resource_type input) snapshot None) in
  let* schema := load_schema_cached tenant_id in
  let limit := default 1000 (ri_limit input) in
  let request_for object_id :=
    check schema engine_config
      (mk_CheckRequest (ri_resource_type input) object_id (ri_permission input)
         (ri_subject_type input) (ri_subject_id input) snapshot) in
  let* results := lookup_loop tenant_id request_for limit [] object_ids in
  svc_ret (mk_LookupResourcesOutput results snapshot).
End service.
