(* ===== verification/ServiceSpec.v ===== *)
(** * The service without its caches, and the refinement

    [spec_handle] answers each request from the tenants' stores alone: it
    parses the stored schema anew and runs the engine every time.  Every
    history of requests is answered by the service, caches and all, exactly as
    the specification answers it. *)
From stdpp Require Import base tactics list strings gmap sorting.
From S2P Require Import Prelude Tuples Schema Validation Parser Engine Check Expand Storage Cache.
From S2P Require Import Metrics Service.

Section service_spec.
Context {Uuid F S SC CC : Type} `{EqDecision Uuid}.
Context `{IsolatedStores F Uuid S}.
Context `{CacheLaws SC (TenantId Uuid) Schema, CacheLaws CC (CheckCacheKey Uuid) bool}.
Context (pest_parse : pest_parser) (engine_config : EngineConfig) (schema_limits : SchemaLimits).

Abbreviation service := (@AuthzService Uuid F SC CC).
Implicit Types (sv : service) (t : TenantId Uuid) (s : S).

(** ** The specification, on one store *)

Definition stored_schema s : result ApiError Schema :=
  let? text := map_err ApiStorage (store_read_schema s) in
  let? schema_text := ok_or text SchemaNotFound in
  map_err ApiParse (parse_schema pest_parse schema_text).

Definition spec_resolve s (consistency : Consistency) : result ApiError (option SnapshotToken) :=
  match consistency with
  | FullConsistency => let? token := map_err ApiStorage (store_snapshot s) in Ok (Some token)
  | MinimizeLatency => Ok None
  | AtLeastAsFresh token | AtExactSnapshot token => Ok (Some token)
  end.

Definition run_on {A} s (p : prog A) : result ApiError A :=
  map_err ApiCheck (run (store_tuple_reader s) p).

Definition spec_check_at s (input : CheckPermissionInput) (snapshot : option SnapshotToken)
    : result ApiError CheckResult :=
  let? schema := stored_schema s in
  run_on s (check schema engine_config
    (mk_CheckRequest (ci_object_type input) (ci_object_id input) (ci_permission input)
       (ci_subject_type input) (ci_subject_id input) snapshot)).

Definition spec_check s (input : CheckPermissionInput) : result ApiError CheckPermissionOutput :=
  let? snapshot := spec_resolve s (ci_consistency input) in
  let? res := spec_check_at s input snapshot in
  Ok (mk_CheckPermissionOutput (allowed res) snapshot).

Definition spec_expand s (input : ExpandPermissionInput) : result ApiError ExpandPermissionOutput :=
  let? snapshot := spec_resolve s (ei_consistency input) in
  let? schema := stored_schema s in
  let? tree := run_on s (expand schema engine_config
    (mk_ExpandRequest (ei_object_type input) (ei_object_id input) (ei_permission input) snapshot)) in
  Ok (mk_ExpandPermissionOutput tree snapshot).

Definition spec_read_relationships s (filter : TupleFilter) (consistency : Consistency)
    (limit : option nat) : result ApiError ReadRelationshipsOutput :=
  let? snapshot := spec_resolve s consistency in
  let? tuples := map_err ApiStorage (store_read s filter snapshot limit) in
  Ok (mk_ReadRelationshipsOutput tuples snapshot).

Definition spec_lookup_subjects s (input : LookupSubjectsInput) : result ApiError LookupSubjectsOutput :=
  let? out := spec_expand s
    (mk_ExpandPermissionInput (si_object_type input) (si_object_id input) (si_permission input)
       (si_consistency input)) in
  Ok (mk_LookupSubjectsOutput
    (dedup (sort_by subject_cmp_leb (collect_subjects (eo_tree out) (si_subject_type input))))
    (eo_snapshot out)).

Fixpoint spec_lookup_loop s (request_for : string → prog CheckResult) (limit : nat)
    (results object_ids : list string) : result ApiError (list string) :=
  match object_ids with
  | [] => Ok results
  | object_id :: object_ids' =>
      if limit <=? length results then Ok results
      else
        let? check_result := run_on s (request_for object_id) in
        spec_lookup_loop s request_for limit
          (if allowed check_result then results ++ [object_id] else results) object_ids'
  end.

Definition resource_request (schema : Schema) (input : LookupResourcesInput)
    (snapshot : option SnapshotToken) (object_id : string) : prog CheckResult :=
  check schema engine_config
    (mk_CheckRequest (ri_resource_type input) object_id (ri_permission input)
       (ri_subject_type input) (ri_subject_id input) snapshot).

Definition spec_lookup_resources s (input : LookupResourcesInput) : result ApiError LookupResourcesOutput :=
  let? snapshot := spec_resolve s (ri_consistency input) in
  let? object_ids :=
    map_err ApiStorage (store_list_object_ids s (ri_resource_type input) snapshot None) in
  let? schema := stored_schema s in
  let? results := spec_lookup_loop s (resource_request schema input snapshot)
                    (default 1000 (ri_limit input)) [] object_ids in
  Ok (mk_LookupResourcesOutput results snapshot).

(** Why a schema is refused, or whether it overrides breaking changes. *)
Definition spec_accept_schema s (definition : string) (force : bool) : result ApiError bool :=
  let? new_schema := map_err ApiParse (parse_schema pest_parse definition) in
  let? _ := map_err ApiValidation (validate_schema_limits new_schema schema_limits) in
  let? existing_text := map_err ApiStorage (store_read_schema s) in
  let? breaking := breaking_against pest_parse existing_text new_schema in
  if negb (bool_decide (breaking = [])) && negb force then Err (ApiBreakingChanges breaking)
  else Ok (negb (bool_decide (breaking = []))).

(** A schema write is refused, or replaces the stored text. *)
Definition spec_write_schema (definition : string) (force : bool) s
    : result ApiError WriteSchemaOutput * S :=
  match spec_accept_schema s definition force with
  | Err e => (Err e, s)
  | Ok overridden =>
      let '(r, s') := store_write_schema definition s in
      (let? _ := map_err ApiStorage r in Ok (mk_WriteSchemaOutput overridden), s')
  end.

(** ** The service's invariant *)

Definition key_result s (key : CheckCacheKey Uuid) : result ApiError bool :=
  result_map allowed (spec_check_at s
    (mk_CheckPermissionInput (k_object_type key) (k_object_id key) (k_permission key)
       (k_subject_type key) (k_subject_id key) MinimizeLatency) (Some (k_snapshot key))).

(** Whatever a cache can answer is what the stores say now. *)
Record service_inv sv : Prop := {
  inv_factory : factory_ok (factory sv);
  inv_schema t schema :
    cached (schema_cache sv) t schema → stored_schema (tenant_view t (factory sv)) = Ok schema;
  inv_check key b :
    cached (check_cache sv) key b → key_result (tenant_view (k_tenant_id key) (factory sv)) key = Ok b }.

Definition same_stores sv sv' : Prop :=
  ∀ t, tenant_view t (factory sv') = tenant_view t (factory sv).

#[local] Instance same_stores_preorder : PreOrder same_stores.
Proof. split; [by intros sv t|]. intros sv1 sv2 sv3 H12 H23 t. by rewrite H23. Qed.

(** [m] answers [r] from [sv], keeps the invariant and changes no store. *)
Definition answers {A} (m : @svc Uuid F SC CC A) sv (r : result ApiError A) : Prop :=
  ∃ sv', m sv = (r, sv') ∧ service_inv sv' ∧ same_stores sv sv'.

Lemma answers_lift {A} sv (r : result ApiError A) : service_inv sv → answers (lift r) sv r.
Proof. by exists sv. Qed.

Lemma answers_ret {A} sv (a : A) : service_inv sv → answers (svc_ret a) sv (Ok a).
Proof. by exists sv. Qed.

Lemma answers_bind {A B} (m : svc A) (k : A → svc B) sv r f :
  answers m sv r →
  (∀ a sv', r = Ok a → service_inv sv' → same_stores sv sv' → answers (k a) sv' (f a)) →
  answers (svc_bind m k) sv (try r f).
Proof.
  intros (sv1 & Hm & Hinv1 & Hs1) Hk. unfold answers, svc_bind. rewrite Hm.
  destruct r as [a|e]; [|by exists sv1].
  destruct (Hk a sv1 eq_refl Hinv1 Hs1) as (sv2 & Hk2 & Hinv2 & Hs2). exists sv2.
  split_and!; [done..|]. by etrans.
Qed.

(** A continuation that returns what it was given. *)
Lemma answers_bind_same {A} (m : svc A) (k : A → svc A) sv r :
  answers m sv r →
  (∀ a sv', r = Ok a → service_inv sv' → same_stores sv sv' → answers (k a) sv' (Ok a)) →
  answers (svc_bind m k) sv r.
Proof.
  intros Hm Hk. replace r with (try r Ok) at 1 by (by destruct r). by apply answers_bind.
Qed.

(** The continuation after an operation that answers [Ok tt]. *)
Lemma answers_then {A} (m : svc unit) (k : svc A) sv r :
  answers m sv (Ok tt) →
  (∀ sv', service_inv sv' → same_stores sv sv' → answers k sv' r) →
  answers (svc_bind m (λ _, k)) sv r.
Proof. intros Hm Hk. apply (answers_bind m (λ _, k) sv (Ok tt) (λ _, r)); auto. Qed.

Lemma service_inv_stores sv f :
  service_inv sv → factory_ok f → (∀ t, tenant_view t f = tenant_view t (factory sv)) →
  service_inv (mk_AuthzService f (schema_cache sv) (check_cache sv) (service_metrics sv) (audit_log sv)).
Proof.
  intros [Hf Hs Hc] Hf' Hv. split; simpl; [done|..].
  - intros t schema Ht. rewrite Hv. by apply Hs.
  - intros key b Hk. rewrite Hv. by apply Hc.
Qed.

Lemma answers_read_store {E A} (to_api : E → ApiError) t (query : S → result E A) sv :
  service_inv sv →
  answers (read_store to_api t query) sv (map_err to_api (query (tenant_view t (factory sv)))).
Proof.
  intros Hinv. pose proof (inv_factory _ Hinv) as Hf. unfold read_store, on_store.
  destruct (call_store_spec t (λ s, (query s, s)) (factory sv)) as (f & Hcall & Hf' & Hown & Hother);
    [done|by apply tenant_view_inv|].
  assert (∀ t', tenant_view t' f = tenant_view t' (factory sv)) as Hv.
  { intros t'. destruct (decide (t' = t)) as [->|]; [done|by apply Hother]. }
  eexists. rewrite Hcall. split_and!; [done|by apply service_inv_stores|done].
Qed.

Lemma answers_metrics (f : Metrics → Metrics) sv : service_inv sv → answers (with_metrics f) sv (Ok tt).
Proof. intros [Hf Hs Hc]. eexists. split_and!; [done| |done]. by split. Qed.

Lemma answers_audit e sv : service_inv sv → answers (audit e) sv (Ok tt).
Proof. intros [Hf Hs Hc]. eexists. split_and!; [done| |done]. by split. Qed.

Lemma answers_get_schema t sv :
  service_inv sv →
  ∃ o, answers (get_cached_schema t) sv (Ok o) ∧
    ∀ schema, o = Some schema → stored_schema (tenant_view t (factory sv)) = Ok schema.
Proof.
  intros [Hf Hs Hc]. unfold answers, get_cached_schema.
  destruct (cache_get t (schema_cache sv)) as [o c] eqn:Hget.
  exists o. split.
  - eexists. split_and!; [done| |done]. split; [done| |done]. simpl. intros t' schema Ht'.
    apply Hs, (cache_get_keeps (schema_cache sv) t). by rewrite Hget.
  - intros schema ->. apply Hs, cache_get_answer. by rewrite Hget.
Qed.

Lemma answers_get_check key sv :
  service_inv sv →
  ∃ o, answers (get_cached_check key) sv (Ok o) ∧
    ∀ b, o = Some b → key_result (tenant_view (k_tenant_id key) (factory sv)) key = Ok b.
Proof.
  intros [Hf Hs Hc]. unfold answers, get_cached_check.
  destruct (cache_get key (check_cache sv)) as [o c] eqn:Hget.
  exists o. split.
  - eexists. split_and!; [done| |done]. split; [done..|]. simpl. intros key' b Hk.
    apply Hc, (cache_get_keeps (check_cache sv) key). by rewrite Hget.
  - intros b ->. apply Hc, cache_get_answer. by rewrite Hget.
Qed.

Lemma answers_insert_schema t schema sv :
  service_inv sv → stored_schema (tenant_view t (factory sv)) = Ok schema →
  answers (update_schema_cache (cache_insert t schema)) sv (Ok tt).
Proof.
  intros [Hf Hs Hc] Ht. eexists. split_and!; [done| |done]. split; [done| |done]. simpl.
  intros t' schema' [[-> ->]|Hin]%cache_insert_cached; [done|by apply Hs].
Qed.

Lemma answers_insert_check key b sv :
  service_inv sv → key_result (tenant_view (k_tenant_id key) (factory sv)) key = Ok b →
  answers (update_check_cache (cache_insert key b)) sv (Ok tt).
Proof.
  intros [Hf Hs Hc] Ht. eexists. split_and!; [done| |done]. split; [done..|]. simpl.
  intros key' b' [[-> ->]|Hin]%cache_insert_cached; [done|by apply Hc].
Qed.

(** ** Each operation answers as its specification *)

Lemma answers_resolve t c sv :
  service_inv sv → answers (resolve_snapshot t c) sv (spec_resolve (tenant_view t (factory sv)) c).
Proof.
  intros Hinv. destruct c; simpl; try by apply answers_ret.
  eapply answers_bind; [by apply answers_read_store|]. intros. by apply answers_ret.
Qed.

Lemma answers_load_schema t sv :
  service_inv sv →
  answers (load_schema_cached pest_parse t) sv (stored_schema (tenant_view t (factory sv))).
Proof.
  intros Hinv. destruct (answers_get_schema t sv Hinv) as (o & Ho & Hcached).
  unfold load_schema_cached.
  apply (answers_bind _ _ sv (Ok o) (λ _, stored_schema (tenant_view t (factory sv)))); [done|].
  intros o' sv1 [= <-] Hinv1 Hs1. destruct o as [schema|].
  - rewrite (Hcached schema eq_refl). apply answers_then; [by apply answers_metrics|].
    intros sv2 Hinv2 _. by apply answers_ret.
  - apply answers_then; [by apply answers_metrics|]. intros sv2 Hinv2 Hs2.
    unfold stored_schema at 1. rewrite <-(Hs1 t), <-(Hs2 t).
    eapply answers_bind; [by apply answers_read_store|]. intros text sv3 Htext Hinv3 Hs3.
    eapply answers_bind; [by apply answers_lift|]. intros schema_text sv4 Hst Hinv4 Hs4.
    eapply answers_bind_same; [by apply answers_lift|]. intros schema sv5 Hschema Hinv5 Hs5.
    apply answers_then; [|intros; by apply answers_ret].
    apply answers_insert_schema; [done|]. rewrite (Hs5 t), (Hs4 t), (Hs3 t).
    unfold stored_schema. rewrite Htext. simpl. rewrite Hst. done.
Qed.

Lemma answers_run_engine {A} t (p : prog A) sv :
  service_inv sv → answers (run_engine t p) sv (run_on (tenant_view t (factory sv)) p).
Proof. intros Hinv. by apply answers_read_store. Qed.

Lemma answers_check_with_engine t input snapshot sv :
  service_inv sv →
  answers (check_with_engine pest_parse engine_config t input snapshot) sv
    (spec_check_at (tenant_view t (factory sv)) input snapshot).
Proof.
  intros Hinv. eapply answers_bind; [by apply answers_load_schema|].
  intros schema sv1 _ Hinv1 Hs1. rewrite <-(Hs1 t). by apply answers_run_engine.
Qed.

Lemma answers_check t input sv :
  service_inv sv →
  answers (check_permission pest_parse engine_config t input) sv
    (spec_check (tenant_view t (factory sv)) input).
Proof.
  intros Hinv. eapply answers_bind; [by apply answers_resolve|].
  intros [snap|] sv1 _ Hinv1 Hs1; cbv beta iota; rewrite <-(Hs1 t).
  2: { eapply answers_bind; [by apply answers_check_with_engine|]. intros. by apply answers_ret. }
  destruct (answers_get_check (cache_key t input snap) sv1 Hinv1) as (o & Ho & Hcached).
  apply (answers_bind _ _ sv1 (Ok o) (λ _, let? res := _ in _)); [done|].
  intros o' sv2 [= <-] Hinv2 Hs2. rewrite <-(Hs2 t). destruct o as [b|].
  - specialize (Hcached b eq_refl). simpl in Hcached. rewrite <-(Hs2 t) in Hcached.
    unfold key_result in Hcached.
    change (spec_check_at _ _ _) with (spec_check_at (tenant_view t (factory sv2)) input (Some snap)) in Hcached.
    apply answers_then; [by apply answers_metrics|]. intros sv3 Hinv3 _.
    destruct (spec_check_at _ input (Some snap)) as [res|]; simpl in *; simplify_eq.
    by apply answers_ret.
  - apply answers_then; [by apply answers_metrics|]. intros sv3 Hinv3 Hs3. rewrite <-(Hs3 t).
    eapply answers_bind; [by apply answers_check_with_engine|]. intros res sv4 Hres Hinv4 Hs4.
    apply answers_then; [|intros; by apply answers_ret]. apply answers_insert_check; [done|].
    simpl. rewrite (Hs4 t). unfold key_result.
    change (spec_check_at _ _ _) with (spec_check_at (tenant_view t (factory sv3)) input (Some snap)).
    by rewrite Hres.
Qed.

Lemma answers_expand t input sv :
  service_inv sv →
  answers (expand_permission_tree pest_parse engine_config t input) sv
    (spec_expand (tenant_view t (factory sv)) input).
Proof.
  intros Hinv. eapply answers_bind; [by apply answers_resolve|].
  intros snapshot sv1 _ Hinv1 Hs1. rewrite <-(Hs1 t).
  eapply answers_bind; [by apply answers_load_schema|]. intros schema sv2 _ Hinv2 Hs2.
  rewrite <-(Hs2 t). eapply answers_bind; [by apply answers_run_engine|]. intros. by apply answers_ret.
Qed.

Lemma answers_read_relationships t filter c limit sv :
  service_inv sv →
  answers (read_relationships t filter c limit) sv
    (spec_read_relationships (tenant_view t (factory sv)) filter c limit).
Proof.
  intros Hinv. eapply answers_bind; [by apply answers_resolve|].
  intros snapshot sv1 _ Hinv1 Hs1. rewrite <-(Hs1 t).
  eapply answers_bind; [|intros; by apply answers_ret].
  by apply (answers_read_store _ t (λ s, store_read s filter snapshot limit)).
Qed.

Lemma answers_lookup_subjects t input sv :
  service_inv sv →
  answers (lookup_subjects pest_parse engine_config t input) sv
    (spec_lookup_subjects (tenant_view t (factory sv)) input).
Proof.
  intros Hinv. eapply answers_bind; [by apply answers_expand|]. intros. by apply answers_ret.
Qed.

Lemma answers_lookup_loop t request_for limit ids results sv :
  service_inv sv →
  answers (lookup_loop t request_for limit results ids) sv
    (spec_lookup_loop (tenant_view t (factory sv)) request_for limit results ids).
Proof.
  revert results sv. induction ids as [|id ids IH]; intros results sv Hinv; [by apply answers_ret|].
  simpl. destruct (limit <=? length results); [by apply answers_ret|].
  eapply answers_bind; [by apply answers_run_engine|]. intros res sv1 _ Hinv1 Hs1.
  rewrite <-(Hs1 t). by apply IH.
Qed.

Lemma answers_lookup_resources t input sv :
  service_inv sv →
  answers (lookup_resources pest_parse engine_config t input) sv
    (spec_lookup_resources (tenant_view t (factory sv)) input).
Proof.
  intros Hinv. eapply answers_bind; [by apply answers_resolve|].
  intros snapshot sv1 _ Hinv1 Hs1. rewrite <-(Hs1 t).
  eapply answers_bind.
  { by apply (answers_read_store _ t (λ s, store_list_object_ids s (ri_resource_type input) snapshot None)). }
  intros ids sv2 _ Hinv2 Hs2. rewrite <-(Hs2 t).
  eapply answers_bind; [by apply answers_load_schema|]. intros schema sv3 _ Hinv3 Hs3.
  rewrite <-(Hs3 t). eapply answers_bind; [|intros; by apply answers_ret].
  by apply (answers_lookup_loop t (resource_request schema input snapshot)).
Qed.

(** ** The two operations that write *)

(** [m] answers [out.1], keeps the invariant, and makes [out.2] of the
    tenant's store and nothing of the others. *)
Definition writes {A} (m : @svc Uuid F SC CC A) sv t (out : result ApiError A * S) : Prop :=
  ∃ sv', m sv = (out.1, sv') ∧ service_inv sv' ∧ tenant_view t (factory sv') = out.2 ∧
    ∀ t', t' ≠ t → tenant_view t' (factory sv') = tenant_view t' (factory sv).

(** Once the caches that depend on a store are empty, it may change. *)
Lemma service_inv_changed sv t f sc cc metrics log :
  service_inv sv → factory_ok f →
  (∀ t', t' ≠ t → tenant_view t' f = tenant_view t' (factory sv)) →
  (∀ t' schema, cached sc t' schema → cached (schema_cache sv) t' schema ∧
     (t' = t → stored_schema (tenant_view t f) = stored_schema (tenant_view t (factory sv)))) →
  (∀ key b, ¬ cached cc key b) →
  service_inv (mk_AuthzService f sc cc metrics log).
Proof.
  intros [Hf Hs Hc] Hf' Hother Hsc Hcc. split; simpl; [done| |by intros key b ?%Hcc].
  intros t' schema [Hin Heq]%Hsc. apply Hs in Hin.
  destruct (decide (t' = t)) as [->|]; [by rewrite Heq|by rewrite Hother].
Qed.

Lemma writes_relationships t ws ds sv :
  service_inv sv → (now (tenant_view t (factory sv)) + 1 < u64_max)%Z →
  writes (write_relationships t ws ds) sv t
    (let '(r, s') := store_write ws ds (tenant_view t (factory sv)) in (map_err ApiStorage r, s')).
Proof.
  intros Hinv Hroom. pose proof (inv_factory _ Hinv) as Hf.
  pose proof (tenant_view_inv t _ Hf) as Hst. unfold writes, write_relationships, svc_bind, on_store.
  destruct (deletes_something ds) eqn:Hds.
  - destruct (store_write_ok (tenant_view t (factory sv)) ws ds Hst Hds Hroom) as (s' & Hw & [] & Hschema).
    destruct (call_store_spec t (store_write ws ds) (factory sv)) as (f & Hcall & Hf' & Hown & Hother);
      [done|by rewrite Hw|]. rewrite Hw in Hcall, Hown. simpl in Hcall, Hown.
    eexists. rewrite Hcall, Hw. simpl. split_and!; [done| |done|done].
    apply (service_inv_changed sv t); [done..| |apply cache_invalidate_all_cached].
    intros t' schema Hc. split; [done|]. intros _. unfold stored_schema. by rewrite Hown, Hschema.
  - pose proof (store_write_rejected (tenant_view t (factory sv)) ws ds Hds) as Hw.
    destruct (call_store_spec t (store_write ws ds) (factory sv)) as (f & Hcall & Hf' & Hown & Hother);
      [done|by rewrite Hw|]. rewrite Hw in Hcall, Hown. simpl in Hcall, Hown.
    eexists. rewrite Hcall, Hw. simpl. split_and!; [done| |done|done].
    apply service_inv_stores; [done..|]. intros t'.
    destruct (decide (t' = t)) as [->|]; [done|by apply Hother].
Qed.

(** A prefix of reads, then a write. *)
Lemma writes_bind {A B} (m : svc A) (k : A → svc B) sv t r (f : A → result ApiError B * S) :
  answers m sv r →
  (∀ a sv', r = Ok a → service_inv sv' → same_stores sv sv' → writes (k a) sv' t (f a)) →
  writes (svc_bind m k) sv t
    (match r with Ok a => f a | Err e => (Err e, tenant_view t (factory sv)) end).
Proof.
  intros (sv1 & Hm & Hinv1 & Hs1) Hk. unfold writes, svc_bind. rewrite Hm.
  destruct r as [a|e]; [|exists sv1; split_and!; [done..|apply (Hs1 t)|by intros t' _; apply Hs1]].
  destruct (Hk a sv1 eq_refl Hinv1 Hs1) as (sv2 & Hk2 & Hinv2 & Hown & Hother).
  exists sv2. split_and!; [done..|]. intros t' Hne. by rewrite Hother, (Hs1 t').
Qed.

Lemma writes_schema_text t definition force overridden sv :
  service_inv sv →
  writes
    (svc_bind (on_store ApiStorage t (store_write_schema definition)) (λ _,
     svc_bind (update_schema_cache (cache_invalidate t)) (λ _,
     svc_bind (update_check_cache cache_invalidate_all) (λ _,
     svc_bind (audit (audit_schema_write t force overridden None)) (λ _,
     svc_ret (mk_WriteSchemaOutput overridden)))))) sv t
    (let '(r, s') := store_write_schema definition (tenant_view t (factory sv)) in
     (let? _ := map_err ApiStorage r in Ok (mk_WriteSchemaOutput overridden), s')).
Proof.
  intros Hinv. pose proof (inv_factory _ Hinv) as Hf.
  pose proof (tenant_view_inv t _ Hf) as Hst. unfold writes, svc_bind, on_store.
  destruct (store_write_schema_ok (tenant_view t (factory sv)) definition Hst)
    as (s' & Hw & Hinv' & _ & _ & _).
  destruct (call_store_spec t (store_write_schema definition) (factory sv))
    as (f & Hcall & Hf' & Hown & Hother); [done|by rewrite Hw|].
  rewrite Hw in Hcall, Hown. simpl in Hcall, Hown.
  eexists. rewrite Hcall, Hw. simpl. split_and!; [done| |done|done].
  apply (service_inv_changed sv t); [done..| |apply cache_invalidate_all_cached].
  intros t' schema [Hne Hc]%cache_invalidate_cached. by split.
Qed.

Lemma answers_accept_schema t definition force sv :
  service_inv sv →
  answers (accept_schema pest_parse schema_limits t definition force) sv
    (spec_accept_schema (tenant_view t (factory sv)) definition force).
Proof.
  intros Hinv. eapply answers_bind; [by apply answers_lift|]. intros new_schema sv1 _ Hinv1 Hs1.
  eapply answers_bind; [by apply answers_lift|]. intros _ sv2 _ Hinv2 Hs2.
  rewrite <-(Hs1 t), <-(Hs2 t). eapply answers_bind; [by apply answers_read_store|].
  intros text sv3 _ Hinv3 _. eapply answers_bind; [by apply answers_lift|].
  intros breaking sv4 _ Hinv4 _. case_match; [by exists sv4|by apply answers_ret].
Qed.

Lemma writes_schema t definition force sv :
  service_inv sv →
  writes (write_schema pest_parse schema_limits t definition force) sv t
    (spec_write_schema definition force (tenant_view t (factory sv))).
Proof.
  intros Hinv. unfold spec_write_schema. eapply writes_bind; [by apply answers_accept_schema|].
  intros overridden sv1 _ Hinv1 Hs1. rewrite <-(Hs1 t). by apply writes_schema_text.
Qed.

(** ** Histories of requests *)

Inductive request :=
| RCheck (t : TenantId Uuid) (input : CheckPermissionInput)
| RExpand (t : TenantId Uuid) (input : ExpandPermissionInput)
| RLookupSubjects (t : TenantId Uuid) (input : LookupSubjectsInput)
| RLookupResources (t : TenantId Uuid) (input : LookupResourcesInput)
| RRead (t : TenantId Uuid) (filter : TupleFilter) (c : Consistency) (limit : option nat)
| RReadSchema (t : TenantId Uuid)
| RWrite (t : TenantId Uuid) (writes : list TupleWrite) (deletes : list TupleFilter)
| RWriteSchema (t : TenantId Uuid) (definition : string) (force : bool).

Inductive response :=
| PCheck (r : result ApiError CheckPermissionOutput)
| PExpand (r : result ApiError ExpandPermissionOutput)
| PLookupSubjects (r : result ApiError LookupSubjectsOutput)
| PLookupResources (r : result ApiError LookupResourcesOutput)
| PRead (r : result ApiError ReadRelationshipsOutput)
| PReadSchema (r : result ApiError (option string))
| PWrite (r : result ApiError SnapshotToken)
| PWriteSchema (r : result ApiError WriteSchemaOutput).

Definition handle_with {A} (wrap : result ApiError A → response) (m : @svc Uuid F SC CC A) sv
    : response * service := let '(r, sv') := m sv in (wrap r, sv').

Definition handle (req : request) : service → response * service :=
  match req with
  | RCheck t input => handle_with PCheck (check_permission pest_parse engine_config t input)
  | RExpand t input => handle_with PExpand (expand_permission_tree pest_parse engine_config t input)
  | RLookupSubjects t input =>
      handle_with PLookupSubjects (lookup_subjects pest_parse engine_config t input)
  | RLookupResources t input =>
      handle_with PLookupResources (lookup_resources pest_parse engine_config t input)
  | RRead t filter c limit => handle_with PRead (read_relationships t filter c limit)
  | RReadSchema t => handle_with PReadSchema (read_schema t)
  | RWrite t ws ds => handle_with PWrite (write_relationships t ws ds)
  | RWriteSchema t definition force =>
      handle_with PWriteSchema (write_schema pest_parse schema_limits t definition force)
  end.

Fixpoint serve (reqs : list request) sv : list response * service :=
  match reqs with
  | [] => ([], sv)
  | req :: reqs' =>
      let '(r, sv1) := handle req sv in
      let '(rs, sv2) := serve reqs' sv1 in (r :: rs, sv2)
  end.

(** The specification: a store per tenant and nothing else. *)
Abbreviation stores_of := (TenantId Uuid → S).

Definition on_tenant {A} (t : TenantId Uuid) (m : S → A * S) (σ : stores_of) : A * stores_of :=
  let '(a, s') := m (σ t) in (a, λ t', if decide (t' = t) then s' else σ t').

Definition spec_handle (req : request) (σ : stores_of) : response * stores_of :=
  match req with
  | RCheck t input => (PCheck (spec_check (σ t) input), σ)
  | RExpand t input => (PExpand (spec_expand (σ t) input), σ)
  | RLookupSubjects t input => (PLookupSubjects (spec_lookup_subjects (σ t) input), σ)
  | RLookupResources t input => (PLookupResources (spec_lookup_resources (σ t) input), σ)
  | RRead t filter c limit => (PRead (spec_read_relationships (σ t) filter c limit), σ)
  | RReadSchema t => (PReadSchema (map_err ApiStorage (store_read_schema (σ t))), σ)
  | RWrite t ws ds =>
      let '(r, σ') := on_tenant t (store_write ws ds) σ in (PWrite (map_err ApiStorage r), σ')
  | RWriteSchema t definition force =>
      let '(r, σ') := on_tenant t (spec_write_schema definition force) σ in (PWriteSchema r, σ')
  end.

Fixpoint spec_serve (reqs : list request) (σ : stores_of) : list response * stores_of :=
  match reqs with
  | [] => ([], σ)
  | req :: reqs' =>
      let '(r, σ1) := spec_handle req σ in
      let '(rs, σ2) := spec_serve reqs' σ1 in (r :: rs, σ2)
  end.

(** The service is in the state the specification is in. *)
Definition represents sv (σ : stores_of) : Prop :=
  service_inv sv ∧ ∀ t, tenant_view t (factory sv) = σ t.

Lemma handle_answers {A} wrap (m : svc A) sv r σ :
  represents sv σ → answers m sv r → ∃ sv', handle_with wrap m sv = (wrap r, sv') ∧ represents sv' σ.
Proof.
  intros [_ Hσ] (sv' & Hm & Hinv' & Hs). unfold handle_with. rewrite Hm. exists sv'.
  split; [done|]. split; [done|]. intros t. by rewrite (Hs t).
Qed.

Lemma handle_writes {A} wrap (m : svc A) sv t (spec : S → result ApiError A * S) σ :
  represents sv σ → writes m sv t (spec (tenant_view t (factory sv))) →
  ∃ sv', handle_with wrap m sv = (wrap (on_tenant t spec σ).1, sv') ∧
    represents sv' (on_tenant t spec σ).2.
Proof.
  intros [_ Hσ] (sv' & Hm & Hinv' & Hown & Hother). rewrite Hσ in *.
  unfold handle_with, on_tenant. rewrite Hm. destruct (spec (σ t)) as [r s']. exists sv'.
  split; [done|]. split; [done|]. intros t'. simpl. case_decide as Ht; [by rewrite Ht|].
  by rewrite Hother.
Qed.

Lemma handle_refines req sv σ :
  represents sv σ → (∀ t, now (σ t) + 1 < u64_max)%Z →
  ∃ sv', handle req sv = ((spec_handle req σ).1, sv') ∧ represents sv' (spec_handle req σ).2.
Proof.
  intros Hrep Hroom. pose proof Hrep as [Hinv Hσ].
  destruct req as [t input|t input|t input|t input|t filter c limit|t|t ws ds|t definition force];
    cbn [handle spec_handle fst snd]; try rewrite <-(Hσ t).
  - apply handle_answers; [done|]. by apply answers_check.
  - apply handle_answers; [done|]. by apply answers_expand.
  - apply handle_answers; [done|]. by apply answers_lookup_subjects.
  - apply handle_answers; [done|]. by apply answers_lookup_resources.
  - apply handle_answers; [done|]. by apply answers_read_relationships.
  - apply handle_answers; [done|]. by apply answers_read_store.
  - destruct (handle_writes PWrite (write_relationships t ws ds) sv t
      (λ s, let '(r, s') := store_write ws ds s in (map_err ApiStorage r, s')) σ Hrep)
      as (sv' & Hh & Hr).
    { apply writes_relationships; [done|]. by rewrite Hσ. }
    exists sv'. rewrite Hh. unfold on_tenant in *. by destruct (store_write ws ds (σ t)).
  - destruct (handle_writes PWriteSchema _ sv t (spec_write_schema definition force) σ Hrep
      (writes_schema t definition force sv Hinv)) as (sv' & Hh & Hr).
    exists sv'. rewrite Hh. unfold on_tenant in *.
    by destruct (spec_write_schema definition force (σ t)).
Qed.

(** One request adds at most one version to a store. *)
Lemma spec_handle_now req σ t :
  (∀ t, store_inv (σ t)) → (∀ t, now (σ t) + 1 < u64_max)%Z →
  (now ((spec_handle req σ).2 t) ≤ now (σ t) + 1)%Z.
Proof.
  intros Hinv Hroom. destruct req as [| | | | | |t' ws ds|t' definition force]; simpl; try lia.
  - unfold on_tenant. destruct (deletes_something ds) eqn:Hds.
    + destruct (store_write_ok (σ t') ws ds) as (s' & -> & [_ Hn _ _] & _); [done..|]. simpl.
      case_decide; subst; lia.
    + rewrite store_write_rejected by done. simpl. case_decide; subst; lia.
  - unfold on_tenant, spec_write_schema. destruct (spec_accept_schema _ _ _); simpl.
    + destruct (store_write_schema_ok (σ t') definition) as (s' & -> & _ & Hn & _); [done|]. simpl.
      case_decide; subst; lia.
    + case_decide; subst; lia.
Qed.

Lemma serve_refines reqs sv σ :
  represents sv σ → (∀ t, now (σ t) + Z.of_nat (length reqs) < u64_max)%Z →
  ∃ sv', serve reqs sv = ((spec_serve reqs σ).1, sv') ∧ represents sv' (spec_serve reqs σ).2.
Proof.
  revert sv σ. induction reqs as [|req reqs IH]; intros sv σ Hrep Hroom; [by exists sv|].
  assert (∀ t, now (σ t) + 1 < u64_max)%Z as Hroom1.
  { intros t. specialize (Hroom t). simpl in Hroom. lia. }
  destruct (handle_refines req sv σ Hrep Hroom1) as (sv1 & Hh & Hrep1).
  assert (∀ t, store_inv (σ t)) as Hst.
  { intros t. rewrite <-(proj2 Hrep t). apply tenant_view_inv, Hrep. }
  cbn [serve spec_serve]. rewrite Hh. destruct (spec_handle req σ) as [r σ1] eqn:Hspec. simpl in *.
  destruct (IH sv1 σ1 Hrep1) as (sv2 & Hs & Hrep2).
  { intros t. pose proof (spec_handle_now req σ t Hst Hroom1) as Hn.
    rewrite Hspec in Hn. simpl in Hn. specialize (Hroom t). lia. }
  rewrite Hs. exists sv2. by destruct (spec_serve reqs σ1).
Qed.

(** ** Stored schemas *)

(** The stored schema, if there is one, parses and is within the limits. *)
Definition schema_ok s : Prop :=
  store_read_schema s = Ok None ∨
  ∃ text schema, store_read_schema s = Ok (Some text) ∧
    parse_schema pest_parse text = Ok schema ∧ within_limits schema schema_limits.

Lemma schema_ok_stored s :
  schema_ok s →
  stored_schema s = Err SchemaNotFound ∨
  ∃ schema, stored_schema s = Ok schema ∧ wf_schema schema ∧ within_limits schema schema_limits.
Proof.
  unfold stored_schema. intros [->|(text & schema & -> & Hp & Hl)]; [by left|]. right.
  exists schema. simpl. rewrite Hp. split_and!; [done| |done]. by eapply parse_schema_wf'.
Qed.

Lemma spec_write_schema_ok definition force s :
  store_inv s → schema_ok s → schema_ok (spec_write_schema definition force s).2.
Proof.
  intros Hinv Hok. unfold spec_write_schema.
  destruct (spec_accept_schema s definition force) as [overridden|e] eqn:Hacc; [|done].
  destruct (store_write_schema_ok s definition Hinv) as (s' & -> & _ & _ & _ & Hread). simpl.
  right. unfold spec_accept_schema in Hacc. apply try_Ok in Hacc as (schema & Hp%map_err_Ok & Hacc).
  apply try_Ok in Hacc as ([] & Hl%map_err_Ok & _). exists definition, schema.
  split_and!; [done..|]. by apply validate_ok.
Qed.

Lemma spec_handle_schema_ok req σ :
  (∀ t, store_inv (σ t)) → (∀ t, now (σ t) + 1 < u64_max)%Z → (∀ t, schema_ok (σ t)) →
  ∀ t, schema_ok ((spec_handle req σ).2 t).
Proof.
  intros Hinv Hroom Hok t. destruct req as [| | | | | |t' ws ds|t' definition force]; simpl; try done.
  - unfold on_tenant. destruct (deletes_something ds) eqn:Hds.
    + destruct (store_write_ok (σ t') ws ds) as (s' & -> & _ & Hs); [done..|]. simpl.
      case_decide; [|done]. unfold schema_ok. rewrite Hs. apply Hok.
    + rewrite store_write_rejected by done. simpl. by case_decide; subst.
  - unfold on_tenant. pose proof (spec_write_schema_ok definition force (σ t') (Hinv t') (Hok t')) as Hw.
    destruct (spec_write_schema definition force (σ t')) as [r s']. simpl in *. by case_decide.
Qed.

Lemma serve_schema_ok reqs sv :
  service_inv sv → (∀ t, now (tenant_view t (factory sv)) + Z.of_nat (length reqs) < u64_max)%Z →
  (∀ t, schema_ok (tenant_view t (factory sv))) →
  ∀ t, schema_ok (tenant_view t (factory (serve reqs sv).2)).
Proof.
  revert sv. induction reqs as [|req reqs IH]; intros sv Hinv Hroom Hok t; [apply Hok|].
  assert (represents sv (λ t, tenant_view t (factory sv))) as Hrep by done.
  assert (∀ t, now (tenant_view t (factory sv)) + 1 < u64_max)%Z as Hroom1.
  { intros t'. specialize (Hroom t'). simpl in Hroom. lia. }
  assert (∀ t, store_inv (tenant_view t (factory sv))) as Hst by (intros; apply tenant_view_inv, Hinv).
  destruct (handle_refines req sv _ Hrep Hroom1) as (sv1 & Hh & Hinv1 & Hv1).
  cbn [serve]. rewrite Hh. destruct (serve reqs sv1) as [rs sv2] eqn:Hs. simpl.
  replace sv2 with (serve reqs sv1).2 by (by rewrite Hs). apply IH; [done|..]; intros t'; rewrite Hv1.
  - pose proof (spec_handle_now req _ t' Hst Hroom1) as Hn. cbv beta in Hn. specialize (Hroom t'). simpl in Hroom. lia.
  - by apply spec_handle_schema_ok.
Qed.
End service_spec.
