(* ===== verification/ServiceTheorems.v ===== *)
(** * What the service guarantees, and what it does not

    The refinement of [ServiceSpec] with a concrete service, schema writes, and
    the two lookups. *)
From stdpp Require Import base tactics list strings gmap sorting.
From S2P Require Import Prelude Tuples Schema Validation Parser ParserSpec Engine Check CheckSpec CheckTheorems.
From S2P Require Import Expand Storage Memory StoreCheck Cache Metrics Service ServiceSpec.

(** ** A service over the in-memory store *)

Abbreviation MemoryService :=
  (@AuthzService positive (@FactoryState positive _ _) (gmap (TenantId positive) Schema)
     (gmap (CheckCacheKey positive) bool)).

Definition new_service : MemoryService :=
  mk_AuthzService factory_new ∅ ∅ (Some metrics_default) [].

Lemma new_service_inv pest_parse engine_config : service_inv pest_parse engine_config new_service.
Proof. split; simpl; [apply factory_new_inv|done..]. Qed.

Definition acme : TenantId positive := mk_TenantId 1%positive.

(** A pest parser that knows two schema texts. *)
Definition two_texts : pest_parser := λ text,
  if bool_decide (text = "folders") then Ok (tree_schema folder_schema)
  else if bool_decide (text = "documents") then Ok (tree_schema banned_schema)
  else Err "expected definition".

Definition write_of_tuple (t : Tuple) : TupleWrite := mk_TupleWrite (object t) (relation t) (subject t).

Definition read_check (user : string) (c : Consistency) : CheckPermissionInput :=
  mk_CheckPermissionInput "document" "d" "read" "user" user c.

(** A history with a schema change, cache hits, and a write between them. *)
Definition demo_history : list (@request positive) := [
  RWriteSchema acme "documents" false;
  RWrite acme (write_of_tuple <$> banned_tuples) [];
  RCheck acme (read_check "alice" FullConsistency);
  RCheck acme (read_check "alice" FullConsistency);
  RWriteSchema acme "folders" false;
  RWrite acme [] [exact_filter (tuple_to "document" "d" "parent" (direct "folder" "b"))];
  RCheck acme (read_check "alice" FullConsistency);
  RCheck acme (read_check "alice" (AtExactSnapshot (mk_SnapshotToken 1)));
  RWriteSchema acme "folders" true;
  RCheck acme (read_check "alice" FullConsistency)].

(** C5: The service implements its specification: for every history of
    requests of any tenants, the responses of the service, with its caches,
    are those of a machine that keeps nothing but one store per tenant and
    parses the stored schema and evaluates anew for every request. *)
Theorem service_refines_stores {Uuid F S SC CC} `{EqDecision Uuid, IsolatedStores F Uuid S,
    CacheLaws SC (TenantId Uuid) Schema, CacheLaws CC (CheckCacheKey Uuid) bool}
    pest_parse engine_config schema_limits reqs (sv : @AuthzService Uuid F SC CC) :
  service_inv pest_parse engine_config sv →
  (∀ t, now (tenant_view t (factory sv)) + Z.of_nat (length reqs) < u64_max)%Z →
  (serve pest_parse engine_config schema_limits reqs sv).1 =
  (spec_serve pest_parse engine_config schema_limits reqs (λ t, tenant_view t (factory sv))).1.
Proof.
  intros Hinv Hroom.
  by destruct (serve_refines pest_parse engine_config schema_limits reqs sv
    (λ t, tenant_view t (factory sv))) as (sv' & -> & _).
Qed.

Lemma service_refines_stores_witness :
  (serve two_texts engine_config_default limits_default demo_history new_service).1 =
  (spec_serve two_texts engine_config_default limits_default demo_history
    (λ t, tenant_view t (factory new_service))).1 ∧
  (serve two_texts engine_config_default limits_default demo_history new_service).1 !! 3 =
  Some (PCheck (Ok (mk_CheckPermissionOutput true (Some (mk_SnapshotToken 1))))).
Proof.
  split; [|vm_compute; reflexivity].
  apply (service_refines_stores two_texts engine_config_default limits_default demo_history new_service).
  - apply new_service_inv.
  - intros t. reflexivity.
Defined.

(** ** Schema writes *)

(** Why a text is refused: it does not parse, its schema exceeds the limits, it
    breaks what the stored schema allows without [force], or the stored schema
    cannot be loaded for the comparison. *)
Definition schema_refused {S} `{SchemaStore S} pest_parse schema_limits (definition : string) (force : bool)
    (s : S) (e : ApiError) : Prop :=
  (∃ pe, parse_schema pest_parse definition = Err pe ∧ e = ApiParse pe) ∨
  ∃ new_schema, parse_schema pest_parse definition = Ok new_schema ∧
    ((∃ errors, validate_schema_limits new_schema schema_limits = Err errors ∧
        ¬ within_limits new_schema schema_limits ∧ e = ApiValidation errors) ∨
     within_limits new_schema schema_limits ∧
       ((∃ old_schema, stored_schema pest_parse s = Ok old_schema ∧
           detect_breaking_changes old_schema new_schema ≠ [] ∧ force = false ∧
           e = ApiBreakingChanges (detect_breaking_changes old_schema new_schema)) ∨
        stored_schema pest_parse s = Err e ∧ e ≠ SchemaNotFound)).

(** What is said of a text that is accepted. *)
Definition schema_accepted {S} `{SchemaStore S} pest_parse schema_limits (definition : string) (force : bool)
    (s : S) (overridden : bool) : Prop :=
  ∃ new_schema, parse_schema pest_parse definition = Ok new_schema ∧
    within_limits new_schema schema_limits ∧
    match stored_schema pest_parse s with
    | Ok old_schema =>
        overridden = negb (bool_decide (detect_breaking_changes old_schema new_schema = [])) ∧
        (overridden = true → force = true)
    | Err e => e = SchemaNotFound ∧ overridden = false
    end.

Lemma spec_accept_schema_spec {S} `{SchemaStore S} pest_parse schema_limits definition force (s : S) :
  match spec_accept_schema pest_parse schema_limits s definition force with
  | Ok overridden => schema_accepted pest_parse schema_limits definition force s overridden
  | Err e => schema_refused pest_parse schema_limits definition force s e
  end.
Proof.
  unfold spec_accept_schema, schema_accepted, schema_refused, stored_schema, breaking_against.
  destruct (parse_schema pest_parse definition) as [new|pe]; cbn [map_err try]; [|left; by exists pe].
  destruct (validate_schema_limits new schema_limits) as [[]|errors] eqn:Hv; cbn [map_err try].
  2: { right. exists new. split; [done|]. left. exists errors. split_and!; [done|by eapply validate_err|done]. }
  apply validate_ok in Hv.
  destruct (store_read_schema s) as [[text|]|e]; cbn [map_err try ok_or].
  - destruct (parse_schema pest_parse text) as [old|pe]; cbn [map_err try]; [|by naive_solver].
    case_bool_decide as Hb; cbn [negb andb].
    { exists new. rewrite bool_decide_eq_true_2 by done. by split_and!. }
    destruct force; cbn [negb andb]; [|naive_solver].
    exists new. rewrite bool_decide_eq_false_2 by done. by split_and!.
  - rewrite bool_decide_eq_true_2 by done. exists new. by split_and!.
  - naive_solver.
Qed.

(** C23: [write_schema] on every branch.  It refuses a text only for one of four
    reasons, which the error names: the text does not parse, its schema exceeds
    the limits, it has breaking changes against the stored schema and [force] is
    off, or the stored text itself cannot be loaded; then no store changes.
    Otherwise it stores exactly the text, changes no relationship, and reports
    whether breaking changes were overridden.  Other tenants are never
    touched. *)
Theorem write_schema_exact {Uuid F S SC CC} `{EqDecision Uuid, IsolatedStores F Uuid S,
    CacheLaws SC (TenantId Uuid) Schema, CacheLaws CC (CheckCacheKey Uuid) bool}
    pest_parse engine_config schema_limits t definition force (sv : @AuthzService Uuid F SC CC) :
  service_inv pest_parse engine_config sv →
  let '(r, sv') := write_schema pest_parse schema_limits t definition force sv in
  let s := tenant_view t (factory sv) in
  let s' := tenant_view t (factory sv') in
  (∀ t', t' ≠ t → tenant_view t' (factory sv') = tenant_view t' (factory sv)) ∧
  match r with
  | Ok out =>
      store_read_schema s' = Ok (Some definition) ∧ (∀ v, view s' v = view s v) ∧
      schema_accepted pest_parse schema_limits definition force s (breaking_changes_overridden out)
  | Err e => s' = s ∧ schema_refused pest_parse schema_limits definition force s e
  end.
Proof.
  intros Hinv. destruct (writes_schema pest_parse engine_config schema_limits t definition force sv Hinv)
    as (sv' & -> & _ & Hown & Hother). split; [done|]. rewrite Hown. unfold spec_write_schema.
  pose proof (tenant_view_inv t _ (inv_factory _ _ _ Hinv)) as Hst.
  pose proof (spec_accept_schema_spec pest_parse schema_limits definition force (tenant_view t (factory sv))) as Hacc.
  destruct (spec_accept_schema _ _ _ _ _) as [overridden|e]; [|done].
  destruct (store_write_schema_ok (tenant_view t (factory sv)) definition Hst)
    as (s' & -> & _ & _ & Hview & Hread). simpl. by split_and!.
Qed.

Lemma write_schema_exact_witness :
  let '(r, sv') := write_schema two_texts limits_default acme "folders" false new_service in
  let s := tenant_view acme (factory new_service) in
  let s' := tenant_view acme (factory sv') in
  (∀ t', t' ≠ acme → tenant_view t' (factory sv') = tenant_view t' (factory new_service)) ∧
  match r with
  | Ok out =>
      store_read_schema s' = Ok (Some "folders") ∧ (∀ v, view s' v = view s v) ∧
      schema_accepted two_texts limits_default "folders" false s (breaking_changes_overridden out)
  | Err e => s' = s ∧ schema_refused two_texts limits_default "folders" false s e
  end.
Proof.
  exact (write_schema_exact two_texts engine_config_default limits_default acme "folders" false
    new_service (new_service_inv _ _)).
Defined.

(** C24: After any history of requests the stored schema of every tenant still
    parses: loading it yields a well-formed schema within the limits, or there
    is none; a stored schema never makes a later request fail to parse it. *)
Theorem stored_schemas_load {Uuid F S SC CC} `{EqDecision Uuid, IsolatedStores F Uuid S,
    CacheLaws SC (TenantId Uuid) Schema, CacheLaws CC (CheckCacheKey Uuid) bool}
    pest_parse engine_config schema_limits reqs (sv : @AuthzService Uuid F SC CC) :
  service_inv pest_parse engine_config sv →
  (∀ t, now (tenant_view t (factory sv)) + Z.of_nat (length reqs) < u64_max)%Z →
  (∀ t, store_read_schema (tenant_view t (factory sv)) = Ok None) →
  ∀ t, let s := tenant_view t (factory (serve pest_parse engine_config schema_limits reqs sv).2) in
    stored_schema pest_parse s = Err SchemaNotFound ∨
    ∃ schema, stored_schema pest_parse s = Ok schema ∧ wf_schema schema ∧
      within_limits schema schema_limits.
Proof.
  intros Hinv Hroom Hnone t s. apply schema_ok_stored. apply serve_schema_ok; [done..|].
  intros t'. left. apply Hnone.
Qed.

Lemma stored_schemas_load_witness :
  let s := tenant_view acme
      (factory (serve two_texts engine_config_default limits_default demo_history new_service).2) in
  stored_schema two_texts s = Err SchemaNotFound ∨
  ∃ schema, stored_schema two_texts s = Ok schema ∧ wf_schema schema ∧
    within_limits schema limits_default.
Proof.
  apply (stored_schemas_load two_texts engine_config_default limits_default demo_history new_service).
  - apply new_service_inv.
  - intros t. reflexivity.
  - done.
Defined.

(** ** [lookup_resources] *)

Section lookup_resources.
Context {S : Type} `{VersionedStore S}.
Implicit Types (s : S).

Definition allows (s : S) (request_for : string → prog CheckResult) (id : string) : bool :=
  match run_on s (request_for id) with Ok res => allowed res | Err _ => false end.

(** The loop keeps the allowed ids, in order, and stops at the limit. *)
Lemma spec_lookup_loop_spec s request_for limit results ids out :
  spec_lookup_loop s request_for limit results ids = Ok out → length results ≤ limit →
  ∃ tried rest, ids = tried ++ rest ∧
    (∀ id, id ∈ tried → ∃ res, run_on s (request_for id) = Ok res) ∧
    out = results ++ List.filter (allows s request_for) tried ∧
    length out ≤ limit ∧ (rest = [] ∨ length out = limit).
Proof.
  revert results. induction ids as [|id ids IH]; intros results.
  { intros [= <-] Hle. exists [], []. simpl. rewrite app_nil_r. split_and!; [done|set_solver|done..|by left]. }
  cbn [spec_lookup_loop]. destruct (Nat.leb_spec limit (length results)) as [Hle|Hlt].
  { intros [= <-] Hle'. exists [], (id :: ids). simpl. rewrite app_nil_r.
    split_and!; [done|set_solver|done..|right; lia]. }
  intros (res & Hres & Hrest)%try_Ok Hle. apply IH in Hrest as (tried & rest & -> & Htried & -> & Hlen & Hend).
  2: { destruct (allowed res); rewrite ?length_app; simpl; lia. }
  exists (id :: tried), rest.
  assert ((if allowed res then results ++ [id] else results) ++ List.filter (allows s request_for) tried =
          results ++ List.filter (allows s request_for) (id :: tried)) as Heq.
  { simpl. unfold allows at 2. rewrite Hres. destruct (allowed res); [by rewrite <-app_assoc|done]. }
  rewrite Heq in *. split_and!; [done| |done..].
  intros id' [->|Hid']%elem_of_cons; [by exists res|by apply Htried].
Qed.

Lemma spec_resolve_lookup s rt snapshot ids :
  store_inv s → map_err ApiStorage (store_list_object_ids s rt snapshot None) = Ok ids →
  let v := default (now s) (token_value <$> snapshot) in
  (v ≤ now s)%Z ∧ ids = ids_of_type rt (view s v) ∧
  faithful (view s v) snapshot (store_tuple_reader s).
Proof.
  intros Hinv Hids%map_err_Ok. destruct snapshot as [[v]|]; simpl.
  - destruct (Z.le_gt_cases v (now s)) as [Hv|Hv].
    + rewrite store_ids_at in Hids by done. injection Hids as <-.
      split_and!; [done..|by apply store_reader_at].
    + by rewrite store_ids_ahead in Hids by done.
  - rewrite store_ids_now in Hids by done. injection Hids as <-.
    split_and!; [done..|by apply store_reader_now].
Qed.
End lookup_resources.

(** The resource is of the type, some tuple of the version is on it, and the
    subject has the permission on it. *)
Definition permitted_resource (schema : Schema) (T : list Tuple) (input : LookupResourcesInput)
    (id : string) : Prop :=
  (∃ t, t ∈ T ∧ object t = mk_ObjectRef (ri_resource_type input) id) ∧
  permitted schema T (mk_CheckRequest (ri_resource_type input) id (ri_permission input)
                        (ri_subject_type input) (ri_subject_id input) None).

(** Some tuple of the version is on the resource. *)
Definition has_tuple (T : list Tuple) (input : LookupResourcesInput) (id : string) : Prop :=
  ∃ t, t ∈ T ∧ object t = mk_ObjectRef (ri_resource_type input) id.

(** Only such ids are listed, and one that is not comes after all of them, with
    the limit reached. *)
Definition lists (limit : nat) (ids : list string) (answerable : string → Prop) : Prop :=
  (∀ id, id ∈ ids → answerable id) ∧
  ∀ id, answerable id → id ∉ ids → length ids = limit ∧ ∀ id', id' ∈ ids → string_leb id' id = true.

(** Trying a sorted list of candidates until the limit is reached. *)
Lemma filter_lists limit (tried rest : list string) (ok : string → bool) (answerable : string → Prop) :
  StronglySorted (λ i j, string_leb i j = true) (tried ++ rest) →
  rest = [] ∨ length (List.filter ok tried) = limit →
  (∀ id, answerable id → id ∈ tried ++ rest) → (∀ id, id ∈ tried → ok id = true ↔ answerable id) →
  lists limit (List.filter ok tried) answerable.
Proof.
  intros Hsorted Hend Hin Hok.
  assert (∀ id, id ∈ List.filter ok tried ↔ id ∈ tried ∧ answerable id) as Hfilter.
  { intros id. rewrite list_elem_of_In, filter_In, <-list_elem_of_In. naive_solver. }
  split; [by intros id [_ Hid]%Hfilter|]. intros id Ha Hnot. assert (id ∈ rest) as Hrest.
  { apply Hin in Ha as Hid. apply elem_of_app in Hid as [Hid|]; [|done]. destruct Hnot. by apply Hfilter. }
  destruct Hend as [->|Hend]; [set_solver|]. split; [done|]. intros id' [Hid' _]%Hfilter.
  exact (StronglySorted_app_1_elem_of (λ i j, string_leb i j = true) tried rest id' id Hsorted Hid' Hrest).
Qed.

(** C25: [lookup_resources] on any schema: the answer is increasing and without
    repetition, within the limit (1000 by default), and contains only resources
    that have a tuple and whose check at the answer's snapshot is allowed; such
    a resource is missing only when the limit is reached, and then it comes
    after every resource of the answer.  On a schema without exclusions the
    same holds of the resources the subject has the permission on. *)
Theorem lookup_resources_exact {Uuid F S SC CC} `{EqDecision Uuid, IsolatedStores F Uuid S,
    CacheLaws SC (TenantId Uuid) Schema, CacheLaws CC (CheckCacheKey Uuid) bool}
    pest_parse engine_config t input (sv sv' : @AuthzService Uuid F SC CC) schema out :
  service_inv pest_parse engine_config sv →
  let s := tenant_view t (factory sv) in
  stored_schema pest_parse s = Ok schema →
  lookup_resources pest_parse engine_config t input sv = (Ok out, sv') →
  let T := view s (default (now s) (token_value <$> ro_snapshot out)) in
  let limit := default 1000 (ri_limit input) in
  StronglySorted (λ i j, string_leb i j = true) (ro_resource_ids out) ∧
  NoDup (ro_resource_ids out) ∧ length (ro_resource_ids out) ≤ limit ∧
  lists limit (ro_resource_ids out) (λ id, has_tuple T input id ∧
    run_on s (check schema engine_config
      (mk_CheckRequest (ri_resource_type input) id (ri_permission input) (ri_subject_type input)
         (ri_subject_id input) (ro_snapshot out))) = Ok (mk_CheckResult true)) ∧
  (schema_exclusion_free schema = true →
     lists limit (ro_resource_ids out) (permitted_resource schema T input)).
Proof.
  intros Hinv s Hschema Hrun. pose proof (tenant_view_inv t _ (inv_factory _ _ _ Hinv)) as Hst.
  destruct (answers_lookup_resources pest_parse engine_config t input sv Hinv) as (sv1 & Hans & _ & _).
  rewrite Hrun in Hans. injection Hans as Hspec ->. symmetry in Hspec.
  unfold spec_lookup_resources in Hspec. fold s in Hspec, Hst.
  apply try_Ok in Hspec as (snapshot & _ & Hspec). apply try_Ok in Hspec as (ids & Hids & Hspec).
  rewrite Hschema in Hspec. simpl in Hspec. apply try_Ok in Hspec as (results & Hloop & [= <-]).
  cbn [ro_resource_ids ro_snapshot].
  apply (spec_resolve_lookup s) in Hids as (Hv & -> & Hrd); [|done].
  set (T := view s (default (now s) (token_value <$> snapshot))) in *.
  apply spec_lookup_loop_spec in Hloop as (tried & rest & Heq & Htried & Hout & Hlen & Hend); [|simpl; lia].
  simpl in Hout. subst results.
  destruct (ids_of_type_spec (ri_resource_type input) T) as (Hsorted & Hnd & Hin).
  rewrite Heq in Hsorted, Hnd, Hin.
  assert (StronglySorted (λ i j, string_leb i j = true) tried) as Hts by (by eapply StronglySorted_app_1_l).
  assert (∀ id, id ∈ tried → has_tuple T input id) as Hobj by (intros id Hid; apply Hin; set_solver).
  split_and!.
  - by apply StronglySorted_filter.
  - apply NoDup_ListNoDup, List.NoDup_filter, NoDup_ListNoDup. by apply NoDup_app in Hnd as [? _].
  - done.
  - apply (filter_lists _ tried rest); [done..|by intros id [Hid%Hin _]|]. intros id Hid. unfold allows.
    destruct (Htried id Hid) as [[b] Hres]. unfold resource_request in *. rewrite Hres. simpl. specialize (Hobj id Hid). naive_solver.
  - intros Hfree. apply (filter_lists _ tried rest); [done..|by intros id [Hid%Hin _]|]. intros id Hid. unfold allows, permitted_resource.
    destruct (Htried id Hid) as [res Hres]. rewrite Hres.
    apply map_err_Ok in Hres. apply run_check_Ok in Hres as (td & pd & Htd & Hpd & Hev).
    pose proof (check_decides schema engine_config (store_tuple_reader s) T
      (mk_CheckRequest (ri_resource_type input) id (ri_permission input) (ri_subject_type input)
         (ri_subject_id input) snapshot) td pd (allowed res) Hfree Hrd Htd Hpd Hev) as Hdec.
    specialize (Hobj id Hid). unfold has_tuple in Hobj. rewrite Hdec. unfold permitted. naive_solver.
Qed.

(** A service whose tenant has the folder schema and two folders. *)
Definition folder_service : MemoryService :=
  (serve two_texts engine_config_default limits_default
     [RWriteSchema acme "folders" false; RWrite acme (write_of_tuple <$> cyclic_tuples) []] new_service).2.

Lemma folder_service_inv : service_inv two_texts engine_config_default folder_service.
Proof.
  destruct (serve_refines two_texts engine_config_default limits_default
    [RWriteSchema acme "folders" false; RWrite acme (write_of_tuple <$> cyclic_tuples) []] new_service
    (λ t, tenant_view t (factory new_service))) as (sv' & Hs & [Hinv _]).
  - split; [apply new_service_inv|done].
  - done.
  - unfold folder_service. by rewrite Hs.
Qed.

Definition folders_input (limit : option nat) : LookupResourcesInput :=
  mk_LookupResourcesInput "folder" "view" "user" "alice" FullConsistency limit.

Lemma lookup_resources_exact_witness :
  let sv' := (lookup_resources two_texts engine_config_default acme (folders_input (Some 1)) folder_service).2 in
  let out := mk_LookupResourcesOutput ["a"] (Some (mk_SnapshotToken 1)) in
  lookup_resources two_texts engine_config_default acme (folders_input (Some 1)) folder_service =
    (Ok out, sv') ∧
  permitted_resource folder_schema (view (tenant_view acme (factory folder_service)) 1)
    (folders_input (Some 1)) "a".
Proof.
  intros sv' out.
  assert (lookup_resources two_texts engine_config_default acme (folders_input (Some 1)) folder_service =
    (Ok out, sv')) as Hrun by (apply injective_projections; [vm_compute; reflexivity|reflexivity]).
  split; [exact Hrun|].
  destruct (lookup_resources_exact two_texts engine_config_default acme (folders_input (Some 1))
    folder_service sv' folder_schema out folder_service_inv) as (_ & _ & _ & _ & Hp).
  - vm_compute. reflexivity.
  - exact Hrun.
  - apply (Hp eq_refl). left.
Defined.

(** ** [lookup_subjects] *)

Lemma forallb_In {A} (p : A → bool) l x : forallb p l = true → x ∈ l → p x = true.
Proof. rewrite forallb_forall. intros Hp Hx%list_elem_of_In. auto. Qed.

Lemma elem_of_collect_children st x cs :
  x ∈ concat (map (λ child, collect_subjects child st) cs) ↔ ∃ c, c ∈ cs ∧ x ∈ collect_subjects c st.
Proof.
  rewrite list_elem_of_In, in_concat. setoid_rewrite in_map_iff. setoid_rewrite <-list_elem_of_In.
  naive_solver.
Qed.

(** Everything a tree grants is collected; without intersections and
    exclusions nothing else is. *)
Lemma collect_complete st si tree :
  tree_operators true tree = true → eval_tree (direct st si) tree = true →
  direct st si ∈ collect_subjects tree st.
Proof.
  assert (∀ cs, Forall (λ t, tree_operators true t = true → eval_tree (direct st si) t = true →
      direct st si ∈ collect_subjects t st) cs →
    forallb (tree_operators true) cs = true → existsb (eval_tree (direct st si)) cs = true →
    direct st si ∈ concat (map (λ child, collect_subjects child st) cs)) as Hany.
  { intros cs IH Hop (c & Hc & Hev)%existsb_exists. apply list_elem_of_In in Hc.
    rewrite Forall_forall in IH. apply elem_of_collect_children. exists c.
    split; [done|]. apply IH; [done| |done]. by eapply forallb_In. }
  induction tree as [s|rel cs IH|cs IH|cs IH|b e IHb _|ts cp cs IH] using tree_ind;
    cbn [tree_operators eval_tree collect_subjects]; [|by apply Hany|by apply Hany| | |by apply Hany].
  - intros _ ->%bool_decide_eq_true. simpl. rewrite bool_decide_true by done. left.
  - rewrite !andb_true_iff. intros [[_ Hne] Hop] Hev. destruct cs as [|c cs]; [done|].
    apply elem_of_collect_children. exists c. split; [left|].
    inversion IH as [|? ? IHc _]; subst. apply IHc; eapply forallb_In; try exact Hop; try exact Hev; left.
  - rewrite !andb_true_iff. intros [[_ Hb] _] [Hev _]. by apply IHb.
Qed.

Lemma collect_sound st si tree :
  tree_operators false tree = true → direct st si ∈ collect_subjects tree st →
  eval_tree (direct st si) tree = true.
Proof.
  assert (∀ cs, Forall (λ t, tree_operators false t = true → direct st si ∈ collect_subjects t st →
      eval_tree (direct st si) t = true) cs →
    forallb (tree_operators false) cs = true →
    direct st si ∈ concat (map (λ child, collect_subjects child st) cs) →
    existsb (eval_tree (direct st si)) cs = true) as Hany.
  { intros cs IH Hop (c & Hc & Hin)%elem_of_collect_children. apply existsb_exists. exists c.
    split; [by apply list_elem_of_In|]. rewrite Forall_forall in IH.
    apply IH; [done| |done]. by eapply forallb_In. }
  induction tree as [s|rel cs IH|cs IH|cs IH|b e IHb _|ts cp cs IH] using tree_ind;
    cbn [tree_operators eval_tree collect_subjects]; [|by apply Hany|by apply Hany|done|done|by apply Hany].
  intros _. case_bool_decide; [|set_solver]. intros ->%list_elem_of_singleton.
  by apply bool_decide_eq_true.
Qed.

(** A schema the parser returned has no intersection without operands. *)
Lemma wf_schema_operators schema : wf_schema schema → schema_operators true schema.
Proof.
  intros [_ Hwf] ot td name pd [Htd _]%get_type_Some [Hpd _]%get_permission_Some.
  rewrite Forall_forall in Hwf. destruct (Hwf td Htd) as [_ _ Hrules].
  rewrite Forall_forall in Hrules. specialize (Hrules pd Hpd).
  assert (∀ r, is_term r → rule_operators true r = true) as Hterm by (by intros []).
  assert (∀ cs, Forall is_term cs → forallb (rule_operators true) cs = true) as Hterms.
  { intros cs Hcs. apply forallb_forall. intros r Hr%list_elem_of_In.
    rewrite Forall_forall in Hcs. auto. }
  destruct (perm_rule pd) as [n|cs|cs|b e|ts cp]; simpl in *; [done| | | |done].
  - by apply Hterms, Hrules.
  - destruct Hrules as [Hlen Hcs]. destruct cs; [simpl in Hlen; lia|]. by apply Hterms.
  - destruct Hrules. by rewrite !Hterm.
Qed.

Lemma subject_cmp_total a b : subject_cmp_leb a b = true ∨ subject_cmp_leb b a = true.
Proof. unfold subject_cmp_leb. repeat case_bool_decide; simplify_eq; try congruence; apply string_leb_total. Qed.

Lemma subject_cmp_trans a b c :
  subject_cmp_leb a b = true → subject_cmp_leb b c = true → subject_cmp_leb a c = true.
Proof.
  unfold subject_cmp_leb. repeat case_bool_decide; try congruence; intros Hab Hbc;
    try by eapply string_leb_trans.
  all: try by (replace (subject_type a) with (subject_type b) by congruence).
  all: try by (replace (subject_type c) with (subject_type b) by congruence).
  exfalso. apply H. apply (anti_symm (λ s t, string_leb s t = true)); [done|congruence].
Qed.

(** Only subjects of the type are collected. *)
Lemma collect_type st tree x : x ∈ collect_subjects tree st → subject_type x = st.
Proof.
  assert (∀ cs, Forall (λ t, x ∈ collect_subjects t st → subject_type x = st) cs →
    x ∈ concat (map (λ child, collect_subjects child st) cs) → subject_type x = st) as Hcs.
  { intros cs IH (c & Hc & Hx)%elem_of_collect_children. rewrite Forall_forall in IH. eauto. }
  induction tree as [s|rel cs IH|cs IH|cs IH|b e IHb IHe|ts cp cs IH] using tree_ind; cbn [collect_subjects];
    [|by apply Hcs..| |by apply Hcs]; [|done].
  case_bool_decide as Hs; [|set_solver]. intros ->%list_elem_of_singleton. done.
Qed.

(** Of one type, subjects sorted by type and id are sorted by id. *)
Lemma sorted_ids st l :
  (∀ x, x ∈ l → subject_type x = st) → StronglySorted (λ x y, subject_cmp_leb x y = true) l →
  StronglySorted (λ x y, string_leb (subject_id x) (subject_id y) = true) l.
Proof.
  intros Hst. induction 1 as [|x l Hl IH Hx]; constructor; [apply IH; set_solver|].
  rewrite !Forall_forall in *. intros y Hy. specialize (Hx y Hy). unfold subject_cmp_leb in Hx.
  by rewrite bool_decide_eq_true_2 in Hx by (rewrite !Hst by set_solver; done).
Qed.

Section lookup_subjects.
Context {S : Type} `{VersionedStore S}.
Context (pest_parse : pest_parser) (engine_config : EngineConfig).

(** What [check] says about a subject, at the snapshot of the answer. *)
Definition subject_check (s : S) (input : LookupSubjectsInput) (snapshot : option SnapshotToken)
    (sid : string) : result ApiError CheckResult :=
  spec_check_at pest_parse engine_config s
    (mk_CheckPermissionInput (si_object_type input) (si_object_id input) (si_permission input)
       (si_subject_type input) sid MinimizeLatency) snapshot.

Definition reached (s : S) (snapshot : option SnapshotToken) : Prop :=
  match snapshot with Some token => (token_value token ≤ now s)%Z | None => True end.

Lemma reached_faithful s snapshot :
  store_inv s → reached s snapshot → ∃ T, faithful T snapshot (store_tuple_reader s).
Proof.
  intros Hinv. destruct snapshot as [[v]|]; intros Hv; eexists.
  - by apply store_reader_at.
  - by apply store_reader_now.
Qed.

Lemma spec_lookup_subjects_tree s input schema out :
  store_inv s → stored_schema pest_parse s = Ok schema → reached s (so_snapshot out) →
  spec_lookup_subjects pest_parse engine_config s input = Ok out →
  ∃ tree,
    (∀ x, x ∈ so_subjects out ↔ x ∈ collect_subjects tree (si_subject_type input)) ∧
    StronglySorted (λ x y, subject_cmp_leb x y = true) (so_subjects out) ∧
    (∀ full, schema_operators full schema → tree_operators full tree = true) ∧
    (∀ sid, subject_check s input (so_snapshot out) sid =
       Ok (mk_CheckResult (eval_tree (direct (si_subject_type input) sid) tree))).
Proof.
  intros Hinv Hschema Hreached Hspec. unfold spec_lookup_subjects, spec_expand in Hspec.
  rewrite Hschema in Hspec. apply try_Ok in Hspec as (eout & Hspec & [= <-]).
  apply try_Ok in Hspec as (snapshot & _ & Hspec). simpl in Hspec.
  apply try_Ok in Hspec as (tree & Htree%map_err_Ok & [= <-]). exists tree. simpl in *. split_and!.
  - intros x. by rewrite elem_of_dedup, elem_of_sort_by.
  - apply dedup_sorted, sort_by_sorted; [apply subject_cmp_total|apply subject_cmp_trans].
  - intros full Hfull. pose proof Htree as Hexp. unfold expand in Hexp. rewrite run_bind in Hexp.
    apply try_Ok in Hexp as (td & Htd%ok_or_Ok & Hexp). rewrite run_bind in Hexp.
    apply try_Ok in Hexp as (pd & Hpd%ok_or_Ok & Hexp).
    eapply expand_rule_operators; [exact Hfull|by eapply Hfull|exact Hexp].
  - intros sid. destruct (reached_faithful s snapshot Hinv Hreached) as [T Hrd].
    unfold subject_check, spec_check_at. rewrite Hschema. simpl. unfold run_on.
    pose proof (expand_check schema engine_config (store_tuple_reader s) T
      (mk_ExpandRequest (si_object_type input) (si_object_id input) (si_permission input) snapshot)
      tree (si_subject_type input) sid Hrd Htree) as Hcheck. simpl in Hcheck. by rewrite Hcheck.
Qed.
End lookup_subjects.

(** C26: [lookup_subjects] misses nobody: every direct subject of the requested
    type that [check] allows at the snapshot of the answer is in the answer.
    Every subject of the answer is of the requested type, and they are sorted
    by their ids.  When the schema has neither intersections nor exclusions, a
    direct subject is in the answer exactly when [check] allows it. *)
Theorem lookup_subjects_complete {Uuid F S SC CC} `{EqDecision Uuid, IsolatedStores F Uuid S,
    CacheLaws SC (TenantId Uuid) Schema, CacheLaws CC (CheckCacheKey Uuid) bool}
    pest_parse engine_config t input (sv sv' : @AuthzService Uuid F SC CC) schema out :
  service_inv pest_parse engine_config sv →
  let s := tenant_view t (factory sv) in
  stored_schema pest_parse s = Ok schema → wf_schema schema →
  lookup_subjects pest_parse engine_config t input sv = (Ok out, sv') →
  reached s (so_snapshot out) →
  (∀ x, x ∈ so_subjects out → subject_type x = si_subject_type input) ∧
  StronglySorted (λ x y, string_leb (subject_id x) (subject_id y) = true) (so_subjects out) ∧
  ∀ sid, ∃ allow, subject_check pest_parse engine_config s input (so_snapshot out) sid =
                    Ok (mk_CheckResult allow) ∧
    (allow = true → direct (si_subject_type input) sid ∈ so_subjects out) ∧
    (schema_operators false schema →
       direct (si_subject_type input) sid ∈ so_subjects out → allow = true).
Proof.
  intros Hinv s Hschema Hwf Hrun Hreached.
  pose proof (tenant_view_inv t _ (inv_factory _ _ _ Hinv)) as Hst.
  destruct (answers_lookup_subjects pest_parse engine_config t input sv Hinv) as (sv1 & Hans & _ & _).
  rewrite Hrun in Hans. injection Hans as Hspec _. symmetry in Hspec. fold s in Hspec, Hst.
  destruct (spec_lookup_subjects_tree pest_parse engine_config s input schema out Hst Hschema Hreached Hspec)
    as (tree & Hin & Hsorted & Hops & Hcheck).
  assert (∀ x, x ∈ so_subjects out → subject_type x = si_subject_type input) as Htype
    by (intros x Hx%Hin; by eapply collect_type).
  split_and!; [done|by eapply sorted_ids|]. intros sid.
  eexists. split; [apply Hcheck|]. rewrite Hin. split.
  - apply collect_complete, Hops. by apply wf_schema_operators.
  - intros Hunions. by apply collect_sound, Hops.
Qed.

Definition viewers_input : LookupSubjectsInput :=
  mk_LookupSubjectsInput "folder" "a" "view" "user" FullConsistency.

Lemma lookup_subjects_complete_witness :
  let sv' := (lookup_subjects two_texts engine_config_default acme viewers_input folder_service).2 in
  let out := mk_LookupSubjectsOutput [direct "user" "alice"] (Some (mk_SnapshotToken 1)) in
  lookup_subjects two_texts engine_config_default acme viewers_input folder_service = (Ok out, sv') ∧
  ∃ allow, subject_check two_texts engine_config_default (tenant_view acme (factory folder_service))
             viewers_input (Some (mk_SnapshotToken 1)) "alice" = Ok (mk_CheckResult allow) ∧
    (allow = true → direct "user" "alice" ∈ [direct "user" "alice"]) ∧
    (schema_operators false folder_schema → direct "user" "alice" ∈ [direct "user" "alice"] → allow = true).
Proof.
  intros sv' out.
  assert (lookup_subjects two_texts engine_config_default acme viewers_input folder_service =
    (Ok out, sv')) as Hrun by (apply injective_projections; [vm_compute; reflexivity|reflexivity]).
  split; [exact Hrun|].
  refine (proj2 (proj2 (lookup_subjects_complete two_texts engine_config_default acme viewers_input
    folder_service sv' folder_schema out folder_service_inv _ _ Hrun _)) "alice").
  - vm_compute. reflexivity.
  - apply (parse_schema_wf' two_texts "folders"). vm_compute. reflexivity.
  - vm_compute. discriminate.
Defined.

(** A service whose tenant has banned bob from a document. *)
Definition banned_service : MemoryService :=
  (serve two_texts engine_config_default limits_default
     [RWriteSchema acme "documents" false; RWrite acme (write_of_tuple <$> banned_tuples) []] new_service).2.

(** [lookup_subjects] names subjects whom an exclusion denies: bob is
    banned from the document, [check] refuses him, and yet he is in the answer,
    because only the base of an exclusion is collected and nothing is removed
    from it. *)
Theorem lookup_subjects_names_excluded :
  (check_permission two_texts engine_config_default acme (read_check "bob" FullConsistency)
     banned_service).1 =
    Ok (mk_CheckPermissionOutput false (Some (mk_SnapshotToken 1))) ∧
  (lookup_subjects two_texts engine_config_default acme
     (mk_LookupSubjectsInput "document" "d" "read" "user" FullConsistency) banned_service).1 =
    Ok (mk_LookupSubjectsOutput [direct "user" "alice"; direct "user" "bob"] (Some (mk_SnapshotToken 1))).
Proof. split; vm_compute; reflexivity. Qed.

(** [lookup_subjects] can repeat a subject: the sort compares type and
    identifier only, so two equal usersets need not be adjacent and [dedup]
    keeps both. *)
Theorem lookup_subjects_repeats :
  let tree := TreeThis "viewer" [Leaf (userset "group" "g" "member"); Leaf (userset "group" "g" "admin");
                                 Leaf (userset "group" "g" "member")] in
  dedup (sort_by subject_cmp_leb (collect_subjects tree "group")) =
  [userset "group" "g" "member"; userset "group" "g" "admin"; userset "group" "g" "member"].
Proof. vm_compute. reflexivity. Qed.

(** The schema cache can go stale: if a request has read the stored schema
    and another request replaces it before the first one inserts what it read,
    the cache answers with the old schema from then on; the service allows what
    a fresh evaluation refuses. *)
Theorem schema_cache_race :
  (* a request that missed the cache has read and parsed the stored text *)
  let read_before := stored_schema two_texts (tenant_view acme (factory banned_service)) in
  (* another one writes the schema, which invalidates the cache *)
  let sv1 := (write_schema two_texts limits_default acme "folders" true banned_service).2 in
  (* the first one inserts *)
  let sv2 := (update_schema_cache (cache_insert acme banned_schema) sv1).2 in
  read_before = Ok banned_schema ∧
  (check_permission two_texts engine_config_default acme (read_check "alice" FullConsistency) sv2).1 =
    Ok (mk_CheckPermissionOutput true (Some (mk_SnapshotToken 1))) ∧
  spec_check two_texts engine_config_default (tenant_view acme (factory sv2))
    (read_check "alice" FullConsistency) = Err (ApiCheck (TypeNotFound "document")).
Proof. split_and!; vm_compute; reflexivity. Qed.
