(* ===== verification/Concurrent.v ===== *)
(** * Requests that run at the same time

    The operations of [service.rs] at the granularity of their awaits: a task
    is a sequence of atoms, one call of the store or of a cache each, and other
    requests' atoms run between them.  A read of the engines is an atom of its
    own.  Run alone a task answers as the operation of [Service] does
    ([alone_answers] in [ConcurrentAlone]). *)
From stdpp Require Import base tactics list strings gmap.
From S2P Require Import Prelude Tuples Schema Validation Parser Engine Check Expand Storage Cache.
From S2P Require Import Metrics Service ServiceSpec.

Section tasks.
Context {Uuid F S SC CC : Type}.
Context `{StoreFactory F Uuid S, RelationshipStore S, SchemaStore S}.
Context `{Cache SC (TenantId Uuid) Schema, Cache CC (CheckCacheKey Uuid) bool}.
Context (pest_parse : pest_parser) (engine_config : EngineConfig) (schema_limits : SchemaLimits).

Abbreviation service := (@AuthzService Uuid F SC CC).
Abbreviation svc := (@svc Uuid F SC CC).

Inductive task (A : Type) : Type :=
| TDone (r : result ApiError A)
| TAtom {R} (m : svc R) (k : R → task A).
Arguments TDone {A} r.
Arguments TAtom {A R} m k.

Fixpoint task_bind {A B} (τ : task A) (f : A → task B) : task B :=
  match τ with
  | TDone (Ok a) => f a
  | TDone (Err e) => TDone (Err e)
  | TAtom m k => TAtom m (λ r, task_bind (k r) f)
  end.

Notation "'let%' x := e 'in' k" := (task_bind e (λ x, k))
  (at level 10, x name, e at level 200, k at level 200).

Definition task_ret {A} (a : A) : task A := TDone (Ok a).
Definition atom {A} (m : svc A) : task A := TAtom m task_ret.

(** The next state of a task after its atom answered. *)
Definition after_atom {R A} (r : result ApiError R) (k : R → task A) : task A :=
  match r with Ok a => k a | Err e => TDone (Err e) end.

(** With nobody else running. *)
Fixpoint alone {A} (τ : task A) (sv : service) : result ApiError A * service :=
  match τ with
  | TDone r => (r, sv)
  | TAtom m k => match m sv with (Ok a, sv') => alone (k a) sv' | (Err e, sv') => (Err e, sv') end
  end.

(** ** The operations *)

Definition resolve_snapshot_task (tenant_id : TenantId Uuid) (consistency : Consistency)
    : task (option SnapshotToken) :=
  match consistency with
  | FullConsistency =>
      let% token := atom (read_store ApiStorage tenant_id store_snapshot) in task_ret (Some token)
  | MinimizeLatency => task_ret None
  | AtLeastAsFresh token | AtExactSnapshot token => task_ret (Some token)
  end.

Definition load_schema_task (tenant_id : TenantId Uuid) : task Schema :=
  let% cached := atom (get_cached_schema tenant_id) in
  match cached with
  | Some schema => let% _ := atom (with_metrics record_schema_cache_hit) in task_ret schema
  | None =>
      let% _ := atom (with_metrics record_schema_cache_miss) in
      let% text := atom (read_store ApiStorage tenant_id store_read_schema) in
      let% schema_text := TDone (ok_or text SchemaNotFound) in
      let% schema := TDone (map_err ApiParse (parse_schema pest_parse schema_text)) in
      let% _ := atom (update_schema_cache (cache_insert tenant_id schema)) in
      task_ret schema
  end.

(** Each read of the engine is a call on the store; the engine goes on with
    what it answered, an error included. *)
Fixpoint engine_task {A} (tenant_id : TenantId Uuid) (p : prog A) : task A :=
  match p with
  | Done r => TDone (map_err ApiCheck r)
  | Read filter snapshot k =>
      TAtom (read_store (E := ApiError) id tenant_id (λ s, Ok (store_tuple_reader s filter snapshot)))
        (λ r, engine_task tenant_id (k r))
  end.

Definition check_with_engine_task (tenant_id : TenantId Uuid) (input : CheckPermissionInput)
    (snapshot : option SnapshotToken) : task CheckResult :=
  let% schema := load_schema_task tenant_id in
  engine_task tenant_id
    (check schema engine_config
       (mk_CheckRequest (ci_object_type input) (ci_object_id input) (ci_permission input)
          (ci_subject_type input) (ci_subject_id input) snapshot)).

Definition check_permission_task (tenant_id : TenantId Uuid) (input : CheckPermissionInput)
    : task CheckPermissionOutput :=
  let% snapshot := resolve_snapshot_task tenant_id (ci_consistency input) in
  match snapshot with
  | Some snap =>
      let key := cache_key tenant_id input snap in
      let% hit := atom (get_cached_check key) in
      match hit with
      | Some cached_allowed =>
          let% _ := atom (with_metrics record_check_cache_hit) in
          task_ret (mk_CheckPermissionOutput cached_allowed snapshot)
      | None =>
          let% _ := atom (with_metrics record_check_cache_miss) in
          let% res := check_with_engine_task tenant_id input snapshot in
          let% _ := atom (update_check_cache (cache_insert key (allowed res))) in
          task_ret (mk_CheckPermissionOutput (allowed res) snapshot)
      end
  | None =>
      let% res := check_with_engine_task tenant_id input snapshot in
      task_ret (mk_CheckPermissionOutput (allowed res) snapshot)
  end.

Definition expand_task (tenant_id : TenantId Uuid) (input : ExpandPermissionInput)
    : task ExpandPermissionOutput :=
  let% snapshot := resolve_snapshot_task tenant_id (ei_consistency input) in
  let% schema := load_schema_task tenant_id in
  let% tree := engine_task tenant_id
    (expand schema engine_config
       (mk_ExpandRequest (ei_object_type input) (ei_object_id input) (ei_permission input) snapshot)) in
  task_ret (mk_ExpandPermissionOutput tree snapshot).

Definition write_relationships_task (tenant_id : TenantId Uuid) (writes : list TupleWrite)
    (deletes : list TupleFilter) : task SnapshotToken :=
  let% token := atom (on_store ApiStorage tenant_id (store_write writes deletes)) in
  let% _ := atom (update_check_cache cache_invalidate_all) in
  let% _ := atom (audit (audit_relationship_write tenant_id (length writes) (length deletes) token)) in
  task_ret token.

Definition read_relationships_task (tenant_id : TenantId Uuid) (filter : TupleFilter)
    (consistency : Consistency) (limit : option nat) : task ReadRelationshipsOutput :=
  let% snapshot := resolve_snapshot_task tenant_id consistency in
  let% tuples := atom (read_store ApiStorage tenant_id (λ s, store_read s filter snapshot limit)) in
  task_ret (mk_ReadRelationshipsOutput tuples snapshot).

Definition write_schema_task (tenant_id : TenantId Uuid) (definition : string) (force : bool)
    : task WriteSchemaOutput :=
  let% new_schema := TDone (map_err ApiParse (parse_schema pest_parse definition)) in
  let% _ := TDone (map_err ApiValidation (validate_schema_limits new_schema schema_limits)) in
  let% existing_text := atom (read_store ApiStorage tenant_id store_read_schema) in
  let% breaking := TDone (breaking_against pest_parse existing_text new_schema) in
  let overridden := negb (bool_decide (breaking = [])) in
  if overridden && negb force then TDone (Err (ApiBreakingChanges breaking))
  else
    let% _ := atom (on_store ApiStorage tenant_id (store_write_schema definition)) in
    let% _ := atom (update_schema_cache (cache_invalidate tenant_id)) in
    let% _ := atom (update_check_cache cache_invalidate_all) in
    let% _ := atom (audit (audit_schema_write tenant_id force overridden None)) in
    task_ret (mk_WriteSchemaOutput overridden).

Definition read_schema_task (tenant_id : TenantId Uuid) : task (option string) :=
  atom (read_store ApiStorage tenant_id store_read_schema).

Definition lookup_subjects_task (tenant_id : TenantId Uuid) (input : LookupSubjectsInput)
    : task LookupSubjectsOutput :=
  let% out := expand_task tenant_id
    (mk_ExpandPermissionInput (si_object_type input) (si_object_id input) (si_permission input)
       (si_consistency input)) in
  let subjects := dedup (sort_by subject_cmp_leb (collect_subjects (eo_tree out) (si_subject_type input))) in
  task_ret (mk_LookupSubjectsOutput subjects (eo_snapshot out)).

Fixpoint lookup_loop_task (tenant_id : TenantId Uuid) (request_for : string → prog CheckResult)
    (limit : nat) (results : list string) (object_ids : list string) : task (list string) :=
  match object_ids with
  | [] => task_ret results
  | object_id :: object_ids' =>
      if limit <=? length results then task_ret results
      else
        let% check_result := engine_task tenant_id (request_for object_id) in
        lookup_loop_task tenant_id request_for limit
          (if allowed check_result then results ++ [object_id] else results) object_ids'
  end.

Definition lookup_resources_task (tenant_id : TenantId Uuid) (input : LookupResourcesInput)
    : task LookupResourcesOutput :=
  let% snapshot := resolve_snapshot_task tenant_id (ri_consistency input) in
  let% object_ids := atom (read_store ApiStorage tenant_id
    (λ s, store_list_object_ids s (ri_resource_type input) snapshot None)) in
  let% schema := load_schema_task tenant_id in
  let limit := default 1000 (ri_limit input) in
  let request_for object_id :=
    check schema engine_config
      (mk_CheckRequest (ri_resource_type input) object_id (ri_permission input)
         (ri_subject_type input) (ri_subject_id input) snapshot) in
  let% results := lookup_loop_task tenant_id request_for limit [] object_ids in
  task_ret (mk_LookupResourcesOutput results snapshot).

(** ** Requests in flight *)

Record Thread := mk_Thread {
  output : Type; body : task output; render : result ApiError output → @response }.
Arguments mk_Thread {output} body render.

Definition start (req : @request Uuid) : Thread :=
  match req with
  | RCheck t input => mk_Thread (check_permission_task t input) PCheck
  | RExpand t input => mk_Thread (expand_task t input) PExpand
  | RLookupSubjects t input => mk_Thread (lookup_subjects_task t input) PLookupSubjects
  | RLookupResources t input => mk_Thread (lookup_resources_task t input) PLookupResources
  | RRead t filter c limit => mk_Thread (read_relationships_task t filter c limit) PRead
  | RReadSchema t => mk_Thread (read_schema_task t) PReadSchema
  | RWrite t ws ds => mk_Thread (write_relationships_task t ws ds) PWrite
  | RWriteSchema t definition force => mk_Thread (write_schema_task t definition force) PWriteSchema
  end.

(** What a request that has finished was answered. *)
Definition answered (th : Thread) : option response :=
  match body th with TDone r => Some (render th r) | TAtom _ _ => None end.

(** One atom of one request. *)
Inductive step : service * list Thread → service * list Thread → Prop :=
| step_atom sv before after A R (m : svc R) (k : R → task A) rend r sv' :
    m sv = (r, sv') →
    step (sv, before ++ mk_Thread (TAtom m k) rend :: after)
         (sv', before ++ mk_Thread (after_atom r k) rend :: after).

(** The same, as a function of the request that is next. *)
Definition advance (th : Thread) (sv : service) : Thread * service :=
  match th with
  | @mk_Thread A body render =>
      match body with
      | TDone r => (mk_Thread (TDone r) render, sv)
      | TAtom m k => let '(r, sv') := m sv in (mk_Thread (after_atom r k) render, sv')
      end
  end.

Fixpoint run_threads (schedule : list nat) (threads : list Thread) (sv : service)
    : service * list Thread :=
  match schedule with
  | [] => (sv, threads)
  | i :: schedule' =>
      match threads !! i with
      | Some th =>
          let '(th', sv') := advance th sv in
          run_threads schedule' (<[i := th']> threads) sv'
      | None => run_threads schedule' threads sv
      end
  end.
End tasks.
Arguments TDone {Uuid F SC CC A} r.
Arguments TAtom {Uuid F SC CC A R} m k.
Arguments mk_Thread {Uuid F SC CC output} body render.
Arguments output {Uuid F SC CC} _.
Arguments body {Uuid F SC CC} _.
Arguments render {Uuid F SC CC} _ _.
