(* ===== verification/ConcurrentAlone.v ===== *)
(** * A request without interruption

    Run alone, the tasks of [Concurrent] answer as the operations of [Service]
    do, and leave the same stores: both refine the service without caches
    ([spec_handle]). *)
From stdpp Require Import base tactics list strings gmap relations.
From S2P Require Import Prelude Tuples Schema Validation Parser Engine Check Expand Storage Memory Cache.
From S2P Require Import Metrics Service ServiceSpec Concurrent.

Section alone.
Context {Uuid F S SC CC : Type} `{EqDecision Uuid}.
Context `{IsolatedStores F Uuid S}.
Context `{CacheLaws SC (TenantId Uuid) Schema, CacheLaws CC (CheckCacheKey Uuid) bool}.
Context (pest_parse : pest_parser) (engine_config : EngineConfig) (schema_limits : SchemaLimits).

Abbreviation service := (@AuthzService Uuid F SC CC).
Abbreviation task := (@task Uuid F SC CC).
Abbreviation service_inv := (service_inv pest_parse engine_config).
Abbreviation answers := (answers pest_parse engine_config).
Abbreviation spec_check_at := (spec_check_at pest_parse engine_config).
Implicit Types (sv : service) (t : TenantId Uuid).

Lemma alone_bind {A B} (τ : task A) (f : A → task B) sv :
  alone (task_bind τ f) sv = svc_bind (alone τ) (λ a, alone (f a)) sv.
Proof.
  revert sv. induction τ as [[a|e]|R m k IH]; intros sv; [done..|]. unfold svc_bind. simpl.
  destruct (m sv) as [[a|e] sv']; [apply IH|done].
Qed.

Lemma alone_atom {A} (m : svc A) sv : alone (atom m) sv = m sv.
Proof. unfold atom. simpl. by destruct (m sv) as [[a|e] sv']. Qed.

Lemma answers_ext {A} (m m' : svc A) sv r : m sv = m' sv → answers m' sv r → answers m sv r.
Proof. unfold ServiceSpec.answers. by intros ->. Qed.

Lemma answers_atom {A} (m : svc A) sv r : answers m sv r → answers (alone (atom m)) sv r.
Proof. apply answers_ext, alone_atom. Qed.

Lemma answers_alone_bind {A B} (τ : task A) (f : A → task B) sv r g :
  answers (alone τ) sv r →
  (∀ a sv', r = Ok a → service_inv sv' → same_stores sv sv' → answers (alone (f a)) sv' (g a)) →
  answers (alone (task_bind τ f)) sv (try r g).
Proof. intros Hτ Hf. eapply answers_ext; [apply alone_bind|]. by apply answers_bind. Qed.

Lemma answers_alone_then {A} (m : svc unit) (τ : task A) sv r :
  answers m sv (Ok tt) → (∀ sv', service_inv sv' → same_stores sv sv' → answers (alone τ) sv' r) →
  answers (alone (task_bind (atom m) (λ _, τ))) sv r.
Proof.
  intros Hm Hτ. apply (answers_alone_bind _ _ sv (Ok tt) (λ _, r)); [by apply answers_atom|]. auto.
Qed.

Lemma alone_resolve t c sv : alone (resolve_snapshot_task t c) sv = resolve_snapshot t c sv.
Proof.
  destruct c; [|done..]. simpl. unfold svc_bind. by destruct (read_store _ _ _ sv) as [[token|e] sv'].
Qed.

Lemma alone_load_schema t sv : alone (load_schema_task pest_parse t) sv = load_schema_cached pest_parse t sv.
Proof.
  unfold load_schema_task, load_schema_cached. rewrite alone_bind. unfold svc_bind at 1 2. rewrite alone_atom.
  destruct (get_cached_schema t sv) as [[[schema|]|e] sv1]; [done| |done].
  simpl. unfold svc_bind. simpl. destruct (read_store _ _ _ _) as [[[text|]|e] sv2]; [|done..]. simpl.
  by destruct (parse_schema pest_parse text).
Qed.

Lemma answers_engine_task {A} t (p : prog A) sv :
  service_inv sv → answers (alone (engine_task t p)) sv (run_on (tenant_view t (factory sv)) p).
Proof.
  revert sv. induction p as [r|f s k IH]; intros sv Hinv; cbn [engine_task alone].
  - by exists sv.
  - destruct (answers_read_store pest_parse engine_config (E := ApiError) id t
      (λ st, Ok (store_tuple_reader st f s)) sv Hinv) as (sv1 & Hr & Hinv1 & Hs1).
    unfold ServiceSpec.answers. cbn [alone]. rewrite Hr. cbn [map_err].
    destruct (IH (store_tuple_reader (tenant_view t (factory sv)) f s) sv1 Hinv1) as (sv2 & Ha & Hinv2 & Hs2).
    exists sv2. rewrite Ha, (Hs1 t). split_and!; [done|done|]. intros t'. by rewrite (Hs2 t'), (Hs1 t').
Qed.

Lemma answers_check_engine_task t input snapshot sv :
  service_inv sv →
  answers (alone (check_with_engine_task pest_parse engine_config t input snapshot)) sv
    (spec_check_at (tenant_view t (factory sv)) input snapshot).
Proof.
  intros Hinv. eapply answers_alone_bind.
  { eapply answers_ext; [apply alone_load_schema|by apply answers_load_schema]. }
  intros schema sv1 _ Hinv1 Hs1. rewrite <-(Hs1 t). by apply answers_engine_task.
Qed.

Lemma answers_resolve_task t c sv :
  service_inv sv →
  answers (alone (resolve_snapshot_task t c)) sv (spec_resolve (tenant_view t (factory sv)) c).
Proof. intros Hinv. eapply answers_ext; [apply alone_resolve|by apply answers_resolve]. Qed.

Lemma answers_check_task t input sv :
  service_inv sv →
  answers (alone (check_permission_task pest_parse engine_config t input)) sv
    (spec_check pest_parse engine_config (tenant_view t (factory sv)) input).
Proof.
  intros Hinv. eapply answers_alone_bind; [by apply answers_resolve_task|].
  intros [snap|] sv1 _ Hinv1 Hs1; cbv beta iota; rewrite <-(Hs1 t).
  2: { eapply answers_alone_bind; [by apply answers_check_engine_task|]. intros. by apply answers_ret. }
  destruct (answers_get_check pest_parse engine_config (cache_key t input snap) sv1 Hinv1) as (o & Ho & Hcached).
  apply (answers_alone_bind _ _ sv1 (Ok o) (λ _, let? res := _ in _)); [by apply answers_atom|].
  intros o' sv2 [= <-] Hinv2 Hs2. rewrite <-(Hs2 t). destruct o as [b|].
  - specialize (Hcached b eq_refl). simpl in Hcached. rewrite <-(Hs2 t) in Hcached.
    unfold ServiceSpec.key_result in Hcached.
    change (spec_check_at _ _ _) with (spec_check_at (tenant_view t (factory sv2)) input (Some snap)) in Hcached.
    apply answers_alone_then; [by apply answers_metrics|]. intros sv3 Hinv3 _.
    destruct (spec_check_at _ input (Some snap)) as [res|]; simpl in *; simplify_eq. by exists sv3.
  - apply answers_alone_then; [by apply answers_metrics|]. intros sv3 Hinv3 Hs3. rewrite <-(Hs3 t).
    eapply answers_alone_bind; [by apply answers_check_engine_task|]. intros res sv4 Hres Hinv4 Hs4.
    apply answers_alone_then; [|intros sv5 Hinv5 _; by exists sv5]. apply answers_insert_check; [done|].
    simpl. rewrite (Hs4 t). unfold ServiceSpec.key_result.
    change (spec_check_at _ _ _) with (spec_check_at (tenant_view t (factory sv3)) input (Some snap)).
    by rewrite Hres.
Qed.

Lemma answers_expand_task t input sv :
  service_inv sv →
  answers (alone (expand_task pest_parse engine_config t input)) sv
    (spec_expand pest_parse engine_config (tenant_view t (factory sv)) input).
Proof.
  intros Hinv. eapply answers_alone_bind; [by apply answers_resolve_task|].
  intros snapshot sv1 _ Hinv1 Hs1. rewrite <-(Hs1 t). eapply answers_alone_bind.
  { eapply answers_ext; [apply alone_load_schema|by apply answers_load_schema]. }
  intros schema sv2 _ Hinv2 Hs2. rewrite <-(Hs2 t).
  eapply answers_alone_bind; [by apply answers_engine_task|]. intros a sv3 _ Hinv3 _. by exists sv3.
Qed.

Lemma answers_lookup_loop_task t request_for limit ids results sv :
  service_inv sv →
  answers (alone (lookup_loop_task t request_for limit results ids)) sv
    (spec_lookup_loop (tenant_view t (factory sv)) request_for limit results ids).
Proof.
  revert results sv. induction ids as [|id ids IH]; intros results sv Hinv; [by exists sv|].
  simpl. destruct (limit <=? length results); [by exists sv|].
  eapply answers_alone_bind; [by apply answers_engine_task|]. intros res sv1 _ Hinv1 Hs1.
  rewrite <-(Hs1 t). by apply IH.
Qed.

Lemma answers_lookup_resources_task t input sv :
  service_inv sv →
  answers (alone (lookup_resources_task pest_parse engine_config t input)) sv
    (spec_lookup_resources pest_parse engine_config (tenant_view t (factory sv)) input).
Proof.
  intros Hinv. eapply answers_alone_bind; [by apply answers_resolve_task|].
  intros snapshot sv1 _ Hinv1 Hs1. rewrite <-(Hs1 t). eapply answers_alone_bind.
  { apply answers_atom.
    by apply (answers_read_store _ _ _ t (λ s, store_list_object_ids s (ri_resource_type input) snapshot None)). }
  intros ids sv2 _ Hinv2 Hs2. rewrite <-(Hs2 t). eapply answers_alone_bind.
  { eapply answers_ext; [apply alone_load_schema|by apply answers_load_schema]. }
  intros schema sv3 _ Hinv3 Hs3. rewrite <-(Hs3 t).
  eapply answers_alone_bind; [|intros a sv4 _ Hinv4 _; by exists sv4].
  by apply (answers_lookup_loop_task t (resource_request engine_config schema input snapshot)).
Qed.

Lemma alone_write_relationships t ws ds sv :
  alone (write_relationships_task t ws ds) sv = write_relationships t ws ds sv.
Proof.
  unfold write_relationships_task, write_relationships. rewrite alone_bind. unfold svc_bind at 1 2.
  rewrite alone_atom. by destruct (on_store _ _ _ sv) as [[token|e] sv1].
Qed.

Lemma alone_write_schema t definition force sv :
  alone (write_schema_task pest_parse schema_limits t definition force) sv =
  write_schema pest_parse schema_limits t definition force sv.
Proof.
  unfold write_schema_task, write_schema, accept_schema. rewrite alone_bind. unfold svc_bind, lift. simpl.
  destruct (parse_schema pest_parse definition) as [new_schema|e]; simpl; [|done].
  destruct (validate_schema_limits new_schema schema_limits) as [u|e]; simpl; [|done].
  destruct (read_store _ _ _ sv) as [[text|e] sv1]; [|done].
  destruct (breaking_against _ _ _) as [breaking|e]; [|done]. simpl.
  destruct (negb (bool_decide (breaking = [])) && negb force); [done|]. simpl.
  by destruct (on_store _ _ _ sv1) as [[u'|e] sv2].
Qed.

(** A request served without interruption. *)
Definition handle_alone (req : @request Uuid) sv : response * service :=
  let th := start pest_parse engine_config schema_limits req in
  let '(r, sv') := alone (body th) sv in (render th r, sv').

Lemma handle_alone_answers {A} (τ : task A) (rend : result ApiError A → response) sv σ r :
  represents pest_parse engine_config sv σ → answers (alone τ) sv r →
  ∃ sv', (let '(r, sv') := alone τ sv in (rend r, sv')) = (rend r, sv') ∧
    represents pest_parse engine_config sv' σ.
Proof.
  intros [_ Hσ] (sv' & Hm & Hinv' & Hs). rewrite Hm. exists sv'. split; [done|]. split; [done|].
  intros t. by rewrite (Hs t).
Qed.

(** A request served without interruption answers as the specification, hence
    as [handle] of [ServiceSpec] does, and leaves the same stores. *)
Lemma alone_answers req sv σ :
  represents pest_parse engine_config sv σ → (∀ t, now (σ t) + 1 < u64_max)%Z →
  ∃ sv', handle_alone req sv = ((spec_handle pest_parse engine_config schema_limits req σ).1, sv') ∧
    represents pest_parse engine_config sv' (spec_handle pest_parse engine_config schema_limits req σ).2.
Proof.
  intros Hrep Hroom. pose proof Hrep as [Hinv Hσ]. unfold handle_alone.
  destruct req as [t input|t input|t input|t input|t filter c limit|t|t ws ds|t definition force];
    cbn [start body render spec_handle fst snd]; try rewrite <-(Hσ t).
  - apply handle_alone_answers; [done|]. by apply answers_check_task.
  - apply handle_alone_answers; [done|]. by apply answers_expand_task.
  - apply handle_alone_answers; [done|]. eapply answers_alone_bind; [by apply answers_expand_task|].
    intros a sv1 _ Hinv1 _. by exists sv1.
  - apply handle_alone_answers; [done|]. by apply answers_lookup_resources_task.
  - apply handle_alone_answers; [done|]. eapply answers_alone_bind; [by apply answers_resolve_task|].
    intros snapshot sv1 _ Hinv1 Hs1. rewrite <-(Hs1 t). eapply answers_alone_bind.
    { apply answers_atom. by apply (answers_read_store _ _ _ t (λ s, store_read s filter snapshot limit)). }
    intros a sv2 _ Hinv2 _. by exists sv2.
  - apply handle_alone_answers; [done|]. apply answers_atom. by apply answers_read_store.
  - rewrite alone_write_relationships.
    exact (handle_refines pest_parse engine_config schema_limits (RWrite t ws ds) sv σ Hrep Hroom).
  - rewrite alone_write_schema.
    exact (handle_refines pest_parse engine_config schema_limits (RWriteSchema t definition force) sv σ Hrep Hroom).
Qed.
End alone.
