(* ===== verification/ConcurrentTheorems.v ===== *)
(** * What requests that run at the same time answer

    Whatever requests interleave, the caches hold only what the stores say, and
    a check at a token answers what the engine says on that version, as long as
    nobody writes the schema of that tenant meanwhile; [schema_write_race] is
    what happens when somebody does.  Each request is
    proved alone, against any interference that writes relationships
    ([later]); every atom is such an interference, so they compose. *)
From stdpp Require Import base tactics list strings gmap relations.
From S2P Require Import Prelude Tuples Schema Validation Parser Engine Check Expand Storage Memory Cache.
From S2P Require Import Metrics Service ServiceSpec ServiceTheorems Concurrent.

Section concurrent.
Context {Uuid F S SC CC : Type} `{EqDecision Uuid}.
Context `{IsolatedStores F Uuid S}.
Context `{CacheLaws SC (TenantId Uuid) Schema, CacheLaws CC (CheckCacheKey Uuid) bool}.
Context (pest_parse : pest_parser) (engine_config : EngineConfig) (schema_limits : SchemaLimits).
(** The tenants whose schema nobody writes. *)
Context (quiet : TenantId Uuid → Prop).

Abbreviation service := (@AuthzService Uuid F SC CC).
Abbreviation svc := (@svc Uuid F SC CC).
Abbreviation task := (@task Uuid F SC CC).
Abbreviation stored_schema := (stored_schema pest_parse).
Abbreviation key_result := (key_result (Uuid := Uuid) pest_parse engine_config).
Abbreviation spec_check_at := (spec_check_at pest_parse engine_config).
Implicit Types (sv : service) (t : TenantId Uuid) (s : S).

(** ** Interference *)

(** What time does to a store. *)
Record later (same_schema : Prop) s s' : Prop := {
  later_now : (now s ≤ now s')%Z;
  later_view v : (v ≤ now s)%Z → view s' v = view s v;
  later_schema : same_schema → store_read_schema s' = store_read_schema s }.

#[local] Instance later_preorder same_schema : PreOrder (later same_schema).
Proof.
  split; [by split|]. intros s1 s2 s3 [Hn Hv Hs] [Hn' Hv' Hs']. split; [lia|..].
  - intros v Hle. rewrite Hv' by lia. by apply Hv.
  - intros Hq. rewrite Hs' by done. by apply Hs.
Qed.

Definition store_of t sv : S := tenant_view t (factory sv).

Definition moved sv sv' : Prop := ∀ t, later (quiet t) (store_of t sv) (store_of t sv').

#[local] Instance moved_preorder : PreOrder moved.
Proof. split; [by intros sv t|]. intros sv1 sv2 sv3 H12 H23 t. etrans; [apply H12|apply H23]. Qed.

(** What always holds. *)
Record conc_inv sv : Prop := {
  ci_factory : factory_ok (factory sv);
  ci_schema t schema : quiet t → cached (schema_cache sv) t schema → stored_schema (store_of t sv) = Ok schema;
  ci_check key b : quiet (k_tenant_id key) → cached (check_cache sv) key b →
    key_result (store_of (k_tenant_id key) sv) key = Ok b }.

(** ** Runs of the engine on later stores *)

Lemma stored_schema_later (q : Prop) s s' : q → later q s s' → stored_schema s' = stored_schema s.
Proof. intros Hq Hl. unfold ServiceSpec.stored_schema. by rewrite (later_schema _ _ _ Hl Hq). Qed.

Lemma reader_later q s s' v f :
  store_inv s → store_inv s' → later q s s' → (v ≤ now s)%Z →
  store_tuple_reader s' f (Some (mk_SnapshotToken v)) = store_tuple_reader s f (Some (mk_SnapshotToken v)).
Proof.
  intros Hs Hs' [Hn Hv _] Hle. unfold store_tuple_reader. by rewrite !store_read_at, Hv by (done || lia).
Qed.

Lemma reader_ahead s v f :
  store_inv s → (now s < v)%Z → ∃ e, store_tuple_reader s f (Some (mk_SnapshotToken v)) = Err e.
Proof. intros Hs Hv. unfold store_tuple_reader. rewrite store_read_ahead by done. by eexists. Qed.

(** A run at a version the store has does not depend on the moment; and at a
    version it does not have only programs without reads succeed. *)
Lemma run_later {A} q s s' v (p : prog A) :
  store_inv s → store_inv s' → later q s s' → reads_at (Some (mk_SnapshotToken v)) p →
  (v ≤ now s)%Z → run_on s' p = run_on s p.
Proof.
  intros Hs Hs' Hl Hp Hv. unfold run_on. f_equal. eapply run_reads_at; [exact Hp|].
  intros f. by eapply reader_later.
Qed.

Lemma run_later_Ok {A} q s s' v (p : prog A) a :
  store_inv s → store_inv s' → later q s s' → reads_at (Some (mk_SnapshotToken v)) p →
  run_on s p = Ok a → run_on s' p = Ok a.
Proof.
  intros Hs Hs' Hl Hp Hrun. destruct (Z.le_gt_cases v (now s)) as [Hv|Hv].
  - by rewrite (run_later q s s' v).
  - destruct Hp as [r|f k Herr _]; [done|]. exfalso. unfold run_on in Hrun. cbn [run] in Hrun.
    destruct (reader_ahead s v f Hs Hv) as (e & He). by rewrite He, Herr in Hrun.
Qed.

Lemma key_result_later q s s' key b :
  store_inv s → store_inv s' → q → later q s s' → key_result s key = Ok b → key_result s' key = Ok b.
Proof.
  intros Hs Hs' Hq Hl. unfold ServiceSpec.key_result, ServiceSpec.spec_check_at.
  rewrite (stored_schema_later q s s') by done. destruct (stored_schema s) as [schema|e]; [|done].
  cbn [try]. set (p := check _ _ _).
  assert (reads_at (Some (k_snapshot key)) p) as Hp by exact (check_reads_at schema engine_config (mk_CheckRequest _ _ _ _ _ _)).
  destruct (k_snapshot key) as [v]. destruct (run_on s p) as [res|e] eqn:Hrun; [|done].
  by rewrite (run_later_Ok q s s' v p res).
Qed.

(** ** Harmless atoms *)

Lemma conc_inv_store t sv : conc_inv sv → store_inv (store_of t sv).
Proof. intros [Hf _ _]. by apply tenant_view_inv. Qed.

(** The invariant survives when stores move on and the caches forget. *)
Lemma conc_inv_moved sv sv' :
  conc_inv sv → factory_ok (factory sv') → moved sv sv' →
  (∀ t schema, quiet t → cached (schema_cache sv') t schema →
     cached (schema_cache sv) t schema ∨ stored_schema (store_of t sv') = Ok schema) →
  (∀ key b, quiet (k_tenant_id key) → cached (check_cache sv') key b →
     cached (check_cache sv) key b ∨ key_result (store_of (k_tenant_id key) sv') key = Ok b) →
  conc_inv sv'.
Proof.
  intros Hinv Hf' Hm Hsc Hcc. split; [done|..].
  - intros t schema Hq Hc. destruct (Hsc t schema Hq Hc) as [Hc'|]; [|done].
    rewrite (stored_schema_later (quiet t) (store_of t sv)) by done. by apply (ci_schema _ Hinv).
  - intros key b Hq Hc. destruct (Hcc key b Hq Hc) as [Hc'|]; [|done].
    apply (key_result_later (quiet (k_tenant_id key)) (store_of (k_tenant_id key) sv)); try done.
    + by apply conc_inv_store.
    + by apply tenant_view_inv.
    + by apply (ci_check _ Hinv).
Qed.

(** [m] answers [r] from [sv] and leaves [sv'], keeping the invariant. *)
Definition harmless {A} (m : svc A) sv (r : result ApiError A) sv' : Prop :=
  m sv = (r, sv') ∧ conc_inv sv' ∧ moved sv sv'.

Lemma harmless_same {A} (m : svc A) sv r sv' :
  conc_inv sv → m sv = (r, sv') → factory sv' = factory sv →
  (∀ t schema, quiet t → cached (schema_cache sv') t schema →
     cached (schema_cache sv) t schema ∨ stored_schema (store_of t sv) = Ok schema) →
  (∀ key b, quiet (k_tenant_id key) → cached (check_cache sv') key b →
     cached (check_cache sv) key b ∨ key_result (store_of (k_tenant_id key) sv) key = Ok b) →
  harmless m sv r sv'.
Proof.
  intros Hinv Hm Hf Hsc Hcc.
  assert (moved sv sv') as Hmoved by (intros t; unfold store_of; by rewrite Hf).
  assert (∀ t, store_of t sv' = store_of t sv) as Hst by (intros t; unfold store_of; by rewrite Hf).
  split_and!; [done| |done]. apply (conc_inv_moved sv); [done| |done|..].
  - rewrite Hf. by apply ci_factory.
  - intros t schema Hq Hc. rewrite Hst. by apply Hsc.
  - intros key b Hq Hc. rewrite Hst. by apply Hcc.
Qed.

Lemma harmless_store {E A} (to_api : E → ApiError) t (method : S → result E A * S) sv :
  conc_inv sv → store_inv (method (store_of t sv)).2 → later (quiet t) (store_of t sv) (method (store_of t sv)).2 →
  ∃ sv', harmless (on_store to_api t method) sv (map_err to_api (method (store_of t sv)).1) sv' ∧
    store_of t sv' = (method (store_of t sv)).2.
Proof.
  intros Hinv Hs Hl. unfold harmless, on_store.
  destruct (call_store_spec t method (factory sv) (ci_factory _ Hinv) Hs) as (f & Hcall & Hf & Hown & Hother).
  unfold store_of in *. rewrite Hcall.
  set (sv' := mk_AuthzService f (schema_cache sv) (check_cache sv) (service_metrics sv) (audit_log sv)).
  exists sv'. split; [|exact Hown]. assert (moved sv sv') as Hm.
  { intros t'. unfold store_of. change (factory sv') with f. destruct (decide (t' = t)) as [->|Hne]; [by rewrite Hown|by rewrite Hother]. }
  split_and!; [done| |done]. apply (conc_inv_moved sv); cbn [factory schema_cache check_cache]; auto.
Qed.

Lemma harmless_read {E A} (to_api : E → ApiError) t (query : S → result E A) sv :
  conc_inv sv →
  ∃ sv', harmless (read_store to_api t query) sv (map_err to_api (query (store_of t sv))) sv' ∧
    store_of t sv' = store_of t sv.
Proof. intros Hinv. apply (harmless_store to_api t (λ s, (query s, s))); [done|by apply conc_inv_store|done]. Qed.

Lemma harmless_metrics f sv : conc_inv sv → ∃ sv', harmless (with_metrics f) sv (Ok tt) sv'.
Proof. intros Hinv. eexists. apply harmless_same; auto. Qed.

Lemma harmless_audit e sv : conc_inv sv → ∃ sv', harmless (audit e) sv (Ok tt) sv'.
Proof. intros Hinv. eexists. apply harmless_same; auto. Qed.

Lemma harmless_get_schema t sv :
  conc_inv sv → ∃ o sv', harmless (get_cached_schema t) sv (Ok o) sv' ∧
    ∀ schema, o = Some schema → quiet t → stored_schema (store_of t sv') = Ok schema.
Proof.
  intros Hinv. unfold get_cached_schema. pose proof (cache_get_answer (schema_cache sv) t) as Ha.
  pose proof (cache_get_keeps (schema_cache sv) t) as Hk.
  destruct (cache_get t (schema_cache sv)) as [o c] eqn:Hget. cbn [fst snd] in *. eexists o, _. split.
  - apply harmless_same; [done|by rewrite Hget|done| |auto]. cbn [schema_cache]. eauto.
  - intros schema -> Hq. apply (ci_schema _ Hinv); auto.
Qed.

Lemma harmless_get_check key sv :
  conc_inv sv → ∃ o sv', harmless (get_cached_check key) sv (Ok o) sv' ∧
    ∀ b, o = Some b → quiet (k_tenant_id key) → key_result (store_of (k_tenant_id key) sv') key = Ok b.
Proof.
  intros Hinv. unfold get_cached_check. pose proof (cache_get_answer (check_cache sv) key) as Ha.
  pose proof (cache_get_keeps (check_cache sv) key) as Hk.
  destruct (cache_get key (check_cache sv)) as [o c] eqn:Hget. cbn [fst snd] in *. eexists o, _. split.
  - apply harmless_same; [done|by rewrite Hget|done|auto|]. cbn [check_cache]. eauto.
  - intros b -> Hq. apply (ci_check _ Hinv); auto.
Qed.

Lemma harmless_insert_schema t schema sv :
  conc_inv sv → (quiet t → stored_schema (store_of t sv) = Ok schema) →
  ∃ sv', harmless (update_schema_cache (cache_insert t schema)) sv (Ok tt) sv'.
Proof.
  intros Hinv Hs. eexists. apply harmless_same; [done..| |auto]. cbn [schema_cache].
  intros t' schema' Hq [[-> ->]|?]%cache_insert_cached; auto.
Qed.

Lemma harmless_insert_check key b sv :
  conc_inv sv → (quiet (k_tenant_id key) → key_result (store_of (k_tenant_id key) sv) key = Ok b) →
  ∃ sv', harmless (update_check_cache (cache_insert key b)) sv (Ok tt) sv'.
Proof.
  intros Hinv Hs. eexists. apply harmless_same; [done..|auto|]. cbn [check_cache].
  intros key' b' Hq [[-> ->]|?]%cache_insert_cached; auto.
Qed.

Lemma harmless_invalidate_schema t sv :
  conc_inv sv → ∃ sv', harmless (update_schema_cache (cache_invalidate t)) sv (Ok tt) sv'.
Proof.
  intros Hinv. eexists. apply harmless_same; [done..| |auto]. cbn [schema_cache].
  intros t' schema' Hq [_ ?]%cache_invalidate_cached; auto.
Qed.

Lemma harmless_invalidate_checks sv :
  conc_inv sv → ∃ sv', harmless (update_check_cache cache_invalidate_all) sv (Ok tt) sv'.
Proof.
  intros Hinv. eexists. apply harmless_same; [done..|auto|]. cbn [check_cache].
  intros key b Hq Hc. by apply cache_invalidate_all_cached in Hc.
Qed.

(** ** Tasks under interference *)

(** Room for one more version in every store. *)
Definition roomy sv : Prop := ∀ t, (now (store_of t sv) + 1 < u64_max)%Z.

(** From [sv] on, whatever the others do between its atoms, every atom of the
    task is harmless, and when the task is done its result satisfies [Q]
    then and for ever after. *)
Fixpoint good {A} (τ : task A) (Q : service → result ApiError A → Prop) sv : Prop :=
  match τ with
  | TDone r => ∀ sv', moved sv sv' → conc_inv sv' → Q sv' r
  | TAtom m k => ∀ sv', moved sv sv' → conc_inv sv' → roomy sv' →
      ∃ r sv'', harmless m sv' r sv'' ∧
        match r with
        | Ok a => good (k a) Q sv''
        | Err e => ∀ sv3, moved sv'' sv3 → conc_inv sv3 → Q sv3 (Err e)
        end
  end.

Lemma good_moved {A} (τ : task A) Q sv sv' : good τ Q sv → moved sv sv' → good τ Q sv'.
Proof. intros Hg Hm. destruct τ; simpl in *; intros sv2 Hm2; apply Hg; by etrans. Qed.

Lemma good_mono {A} (τ : task A) (Q Q' : service → result ApiError A → Prop) sv :
  good τ Q sv → (∀ sv' r, moved sv sv' → conc_inv sv' → Q sv' r → Q' sv' r) → good τ Q' sv.
Proof.
  revert sv. induction τ as [r|R m k IH]; intros sv Hg HQ; simpl in *; intros sv' Hm Hinv.
  - apply HQ; auto.
  - intros Hroom. destruct (Hg sv' Hm Hinv Hroom) as (r & sv2 & Hh & Hr). exists r, sv2. split; [done|].
    assert (moved sv sv2) as Hm2 by (etrans; [exact Hm|apply Hh]).
    destruct r as [a|e].
    + apply IH; [done|]. intros sv3 r Hm3. apply HQ. by etrans.
    + intros sv3 Hm3 Hinv3. apply HQ; [by etrans|done|by apply Hr].
Qed.

Lemma good_bind {A B} (τ : task A) (f : A → task B) Q sv :
  conc_inv sv →
  good τ (λ sv' r, match r with Ok a => good (f a) Q sv' | Err e => Q sv' (Err e) end) sv →
  good (task_bind τ f) Q sv.
Proof.
  revert sv. induction τ as [[a|e]|R m k IH]; intros sv Hinv Hg; simpl in *.
  - by apply Hg.
  - done.
  - intros sv' Hm Hinv' Hroom. destruct (Hg sv' Hm Hinv' Hroom) as (r & sv2 & Hh & Hr).
    exists r, sv2. split; [done|]. destruct r as [a|e]; [|done]. apply IH; [apply Hh|done].
Qed.

Lemma good_then {A} (m : svc unit) (τ : task A) Q sv :
  (∀ sv', conc_inv sv' → ∃ sv'', harmless m sv' (Ok tt) sv'') → good τ Q sv →
  good (task_bind (atom m) (λ _, τ)) Q sv.
Proof.
  intros Hh Hg. simpl. intros sv' Hm Hinv _. destruct (Hh sv' Hinv) as (sv2 & Hh2).
  exists (Ok tt), sv2. split; [done|]. apply (good_moved _ _ sv); [done|]. etrans; [exact Hm|apply Hh2].
Qed.

Lemma good_read {E A B} (to_api : E → ApiError) t (query : S → result E A) (f : A → task B) Q sv :
  (∀ sv', moved sv sv' → conc_inv sv' →
     match map_err to_api (query (store_of t sv')) with
     | Ok a => good (f a) Q sv'
     | Err e => ∀ sv3, moved sv' sv3 → conc_inv sv3 → Q sv3 (Err e)
     end) →
  good (TAtom (read_store to_api t query) f) Q sv.
Proof.
  intros Hg. simpl. intros sv' Hm Hinv _. specialize (Hg sv' Hm Hinv).
  destruct (harmless_read to_api t query sv' Hinv) as (sv2 & Hh & _).
  eexists _, sv2. split; [exact Hh|]. destruct (map_err _ _) as [a|e].
  - apply (good_moved _ _ sv'); [done|apply Hh].
  - intros sv3 Hm3. apply Hg. etrans; [apply Hh|exact Hm3].
Qed.

Lemma good_done {A} (r : result ApiError A) (Q : service → result ApiError A → Prop) sv :
  (∀ sv', moved sv sv' → conc_inv sv' → Q sv' r) → good (TDone r) Q sv.
Proof. done. Qed.

(** *** The schema *)

Lemma good_load_schema t sv :
  good (load_schema_task pest_parse t)
    (λ sv' r, quiet t → r = stored_schema (store_of t sv')) sv.
Proof.
  unfold load_schema_task. intros sv1 Hm1 Hinv1 _.
  destruct (harmless_get_schema t sv1 Hinv1) as (o & sv2 & Hh & Ho). exists (Ok o), sv2. split; [done|].
  destruct o as [schema|].
  - apply good_then; [intros; by apply harmless_metrics|]. intros sv3 Hm3 _ Hq.
    rewrite (stored_schema_later (quiet t) (store_of t sv2)) by auto. symmetry. by apply Ho.
  - apply good_then; [intros; by apply harmless_metrics|]. apply good_read. intros sv3 _ Hinv3.
    assert (∀ r sv', moved sv3 sv' → r = stored_schema (store_of t sv3) → quiet t →
      r = stored_schema (store_of t sv')) as Hlater.
    { intros r sv' Hm -> Hq. symmetry. by eapply stored_schema_later. }
    assert (stored_schema (store_of t sv3) = stored_schema (store_of t sv3)) as Hs by done.
    unfold ServiceSpec.stored_schema in Hs at 2. 
    destruct (store_read_schema (store_of t sv3)) as [text|e]; simpl in *; [|by eauto].
    destruct text as [text|]; simpl in *; [|by eauto].
    destruct (parse_schema pest_parse text) as [schema|e]; simpl in *; [|by eauto].
    intros sv4 Hm4 Hinv4 _. destruct (harmless_insert_schema t schema sv4 Hinv4) as (sv5 & Hh5).
    { intros Hq. symmetry. by apply (Hlater (Ok schema)). }
    exists (Ok tt), sv5. split; [done|]. intros sv6 Hm6 _. apply Hlater; [|done].
    etrans; [exact Hm4|]. etrans; [apply Hh5|done].
Qed.

(** *** The engine *)

Definition engine_post {A} t v (p : prog A) sv : service → result ApiError A → Prop := λ sv' r,
  (∀ a, r = Ok a → run_on (store_of t sv') p = Ok a) ∧
  ((v ≤ now (store_of t sv))%Z → r = run_on (store_of t sv') p).

Lemma good_engine {A} t v (p : prog A) sv :
  reads_at (Some (mk_SnapshotToken v)) p →
  good (engine_task t p) (engine_post t v p sv) sv.
Proof.
  intros Hp. revert sv. induction Hp as [r|f k Herr _ IH]; intros sv; cbn [engine_task].
  - intros sv' _ _. by split; intros.
  - apply good_read. intros sv1 Hm1 Hinv1. cbn [map_err].
    set (x := store_tuple_reader (store_of t sv1) f (Some (mk_SnapshotToken v))).
    destruct (Z.le_gt_cases v (now (store_of t sv1))) as [Hv|Hv].
    + eapply good_mono; [apply IH|]. intros sv2 r Hm2 Hinv2 [HOk Hall].
      assert (run_on (store_of t sv2) (Read f (Some (mk_SnapshotToken v)) k) = run_on (store_of t sv2) (k x)) as Hrun.
      { unfold run_on. cbn [run]. f_equal. f_equal. f_equal.
        eapply reader_later; [by apply conc_inv_store|by apply conc_inv_store|apply Hm2|done]. }
      split; rewrite Hrun; [exact HOk|]. intros _. by apply Hall.
    + destruct (reader_ahead (store_of t sv1) v f) as (e & He); [by apply conc_inv_store|lia|].
      unfold x. rewrite He, Herr. cbn [engine_task map_err]. apply good_done. intros sv2 _ _. split; [done|].
      intros Hle. pose proof (later_now _ _ _ (Hm1 t)). lia.
Qed.

(** Without a version the engine is harmless all the same. *)
Lemma good_engine_any {A} t (p : prog A) sv : good (engine_task t p) (λ _ _, True) sv.
Proof.
  revert sv. induction p as [r|f o k IH]; intros sv; cbn [engine_task]; [done|].
  apply good_read. intros sv1 _ _. apply IH.
Qed.

(** *** A check *)

Lemma good_check_with_engine t input token sv :
  conc_inv sv →
  good (check_with_engine_task pest_parse engine_config t input (Some token))
    (λ sv' r, quiet t →
       (∀ res, r = Ok res → spec_check_at (store_of t sv') input (Some token) = Ok res) ∧
       ((token_value token ≤ now (store_of t sv))%Z →
        r = spec_check_at (store_of t sv') input (Some token))) sv.
Proof.
  intros Hinv. apply good_bind; [done|]. eapply good_mono; [apply good_load_schema|].
  intros sv1 r Hm1 Hinv1 Hr. unfold ServiceSpec.spec_check_at.
  destruct r as [schema|e]; cbv beta iota.
  - destruct token as [v]. eapply good_mono;
      [apply good_engine; exact (check_reads_at schema engine_config (mk_CheckRequest _ _ _ _ _ (Some (mk_SnapshotToken v))))|].
    intros sv2 r Hm2 _ [HOk Hall] Hq.
    rewrite (stored_schema_later (quiet t) (store_of t sv1)), <-(Hr Hq) by auto. cbn [try].
    split; [exact HOk|]. intros Hle. apply Hall. pose proof (later_now _ _ _ (Hm1 t)). cbn [token_value] in Hle. lia.
  - intros Hq. rewrite <-(Hr Hq). by split.
Qed.

Definition spec_answer s (input : CheckPermissionInput) (token : SnapshotToken)
    : result ApiError CheckPermissionOutput :=
  let? res := spec_check_at s input (Some token) in Ok (mk_CheckPermissionOutput (allowed res) (Some token)).

(** What is promised of a check at a token. *)
Definition answers_at t input token (v0 : Z) sv (r : result ApiError CheckPermissionOutput) : Prop :=
  quiet t →
  (∀ out, r = Ok out → spec_answer (store_of t sv) input token = Ok out) ∧
  ((token_value token ≤ v0)%Z → r = spec_answer (store_of t sv) input token).

Lemma key_result_answer t input token sv b :
  key_result (store_of t sv) (cache_key t input token) = Ok b ↔
  spec_answer (store_of t sv) input token = Ok (mk_CheckPermissionOutput b (Some token)).
Proof.
  unfold spec_answer, ServiceSpec.key_result.
  change (spec_check_at _ (mk_CheckPermissionInput _ _ _ _ _ _) _) with (spec_check_at (store_of t sv) input (Some token)).
  destruct (spec_check_at _ _ _) as [res|e]; simpl; [|done]. split; congruence.
Qed.

Lemma spec_answer_later t input token sv sv' out :
  quiet t → conc_inv sv → conc_inv sv' → moved sv sv' →
  spec_answer (store_of t sv) input token = Ok out → spec_answer (store_of t sv') input token = Ok out.
Proof.
  intros Hq Hinv Hinv' Hm Ha. assert (out = mk_CheckPermissionOutput (co_allowed out) (Some token)) as Hout.
  { unfold spec_answer in Ha. by apply try_Ok in Ha as (res & _ & [= <-]). }
  rewrite Hout in Ha |- *. apply key_result_answer in Ha. apply key_result_answer.
  apply (key_result_later (quiet t) (store_of t sv)); [by apply conc_inv_store..|done|apply Hm|done].
Qed.

(** [check_permission_task] once the snapshot is known. *)
Definition check_at_task t (input : CheckPermissionInput) (snap : SnapshotToken) : task CheckPermissionOutput :=
  task_bind (atom (get_cached_check (cache_key t input snap))) (λ hit,
    match hit with
    | Some cached_allowed =>
        task_bind (atom (with_metrics record_check_cache_hit)) (λ _,
          task_ret (mk_CheckPermissionOutput cached_allowed (Some snap)))
    | None =>
        task_bind (atom (with_metrics record_check_cache_miss)) (λ _,
          task_bind (check_with_engine_task pest_parse engine_config t input (Some snap)) (λ res,
            task_bind (atom (update_check_cache (cache_insert (cache_key t input snap) (allowed res)))) (λ _,
              task_ret (mk_CheckPermissionOutput (allowed res) (Some snap)))))
    end).

Lemma good_check_at t input snap sv :
  good (check_at_task t input snap) (answers_at t input snap (now (store_of t sv))) sv.
Proof.
  unfold check_at_task. intros sv1 Hm1 Hinv1 _. unfold atom.
  destruct (harmless_get_check (cache_key t input snap) sv1 Hinv1) as (o & sv2 & Hh & Ho).
  exists (Ok o), sv2. split; [done|].
  assert (conc_inv sv2) as Hinv2 by apply Hh. destruct o as [b|].
  - apply good_then; [intros; by apply harmless_metrics|]. intros sv3 Hm3 Hinv3 Hq.
    assert (spec_answer (store_of t sv3) input snap = Ok (mk_CheckPermissionOutput b (Some snap))) as Ha.
    { apply (spec_answer_later t input snap sv2); [done..|]. apply key_result_answer. by apply Ho. }
    split; [by intros out [= <-]|by rewrite Ha].
  - apply good_then; [intros; by apply harmless_metrics|]. apply good_bind; [done|].
    eapply good_mono; [by apply good_check_with_engine|]. intros sv3 r Hm3 Hinv3 Hr.
    assert (∀ z, (z ≤ now (store_of t sv))%Z → (z ≤ now (store_of t sv2))%Z) as Hle.
    { intros z Hz. pose proof (later_now _ _ _ (Hm1 t)). destruct Hh as (_ & _ & Hm2).
      pose proof (later_now _ _ _ (Hm2 t)). lia. }
    destruct r as [res|e].
    + assert (∀ sv', quiet t → moved sv3 sv' → conc_inv sv' →
        spec_answer (store_of t sv') input snap = Ok (mk_CheckPermissionOutput (allowed res) (Some snap))) as Ha.
      { intros sv' Hq Hm Hinv. apply (spec_answer_later t input snap sv3); [done..|].
        unfold spec_answer. by rewrite (proj1 (Hr Hq) res eq_refl). }
      simpl. intros sv4 Hm4 Hinv4 _.
      destruct (harmless_insert_check (cache_key t input snap) (allowed res) sv4 Hinv4) as (sv5 & Hh5).
      { intros Hq. apply key_result_answer. by apply Ha. }
      exists (Ok tt), sv5. split; [done|]. intros sv6 Hm6 Hinv6 Hq.
      assert (moved sv3 sv6) as Hm by (etrans; [exact Hm4|]; etrans; [apply Hh5|done]).
      rewrite Ha by done. split; [by intros out [= <-]|done].
    + intros Hq. split; [done|]. intros Hv. unfold spec_answer.
      by rewrite <-(proj2 (Hr Hq) (Hle _ Hv)).
Qed.

(** What is promised of a check that started at [sv0]. *)
Definition check_promise t input sv0 sv (r : result ApiError CheckPermissionOutput) : Prop :=
  match ci_consistency input with
  | FullConsistency => quiet t → ∃ v, (now (store_of t sv0) ≤ v ≤ now (store_of t sv))%Z ∧
      r = spec_answer (store_of t sv) input (mk_SnapshotToken v)
  | AtLeastAsFresh token | AtExactSnapshot token => answers_at t input token (now (store_of t sv0)) sv r
  | MinimizeLatency => True
  end.

Lemma good_check t input sv :
  conc_inv sv →
  good (check_permission_task pest_parse engine_config t input) (check_promise t input sv) sv.
Proof.
  intros Hinv. unfold check_permission_task, check_promise, resolve_snapshot_task.
  destruct (ci_consistency input) as [| |token|token]; cbn [task_ret task_bind].
  - cbn [atom task_bind]. apply good_read. intros sv1 Hm1 Hinv1.
    rewrite store_snapshot_now by by apply conc_inv_store. cbn [map_err].
    eapply good_mono; [exact (good_check_at t input (mk_SnapshotToken (now (store_of t sv1))) sv1)|].
    intros sv2 r Hm2 _ Hr Hq. exists (now (store_of t sv1)). pose proof (later_now _ _ _ (Hm1 t)).
    pose proof (later_now _ _ _ (Hm2 t)). split; [lia|]. by apply Hr.
  - apply good_bind; [done|]. apply good_bind; [done|]. eapply good_mono; [apply good_load_schema|].
    intros sv1 r _ _ _. destruct r as [schema|e]; [|done]. eapply good_mono; [apply good_engine_any|].
    intros sv2 r _ _ _. by destruct r.
  - apply good_check_at.
  - apply good_check_at.
Qed.

(** *** The other operations *)

(** Every atom is harmless; nothing is said of the result. *)
Definition fine {A} (τ : task A) sv : Prop := good τ (λ _ _, True) sv.

Lemma fine_bind {A B} (τ : task A) (f : A → task B) sv :
  conc_inv sv → fine τ sv → (∀ a sv', moved sv sv' → conc_inv sv' → fine (f a) sv') →
  fine (task_bind τ f) sv.
Proof.
  intros Hinv Hτ Hf. apply good_bind; [done|]. eapply good_mono; [exact Hτ|].
  intros sv' [a|e] Hm Hinv' _; [by apply Hf|done].
Qed.

Lemma fine_read {E A} (to_api : E → ApiError) t (query : S → result E A) sv :
  fine (atom (read_store to_api t query)) sv.
Proof. apply good_read. intros sv' _ _. by destruct (map_err _ _). Qed.

Lemma fine_atom {A} (m : svc A) sv :
  (∀ sv', conc_inv sv' → ∃ r sv'', harmless m sv' r sv'') → fine (atom m) sv.
Proof.
  intros Hm sv' _ Hinv _. destruct (Hm sv' Hinv) as (r & sv2 & Hh). exists r, sv2. split; [done|].
  by destruct r.
Qed.

Lemma fine_load_schema t sv : fine (load_schema_task pest_parse t) sv.
Proof. eapply good_mono; [apply good_load_schema|done]. Qed.

Lemma fine_resolve t c sv : conc_inv sv → fine (resolve_snapshot_task t c) sv.
Proof. intros Hinv. destruct c; try done. apply fine_bind; [done|apply fine_read|done]. Qed.

Lemma fine_expand t input sv : conc_inv sv → fine (expand_task pest_parse engine_config t input) sv.
Proof.
  intros Hinv. apply fine_bind; [done|by apply fine_resolve|]. intros snapshot sv1 _ Hinv1.
  apply fine_bind; [done|apply fine_load_schema|]. intros schema sv2 _ Hinv2.
  apply fine_bind; [done|apply good_engine_any|done].
Qed.

Lemma fine_lookup_loop t request_for limit results ids sv :
  conc_inv sv → fine (lookup_loop_task t request_for limit results ids) sv.
Proof.
  revert results sv. induction ids as [|id ids IH]; intros results sv Hinv; simpl; [done|].
  destruct (limit <=? length results); [done|].
  apply fine_bind; [done|apply good_engine_any|]. intros res sv1 _ Hinv1. by apply IH.
Qed.

Lemma fine_lookup_resources t input sv :
  conc_inv sv → fine (lookup_resources_task pest_parse engine_config t input) sv.
Proof.
  intros Hinv. apply fine_bind; [done|by apply fine_resolve|]. intros snapshot sv1 _ Hinv1.
  apply fine_bind; [done|apply fine_read|]. intros ids sv2 _ Hinv2.
  apply fine_bind; [done|apply fine_load_schema|]. intros schema sv3 _ Hinv3.
  apply fine_bind; [done|by apply fine_lookup_loop|done].
Qed.

Lemma store_write_later q ws ds s :
  store_inv s → (now s + 1 < u64_max)%Z →
  store_inv (store_write ws ds s).2 ∧ later q s (store_write ws ds s).2.
Proof.
  intros Hs Hroom. destruct (deletes_something ds) eqn:Hds.
  - destruct (store_write_ok s ws ds Hs Hds Hroom) as (s' & -> & [Hinv Hn Hv _] & Hschema). simpl.
    split; [done|]. split; [lia|done|done].
  - rewrite store_write_rejected by done. by split.
Qed.

Lemma fine_write t ws ds sv : conc_inv sv → fine (write_relationships_task t ws ds) sv.
Proof.
  intros _ sv1 _ Hinv1 Hroom.
  destruct (store_write_later (quiet t) ws ds (store_of t sv1)) as [Hs Hl]; [by apply conc_inv_store|apply Hroom|].
  destruct (harmless_store ApiStorage t (store_write ws ds) sv1 Hinv1 Hs Hl) as (sv2 & Hh & _).
  eexists _, sv2. split; [exact Hh|]. destruct (map_err _ _) as [token|e]; [|done].
  apply good_then; [intros; by apply harmless_invalidate_checks|].
  apply good_then; [intros; by apply harmless_audit|done].
Qed.

Lemma fine_write_schema t definition force sv :
  ¬ quiet t → conc_inv sv → fine (write_schema_task pest_parse schema_limits t definition force) sv.
Proof.
  intros Hq Hinv. unfold write_schema_task. apply fine_bind; [done|done|]. intros new_schema sv1 _ Hinv1.
  apply fine_bind; [done|done|]. intros _ sv2 _ Hinv2. apply fine_bind; [done|apply fine_read|].
  intros text sv3 _ Hinv3. apply fine_bind; [done|done|]. intros breaking sv4 _ Hinv4.
  destruct (_ && _); [done|]. apply fine_bind; [done| |].
  - apply fine_atom. intros sv5 Hinv5.
    destruct (store_write_schema_ok (store_of t sv5) definition) as (s' & Hw & Hs & Hn & Hv & _); [by apply conc_inv_store|].
    destruct (harmless_store ApiStorage t (store_write_schema definition) sv5 Hinv5) as (sv6 & Hh & _).
    + by rewrite Hw.
    + rewrite Hw. split; simpl; [lia|done|done].
    + by eexists _, sv6.
  - intros _ sv5 _ Hinv5. apply good_then; [intros; by apply harmless_invalidate_schema|].
    apply good_then; [intros; by apply harmless_invalidate_checks|].
    apply good_then; [intros; by apply harmless_audit|done].
Qed.

(** ** Requests in flight *)

(** Whether the request leaves the schemas of quiet tenants alone. *)
Definition leaves_schemas (req : @request Uuid) : Prop :=
  match req with RWriteSchema t _ _ => ¬ quiet t | _ => True end.

Definition promise (req : @request Uuid) sv0 sv (p : response) : Prop :=
  match req, p with RCheck t input, PCheck r => check_promise t input sv0 sv r | _, _ => True end.

Definition good_thread sv0 sv (req : @request Uuid) (th : Thread) : Prop :=
  good (body th) (λ sv' r, promise req sv0 sv' (render th r)) sv.

Lemma good_start req sv :
  leaves_schemas req → conc_inv sv →
  good_thread sv sv req (start pest_parse engine_config schema_limits req).
Proof.
  intros Hreq Hinv. unfold good_thread. destruct req; simpl in *.
  - by apply good_check.
  - by apply fine_expand.
  - apply fine_bind; [done|by apply fine_expand|done].
  - by apply fine_lookup_resources.
  - apply fine_bind; [done|by apply fine_resolve|]. intros snapshot sv1 _ Hinv1.
    apply fine_bind; [done|apply (fine_read ApiStorage t (λ s, store_read s filter snapshot limit))|done].
  - apply fine_read.
  - by apply fine_write.
  - by apply fine_write_schema.
Qed.

(** An atom of one thread keeps every thread good. *)
Lemma step_good sv0 reqs sv ths sv' ths' :
  conc_inv sv → roomy sv → Forall2 (good_thread sv0 sv) reqs ths → step (sv, ths) (sv', ths') →
  conc_inv sv' ∧ moved sv sv' ∧ Forall2 (good_thread sv0 sv') reqs ths'.
Proof.
  intros Hinv Hroom Hall Hstep.
  inversion Hstep as [sv1 before after A R m k rend r sv2 Hm]; subst; clear Hstep.
  apply Forall2_app_inv_r in Hall as (reqs1 & reqs2 & Hbefore & Hrest & ->).
  apply Forall2_cons_inv_r in Hrest as (req & reqs3 & Hth & Hafter & ->).
  destruct (Hth sv ltac:(done) Hinv Hroom) as (r' & sv'' & (Hm' & Hinv' & Hmoved) & Hr).
  assert (r' = r ∧ sv'' = sv') as [-> ->] by (split; congruence).
  split_and!; [done..|].
  assert (∀ req th, good_thread sv0 sv req th → good_thread sv0 sv' req th) as Hothers.
  { intros req' th' Hg. by eapply good_moved. }
  apply Forall2_app; [by eapply Forall2_impl|]. constructor; [|by eapply Forall2_impl].
  by destruct r.
Qed.
End concurrent.

(** ** The theorem *)

(** C7: Concurrent requests are answered from one version: whatever requests
    are in flight together and however the calls they make interleave, if none
    of them writes the schema of tenant [t] then every check of [t] that names
    a token the store has is answered, allowed, denied or with an error, exactly
    as the engine answers alone on that version; a check with full consistency
    is answered so at a version no older than its start; a token that is
    ahead can only give the answer its version has once it exists; and the
    caches hold nothing else for [t] at any time. *)
Theorem concurrent_requests_exact {Uuid F S SC CC} `{EqDecision Uuid, IsolatedStores F Uuid S,
    CacheLaws SC (TenantId Uuid) Schema, CacheLaws CC (CheckCacheKey Uuid) bool}
    pest_parse engine_config schema_limits (quiet : TenantId Uuid → Prop)
    (reqs : list (@request Uuid)) (sv0 sv : @AuthzService Uuid F SC CC) ths :
  service_inv pest_parse engine_config sv0 →
  Forall (leaves_schemas quiet) reqs →
  rtc (λ x y, roomy x.1 ∧ step x y)
    (sv0, map (start pest_parse engine_config schema_limits) reqs) (sv, ths) →
  conc_inv pest_parse engine_config quiet sv ∧
  ∀ i t input th r, reqs !! i = Some (RCheck t input) → ths !! i = Some th →
    answered th = Some (PCheck r) → check_promise pest_parse engine_config quiet t input sv0 sv r.
Proof.
  intros [Hf Hs Hc] Hreqs Hsteps.
  assert (conc_inv pest_parse engine_config quiet sv0) as Hinv0 by (split; [done|intros t schema _; apply Hs|intros key b _; apply Hc]).
  assert (Forall2 (good_thread pest_parse engine_config quiet sv0 sv0) reqs
    (map (start pest_parse engine_config schema_limits) reqs)) as Hall.
  { clear Hsteps. induction Hreqs as [|req reqs Hreq _ IH]; [constructor|].
    simpl. constructor; [by apply good_start|exact IH]. }
  assert (∀ x y, rtc (λ x y, roomy x.1 ∧ step x y) x y → conc_inv pest_parse engine_config quiet x.1 →
    Forall2 (good_thread pest_parse engine_config quiet sv0 x.1) reqs x.2 →
    conc_inv pest_parse engine_config quiet y.1 ∧
    Forall2 (good_thread pest_parse engine_config quiet sv0 y.1) reqs y.2) as Hinduct.
  { induction 1 as [x|[sv1 ths1] [sv2 ths2] y [Hroom Hstep] _ IH]; [done|]. intros Hinv1 Hall1.
    destruct (step_good pest_parse engine_config quiet sv0 reqs sv1 ths1 sv2 ths2 Hinv1 Hroom Hall1 Hstep)
      as (Hinv2 & _ & Hall2). by apply IH. }
  destruct (Hinduct _ _ Hsteps Hinv0 Hall) as [Hinv Hgood]. split; [exact Hinv|].
  intros i t input th r Hreq Hth Hans. simpl in Hgood.
  pose proof (Forall2_lookup_lr _ _ _ _ _ _ Hgood Hreq Hth) as Hpost. unfold good_thread in Hpost.
  destruct th as [A [r0|R m k] rend]; simpl in *; [|done]. injection Hans as Hr.
  assert (moved quiet sv sv) as Hrefl by (intros t'; by split).
  specialize (Hpost sv Hrefl Hinv). by rewrite Hr in Hpost.
Qed.

(** ** An example

    A check with full consistency has taken its token when another request
    removes every folder's relationships; it goes on and answers of the version
    it took.  A check at that token, after the write, answers the same; a new
    one is denied. *)

(** A schedule runs steps, each from a state with room, which [ok] decides. *)
Fixpoint schedule_roomy {Uuid F SC CC} (ok : @AuthzService Uuid F SC CC → bool) (schedule : list nat)
    (threads : list Thread) (sv : @AuthzService Uuid F SC CC) : bool :=
  match schedule with
  | [] => true
  | i :: schedule' =>
      ok sv &&
      match threads !! i with
      | Some th => let '(th', sv') := advance th sv in schedule_roomy ok schedule' (<[i := th']> threads) sv'
      | None => schedule_roomy ok schedule' threads sv
      end
  end.

Lemma run_threads_steps {Uuid F S SC CC} `{EqDecision Uuid, IsolatedStores F Uuid S} (ok : @AuthzService Uuid F SC CC → bool) schedule threads sv :
  (∀ sv, ok sv = true → roomy sv) → schedule_roomy ok schedule threads sv = true →
  rtc (λ x y, roomy x.1 ∧ step x y) (sv, threads) (run_threads schedule threads sv).
Proof.
  intros Hok. revert threads sv. induction schedule as [|i schedule IH]; intros threads sv; simpl; [done|].
  intros [Hroom%Hok Hs]%andb_true_iff. destruct (threads !! i) as [th|] eqn:Hth; [|by apply IH].
  destruct th as [A [r|R m k] rend]; cbn [advance] in *.
  - rewrite list_insert_id by done. rewrite list_insert_id in Hs by done. by apply IH.
  - destruct (m sv) as [r sv'] eqn:Hm. eapply rtc_l; [|by apply IH]. split; [done|].
    rewrite <-(take_drop_middle threads i _ Hth) at 1. rewrite insert_take_drop by by eapply lookup_lt_Some.
    by constructor.
Qed.

Definition heap_roomy (sv : MemoryService) : bool :=
  forallb (λ s, (now s + 1 <? u64_max)%Z) (heap (factory sv)).

Lemma heap_roomy_ok sv : heap_roomy sv = true → roomy sv.
Proof.
  unfold heap_roomy. rewrite forallb_forall. intros Hheap t. unfold store_of.
  cbn [tenant_view MemoryIsolatedStores]. unfold tenant_state.
  destruct (Memory.stores (factory sv) !! t) as [h|]; [|done].
  destruct (heap (factory sv) !! h) as [s|] eqn:Hs; [|done]. simpl. apply Z.ltb_lt, Hheap.
  apply list_elem_of_In. by eapply list_elem_of_lookup_2.
Qed.

Definition alice_folder (c : Consistency) : CheckPermissionInput :=
  mk_CheckPermissionInput "folder" "a" "view" "user" "alice" c.

Definition flight : list (@request positive) := [
  RCheck acme (alice_folder FullConsistency);
  RWrite acme [] [mk_TupleFilter (Some "folder") None None None None None];
  RCheck acme (alice_folder (AtExactSnapshot (mk_SnapshotToken 1)));
  RCheck acme (alice_folder FullConsistency)].

Definition flight_threads : list Thread :=
  map (start (CC := gmap (CheckCacheKey positive) bool) two_texts engine_config_default limits_default) flight.
Definition flight_schedule : list nat :=
  0 :: replicate 3 1 ++ flat_map (replicate 12) [0; 2; 3].
Definition landed : MemoryService * list Thread := run_threads flight_schedule flight_threads folder_service.

Lemma concurrent_requests_exact_witness :
  map answered landed.2 =
    [Some (PCheck (Ok (mk_CheckPermissionOutput true (Some (mk_SnapshotToken 1)))));
     Some (PWrite (Ok (mk_SnapshotToken 2)));
     Some (PCheck (Ok (mk_CheckPermissionOutput true (Some (mk_SnapshotToken 1)))));
     Some (PCheck (Ok (mk_CheckPermissionOutput false (Some (mk_SnapshotToken 2)))))] ∧
  ∃ th r, landed.2 !! 0 = Some th ∧ answered th = Some (PCheck r) ∧
    check_promise two_texts engine_config_default (λ _, True) acme (alice_folder FullConsistency)
      folder_service landed.1 r.
Proof.
  split; [vm_compute; reflexivity|].
  destruct (concurrent_requests_exact two_texts engine_config_default limits_default (λ _, True) flight
    folder_service landed.1 landed.2 folder_service_inv) as [_ Hchecks].
  - by repeat constructor.
  - rewrite <-surjective_pairing. apply (run_threads_steps heap_roomy); [apply heap_roomy_ok|].
    vm_compute. reflexivity.
  - eexists _, _. split; [vm_compute; reflexivity|]. split; [vm_compute; reflexivity|].
    eapply (Hchecks 0); [reflexivity|vm_compute; reflexivity|vm_compute; reflexivity].
Defined.

(** ** A schema write in flight *)

Definition racing : list (@request positive) := [
  RCheck acme (read_check "alice" (AtExactSnapshot (mk_SnapshotToken 1)));
  RWriteSchema acme "folders" true;
  RCheck acme (read_check "alice" (AtExactSnapshot (mk_SnapshotToken 1)));
  RCheck acme (read_check "alice" MinimizeLatency)].

(** The first check has read the stored schema when the second request
    replaces it and empties both caches; then the check goes on and inserts. *)
Definition racing_schedule : list nat :=
  replicate 5 0 ++ replicate 12 1 ++ replicate 20 0 ++ flat_map (replicate 20) [2; 3].

(** So a schema write can leave both caches stale: the check in flight inserts
    the replaced schema and its own answer after the write emptied the caches.
    Later checks, with and without a token, are then allowed although the
    stored schema no longer has the type they ask for. *)
Example schema_write_race :
  let raced := run_threads racing_schedule
    (map (start two_texts engine_config_default limits_default) racing) banned_service in
  map answered raced.2 =
    [Some (PCheck (Ok (mk_CheckPermissionOutput true (Some (mk_SnapshotToken 1)))));
     Some (PWriteSchema (Ok (mk_WriteSchemaOutput true)));
     Some (PCheck (Ok (mk_CheckPermissionOutput true (Some (mk_SnapshotToken 1)))));
     Some (PCheck (Ok (mk_CheckPermissionOutput true None)))] ∧
  store_read_schema (tenant_view acme (factory raced.1)) = Ok (Some "folders") ∧
  spec_answer two_texts engine_config_default (tenant_view acme (factory raced.1))
    (read_check "alice" MinimizeLatency) (mk_SnapshotToken 1) = Err (ApiCheck (TypeNotFound "document")).
Proof. split_and!; vm_compute; reflexivity. Qed.
