(* ===== verification/Auth.v ===== *)
(** * API keys and the authentication of requests

    [auth.rs], [api_key_repository.rs], [middleware/auth.rs] of
    [crates/kraalzibar-server/src], and the key part of [create-api-key] of
    [main.rs].  argon2, the random generator and the database are parameters.
    Audited events are an output. *)
From Stdlib Require Import Ascii.
From stdpp Require Import base tactics list strings.
From S2P Require Import Prelude Tuples Numbers Metrics Cache Service.

Inductive AuthError :=
| MissingHeader
| InvalidKeyFormat
| UnknownKey
| RevokedKey
| AuthInternal (msg : string).

Definition auth_error_display (e : AuthError) : string :=
  match e with
  | MissingHeader => "missing authorization header"
  | InvalidKeyFormat => "invalid api key format"
  | UnknownKey => "unknown api key"
  | RevokedKey => "api key has been revoked"
  | AuthInternal msg => "internal authentication error: " +:+ msg
  end.

Record ApiKeyRecord (Uuid : Type) := mk_ApiKeyRecord {
  key_id : string; key_hash : string; tenant_id : TenantId Uuid; revoked : bool }.
Arguments mk_ApiKeyRecord {Uuid} _ _ _ _.
Arguments key_id {Uuid} _.
Arguments key_hash {Uuid} _.
Arguments tenant_id {Uuid} _.
Arguments revoked {Uuid} _.

Record TenantContext (Uuid : Type) := mk_TenantContext {
  ctx_tenant_id : TenantId Uuid; ctx_key_id : string }.
Arguments mk_TenantContext {Uuid} _ _.
Arguments ctx_tenant_id {Uuid} _.
Arguments ctx_key_id {Uuid} _.

(** ** Keys *)

Definition parse_api_key (raw_key : string) : result AuthError (string * string) :=
  match splitn 3 "_"%char raw_key with
  | [part0; key_id; secret] =>
      if negb (bool_decide (part0 = "kraalzibar")) then Err InvalidKeyFormat
      else if bool_decide (key_id = EmptyString) || bool_decide (secret = EmptyString)
           then Err InvalidKeyFormat
      else Ok (key_id, secret)
  | _ => Err InvalidKeyFormat
  end.

(** [(b'0' + idx) as char] below ten, [(b'a' + idx - 10) as char] above. *)
Definition key_char (idx : nat) : ascii :=
  if idx <? 10 then ascii_of_nat (48 + idx) else ascii_of_nat (97 + idx - 10).

Definition key_string (indices : list nat) : string :=
  foldr (λ idx s, String (key_char idx) s) EmptyString indices.

(** [generate_api_key]: the 16 and the 32 indices below 36 that the random
    generator draws are arguments. *)
Definition generate_api_key (id_indices secret_indices : list nat) : string * string :=
  let key_id := key_string id_indices in
  let secret := key_string secret_indices in
  ("kraalzibar_" +:+ key_id +:+ "_" +:+ secret, secret).

Section auth.
Context {Uuid PasswordHash : Type}.
(** argon2: hashing with a salt, parsing a stored hash, verifying. *)
Context (argon2_hash : string → string → result string string)
        (argon2_parse : string → result string PasswordHash)
        (argon2_verify : string → PasswordHash → bool).

Definition hash_secret (salt secret : string) : result AuthError string :=
  map_err AuthInternal (argon2_hash salt secret).

Definition verify_secret (secret hash : string) : result AuthError bool :=
  let? parsed_hash := map_err AuthInternal (argon2_parse hash) in
  Ok (argon2_verify secret parsed_hash).

Definition authenticate (raw_key : string) (lookup : string → option (ApiKeyRecord Uuid))
    : result AuthError (TenantContext Uuid) * list (AuditEvent Uuid) :=
  match parse_api_key raw_key with
  | Err e => (Err e, [audit_auth_failure (auth_error_display e) None])
  | Ok (kid, secret) =>
      match lookup kid with
      | None => (Err UnknownKey, [audit_auth_failure "unknown api key" (Some kid)])
      | Some record =>
          if revoked record then (Err RevokedKey, [audit_auth_failure "api key revoked" (Some kid)])
          else
            match verify_secret secret (key_hash record) with
            | Err e => (Err e, [])
            | Ok valid =>
                if negb valid then (Err UnknownKey, [audit_auth_failure "invalid secret" (Some kid)])
                else (Ok (mk_TenantContext (tenant_id record) (key_id record)),
                      [audit_auth_success (tenant_id record) (key_id record)])
            end
      end
  end.

(** ** The repository

    A row of [api_keys]; [fetch] is the database's answer to [SELECT .. WHERE
    key_id = $1]. *)
Record ApiKeyRow := mk_ApiKeyRow {
  row_key_id : string; row_key_hash : string; row_tenant_id : Uuid; row_revoked : bool }.

Definition record_of_row (r : ApiKeyRow) : ApiKeyRecord Uuid :=
  mk_ApiKeyRecord (row_key_id r) (row_key_hash r) (mk_TenantId (row_tenant_id r)) (row_revoked r).

Definition lookup_by_key_id (fetch : string → result string (option ApiKeyRow)) (kid : string)
    : result string (option (ApiKeyRecord Uuid)) :=
  let? row := fetch kid in Ok (option_map record_of_row row).

(** [run_create_api_key] ([main.rs]), from the generated key to the inserted row. *)
Definition create_api_key (id_indices secret_indices : list nat) (salt : string) (tenant_uuid : Uuid)
    : result AuthError (string * ApiKeyRow) :=
  let '(full_key, secret) := generate_api_key id_indices secret_indices in
  let? '(kid, _) := parse_api_key full_key in
  let? hash := hash_secret salt secret in
  Ok (full_key, mk_ApiKeyRow kid hash tenant_uuid false).

(** ** The middleware *)

Record AuthState := mk_AuthState {
  repository : option (string → result string (option ApiKeyRow));
  dev_tenant : TenantId Uuid }.

(** [Uuid::nil()] is the argument [nil]. *)
Definition dev_mode (nil : Uuid) : AuthState := mk_AuthState None (mk_TenantId nil).
Definition with_repository (nil : Uuid) (repo : string → result string (option ApiKeyRow)) : AuthState :=
  mk_AuthState (Some repo) (mk_TenantId nil).
Definition is_dev_mode (st : AuthState) : bool :=
  match repository st with None => true | Some _ => false end.

Definition skip_auth (path : string) : bool :=
  bool_decide (path = "/healthz") || bool_decide (path = "/metrics").

(** What a request carries: its path, and the [authorization] header if there
    is one, as [to_str().ok()]. *)
Record AuthRequest := mk_AuthRequest {
  req_path : string; authorization : option (option string) }.

(** The request goes on with these extensions, or is answered with a status
    and a message. *)
Inductive auth_outcome :=
| Next (tenant : option (TenantId Uuid))
| Respond (status : Z) (msg : string).

Definition rest_auth_middleware (st : AuthState) (request : AuthRequest)
    : auth_outcome * list (AuditEvent Uuid) :=
  if skip_auth (req_path request) then (Next None, [])
  else
    match repository st with
    | None => (Next (Some (dev_tenant st)), [])
    | Some repo =>
        match mjoin (authorization request) with
        | None => (Respond 401 "missing authorization header", [])
        | Some auth_header =>
            match strip_prefix "Bearer " auth_header with
            | None => (Respond 401 "invalid authorization format", [])
            | Some raw_key =>
                match parse_api_key raw_key with
                | Err _ => (Respond 401 "invalid api key format", [])
                | Ok (kid, _) =>
                    match lookup_by_key_id repo kid with
                    | Err _ => (Respond 500 "internal server error", [])
                    | Ok lookup_result =>
                        match authenticate raw_key (λ _, lookup_result) with
                        | (Ok ctx, log) => (Next (Some (ctx_tenant_id ctx)), log)
                        | (Err RevokedKey, log) => (Respond 401 "api key has been revoked", log)
                        | (Err _, log) => (Respond 401 "invalid api key", log)
                        end
                    end
                end
            end
        end
    end.

(** gRPC status codes: 13 internal, 16 unauthenticated. *)
Definition grpc_auth_interceptor (st : AuthState) (request : AuthRequest)
    : auth_outcome * list (AuditEvent Uuid) :=
  match repository st with
  | None => (Next (Some (dev_tenant st)), [])
  | Some repo =>
      match mjoin (authorization request) with
      | None => (Respond 16 "missing authorization header", [])
      | Some auth_header =>
          match strip_prefix "Bearer " auth_header with
          | None => (Respond 16 "invalid authorization format", [])
          | Some raw_key =>
              match parse_api_key raw_key with
              | Err _ => (Respond 16 "invalid api key format", [])
              | Ok (kid, _) =>
                  match lookup_by_key_id repo kid with
                  | Err _ => (Respond 13 "internal server error", [])
                  | Ok lookup_result =>
                      match authenticate raw_key (λ _, lookup_result) with
                      | (Ok ctx, log) => (Next (Some (ctx_tenant_id ctx)), log)
                      | (Err RevokedKey, log) => (Respond 16 "api key has been revoked", log)
                      | (Err _, log) => (Respond 16 "invalid api key", log)
                      end
                  end
              end
          end
      end
  end.

(** ** Lemmas *)

Lemma parse_api_key_Ok raw kid secret :
  parse_api_key raw = Ok (kid, secret) ↔
  raw = "kraalzibar_" +:+ kid +:+ "_" +:+ secret ∧ has_char "_"%char kid = false ∧
  kid ≠ EmptyString ∧ secret ≠ EmptyString.
Proof.
  unfold parse_api_key. cbn [splitn]. split.
  - destruct (split_first _ raw) as [[p0 rest]|] eqn:H0; [|done]. apply split_first_Some in H0 as [-> H0].
    destruct (split_first _ rest) as [[kid' secret']|] eqn:H1; [|done].
    apply split_first_Some in H1 as [-> H1].
    case_bool_decide as Hp; [subst; simpl|done]. repeat case_bool_decide; try done.
    by intros [= <- <-].
  - intros (-> & Hkid & Hne & Hne').
    assert (split_first "_" ("kraalzibar_" +:+ kid +:+ "_" +:+ secret) =
            Some ("kraalzibar", kid +:+ "_" +:+ secret)) as -> by (by apply split_first_Some).
    assert (split_first "_" (kid +:+ "_" +:+ secret) = Some (kid, secret)) as ->
      by (by apply split_first_Some).
    rewrite bool_decide_true by done. simpl. by rewrite !bool_decide_false.
Qed.

Lemma key_char_not_underscore idx : idx < 36 → key_char idx ≠ "_"%char.
Proof. intros Hidx. do 36 (destruct idx as [|idx]; [done|]). lia. Qed.

Lemma key_string_no_underscore indices :
  Forall (λ idx, idx < 36) indices → has_char "_"%char (key_string indices) = false.
Proof.
  induction 1 as [|idx indices Hidx _ IH]; [done|]. simpl.
  rewrite bool_decide_false by by apply key_char_not_underscore. done.
Qed.

(** Who gets through [authenticate]. *)
Definition valid_key (fetch : string → result string (option ApiKeyRow)) (raw : string)
    (t : TenantId Uuid) : Prop :=
  ∃ kid secret row parsed, parse_api_key raw = Ok (kid, secret) ∧ fetch kid = Ok (Some row) ∧
    row_revoked row = false ∧ argon2_parse (row_key_hash row) = Ok parsed ∧
    argon2_verify secret parsed = true ∧ t = mk_TenantId (row_tenant_id row).

Ltac solve_reject :=
  split; [intros [=]|intros (? & ? & ? & ? & ? & ? & ? & ? & ? & ? & ?); congruence].

Lemma authenticate_Ok raw lookup ctx log :
  authenticate raw lookup = (Ok ctx, log) ↔
  ∃ kid secret record parsed, parse_api_key raw = Ok (kid, secret) ∧ lookup kid = Some record ∧
    revoked record = false ∧ argon2_parse (key_hash record) = Ok parsed ∧
    argon2_verify secret parsed = true ∧
    ctx = mk_TenantContext (tenant_id record) (key_id record) ∧
    log = [AuthSuccess (tenant_id record) (key_id record)].
Proof.
  unfold authenticate, verify_secret.
  destruct (parse_api_key raw) as [[kid secret]|e] eqn:Hp; [|solve_reject].
  destruct (lookup kid) as [record|] eqn:Hl; [|solve_reject].
  destruct (revoked record) eqn:Hr; [solve_reject|].
  destruct (argon2_parse (key_hash record)) as [parsed|e] eqn:Hh; simpl; [|solve_reject].
  destruct (argon2_verify secret parsed) eqn:Hv; simpl; [|solve_reject].
  split; [intros [= <- <-]; by exists kid, secret, record, parsed|].
  intros (? & ? & ? & ? & [= <- <-] & Hl' & _ & _ & _ & -> & ->). by simplify_eq.
Qed.

(** Both middlewares let a request through with a tenant exactly when its
    bearer key is valid. *)
Lemma authenticate_next repo raw kid secret lookup_result t :
  parse_api_key raw = Ok (kid, secret) → lookup_by_key_id repo kid = Ok lookup_result →
  (∃ ctx log, authenticate raw (λ _, lookup_result) = (Ok ctx, log) ∧ ctx_tenant_id ctx = t) ↔
  valid_key repo raw t.
Proof.
  intros Hp Hl. unfold lookup_by_key_id in Hl. apply try_Ok in Hl as (row & Hf & [= <-]). split.
  - intros (ctx & log & (kid' & secret' & record & parsed & Hp' & Hrec & Hrev & Hh & Hv & -> & _)%authenticate_Ok & <-).
    destruct row as [row|]; [|done]. injection Hrec as <-. exists kid', secret', row, parsed.
    split_and!; try done. congruence.
  - intros (kid' & secret' & row' & parsed & Hp' & Hf' & Hrev & Hh & Hv & ->).
    assert (kid' = kid) as -> by congruence. assert (row = Some row') as -> by congruence.
    exists (mk_TenantContext (mk_TenantId (row_tenant_id row')) (row_key_id row')). eexists.
    split; [|done]. apply authenticate_Ok. do 4 eexists. split_and!; done.
Qed.
End auth.

(** ** The theorems *)

(** [parse_api_key] accepts exactly [kraalzibar_<id>_<secret>] with a
    non-empty identifier without underscore and a non-empty secret, which it
    returns; the secret may contain underscores. *)
Theorem parse_api_key_exact raw kid secret :
  parse_api_key raw = Ok (kid, secret) ↔
  raw = "kraalzibar_" +:+ kid +:+ "_" +:+ secret ∧ has_char "_"%char kid = false ∧
  kid ≠ EmptyString ∧ secret ≠ EmptyString.
Proof. apply parse_api_key_Ok. Qed.

(** Who the two middlewares let through. *)
Lemma middleware_valid_key {Uuid PasswordHash} (argon2_parse : string → result string PasswordHash)
    argon2_verify (nil : Uuid) repo request t :
  skip_auth (req_path request) = false →
  ((rest_auth_middleware argon2_parse argon2_verify (with_repository nil repo) request).1 = Next (Some t) ↔
   ∃ raw, authorization request = Some (Some ("Bearer " +:+ raw)) ∧
     valid_key argon2_parse argon2_verify repo raw t) ∧
  ((grpc_auth_interceptor argon2_parse argon2_verify (with_repository nil repo) request).1 = Next (Some t) ↔
   ∃ raw, authorization request = Some (Some ("Bearer " +:+ raw)) ∧
     valid_key argon2_parse argon2_verify repo raw t) ∧
  (rest_auth_middleware argon2_parse argon2_verify (with_repository nil repo) request).1 ≠ Next None.
Proof.
  intros Hskip. unfold rest_auth_middleware, grpc_auth_interceptor. rewrite Hskip.
  cbn [repository with_repository].
  destruct (authorization request) as [[h|]|] eqn:Hh; cbn [mjoin option_join]; [|naive_solver..].
  destruct (strip_prefix "Bearer " h) as [raw|] eqn:Hb.
  2: { assert (∀ raw, Some (Some h) ≠ Some (Some ("Bearer " +:+ raw))) as Hno.
       { intros raw Hr. assert (h = "Bearer " +:+ raw) as Hr' by congruence.
         pose proof (proj2 (strip_prefix_Some "Bearer " h raw) Hr'). congruence. }
       naive_solver. }
  apply (proj1 (strip_prefix_Some _ _ _)) in Hb as ->.
  assert (∀ raw', Some (Some ("Bearer " +:+ raw)) = Some (Some ("Bearer " +:+ raw')) → raw' = raw) as Hinj
    by (intros raw' Heq; apply (inj (String.append "Bearer ")); congruence).
  destruct (parse_api_key raw) as [[kid secret]|e] eqn:Hp.
  2: { assert (¬ valid_key argon2_parse argon2_verify repo raw t) by (intros (? & ? & ? & ? & ? & _); congruence).
       naive_solver. }
  destruct (lookup_by_key_id repo kid) as [lookup_result|e] eqn:Hl.
  2: { assert (¬ valid_key argon2_parse argon2_verify repo raw t).
       { intros (kid' & ? & ? & ? & Hp' & Hf & _). unfold lookup_by_key_id in Hl.
         assert (kid' = kid) as -> by congruence. by rewrite Hf in Hl. }
       naive_solver. }
  pose proof (authenticate_next argon2_parse argon2_verify repo raw kid secret lookup_result t Hp Hl) as Hiff.
  destruct (authenticate _ _ raw _) as [[ctx|e] log].
  - assert (ctx_tenant_id ctx = t ↔ valid_key argon2_parse argon2_verify repo raw t) as Hiff'
      by (rewrite <-Hiff; naive_solver).
    split_and!; [naive_solver..|done].
  - assert (¬ valid_key argon2_parse argon2_verify repo raw t) by (rewrite <-Hiff; naive_solver).
    destruct e; naive_solver.
Qed.

(** C18: Outside dev mode no request reaches a protected REST handler or a gRPC
    service unless its authorization header is a bearer key that the
    repository knows, that is not revoked and whose secret verifies; and the
    tenant it acts for is the tenant of that key. *)
Theorem middleware_authenticates {Uuid PasswordHash} (argon2_parse : string → result string PasswordHash)
    argon2_verify (nil : Uuid) repo request t :
  skip_auth (req_path request) = false →
  ((rest_auth_middleware argon2_parse argon2_verify (with_repository nil repo) request).1 = Next (Some t) ↔
   ∃ raw, authorization request = Some (Some ("Bearer " +:+ raw)) ∧
     valid_key argon2_parse argon2_verify repo raw t) ∧
  ((grpc_auth_interceptor argon2_parse argon2_verify (with_repository nil repo) request).1 = Next (Some t) ↔
   ∃ raw, authorization request = Some (Some ("Bearer " +:+ raw)) ∧
     valid_key argon2_parse argon2_verify repo raw t) ∧
  (rest_auth_middleware argon2_parse argon2_verify (with_repository nil repo) request).1 ≠ Next None.
Proof. apply middleware_valid_key. Qed.

(** A stand-in for argon2: the hash is [$] and the secret. *)
Definition toy_hash (salt secret : string) : result string string := Ok ("$" +:+ secret).
Definition toy_parse (hash : string) : result string string :=
  match strip_prefix "$" hash with Some s => Ok s | None => Err "password hash string missing field" end.
Definition toy_verify (secret parsed : string) : bool := bool_decide (parsed = secret).

Definition toy_key : string := "kraalzibar_0123456789abcdef_s_3cret".
Definition toy_repo (kid : string) : result string (option (@ApiKeyRow positive)) :=
  if bool_decide (kid = "0123456789abcdef")
  then Ok (Some (mk_ApiKeyRow kid "$s_3cret" 7%positive false)) else Ok None.

Lemma middleware_authenticates_witness :
  (rest_auth_middleware toy_parse toy_verify (with_repository 1%positive toy_repo)
     (mk_AuthRequest "/v1/schema" (Some (Some ("Bearer " +:+ toy_key))))).1 =
    Next (Some (mk_TenantId 7%positive)) ∧
  valid_key toy_parse toy_verify toy_repo toy_key (mk_TenantId 7%positive).
Proof.
  split; [vm_compute; reflexivity|].
  destruct (middleware_authenticates toy_parse toy_verify 1%positive toy_repo
    (mk_AuthRequest "/v1/schema" (Some (Some ("Bearer " +:+ toy_key)))) (mk_TenantId 7%positive)
    eq_refl) as ([H _] & _ & _).
  destruct H as (raw & Hraw & Hvalid); [vm_compute; reflexivity|].
  assert (raw = toy_key) as -> by (apply (inj (String.append "Bearer ")); cbn [authorization] in Hraw; congruence).
  exact Hvalid.
Defined.

(** An issued key works: the key [create-api-key] prints, sent as a bearer
    token once its row is in the repository, authenticates its tenant on both
    APIs, if argon2 verifies the secrets it hashed. *)
Theorem issued_key_authenticates {Uuid PasswordHash} argon2_hash
    (argon2_parse : string → result string PasswordHash) argon2_verify (nil : Uuid) repo
    id_indices secret_indices salt tenant_uuid full_key row path :
  (∀ salt secret hash, argon2_hash salt secret = Ok hash →
     ∃ parsed, argon2_parse hash = Ok parsed ∧ argon2_verify secret parsed = true) →
  length id_indices = 16 → Forall (λ idx, idx < 36) id_indices →
  length secret_indices = 32 → Forall (λ idx, idx < 36) secret_indices →
  create_api_key argon2_hash id_indices secret_indices salt tenant_uuid = Ok (full_key, row) →
  repo (row_key_id row) = Ok (Some row) → skip_auth path = false →
  let request := mk_AuthRequest path (Some (Some ("Bearer " +:+ full_key))) in
  (rest_auth_middleware argon2_parse argon2_verify (with_repository nil repo) request).1 =
    Next (Some (mk_TenantId tenant_uuid)) ∧
  (grpc_auth_interceptor argon2_parse argon2_verify (with_repository nil repo) request).1 =
    Next (Some (mk_TenantId tenant_uuid)).
Proof.
  intros Hlaw Hlen Hid Hlen' Hsec Hcreate Hrepo Hskip request.
  unfold create_api_key, generate_api_key in Hcreate.
  assert (parse_api_key ("kraalzibar_" +:+ key_string id_indices +:+ "_" +:+ key_string secret_indices) =
    Ok (key_string id_indices, key_string secret_indices)) as Hparse.
  { apply parse_api_key_Ok. split_and!; [done|by apply key_string_no_underscore|..].
    - by destruct id_indices.
    - by destruct secret_indices. }
  rewrite Hparse in Hcreate. cbn [try] in Hcreate.
  apply try_Ok in Hcreate as (hash & Hhash%map_err_Ok & [= <- <-]).
  destruct (Hlaw _ _ _ Hhash) as (parsed & Hph & Hv).
  assert (valid_key argon2_parse argon2_verify repo
    ("kraalzibar_" +:+ key_string id_indices +:+ "_" +:+ key_string secret_indices)
    (mk_TenantId tenant_uuid)) as Hvalid.
  { do 4 eexists. split_and!; [exact Hparse|exact Hrepo|done|exact Hph|exact Hv|done]. }
  unfold rest_auth_middleware, grpc_auth_interceptor. cbn [req_path authorization request].
  rewrite Hskip. cbn [repository with_repository mjoin option_join].
  rewrite (proj2 (strip_prefix_Some "Bearer " _ _) eq_refl), Hparse.
  unfold lookup_by_key_id. cbn [row_key_id] in Hrepo. rewrite Hrepo. cbn [try option_map].
  assert (lookup_by_key_id repo (key_string id_indices) =
    Ok (Some (record_of_row (mk_ApiKeyRow (key_string id_indices) hash tenant_uuid false)))) as Hl
    by (unfold lookup_by_key_id; by rewrite Hrepo).
  destruct (proj2 (authenticate_next argon2_parse argon2_verify repo _ _ _ _ _ Hparse Hl) Hvalid)
    as (ctx & log & -> & ->). done.
Qed.

Definition issued_key : string :=
  "kraalzibar_zzzzzzzzzzzzzzzz_00000000000000000000000000000000".
Definition issued_row : @ApiKeyRow positive :=
  mk_ApiKeyRow "zzzzzzzzzzzzzzzz" "$00000000000000000000000000000000" 7%positive false.

Lemma issued_key_authenticates_witness :
  (rest_auth_middleware toy_parse toy_verify (with_repository 1%positive (λ _, Ok (Some issued_row)))
     (mk_AuthRequest "/v1/schema" (Some (Some ("Bearer " +:+ issued_key))))).1 =
    Next (Some (mk_TenantId 7%positive)).
Proof.
  refine (proj1 (issued_key_authenticates toy_hash toy_parse toy_verify 1%positive
    (λ _, Ok (Some issued_row)) (replicate 16 35) (replicate 32 0) "salt" 7%positive
    issued_key issued_row "/v1/schema" _ _ _ _ _ _ _ _)); [|done|by repeat constructor|done|by repeat constructor|done..].
  intros salt secret hash [= <-]. exists secret. unfold toy_parse, toy_verify. split.
  - by rewrite (proj2 (strip_prefix_Some "$" ("$" +:+ secret) secret) eq_refl).
  - by apply bool_decide_eq_true.
Defined.

(** Keys that are missing or malformed are refused without an audit event:
    the middlewares parse the key before [authenticate] does, so its branch
    that audits a malformed key is never reached from them. *)
Theorem malformed_keys_unaudited {Uuid PasswordHash} (argon2_parse : string → result string PasswordHash)
    argon2_verify (nil : Uuid) repo request :
  skip_auth (req_path request) = false →
  (∀ raw parts, authorization request = Some (Some ("Bearer " +:+ raw)) → parse_api_key raw ≠ Ok parts) →
  (∃ msg, rest_auth_middleware argon2_parse argon2_verify (with_repository nil repo) request =
            (Respond 401 msg, [])) ∧
  (∃ msg, grpc_auth_interceptor argon2_parse argon2_verify (with_repository nil repo) request =
            (Respond 16 msg, [])).
Proof.
  intros Hskip Hbad. unfold rest_auth_middleware, grpc_auth_interceptor. rewrite Hskip.
  cbn [repository with_repository].
  destruct (authorization request) as [[h|]|] eqn:Hh; cbn [mjoin option_join]; [|by eauto..].
  destruct (strip_prefix "Bearer " h) as [raw|] eqn:Hb; [|by eauto].
  apply (proj1 (strip_prefix_Some _ _ _)) in Hb as ->.
  destruct (parse_api_key raw) as [parts|e] eqn:Hp; [|by eauto]. by destruct (Hbad raw parts).
Qed.

Lemma malformed_keys_unaudited_witness :
  (∃ msg, rest_auth_middleware toy_parse toy_verify (with_repository 1%positive toy_repo)
            (mk_AuthRequest "/v1/schema" (Some (Some "Bearer kraalzibar_guess"))) = (Respond 401 msg, [])) ∧
  (∃ msg, grpc_auth_interceptor toy_parse toy_verify (with_repository 1%positive toy_repo)
            (mk_AuthRequest "/v1/schema" (Some (Some "Bearer kraalzibar_guess"))) = (Respond 16 msg, [])).
Proof.
  apply (malformed_keys_unaudited toy_parse toy_verify 1%positive toy_repo).
  - reflexivity.
  - intros raw parts Hraw.
    assert (raw = "kraalzibar_guess") as ->
      by (apply (inj (String.append "Bearer ")); change (Some (Some ("Bearer " +:+ "kraalzibar_guess")) =
          Some (Some ("Bearer " +:+ raw))) in Hraw; congruence).
    vm_compute. discriminate.
Defined.
