(* ===== verification/Config.v ===== *)
(** * Configuration ([crates/kraalzibar-server/src/config.rs])

    A configuration is the defaults or a TOML file, then the environment, then
    validation.  The file system, the TOML reader and the standard library's
    decimal reader of [f64] are parameters; integers are Z at the width of
    their field, [usize] being 64 bits. *)
From Stdlib Require Import SpecFloat.
From stdpp Require Import base tactics list strings pretty.
From S2P Require Import Prelude Schema Validation Engine Numbers Metrics.

Record GrpcConfig := mk_GrpcConfig { grpc_host : string; grpc_port : Z }.
Record RestConfig := mk_RestConfig { rest_host : string; rest_port : Z }.
Record DatabaseConfig := mk_DatabaseConfig {
  url : string; max_connections : Z; min_connections : Z; acquire_timeout_seconds : Z;
  idle_timeout_seconds : Z; max_lifetime_seconds : Z }.
Record EngineConfigValues := mk_EngineConfigValues {
  cfg_max_depth : Z; cfg_max_concurrent_branches : Z }.
Record SchemaLimitsConfig := mk_SchemaLimitsConfig {
  cfg_max_types : Z; cfg_max_relations_per_type : Z; cfg_max_permissions_per_type : Z }.
Inductive LogFormat := Json | Pretty.
Record LogConfig := mk_LogConfig { log_format : LogFormat; log_level : string }.
Record CacheConfig := mk_CacheConfig {
  schema_cache_capacity : Z; schema_cache_ttl_seconds : Z;
  check_cache_capacity : Z; check_cache_ttl_seconds : Z }.
Record TracingConfig := mk_TracingConfig {
  tracing_enabled : bool; otlp_endpoint : string; service_name : string; sample_rate : f64 }.
Record TlsConfig := mk_TlsConfig { cert_path : string; key_path : string }.

Record AppConfig := mk_AppConfig {
  grpc : GrpcConfig; rest : RestConfig; database : DatabaseConfig; engine : EngineConfigValues;
  schema_limits : SchemaLimitsConfig; log : LogConfig; cache : CacheConfig;
  tracing : TracingConfig; tls : TlsConfig }.

Inductive ConfigError :=
| ReadFile (path e : string)
| ParseToml (e : string)
| Validation (msg : string).

Definition config_error_display (e : ConfigError) : string :=
  match e with
  | ReadFile path e => "failed to read config file '" +:+ path +:+ "': " +:+ e
  | ParseToml e => "failed to parse TOML config: " +:+ e
  | Validation msg => "config validation failed: " +:+ msg
  end.

(** ** Defaults *)

Definition f64_one : f64 := f64_of_Z 1.

Definition grpc_default : GrpcConfig := mk_GrpcConfig "0.0.0.0" 50051.
Definition rest_default : RestConfig := mk_RestConfig "0.0.0.0" 8080.
Definition database_default : DatabaseConfig := mk_DatabaseConfig EmptyString 10 0 30 600 1800.
Definition engine_default : EngineConfigValues := mk_EngineConfigValues 6 10.
Definition schema_limits_default : SchemaLimitsConfig := mk_SchemaLimitsConfig 50 30 30.
Definition log_default : LogConfig := mk_LogConfig Json "info".
Definition cache_default : CacheConfig := mk_CacheConfig 1000 30 10000 300.
Definition tracing_default : TracingConfig :=
  mk_TracingConfig false "http://localhost:4317" "kraalzibar" f64_one.
Definition tls_default : TlsConfig := mk_TlsConfig EmptyString EmptyString.
Definition config_default : AppConfig :=
  mk_AppConfig grpc_default rest_default database_default engine_default schema_limits_default
    log_default cache_default tracing_default tls_default.

(** ** Methods of the sections *)

Definition is_empty (s : string) : bool := bool_decide (s = EmptyString).

Definition is_enabled (t : TlsConfig) : bool :=
  negb (is_empty (cert_path t)) && negb (is_empty (key_path t)).

Definition is_configured (d : DatabaseConfig) : bool := negb (is_empty (url d)).

Definition require_configured (d : DatabaseConfig) : result ConfigError unit :=
  if is_empty (url d)
  then Err (Validation "database URL is required for this command (set [database].url in config or KRAALZIBAR_DATABASE_URL env var)")
  else Ok tt.

(** [Debug] of [DatabaseConfig]: the URL, which holds a password, is redacted. *)
Definition database_debug (d : DatabaseConfig) : string :=
  "DatabaseConfig { url: " +:+ dquote +:+ "[REDACTED]" +:+ dquote
  +:+ ", max_connections: " +:+ pretty (max_connections d)
  +:+ ", min_connections: " +:+ pretty (min_connections d)
  +:+ ", acquire_timeout_seconds: " +:+ pretty (acquire_timeout_seconds d)
  +:+ ", idle_timeout_seconds: " +:+ pretty (idle_timeout_seconds d)
  +:+ ", max_lifetime_seconds: " +:+ pretty (max_lifetime_seconds d) +:+ " }".

Definition to_engine_config (c : AppConfig) : EngineConfig :=
  mk_EngineConfig (Z.to_nat (cfg_max_depth (engine c)))
    (Z.to_nat (cfg_max_concurrent_branches (engine c))).

Definition to_schema_limits (c : AppConfig) : SchemaLimits :=
  mk_SchemaLimits (Z.to_nat (cfg_max_types (schema_limits c)))
    (Z.to_nat (cfg_max_relations_per_type (schema_limits c)))
    (Z.to_nat (cfg_max_permissions_per_type (schema_limits c))).

Definition grpc_addr (c : AppConfig) : string :=
  grpc_host (grpc c) +:+ ":" +:+ pretty (grpc_port (grpc c)).
Definition rest_addr (c : AppConfig) : string :=
  rest_host (rest c) +:+ ":" +:+ pretty (rest_port (rest c)).

(** ** The environment *)

(** [if let Some(v) = env(key) { field = v; }] *)
Definition env_string (env : string → option string) (key : string) (field : string) : string :=
  default field (env key).

(** [if let Some(v) = env(key) && let Ok(n) = v.parse() { field = n; }] *)
Definition env_parse {A} (parse : string → option A) (env : string → option string)
    (key : string) (field : A) : A :=
  default field (env key ≫= parse).

Definition parse_log_format (v : string) : option LogFormat :=
  if bool_decide (v = "json") then Some Json
  else if bool_decide (v = "pretty") then Some Pretty else None.

Definition apply_env_overrides_with (parse_f64 : string → option f64) (env : string → option string) (c : AppConfig) : AppConfig :=
  mk_AppConfig
    (mk_GrpcConfig (env_string env "KRAALZIBAR_GRPC_HOST" (grpc_host (grpc c)))
       (env_parse parse_u16 env "KRAALZIBAR_GRPC_PORT" (grpc_port (grpc c))))
    (mk_RestConfig (env_string env "KRAALZIBAR_REST_HOST" (rest_host (rest c)))
       (env_parse parse_u16 env "KRAALZIBAR_REST_PORT" (rest_port (rest c))))
    (let d := database c in
     mk_DatabaseConfig (env_string env "KRAALZIBAR_DATABASE_URL" (url d))
       (env_parse parse_u32 env "KRAALZIBAR_DATABASE_MAX_CONNECTIONS" (max_connections d))
       (env_parse parse_u32 env "KRAALZIBAR_DATABASE_MIN_CONNECTIONS" (min_connections d))
       (env_parse parse_u64 env "KRAALZIBAR_DATABASE_ACQUIRE_TIMEOUT" (acquire_timeout_seconds d))
       (env_parse parse_u64 env "KRAALZIBAR_DATABASE_IDLE_TIMEOUT" (idle_timeout_seconds d))
       (env_parse parse_u64 env "KRAALZIBAR_DATABASE_MAX_LIFETIME" (max_lifetime_seconds d)))
    (mk_EngineConfigValues
       (env_parse parse_u64 env "KRAALZIBAR_ENGINE_MAX_DEPTH" (cfg_max_depth (engine c)))
       (cfg_max_concurrent_branches (engine c)))
    (schema_limits c)
    (mk_LogConfig
       (env_parse parse_log_format env "KRAALZIBAR_LOG_FORMAT" (log_format (log c)))
       (env_string env "KRAALZIBAR_LOG_LEVEL" (log_level (log c))))
    (let k := cache c in
     mk_CacheConfig
       (env_parse parse_u64 env "KRAALZIBAR_CACHE_SCHEMA_CAPACITY" (schema_cache_capacity k))
       (env_parse parse_u64 env "KRAALZIBAR_CACHE_SCHEMA_TTL" (schema_cache_ttl_seconds k))
       (env_parse parse_u64 env "KRAALZIBAR_CACHE_CHECK_CAPACITY" (check_cache_capacity k))
       (env_parse parse_u64 env "KRAALZIBAR_CACHE_CHECK_TTL" (check_cache_ttl_seconds k)))
    (let t := tracing c in
     mk_TracingConfig
       (match env "KRAALZIBAR_TRACING_ENABLED" with
        | Some v => bool_decide (v = "true") || bool_decide (v = "1")
        | None => tracing_enabled t
        end)
       (env_string env "KRAALZIBAR_TRACING_OTLP_ENDPOINT" (otlp_endpoint t))
       (env_string env "KRAALZIBAR_TRACING_SERVICE_NAME" (service_name t))
       (env_parse parse_f64 env "KRAALZIBAR_TRACING_SAMPLE_RATE" (sample_rate t)))
    (mk_TlsConfig (env_string env "KRAALZIBAR_TLS_CERT_PATH" (cert_path (tls c)))
       (env_string env "KRAALZIBAR_TLS_KEY_PATH" (key_path (tls c)))).

(** ** Validation *)

(** [if bad { return Err(ConfigError::Validation(msg)); }] *)
Definition reject_if (bad : bool) (msg : string) : result ConfigError unit :=
  if bad then Err (Validation msg) else Ok tt.

Definition validate_database (d : DatabaseConfig) : result ConfigError unit :=
  let? _ := reject_if (max_connections d =? 0)%Z "database.max_connections must be non-zero" in
  let? _ := reject_if (max_connections d <? min_connections d)%Z
              "database.min_connections must be <= max_connections" in
  let? _ := reject_if (acquire_timeout_seconds d =? 0)%Z
              "database.acquire_timeout_seconds must be non-zero" in
  let? _ := reject_if (idle_timeout_seconds d =? 0)%Z
              "database.idle_timeout_seconds must be non-zero" in
  reject_if (max_lifetime_seconds d =? 0)%Z "database.max_lifetime_seconds must be non-zero".

(** [(0.0..=1.0).contains(&rate)] *)
Definition in_unit_interval (rate : f64) : bool := f64_leb f64_zero rate && f64_leb rate f64_one.

Definition validate (c : AppConfig) : result ConfigError unit :=
  let? _ := reject_if (grpc_port (grpc c) =? 0)%Z "grpc.port must be non-zero" in
  let? _ := reject_if (rest_port (rest c) =? 0)%Z "rest.port must be non-zero" in
  let? _ := reject_if (cfg_max_depth (engine c) =? 0)%Z "engine.max_depth must be non-zero" in
  let? _ := if is_configured (database c) then validate_database (database c) else Ok tt in
  let? _ := reject_if (cfg_max_concurrent_branches (engine c) =? 0)%Z
              "engine.max_concurrent_branches must be non-zero" in
  let? _ := reject_if (cfg_max_types (schema_limits c) =? 0)%Z
              "schema_limits.max_types must be non-zero" in
  let? _ := reject_if (cfg_max_relations_per_type (schema_limits c) =? 0)%Z
              "schema_limits.max_relations_per_type must be non-zero" in
  let? _ := reject_if (cfg_max_permissions_per_type (schema_limits c) =? 0)%Z
              "schema_limits.max_permissions_per_type must be non-zero" in
  let? _ := reject_if (schema_cache_capacity (cache c) =? 0)%Z
              "cache.schema_cache_capacity must be non-zero" in
  let? _ := reject_if (schema_cache_ttl_seconds (cache c) =? 0)%Z
              "cache.schema_cache_ttl_seconds must be non-zero" in
  let? _ := reject_if (check_cache_capacity (cache c) =? 0)%Z
              "cache.check_cache_capacity must be non-zero" in
  let? _ := reject_if (check_cache_ttl_seconds (cache c) =? 0)%Z
              "cache.check_cache_ttl_seconds must be non-zero" in
  let? _ := reject_if (negb (in_unit_interval (sample_rate (tracing c))))
              "tracing.sample_rate must be between 0.0 and 1.0" in
  let? _ := reject_if (tracing_enabled (tracing c) && is_empty (otlp_endpoint (tracing c)))
              "tracing.otlp_endpoint must not be empty when tracing is enabled" in
  let has_cert := negb (is_empty (cert_path (tls c))) in
  let has_key := negb (is_empty (key_path (tls c))) in
  reject_if (negb (eqb has_cert has_key))
    "tls.cert_path and tls.key_path must both be set or both be empty".

(** The configuration the environment is applied to; [read_to_string] and [toml::from_str] are parameters. *)
Definition base_config (read_to_string : string → result string string)
    (from_toml : string → result string AppConfig) (config_path : option string)
    : result ConfigError AppConfig :=
  match config_path with
  | Some path =>
      let? contents := map_err (ReadFile path) (read_to_string path) in
      map_err ParseToml (from_toml contents)
  | None => Ok config_default
  end.

Definition load (parse_f64 : string → option f64)
    (read_to_string : string → result string string)
    (from_toml : string → result string AppConfig) (env : string → option string)
    (config_path : option string) : result ConfigError AppConfig :=
  let? base := base_config read_to_string from_toml config_path in
  let config := apply_env_overrides_with parse_f64 env base in
  let? _ := validate config in
  Ok config.

(** ** What a valid configuration is *)

Record valid_database (d : DatabaseConfig) : Prop := {
  vd_max : max_connections d ≠ 0%Z;
  vd_min : (min_connections d ≤ max_connections d)%Z;
  vd_acquire : acquire_timeout_seconds d ≠ 0%Z;
  vd_idle : idle_timeout_seconds d ≠ 0%Z;
  vd_lifetime : max_lifetime_seconds d ≠ 0%Z }.

Record valid_config (c : AppConfig) : Prop := {
  vc_grpc_port : grpc_port (grpc c) ≠ 0%Z;
  vc_rest_port : rest_port (rest c) ≠ 0%Z;
  vc_depth : cfg_max_depth (engine c) ≠ 0%Z;
  vc_database : url (database c) ≠ EmptyString → valid_database (database c);
  vc_branches : cfg_max_concurrent_branches (engine c) ≠ 0%Z;
  vc_types : cfg_max_types (schema_limits c) ≠ 0%Z;
  vc_relations : cfg_max_relations_per_type (schema_limits c) ≠ 0%Z;
  vc_permissions : cfg_max_permissions_per_type (schema_limits c) ≠ 0%Z;
  vc_schema_capacity : schema_cache_capacity (cache c) ≠ 0%Z;
  vc_schema_ttl : schema_cache_ttl_seconds (cache c) ≠ 0%Z;
  vc_check_capacity : check_cache_capacity (cache c) ≠ 0%Z;
  vc_check_ttl : check_cache_ttl_seconds (cache c) ≠ 0%Z;
  vc_rate : in_unit_interval (sample_rate (tracing c)) = true;
  vc_endpoint : tracing_enabled (tracing c) = true → otlp_endpoint (tracing c) ≠ EmptyString;
  vc_tls : cert_path (tls c) = EmptyString ↔ key_path (tls c) = EmptyString }.

Lemma reject_if_then {E} bad msg (k : result ConfigError E) e :
  try (reject_if bad msg) (λ _, k) = Ok e ↔ bad = false ∧ k = Ok e.
Proof. destruct bad; simpl; naive_solver. Qed.

Lemma reject_if_Ok bad msg : reject_if bad msg = Ok tt ↔ bad = false.
Proof. destruct bad; naive_solver. Qed.

Lemma eqb_zero_false n : (n =? 0)%Z = false ↔ n ≠ 0%Z.
Proof. apply Z.eqb_neq. Qed.

Lemma validate_database_Ok d : validate_database d = Ok tt ↔ valid_database d.
Proof.
  unfold validate_database. rewrite !reject_if_then, reject_if_Ok, !eqb_zero_false, Z.ltb_ge.
  split; [|by intros []; split_and!]. intros (? & ? & ? & ? & ?). by split.
Qed.

Lemma when_configured_Ok (c : AppConfig) :
  (if is_configured (database c) then validate_database (database c) else Ok tt) = Ok tt ↔
  (url (database c) ≠ EmptyString → valid_database (database c)).
Proof.
  unfold is_configured, is_empty. case_bool_decide; simpl; [naive_solver|].
  rewrite validate_database_Ok. naive_solver.
Qed.

Lemma tls_pair_Ok (t : TlsConfig) :
  negb (eqb (negb (is_empty (cert_path t))) (negb (is_empty (key_path t)))) = false ↔
  (cert_path t = EmptyString ↔ key_path t = EmptyString).
Proof. unfold is_empty. repeat case_bool_decide; simpl; naive_solver. Qed.

Lemma tracing_endpoint_Ok (t : TracingConfig) :
  tracing_enabled t && is_empty (otlp_endpoint t) = false ↔
  (tracing_enabled t = true → otlp_endpoint t ≠ EmptyString).
Proof. unfold is_empty. destruct (tracing_enabled t); case_bool_decide; naive_solver. Qed.

Lemma then_Ok {A} (r : result ConfigError unit) (k : result ConfigError A) a :
  try r (λ _, k) = Ok a ↔ r = Ok tt ∧ k = Ok a.
Proof. destruct r as [[]|e]; naive_solver. Qed.

Lemma validate_Ok c : validate c = Ok tt ↔ valid_config c.
Proof.
  unfold validate. rewrite !then_Ok, !reject_if_Ok, !eqb_zero_false, when_configured_Ok,
    negb_false_iff, tls_pair_Ok, tracing_endpoint_Ok.
  split; [|by intros []; split_and!]. intros. by destruct_and!; split.
Qed.

Lemma load_Ok parse_f64 read_to_string from_toml env path c :
  load parse_f64 read_to_string from_toml env path = Ok c ↔
  ∃ base, base_config read_to_string from_toml path = Ok base ∧
          c = apply_env_overrides_with parse_f64 env base ∧ valid_config c.
Proof.
  unfold load. rewrite try_Ok. setoid_rewrite then_Ok. setoid_rewrite validate_Ok.
  split; intros (base & Hb & H).
  - destruct H as [Hv [= <-]]. by exists base.
  - destruct H as [-> Hv]. by exists base.
Qed.

Lemma validate_error c e : validate c = Err e → ∃ msg, e = Validation msg.
Proof.
  assert (∀ (r k : result ConfigError unit), try r (λ _, k) = Err e → r = Err e ∨ k = Err e) as Htry
    by (intros [[]|] k; naive_solver).
  assert (∀ bad msg, reject_if bad msg = Err e → ∃ msg', e = Validation msg') as Hr
    by (intros [] msg [= <-]; eauto).
  assert (∀ d, validate_database d = Err e → ∃ msg', e = Validation msg') as Hd.
  { intros d He. unfold validate_database in He.
    repeat (apply Htry in He as [He|He]; [by eapply Hr|]). by eapply Hr. }
  unfold validate. intros He.
  repeat (apply Htry in He as [He|He];
    [first [by eapply Hr|destruct (is_configured _) in He; [by eapply Hd|done]]|]).
  by eapply Hr.
Qed.

Lemma validate_decides c : ¬ valid_config c → ∃ msg, validate c = Err (Validation msg).
Proof.
  intros Hc. destruct (validate c) as [[]|e] eqn:He; [by destruct Hc; apply validate_Ok|].
  destruct (validate_error c e He) as [msg ->]. eauto.
Qed.

(** The integer fields are at the width of their type. *)
Record config_widths (c : AppConfig) : Prop := {
  cw_ports : Forall (λ p, 0 ≤ p < 2 ^ 16)%Z [grpc_port (grpc c); rest_port (rest c)];
  cw_connections :
    Forall (λ n, 0 ≤ n < 2 ^ 32)%Z [max_connections (database c); min_connections (database c)];
  cw_words : Forall is_u64 [acquire_timeout_seconds (database c); idle_timeout_seconds (database c);
    max_lifetime_seconds (database c); cfg_max_depth (engine c);
    cfg_max_concurrent_branches (engine c); cfg_max_types (schema_limits c);
    cfg_max_relations_per_type (schema_limits c); cfg_max_permissions_per_type (schema_limits c);
    schema_cache_capacity (cache c); schema_cache_ttl_seconds (cache c);
    check_cache_capacity (cache c); check_cache_ttl_seconds (cache c)] }.

Lemma env_parse_range (P : Z → Prop) max env key field :
  (∀ v, (0 ≤ v ≤ max)%Z → P v) → P field → P (env_parse (parse_uint max) env key field).
Proof.
  intros HP Hf. unfold env_parse. destruct (env key) as [s|]; [|done]. simpl.
  destruct (parse_uint max s) as [v|] eqn:Hv; [|done]. by eapply HP, parse_uint_range.
Qed.

Lemma env_overrides_widths parse_f64 env c :
  config_widths c → config_widths (apply_env_overrides_with parse_f64 env c).
Proof.
  intros [Hp Hc Hw].
  repeat match goal with H : Forall _ (_ :: _) |- _ => apply Forall_cons in H as [? H] end.
  unfold apply_env_overrides_with, parse_u16, parse_u32, parse_u64.
  split; repeat (apply Forall_cons; split); try apply Forall_nil; try done;
    cbn [grpc rest database engine schema_limits cache grpc_port rest_port max_connections
         min_connections acquire_timeout_seconds idle_timeout_seconds max_lifetime_seconds
         cfg_max_depth schema_cache_capacity schema_cache_ttl_seconds check_cache_capacity
         check_cache_ttl_seconds];
    try match goal with |- context [env_parse (parse_uint ?m) ?e ?k ?f] =>
      pattern (env_parse (parse_uint m) e k f);
      apply env_parse_range; [unfold is_u64, u64_max; lia|] end; done.
Qed.

(** The values the engine and the validation get are those of the
    configuration, and are not zero. *)
Lemma engine_config_positive c :
  config_widths c → valid_config c →
  1 ≤ max_depth (to_engine_config c) ∧
  Z.of_nat (max_depth (to_engine_config c)) = cfg_max_depth (engine c).
Proof.
  intros [_ _ Hw] Hv. pose proof (vc_depth c Hv).
  repeat match goal with H : Forall _ (_ :: _) |- _ => apply Forall_cons in H as [? H] end.
  unfold is_u64 in *. simpl. lia.
Qed.

(** ** The theorems *)

(** C36: The server starts exactly with the valid configurations: [load] returns
    the file's configuration (or the defaults) with the environment applied
    when that is valid, and fails with a validation error when it is not. *)
Theorem load_exact parse_f64 read_to_string from_toml env path :
  (∀ c, load parse_f64 read_to_string from_toml env path = Ok c ↔
     ∃ base, base_config read_to_string from_toml path = Ok base ∧
             c = apply_env_overrides_with parse_f64 env base ∧ valid_config c) ∧
  (∀ e, load parse_f64 read_to_string from_toml env path = Err e ↔
     base_config read_to_string from_toml path = Err e ∨
     ∃ base, base_config read_to_string from_toml path = Ok base ∧
             ¬ valid_config (apply_env_overrides_with parse_f64 env base) ∧
             validate (apply_env_overrides_with parse_f64 env base) = Err e ∧
             ∃ msg, e = Validation msg).
Proof.
  split; [intros c; apply load_Ok|]. intros e. unfold load.
  destruct (base_config read_to_string from_toml path) as [base|e'] eqn:Hb; simpl; [|naive_solver].
  destruct (validate _) as [[]|e'] eqn:Hv; simpl.
  - split; [done|]. intros [?|(base' & [= <-] & _ & Hv' & _)]; congruence.
  - split.
    + intros [= <-]. right. exists base. split_and!; [done| |done|by eapply validate_error].
      intros Hc. apply validate_Ok in Hc. congruence.
    + intros [?|(base' & [= <-] & _ & Hv' & _)]; congruence.
Qed.

(** C40: The depth limit an operator sets is the one of the engine's settings: a
    [KRAALZIBAR_ENGINE_MAX_DEPTH] that parses as a 64-bit number, as every
    64-bit number in decimal does, replaces the value of the file or the
    defaults, and anything else leaves it; the [EngineConfig] of a loaded
    configuration has exactly that limit, at least 1; and no integer of the
    configuration leaves its width. *)
Theorem engine_max_depth_exact parse_f64 read_to_string from_toml env path base c :
  config_widths base →
  base_config read_to_string from_toml path = Ok base →
  load parse_f64 read_to_string from_toml env path = Ok c →
  config_widths c ∧
  1 ≤ max_depth (to_engine_config c) ∧
  (∀ n, is_u64 n → env "KRAALZIBAR_ENGINE_MAX_DEPTH" = Some (pretty n) →
     Z.of_nat (max_depth (to_engine_config c)) = n) ∧
  (∀ n, env "KRAALZIBAR_ENGINE_MAX_DEPTH" ≫= parse_u64 = Some n →
     Z.of_nat (max_depth (to_engine_config c)) = n) ∧
  (env "KRAALZIBAR_ENGINE_MAX_DEPTH" ≫= parse_u64 = None →
     Z.of_nat (max_depth (to_engine_config c)) = cfg_max_depth (engine base)).
Proof.
  intros Hw Hb (base' & Hb' & -> & Hv)%load_Ok. assert (base' = base) as -> by congruence.
  pose proof (env_overrides_widths parse_f64 env base Hw) as Hw'.
  destruct (engine_config_positive _ Hw' Hv) as [Hpos ->]. split_and!; [done|done|..].
  - intros n Hn He. cbn [apply_env_overrides_with engine cfg_max_depth]. unfold env_parse. rewrite He.
    cbn [mbind option_bind]. unfold parse_u64. rewrite parse_uint_pretty; [done|].
    unfold is_u64, u64_max in *. lia.
  - intros n He. cbn [apply_env_overrides_with engine cfg_max_depth]. unfold env_parse. by rewrite He.
  - intros He. cbn [apply_env_overrides_with engine cfg_max_depth]. unfold env_parse. by rewrite He.
Qed.

Definition depth_env (key : string) : option string :=
  if bool_decide (key = "KRAALZIBAR_ENGINE_MAX_DEPTH") then Some "12"
  else if bool_decide (key = "KRAALZIBAR_REST_PORT") then Some "70000" else None.

Definition depth_config : AppConfig :=
  mk_AppConfig grpc_default rest_default database_default (mk_EngineConfigValues 12 10)
    schema_limits_default log_default cache_default tracing_default tls_default.

Lemma engine_max_depth_exact_witness :
  load (λ _, None) (λ _, Err EmptyString) (λ _, Err EmptyString) depth_env None = Ok depth_config ∧
  Z.of_nat (max_depth (to_engine_config depth_config)) = 12%Z.
Proof.
  assert (load (λ _, None) (λ _, Err EmptyString) (λ _, Err EmptyString) depth_env None = Ok depth_config)
    as Hload by (vm_compute; reflexivity).
  split; [exact Hload|].
  apply (engine_max_depth_exact (λ _, None) (λ _, Err EmptyString) (λ _, Err EmptyString) depth_env None
    config_default depth_config).
  - split; repeat constructor; vm_compute; congruence.
  - reflexivity.
  - exact Hload.
  - vm_compute. reflexivity.
Defined.
