(* ===== verification/Rest.v ===== *)
(** * The REST API ([crates/kraalzibar-server/src/rest/])

    [types.rs], [handlers.rs] and [mod.rs]: the request and response types, a
    handler per route, the error mapping, the router, and the two middlewares
    around it.  A handler is a function from the state of the service to a
    response and the next state.  What axum and serde do is a parameter: the
    [Json] extractor of each request type, and the answers of axum's own. *)
From stdpp Require Import base tactics list strings gmap pretty.
From S2P Require Import Prelude Tuples Schema Validation Parser Engine Check Expand Storage Cache.
From S2P Require Import Metrics Service Numbers Auth.

(** ** [serde_json::Value], as far as the handlers build it

    The fields of an object are listed in the order of the source. *)
Inductive json :=
| JNull
| JBool (b : bool)
| JString (s : string)
| JArray (elements : list json)
| JObject (fields : list (string * json)).

(** [(StatusCode, Json<Value>)] *)
Abbreviation ApiResult := (Z * json)%type.

Definition json_string_option (o : option string) : json :=
  match o with Some s => JString s | None => JNull end.

(** [#[serde(skip_serializing_if = "Option::is_none")]] *)
Definition skip_none (name : string) (o : option string) : list (string * json) :=
  match o with Some s => [(name, JString s)] | None => [] end.

(** ** [types.rs] *)

Inductive ConsistencyRequest :=
| CrFull
| CrMinimizeLatency
| CrAtLeastAsFresh (token : string)
| CrAtExactSnapshot (token : string).

Record CheckPermissionRequest := mk_CheckPermissionRequest {
  cp_resource_type : string; cp_resource_id : string; cp_permission : string;
  cp_subject_type : string; cp_subject_id : string; cp_consistency : option ConsistencyRequest }.
Record CheckPermissionResponse := mk_CheckPermissionResponse {
  cpr_allowed : bool; checked_at : option string }.
Record ExpandPermissionRequest := mk_ExpandPermissionRequest {
  ep_resource_type : string; ep_resource_id : string; ep_permission : string;
  ep_consistency : option ConsistencyRequest }.
Record ExpandPermissionResponse := mk_ExpandPermissionResponse {
  epr_tree : json; expanded_at : option string }.
Record LookupResourcesRequest := mk_LookupResourcesRequest {
  lr_resource_type : string; lr_permission : string; lr_subject_type : string;
  lr_subject_id : string; lr_limit : option nat; lr_consistency : option ConsistencyRequest }.
Record LookupResourcesResponse := mk_LookupResourcesResponse {
  lrr_resource_ids : list string; lrr_looked_up_at : option string }.
Record LookupSubjectsRequest := mk_LookupSubjectsRequest {
  ls_resource_type : string; ls_resource_id : string; ls_permission : string;
  ls_subject_type : string; ls_consistency : option ConsistencyRequest }.
Record SubjectResponse := mk_SubjectResponse {
  sr_subject_type : string; sr_subject_id : string; sr_subject_relation : option string }.
Record LookupSubjectsResponse := mk_LookupSubjectsResponse {
  lsr_subjects : list SubjectResponse; lsr_looked_up_at : option string }.
Record RelationshipUpdate := mk_RelationshipUpdate {
  operation : string; u_resource_type : string; u_resource_id : string; u_relation : string;
  u_subject_type : string; u_subject_id : string; u_subject_relation : option string }.
Record WriteRelationshipsRequest := mk_WriteRelationshipsRequest {
  updates : list RelationshipUpdate }.
Record WriteRelationshipsResponse := mk_WriteRelationshipsResponse { written_at : string }.
Record RelationshipFilterRequest := mk_RelationshipFilterRequest {
  rf_resource_type : option string; rf_resource_id : option string; rf_relation : option string;
  rf_subject_type : option string; rf_subject_id : option string }.
Record ReadRelationshipsRequest := mk_ReadRelationshipsRequest {
  rr_filter : option RelationshipFilterRequest; rr_limit : option nat;
  rr_consistency : option ConsistencyRequest }.
Record RelationshipResponse := mk_RelationshipResponse {
  rel_resource_type : string; rel_resource_id : string; rel_relation : string;
  rel_subject_type : string; rel_subject_id : string; rel_subject_relation : option string }.
Record ReadRelationshipsResponse := mk_ReadRelationshipsResponse {
  rrr_relationships : list RelationshipResponse; read_at : option string }.
Record WriteSchemaRequest := mk_WriteSchemaRequest { ws_schema : string; ws_force : bool }.
Record WriteSchemaResponse := mk_WriteSchemaResponse { wsr_overridden : bool }.
Record ReadSchemaResponse := mk_ReadSchemaResponse { rsr_schema : string }.

(** *** [serde_json::to_value] of the responses *)

Class Serialize (T : Type) := to_value : T → json.

#[export] Instance CheckPermissionResponse_json : Serialize CheckPermissionResponse := λ r,
  JObject (("allowed", JBool (cpr_allowed r)) :: skip_none "checked_at" (checked_at r)).
#[export] Instance ExpandPermissionResponse_json : Serialize ExpandPermissionResponse := λ r,
  JObject (("tree", epr_tree r) :: skip_none "expanded_at" (expanded_at r)).
#[export] Instance LookupResourcesResponse_json : Serialize LookupResourcesResponse := λ r,
  JObject (("resource_ids", JArray (map JString (lrr_resource_ids r)))
           :: skip_none "looked_up_at" (lrr_looked_up_at r)).
#[export] Instance SubjectResponse_json : Serialize SubjectResponse := λ r,
  JObject ([("subject_type", JString (sr_subject_type r)); ("subject_id", JString (sr_subject_id r))]
           ++ skip_none "subject_relation" (sr_subject_relation r)).
#[export] Instance LookupSubjectsResponse_json : Serialize LookupSubjectsResponse := λ r,
  JObject (("subjects", JArray (map to_value (lsr_subjects r)))
           :: skip_none "looked_up_at" (lsr_looked_up_at r)).
#[export] Instance WriteRelationshipsResponse_json : Serialize WriteRelationshipsResponse := λ r,
  JObject [("written_at", JString (written_at r))].
#[export] Instance RelationshipResponse_json : Serialize RelationshipResponse := λ r,
  JObject ([("resource_type", JString (rel_resource_type r));
            ("resource_id", JString (rel_resource_id r)); ("relation", JString (rel_relation r));
            ("subject_type", JString (rel_subject_type r)); ("subject_id", JString (rel_subject_id r))]
           ++ skip_none "subject_relation" (rel_subject_relation r)).
#[export] Instance ReadRelationshipsResponse_json : Serialize ReadRelationshipsResponse := λ r,
  JObject (("relationships", JArray (map to_value (rrr_relationships r)))
           :: skip_none "read_at" (read_at r)).
#[export] Instance WriteSchemaResponse_json : Serialize WriteSchemaResponse := λ r,
  JObject [("breaking_changes_overridden", JBool (wsr_overridden r))].
#[export] Instance ReadSchemaResponse_json : Serialize ReadSchemaResponse := λ r,
  JObject [("schema", JString (rsr_schema r))].

(** ** Helpers of [handlers.rs] *)

Definition MAX_BATCH_SIZE : nat := 1000.
Definition MAX_IDENTIFIER_LENGTH : nat := 256.
Definition DEFAULT_READ_LIMIT : nat := 1000.

(** [to_value] does not fail on these types. *)
Definition json_response {T} `{Serialize T} (status : Z) (body : T) : ApiResult :=
  (status, to_value body).

Definition error_response (status : Z) (msg : string) : ApiResult :=
  (status, JObject [("error", JString msg)]).

Definition validate_identifier (field value : string) : result ApiResult unit :=
  if bool_decide (value = EmptyString) then
    Err (error_response 400 (field +:+ " must not be empty"))
  else if MAX_IDENTIFIER_LENGTH <? String.length value then
    Err (error_response 400 (field +:+ " exceeds maximum length of " +:+ pretty MAX_IDENTIFIER_LENGTH))
  else Ok tt.

(** [validate_identifier(..).and_then(|()| validate_identifier(..)) ..] *)
Fixpoint validate_identifiers (fields : list (string * string)) : result ApiResult unit :=
  match fields with
  | [] => Ok tt
  | (field, value) :: fields' =>
      let? _ := validate_identifier field value in validate_identifiers fields'
  end.

Definition parse_token (token : string) : result ApiResult SnapshotToken :=
  let? v := ok_or (parse_u64 token) (error_response 400 "invalid snapshot token format") in
  Ok (mk_SnapshotToken v).

Definition resolve_consistency (c : option ConsistencyRequest) : result ApiResult Consistency :=
  match c with
  | Some CrFull => Ok FullConsistency
  | Some (CrAtLeastAsFresh token) => let? t := parse_token token in Ok (AtLeastAsFresh t)
  | Some (CrAtExactSnapshot token) => let? t := parse_token token in Ok (AtExactSnapshot t)
  | _ => Ok MinimizeLatency
  end.

Definition api_error_to_response (err : ApiError) : ApiResult :=
  match err with
  | ApiCheck (TypeNotFound _) | ApiCheck (PermissionNotFound _ _) | ApiCheck (RelationNotFound _ _)
  | SchemaNotFound => error_response 404 (api_error_display err)
  | ApiCheck (MaxDepthExceeded _) => error_response 422 (api_error_display err)
  | ApiParse _ | ApiValidation _ => error_response 400 (api_error_display err)
  | ApiBreakingChanges _ => error_response 412 (api_error_display err)
  | ApiStorage EmptyDeleteFilter | ApiStorage (SnapshotAhead _ _) =>
      error_response 400 (api_error_display err)
  | ApiCheck (Engine.StorageError _) | ApiStorage (Internal _) =>
      error_response 500 "internal server error"
  end.

Fixpoint expand_tree_to_json (tree : ExpandTree) : json :=
  match tree with
  | Leaf s =>
      JObject [("type", JString "leaf");
               ("subject", JObject [("subject_type", JString (subject_type s));
                                    ("subject_id", JString (subject_id s));
                                    ("subject_relation", json_string_option (subject_relation s))])]
  | TreeThis _ subjects =>
      JObject [("type", JString "this"); ("children", JArray (map expand_tree_to_json subjects))]
  | TreeUnion children =>
      JObject [("type", JString "union"); ("children", JArray (map expand_tree_to_json children))]
  | TreeIntersection children =>
      JObject [("type", JString "intersection"); ("children", JArray (map expand_tree_to_json children))]
  | TreeExclusion base excluded =>
      JObject [("type", JString "exclusion"); ("base", expand_tree_to_json base);
               ("excluded", expand_tree_to_json excluded)]
  | TreeArrow _ _ children =>
      JObject [("type", JString "arrow"); ("children", JArray (map expand_tree_to_json children))]
  end.

(** [s.value().to_string()] and [s.to_string()] *)
Definition token_string (snapshot : option SnapshotToken) : option string :=
  option_map (λ s, pretty (token_value s)) snapshot.
Definition token_to_string (snapshot : option SnapshotToken) : option string :=
  option_map token_display snapshot.

(** ** The handlers *)

(** One turn of the loop of [write_relationships]. *)
Definition rest_update (update : RelationshipUpdate) (acc : list TupleWrite * list TupleFilter)
    : result ApiResult (list TupleWrite * list TupleFilter) :=
  let '(writes, deletes) := acc in
  let? _ := validate_identifiers [
    ("resource_type", u_resource_type update); ("resource_id", u_resource_id update);
    ("relation", u_relation update); ("subject_type", u_subject_type update);
    ("subject_id", u_subject_id update)] in
  let object := mk_ObjectRef (u_resource_type update) (u_resource_id update) in
  let subject := match u_subject_relation update with
                 | Some rel => userset (u_subject_type update) (u_subject_id update) rel
                 | None => direct (u_subject_type update) (u_subject_id update)
                 end in
  if bool_decide (operation update = "touch") then
    Ok (writes ++ [mk_TupleWrite object (u_relation update) subject], deletes)
  else if bool_decide (operation update = "delete") then
    Ok (writes,
        deletes ++ [mk_TupleFilter (Some (u_resource_type update)) (Some (u_resource_id update))
          (Some (u_relation update)) (Some (u_subject_type update)) (Some (u_subject_id update)) None])
  else Err (error_response 400 ("unknown operation: " +:+ operation update)).

Fixpoint rest_updates (updates : list RelationshipUpdate)
    (acc : list TupleWrite * list TupleFilter)
    : result ApiResult (list TupleWrite * list TupleFilter) :=
  match updates with
  | [] => Ok acc
  | update :: updates' => let? acc' := rest_update update acc in rest_updates updates' acc'
  end.

Definition filter_of_request (f : RelationshipFilterRequest) : TupleFilter :=
  mk_TupleFilter (rf_resource_type f) (rf_resource_id f) (rf_relation f)
    (rf_subject_type f) (rf_subject_id f) None.

Definition subject_response (s : SubjectRef) : SubjectResponse :=
  mk_SubjectResponse (subject_type s) (subject_id s) (subject_relation s).

Definition relationship_response (t : Tuple) : RelationshipResponse :=
  mk_RelationshipResponse (object_type (object t)) (object_id (object t)) (relation t)
    (subject_type (subject t)) (subject_id (subject t)) (subject_relation (subject t)).

Section handlers.
Context {Uuid F S SC CC : Type}.
Context `{StoreFactory F Uuid S, RelationshipStore S, SchemaStore S}.
Context `{Cache SC (TenantId Uuid) Schema, Cache CC (CheckCacheKey Uuid) bool}.
Context (pest_parse : pest_parser) (engine_config : EngineConfig) (schema_limits : SchemaLimits).

Abbreviation service := (@AuthzService Uuid F SC CC).

Definition handler : Type := service → ApiResult * service.

(** A response without a call on the service: [return resp]. *)
Definition respond (r : ApiResult) : handler := λ sv, (r, sv).

(** [match r { Ok(a) => a, Err(resp) => return resp }] *)
Definition or_return {A} (r : result ApiResult A) (k : A → handler) : handler :=
  match r with Ok a => k a | Err resp => respond resp end.

Notation "'let^' x := e 'in' k" := (or_return e (λ x, k))
  (at level 10, x name, e at level 200, k at level 200).

(** [match state.service.op(..).await { Ok(a) => .., Err(e) => api_error_to_response(e) }] *)
Definition call_service {A} (op : @svc Uuid F SC CC A) (ok : A → ApiResult) : handler := λ sv,
  let '(r, sv') := op sv in
  (match r with Ok a => ok a | Err e => api_error_to_response e end, sv').

Definition rest_check_permission (tenant_id : TenantId Uuid) (req : CheckPermissionRequest) : handler :=
  let^ _ := validate_identifiers [
    ("resource_type", cp_resource_type req); ("resource_id", cp_resource_id req);
    ("permission", cp_permission req); ("subject_type", cp_subject_type req);
    ("subject_id", cp_subject_id req)] in
  let^ consistency := resolve_consistency (cp_consistency req) in
  call_service
    (check_permission pest_parse engine_config tenant_id
       (mk_CheckPermissionInput (cp_resource_type req) (cp_resource_id req) (cp_permission req)
          (cp_subject_type req) (cp_subject_id req) consistency))
    (λ out, json_response 200
       (mk_CheckPermissionResponse (co_allowed out) (token_string (co_snapshot out)))).

Definition rest_expand_permission (tenant_id : TenantId Uuid) (req : ExpandPermissionRequest) : handler :=
  let^ _ := validate_identifiers [
    ("resource_type", ep_resource_type req); ("resource_id", ep_resource_id req);
    ("permission", ep_permission req)] in
  let^ consistency := resolve_consistency (ep_consistency req) in
  call_service
    (expand_permission_tree pest_parse engine_config tenant_id
       (mk_ExpandPermissionInput (ep_resource_type req) (ep_resource_id req) (ep_permission req)
          consistency))
    (λ out, json_response 200
       (mk_ExpandPermissionResponse (expand_tree_to_json (eo_tree out)) (token_to_string (eo_snapshot out)))).

Definition rest_lookup_resources (tenant_id : TenantId Uuid) (req : LookupResourcesRequest) : handler :=
  let^ _ := validate_identifiers [
    ("resource_type", lr_resource_type req); ("permission", lr_permission req);
    ("subject_type", lr_subject_type req); ("subject_id", lr_subject_id req)] in
  let^ consistency := resolve_consistency (lr_consistency req) in
  call_service
    (lookup_resources pest_parse engine_config tenant_id
       (mk_LookupResourcesInput (lr_resource_type req) (lr_permission req) (lr_subject_type req)
          (lr_subject_id req) consistency (option_map (λ l, Nat.min l (Z.to_nat 10000)) (lr_limit req))))
    (λ out, json_response 200
       (mk_LookupResourcesResponse (ro_resource_ids out) (token_to_string (ro_snapshot out)))).

Definition rest_lookup_subjects (tenant_id : TenantId Uuid) (req : LookupSubjectsRequest) : handler :=
  let^ _ := validate_identifiers [
    ("resource_type", ls_resource_type req); ("resource_id", ls_resource_id req);
    ("permission", ls_permission req); ("subject_type", ls_subject_type req)] in
  let^ consistency := resolve_consistency (ls_consistency req) in
  call_service
    (lookup_subjects pest_parse engine_config tenant_id
       (mk_LookupSubjectsInput (ls_resource_type req) (ls_resource_id req) (ls_permission req)
          (ls_subject_type req) consistency))
    (λ out, json_response 200
       (mk_LookupSubjectsResponse (map subject_response (so_subjects out))
          (token_to_string (so_snapshot out)))).

Definition rest_write_relationships (tenant_id : TenantId Uuid) (req : WriteRelationshipsRequest) : handler :=
  if MAX_BATCH_SIZE <? length (updates req) then
    respond (error_response 400 ("batch size exceeds maximum of " +:+ pretty MAX_BATCH_SIZE))
  else
    let^ acc := rest_updates (updates req) ([], []) in
    call_service (write_relationships tenant_id acc.1 acc.2)
      (λ token, json_response 200 (mk_WriteRelationshipsResponse (pretty (token_value token)))).

Definition rest_read_relationships (tenant_id : TenantId Uuid) (req : ReadRelationshipsRequest) : handler :=
  let filter := default filter_default (option_map filter_of_request (rr_filter req)) in
  let^ consistency := resolve_consistency (rr_consistency req) in
  let limit := Some (Nat.min (default DEFAULT_READ_LIMIT (rr_limit req)) (Z.to_nat 10000)) in
  call_service (read_relationships tenant_id filter consistency limit)
    (λ out, json_response 200
       (mk_ReadRelationshipsResponse (map relationship_response (rro_tuples out))
          (token_string (rro_snapshot out)))).

Definition rest_write_schema (tenant_id : TenantId Uuid) (req : WriteSchemaRequest) : handler :=
  call_service (write_schema pest_parse schema_limits tenant_id (ws_schema req) (ws_force req))
    (λ out, json_response 200 (mk_WriteSchemaResponse (breaking_changes_overridden out))).

Definition rest_read_schema (tenant_id : TenantId Uuid) : handler :=
  call_service (read_schema tenant_id)
    (λ out, match out with
            | Some schema => json_response 200 (mk_ReadSchemaResponse schema)
            | None => error_response 404 "no schema has been written"
            end).

Definition watch : handler := respond (error_response 501 "watch is not yet implemented").
Definition healthz : handler := respond (200%Z, JObject [("status", JString "ok")]).

(** ** The router and the middlewares ([mod.rs]) *)

Context {Body : Type}.

(** The [Json] extractor of each request type: the request, or axum's rejection
    (a malformed, mistyped or too large body). *)
Record Extractors := mk_Extractors {
  x_check : Body → result ApiResult CheckPermissionRequest;
  x_expand : Body → result ApiResult ExpandPermissionRequest;
  x_resources : Body → result ApiResult LookupResourcesRequest;
  x_subjects : Body → result ApiResult LookupSubjectsRequest;
  x_write : Body → result ApiResult WriteRelationshipsRequest;
  x_read : Body → result ApiResult ReadRelationshipsRequest;
  x_write_schema : Body → result ApiResult WriteSchemaRequest }.

Inductive method := GET | POST | OtherMethod (name : string).
#[export] Instance method_eq_dec : EqDecision method.
Proof. solve_decision. Defined.

(** What axum's [get(..)] routes: [HEAD] too, whose answer is sent without its
    body (the model says what the body would be). *)
Definition is_get (m : method) : bool :=
  match m with GET => true | POST => false | OtherMethod name => bool_decide (name = "HEAD") end.

Record HttpRequest := mk_HttpRequest {
  http_method : method; http_auth : AuthRequest; http_body : Body }.
Definition http_path (req : HttpRequest) : string := req_path (http_auth req).

(** axum's answers: no route or method matches, and no [TenantId] among the
    extensions a handler asks for. *)
Context (extractors : Extractors) (unrouted : HttpRequest → ApiResult) (missing_extension : ApiResult).

(** What a route does with the tenant of the request. *)
Inductive route :=
| Public (h : handler)
| Protected (h : TenantId Uuid → handler).

Definition create_router (req : HttpRequest) : option route :=
  let path := http_path req in
  let body {A} (extract : Body → result ApiResult A) (h : TenantId Uuid → A → handler) :=
    Protected (λ tenant, let^ a := extract (http_body req) in h tenant a) in
  let post (p : string) := bool_decide (path = p) && bool_decide (http_method req = POST) in
  let get (p : string) := bool_decide (path = p) && is_get (http_method req) in
  if post "/v1/permissions/check" then Some (body (x_check extractors) rest_check_permission)
  else if post "/v1/permissions/expand" then Some (body (x_expand extractors) rest_expand_permission)
  else if post "/v1/permissions/resources" then Some (body (x_resources extractors) rest_lookup_resources)
  else if post "/v1/permissions/subjects" then Some (body (x_subjects extractors) rest_lookup_subjects)
  else if post "/v1/relationships/write" then Some (body (x_write extractors) rest_write_relationships)
  else if post "/v1/relationships/read" then Some (body (x_read extractors) rest_read_relationships)
  else if post "/v1/schema" then Some (body (x_write_schema extractors) rest_write_schema)
  else if get "/v1/schema" then Some (Protected rest_read_schema)
  else if get "/v1/watch" then Some (Public watch)
  else if get "/healthz" then Some (Public healthz)
  else None.

(** The handler of a routed request, with the extensions the middleware set. *)
Definition route_request (req : HttpRequest) (tenant : option (TenantId Uuid)) : handler :=
  match create_router req with
  | Some (Public h) => h
  | Some (Protected h) =>
      match tenant with Some t => h t | None => respond missing_extension end
  | None => respond (unrouted req)
  end.

Context {PasswordHash : Type} (argon2_parse : string → result string PasswordHash)
        (argon2_verify : string → PasswordHash → bool).

Definition log_events (events : list (AuditEvent Uuid)) (sv : service) : service :=
  mk_AuthzService (factory sv) (schema_cache sv) (check_cache sv) (service_metrics sv)
    (audit_log sv ++ events).

Definition auth_layer (auth_state : @AuthState Uuid) (req : HttpRequest) : handler := λ sv,
  let '(outcome, events) := rest_auth_middleware argon2_parse argon2_verify auth_state (http_auth req) in
  let sv' := log_events events sv in
  match outcome with
  | Next tenant => route_request req tenant sv'
  | Respond status msg => (error_response status msg, sv')
  end.

Definition method_name_from_path (path : string) : option string :=
  if bool_decide (path = "/v1/permissions/check") then Some "check"
  else if bool_decide (path = "/v1/permissions/expand") then Some "expand"
  else if bool_decide (path = "/v1/permissions/resources") then Some "lookup_resources"
  else if bool_decide (path = "/v1/permissions/subjects") then Some "lookup_subjects"
  else if bool_decide (path = "/v1/relationships/write") then Some "write_relationships"
  else if bool_decide (path = "/v1/relationships/read") then Some "read_relationships"
  else None.

Definition is_success (status : Z) : bool := (200 <=? status)%Z && (status <? 300)%Z.

Definition method_name (req : HttpRequest) : option string :=
  if bool_decide (http_path req = "/v1/schema") then
    match http_method req with
    | POST => Some "write_schema" | GET => Some "read_schema" | OtherMethod _ => None
    end
  else method_name_from_path (http_path req).

Definition update_metrics (f : Metrics → Metrics) (sv : service) : service :=
  mk_AuthzService (factory sv) (schema_cache sv) (check_cache sv) (f <$> service_metrics sv)
    (audit_log sv).

(** [state.metrics] is the [Arc] the service holds ([start_server] clones it). *)
Definition metrics_middleware (req : HttpRequest) (elapsed : Duration) (next : handler) : handler := λ sv,
  let '(response, sv') := next (update_metrics record_request sv) in
  let sv' := update_metrics (if is_success response.1 then record_success else record_error) sv' in
  (response,
   match method_name req with
   | Some name => update_metrics (record_method_request name elapsed) sv'
   | None => sv'
   end).

(** A request to the server: metrics, authentication, route. *)
Definition rest_serve (auth_state : @AuthState Uuid) (req : HttpRequest) (elapsed : Duration) : handler :=
  metrics_middleware req elapsed (auth_layer auth_state req).
End handlers.
