(* ===== verification/RestTheorems.v ===== *)
(** * What the REST API guarantees

    Every REST request is an early answer or one request to the service
    ([planned]), so the refinement of [ServiceSpec] extends to the API: the
    response is a function of the stores, of the tenant's store alone. *)
From stdpp Require Import base tactics list strings gmap pretty.
From S2P Require Import Prelude Tuples Schema Validation Parser Engine Check CheckSpec CheckTheorems Expand.
From S2P Require Import Storage Memory StoreCheck Cache Metrics Service ServiceSpec ServiceTheorems Numbers Auth.
From S2P Require Import Rest.

Section plans.
Context {Uuid F S SC CC : Type} `{EqDecision Uuid}.
Context `{IsolatedStores F Uuid S}.
Context `{CacheLaws SC (TenantId Uuid) Schema, CacheLaws CC (CheckCacheKey Uuid) bool}.
Context (pest_parse : pest_parser) (engine_config : EngineConfig) (schema_limits : SchemaLimits).
Context {Body : Type} (extractors : @Extractors Body) (unrouted : @HttpRequest Body → ApiResult)
        (missing_extension : ApiResult).
Context {PasswordHash : Type} (argon2_parse : string → result string PasswordHash)
        (argon2_verify : string → PasswordHash → bool).

Abbreviation service := (@AuthzService Uuid F SC CC).
Abbreviation plan := (result ApiResult (@request Uuid)).
Implicit Types (sv : service) (σ : TenantId Uuid → S).

(** The status and body of each response of the service. *)
Definition rest_render (p : response) : ApiResult :=
  let or_error {A} (r : result ApiError A) (ok : A → ApiResult) :=
    match r with Ok a => ok a | Err e => api_error_to_response e end in
  match p with
  | PCheck r => or_error r (λ out, json_response 200
      (mk_CheckPermissionResponse (co_allowed out) (token_string (co_snapshot out))))
  | PExpand r => or_error r (λ out, json_response 200
      (mk_ExpandPermissionResponse (expand_tree_to_json (eo_tree out)) (token_to_string (eo_snapshot out))))
  | PLookupSubjects r => or_error r (λ out, json_response 200
      (mk_LookupSubjectsResponse (map subject_response (so_subjects out))
         (token_to_string (so_snapshot out))))
  | PLookupResources r => or_error r (λ out, json_response 200
      (mk_LookupResourcesResponse (ro_resource_ids out) (token_to_string (ro_snapshot out))))
  | PRead r => or_error r (λ out, json_response 200
      (mk_ReadRelationshipsResponse (map relationship_response (rro_tuples out))
         (token_string (rro_snapshot out))))
  | PReadSchema r => or_error r (λ out, match out with
      | Some schema => json_response 200 (mk_ReadSchemaResponse schema)
      | None => error_response 404 "no schema has been written"
      end)
  | PWrite r => or_error r (λ token,
      json_response 200 (mk_WriteRelationshipsResponse (pretty (token_value token))))
  | PWriteSchema r => or_error r (λ out,
      json_response 200 (mk_WriteSchemaResponse (breaking_changes_overridden out)))
  end.

Definition run_plan (p : plan) : @handler Uuid F SC CC := λ sv,
  match p with
  | Ok req => let '(r, sv') := handle pest_parse engine_config schema_limits req sv in (rest_render r, sv')
  | Err resp => (resp, sv)
  end.

(** The handler answers early, or makes one request and renders its response. *)
Definition planned (h : @handler Uuid F SC CC) (p : plan) : Prop := ∀ sv, h sv = run_plan p sv.

Lemma planned_or_return {A} (r : result ApiResult A) k (p : A → plan) :
  (∀ a, planned (k a) (p a)) → planned (or_return r k) (try r p).
Proof. intros Hk sv. destruct r as [a|e]; [apply Hk|done]. Qed.

Lemma planned_respond resp : planned (respond resp) (Err resp).
Proof. done. Qed.

Definition check_plan (t : TenantId Uuid) (req : CheckPermissionRequest) : plan :=
  let? _ := validate_identifiers [
    ("resource_type", cp_resource_type req); ("resource_id", cp_resource_id req);
    ("permission", cp_permission req); ("subject_type", cp_subject_type req);
    ("subject_id", cp_subject_id req)] in
  let? consistency := resolve_consistency (cp_consistency req) in
  Ok (RCheck t (mk_CheckPermissionInput (cp_resource_type req) (cp_resource_id req) (cp_permission req)
          (cp_subject_type req) (cp_subject_id req) consistency)).

Definition write_plan (t : TenantId Uuid) (req : WriteRelationshipsRequest) : plan :=
  if MAX_BATCH_SIZE <? length (updates req) then
    Err (error_response 400 ("batch size exceeds maximum of " +:+ pretty MAX_BATCH_SIZE))
  else let? acc := rest_updates (updates req) ([], []) in Ok (RWrite t acc.1 acc.2).

(** The plan is about the tenant and no other. *)
Definition request_tenant (req : @request Uuid) : TenantId Uuid :=
  match req with
  | RCheck t _ | RExpand t _ | RLookupSubjects t _ | RLookupResources t _ | RRead t _ _ _
  | RReadSchema t | RWrite t _ _ | RWriteSchema t _ _ => t
  end.

Definition plan_for (t : TenantId Uuid) (p : plan) : Prop :=
  match p with Ok req => request_tenant req = t | Err _ => True end.

Lemma plan_for_try {A} t (r : result ApiResult A) (k : A → plan) :
  (∀ a, plan_for t (k a)) → plan_for t (try r k).
Proof. destruct r as [a|e]; [intros Hk; apply Hk|done]. Qed.

Lemma call_service_planned {A} (op : svc A) ok t req wrap :
  (handle pest_parse engine_config schema_limits req = handle_with wrap op) →
  (∀ r, rest_render (wrap r) = match r with Ok a => ok a | Err e => api_error_to_response e end) →
  request_tenant req = t →
  ∃ p, planned (call_service op ok) p ∧ plan_for t p.
Proof.
  intros Hh Hr <-. exists (Ok req). split; [|done]. intros sv. unfold run_plan, call_service.
  rewrite Hh. unfold handle_with. destruct (op sv) as [r sv']. by rewrite Hr.
Qed.

Lemma or_return_planned {A} (r : result ApiResult A) (k : A → handler) t :
  (∀ a, ∃ p, planned (k a) p ∧ plan_for t p) → ∃ p, planned (or_return r k) p ∧ plan_for t p.
Proof. intros Hk. destruct r as [a|resp]; [apply Hk|]. by exists (Err resp). Qed.

(** Every handler is planned, for its tenant. *)
Ltac solve_planned :=
  unfold rest_expand_permission, rest_lookup_resources, rest_lookup_subjects, rest_read_relationships;
  repeat (apply or_return_planned; intros ?);
  first [eapply (call_service_planned _ _ _ (RExpand _ _)); [reflexivity|by intros []|reflexivity]
        |eapply (call_service_planned _ _ _ (RLookupResources _ _)); [reflexivity|by intros []|reflexivity]
        |eapply (call_service_planned _ _ _ (RLookupSubjects _ _)); [reflexivity|by intros []|reflexivity]
        |eapply (call_service_planned _ _ _ (RRead _ _ _ _)); [reflexivity|by intros []|reflexivity]
        |eapply (call_service_planned _ _ _ (RWriteSchema _ _ _)); [reflexivity|by intros []|reflexivity]
        |eapply (call_service_planned _ _ _ (RReadSchema _)); [reflexivity|by intros []|reflexivity]].

Lemma check_planned t req :
  planned (rest_check_permission pest_parse engine_config t req) (check_plan t req).
Proof.
  repeat (apply planned_or_return; intros ?). intros sv. unfold call_service, run_plan. simpl.
  unfold handle_with. by destruct (check_permission _ _ _ _ sv) as [[]].
Qed.

Lemma write_planned t req : planned (rest_write_relationships t req) (write_plan t req).
Proof.
  unfold rest_write_relationships, write_plan. destruct (_ <? _); [done|].
  apply planned_or_return. intros acc sv. unfold call_service, run_plan. simpl.
  unfold handle_with. by destruct (write_relationships _ _ _ sv) as [[]].
Qed.

Lemma handlers_planned t req h :
  create_router pest_parse engine_config schema_limits extractors req = Some (Protected h) →
  ∃ p, planned (h t) p ∧ plan_for t p.
Proof.
  unfold create_router. intros Hh.
  repeat (destruct (_ && _) in Hh; [simplify_eq; try (apply or_return_planned; intros a)|]);
    try done.
  - exists (check_plan t a). split; [apply check_planned|]. by repeat (apply plan_for_try; intros ?).
  - solve_planned.
  - solve_planned.
  - solve_planned.
  - exists (write_plan t a). split; [apply write_planned|]. unfold write_plan.
    destruct (_ <? _); [done|]. by apply plan_for_try.
  - solve_planned.
  - solve_planned.
  - solve_planned.
Qed.

(** The response and the next stores, from the stores. *)
Definition spec_plan (p : plan) σ : ApiResult * (TenantId Uuid → S) :=
  match p with
  | Ok req =>
      let '(r, σ') := spec_handle pest_parse engine_config schema_limits req σ in (rest_render r, σ')
  | Err resp => (resp, σ)
  end.

Definition room σ : Prop := ∀ t, (now (σ t) + 1 < u64_max)%Z.

Abbreviation represents := (represents pest_parse engine_config).

Lemma run_plan_refines p sv σ :
  represents sv σ → room σ →
  ∃ sv', run_plan p sv = ((spec_plan p σ).1, sv') ∧ represents sv' (spec_plan p σ).2.
Proof.
  intros Hrep Hroom. destruct p as [req|resp]; [|by exists sv]. unfold run_plan, spec_plan.
  destruct (handle_refines pest_parse engine_config schema_limits req sv σ Hrep Hroom)
    as (sv' & -> & Hrep').
  destruct (spec_handle _ _ _ req σ) as [r σ']. by exists sv'.
Qed.

(** A plan for a tenant reads and changes the store of that tenant only. *)
Lemma spec_plan_local p t σ σ' :
  plan_for t p → σ t = σ' t → (spec_plan p σ).1 = (spec_plan p σ').1.
Proof.
  destruct p as [req|resp]; [|done]. simpl. intros <- Ht.
  destruct req; simpl in *; rewrite ?Ht; try done; unfold on_tenant; rewrite Ht;
    [by destruct (store_write _ _ _)|by destruct (spec_write_schema _ _ _ _ _)].
Qed.

Lemma spec_plan_others p t t' σ : plan_for t p → t' ≠ t → (spec_plan p σ).2 t' = σ t'.
Proof.
  destruct p as [req|resp]; [|done]. simpl. intros <- Ht.
  destruct req; simpl in *; try done; unfold on_tenant;
    [destruct (store_write _ _ _)|destruct (spec_write_schema _ _ _ _ _)]; simpl;
    by rewrite decide_False.
Qed.

(** Metrics and the audit log are no part of what the service represents. *)
Lemma represents_update_metrics f sv σ : represents sv σ → represents (update_metrics f sv) σ.
Proof. intros [[] Hσ]. split; [split|]; done. Qed.

Lemma represents_log_events events sv σ : represents sv σ → represents (log_events events sv) σ.
Proof. intros [[] Hσ]. split; [split|]; done. Qed.

(** The middlewares around the router. *)
Abbreviation http_serve := (rest_serve pest_parse engine_config schema_limits extractors unrouted
  missing_extension argon2_parse argon2_verify).
Abbreviation authenticated auth_state req :=
  (rest_auth_middleware argon2_parse argon2_verify auth_state (http_auth req)).1.

Lemma metrics_middleware_refines (req : @HttpRequest Body) elapsed (next : handler) sv σ resp σ' :
  (∀ sv, represents sv σ → ∃ sv', next sv = (resp, sv') ∧ represents sv' σ') →
  represents sv σ →
  ∃ sv', metrics_middleware req elapsed next sv = (resp, sv') ∧ represents sv' σ'.
Proof.
  intros Hnext Hrep. unfold metrics_middleware.
  destruct (Hnext _ (represents_update_metrics record_request sv σ Hrep)) as (sv' & -> & Hrep').
  eexists. split; [done|]. destruct (method_name req); by repeat apply represents_update_metrics.
Qed.

Lemma route_planned req t :
  ∃ p, planned (route_request pest_parse engine_config schema_limits extractors unrouted
                  missing_extension req (Some t)) p ∧ plan_for t p.
Proof.
  unfold route_request. destruct (create_router _ _ _ _ _) as [[h|h]|] eqn:Hr.
  - assert (h = watch ∨ h = healthz) as [-> | ->].
    { unfold create_router in Hr.
      repeat (destruct (_ && _) in Hr; [simplify_eq; eauto|]). done. }
    all: by eexists (Err _).
  - by eapply handlers_planned.
  - by exists (Err (unrouted req)).
Qed.

(** An authenticated request is a plan for its tenant. *)
Lemma rest_serve_tenant auth_state req t :
  authenticated auth_state req = Next (Some t) →
  ∃ p, plan_for t p ∧ ∀ elapsed sv σ, represents sv σ → room σ →
    ∃ sv', http_serve auth_state req elapsed sv = ((spec_plan p σ).1, sv') ∧
           represents sv' (spec_plan p σ).2.
Proof.
  intros Hauth. destruct (route_planned req t) as (p & Hp & Hfor). exists p. split; [done|].
  intros elapsed sv σ Hrep Hroom. apply (metrics_middleware_refines _ _ _ _ σ); [|done].
  clear sv Hrep. intros sv Hrep. unfold auth_layer.
  destruct (rest_auth_middleware _ _ _ _) as [outcome events]. simpl in Hauth. subst. rewrite Hp.
  apply run_plan_refines; [by apply represents_log_events|done].
Qed.

(** A request that is refused changes no store. *)
Lemma rest_serve_refused auth_state req elapsed status msg sv σ :
  authenticated auth_state req = Respond status msg → represents sv σ →
  ∃ sv', http_serve auth_state req elapsed sv = (error_response status msg, sv') ∧ represents sv' σ.
Proof.
  intros Hauth Hrep. apply (metrics_middleware_refines _ _ _ _ σ); [|done].
  clear sv Hrep. intros sv Hrep. unfold auth_layer.
  destruct (rest_auth_middleware _ _ _ _) as [outcome events]. simpl in Hauth. subst.
  eexists. split; [done|]. by apply represents_log_events.
Qed.

End plans.

(** ** Identifiers and batches *)

Definition valid_identifier (v : string) : Prop :=
  v ≠ EmptyString ∧ String.length v ≤ MAX_IDENTIFIER_LENGTH.

Lemma validate_identifier_Ok field v : validate_identifier field v = Ok tt ↔ valid_identifier v.
Proof.
  unfold validate_identifier, valid_identifier. case_bool_decide; [naive_solver|].
  destruct (Nat.ltb_spec MAX_IDENTIFIER_LENGTH (String.length v)).
  - split; [done|]. intros [_ ?]. lia.
  - naive_solver.
Qed.

Lemma validate_identifiers_Ok fields :
  validate_identifiers fields = Ok tt ↔ Forall valid_identifier (map snd fields).
Proof.
  induction fields as [|[field v] fields IH]; simpl; [by split|].
  rewrite Forall_cons, <-IH, <-(validate_identifier_Ok field).
  destruct (validate_identifier field v) as [[]|]; naive_solver.
Qed.

Lemma validate_identifiers_Err fields e :
  validate_identifiers fields = Err e → e.1 = 400%Z.
Proof.
  induction fields as [|[field v] fields IH]; simpl; [done|]. intros [He|(_ & _ & He)]%try_Err; [|auto].
  unfold validate_identifier in He. by repeat case_match; simplify_eq.
Qed.

Definition update_fields (u : RelationshipUpdate) : list string :=
  [u_resource_type u; u_resource_id u; u_relation u; u_subject_type u; u_subject_id u].

Definition valid_update (u : RelationshipUpdate) : Prop :=
  Forall valid_identifier (update_fields u) ∧ (operation u = "touch" ∨ operation u = "delete").

#[local] Instance valid_update_dec u : Decision (valid_update u).
Proof. apply _. Defined.

(** The relationship an update names, and the filter its deletion applies. *)
Definition update_write (u : RelationshipUpdate) : TupleWrite :=
  mk_TupleWrite (mk_ObjectRef (u_resource_type u) (u_resource_id u)) (u_relation u)
    (mk_SubjectRef (u_subject_type u) (u_subject_id u) (u_subject_relation u)).
Definition update_filter (u : RelationshipUpdate) : TupleFilter :=
  mk_TupleFilter (Some (u_resource_type u)) (Some (u_resource_id u)) (Some (u_relation u))
    (Some (u_subject_type u)) (Some (u_subject_id u)) None.

Definition touched (us : list RelationshipUpdate) : list TupleWrite :=
  map update_write (filter (λ u, operation u = "touch") us).
Definition deleted (us : list RelationshipUpdate) : list TupleFilter :=
  map update_filter (filter (λ u, operation u = "delete") us).

Lemma rest_update_Ok u acc :
  valid_update u →
  rest_update u acc = Ok (acc.1 ++ touched [u], acc.2 ++ deleted [u]).
Proof.
  intros [Hv Hop]. unfold rest_update. destruct acc as [ws ds].
  rewrite (proj2 (validate_identifiers_Ok _)) by exact Hv. cbn [try].
  unfold touched, deleted. rewrite !filter_cons, !filter_nil. destruct Hop as [Hop|Hop]; rewrite Hop;
    repeat case_decide; repeat case_bool_decide; try done; simpl; rewrite ?app_nil_r.
  - unfold update_write. by destruct (u_subject_relation u).
  - done.
Qed.

Lemma rest_update_Err u acc : ¬ valid_update u → ∃ e, rest_update u acc = Err e ∧ e.1 = 400%Z.
Proof.
  intros Hu. unfold rest_update. destruct acc as [ws ds].
  destruct (validate_identifiers _) as [[]|e] eqn:Hv; [|exists e; split; [done|by eapply validate_identifiers_Err]].
  apply validate_identifiers_Ok in Hv. simpl in Hv.
  rewrite !bool_decide_false by (intros ?; apply Hu; split; auto). by eexists.
Qed.

Lemma rest_updates_Ok us acc :
  Forall valid_update us → rest_updates us acc = Ok (acc.1 ++ touched us, acc.2 ++ deleted us).
Proof.
  intros Hus. revert acc. induction Hus as [|u us Hu _ IH]; intros acc; cbn [rest_updates].
  - by rewrite !app_nil_r, <-surjective_pairing.
  - rewrite rest_update_Ok by done. cbn [try]. rewrite IH. cbn [fst snd].
    unfold touched, deleted. rewrite (filter_app _ [u] us), (filter_app _ [u] us), !map_app, !app_assoc.
    done.
Qed.

Lemma rest_updates_Err us acc :
  ¬ Forall valid_update us → ∃ e, rest_updates us acc = Err e ∧ e.1 = 400%Z.
Proof.
  revert acc. induction us as [|u us IH]; intros acc Hus; [by destruct Hus|]. cbn [rest_updates].
  destruct (rest_update u acc) as [acc'|e] eqn:Hu.
  - apply IH. intros Hall. apply Hus. constructor; [|done].
    destruct (decide (valid_update u)) as [|Hn]; [done|].
    destruct (rest_update_Err u acc Hn) as (? & ? & _). congruence.
  - eexists. split; [done|]. destruct (decide (valid_update u)) as [Hy|Hn].
    + by rewrite rest_update_Ok in Hu.
    + destruct (rest_update_Err u acc Hn) as (e' & He' & Hs). by assert (e' = e) as -> by congruence.
Qed.

(** ** The theorems *)

(** The middleware answers 401 or 500, or lets the request through. *)
Lemma auth_middleware_status {Uuid PasswordHash} (argon2_parse : string → result string PasswordHash)
    argon2_verify (st : @AuthState Uuid) request status msg :
  (rest_auth_middleware argon2_parse argon2_verify st request).1 = Respond status msg →
  status = 401%Z ∨ status = 500%Z.
Proof. unfold rest_auth_middleware. intros H. repeat case_match; simplify_eq/=; auto. Qed.

Section properties.
Context {Uuid F S SC CC : Type} `{EqDecision Uuid}.
Context `{IsolatedStores F Uuid S}.
Context `{CacheLaws SC (TenantId Uuid) Schema, CacheLaws CC (CheckCacheKey Uuid) bool}.
Context (pest_parse : pest_parser) (engine_config : EngineConfig) (schema_limits : SchemaLimits).
Context {Body : Type} (extractors : @Extractors Body) (unrouted : @HttpRequest Body → ApiResult)
        (missing_extension : ApiResult).
Context {PasswordHash : Type} (argon2_parse : string → result string PasswordHash)
        (argon2_verify : string → PasswordHash → bool).

Abbreviation service := (@AuthzService Uuid F SC CC).
Abbreviation serve_http := (rest_serve pest_parse engine_config schema_limits extractors unrouted
  missing_extension argon2_parse argon2_verify).
Abbreviation invariant := (service_inv pest_parse engine_config).
Abbreviation stores sv := (λ t, tenant_view t (factory sv)).

(** C13: Over HTTP a tenant is isolated: a request with a valid key of tenant
    [t] is answered from the store of [t] alone, whatever the other tenants
    store and whatever is cached, and changes no other store; a request to a
    protected path without a valid key is answered 401 or 500 and changes no
    store. *)
Theorem rest_isolates_tenants (nil : Uuid) repo (req : @HttpRequest Body) elapsed (sv : service) :
  invariant sv → room (stores sv) → skip_auth (http_path req) = false →
  let auth := with_repository nil repo in
  (∀ raw t, authorization (http_auth req) = Some (Some ("Bearer " +:+ raw)) →
     valid_key argon2_parse argon2_verify repo raw t →
     (∀ sv', invariant sv' → room (stores sv') →
        tenant_view t (factory sv') = tenant_view t (factory sv) →
        (serve_http auth req elapsed sv').1 = (serve_http auth req elapsed sv).1) ∧
     ∀ t', t' ≠ t →
       tenant_view t' (factory (serve_http auth req elapsed sv).2) = tenant_view t' (factory sv)) ∧
  ((∀ raw t, authorization (http_auth req) = Some (Some ("Bearer " +:+ raw)) →
      ¬ valid_key argon2_parse argon2_verify repo raw t) →
     ((serve_http auth req elapsed sv).1.1 = 401%Z ∨ (serve_http auth req elapsed sv).1.1 = 500%Z) ∧
     ∀ t', tenant_view t' (factory (serve_http auth req elapsed sv).2) = tenant_view t' (factory sv)).
Proof.
  intros Hinv Hroom Hskip auth.
  assert (represents pest_parse engine_config sv (stores sv)) as Hrep by done. split.
  - intros raw t Hheader Hvalid.
    destruct (middleware_valid_key argon2_parse argon2_verify nil repo (http_auth req) t Hskip) as (Hiff & _ & _).
    destruct (rest_serve_tenant pest_parse engine_config schema_limits extractors unrouted
      missing_extension argon2_parse argon2_verify auth req t) as (p & Hfor & Hserve).
    { apply Hiff. eauto. }
    destruct (Hserve elapsed sv _ Hrep Hroom) as (sv1 & -> & _ & Hv1). split.
    + intros sv' Hinv' Hroom' Ht. destruct (Hserve elapsed sv' (stores sv') ltac:(done) Hroom') as (sv2 & -> & _).
      simpl. by apply (spec_plan_local _ _ _ p t).
    + intros t' Ht'. simpl. rewrite Hv1. by apply (spec_plan_others pest_parse engine_config schema_limits p t t' (stores sv)).
  - intros Hno.
    destruct ((rest_auth_middleware argon2_parse argon2_verify auth (http_auth req)).1) as [[t|]|status msg] eqn:Hauth.
    + apply (middleware_valid_key argon2_parse argon2_verify nil repo (http_auth req) t Hskip) in Hauth
        as (raw & Hraw & Hvalid). by destruct (Hno raw t).
    + assert (t : TenantId Uuid) by exact (mk_TenantId nil).
      by destruct (middleware_valid_key argon2_parse argon2_verify nil repo (http_auth req) t Hskip) as (_ & _ & Hn).
    + destruct (rest_serve_refused pest_parse engine_config schema_limits extractors unrouted
        missing_extension argon2_parse argon2_verify auth req elapsed status msg sv _ Hauth Hrep)
        as (sv' & -> & _ & Hv). split; [by apply auth_middleware_status in Hauth|]. exact Hv.
Qed.

(** C14: A check over HTTP is exact: with a valid key of tenant [t] and
    well-formed identifiers, [POST /v1/permissions/check] answers 200 with
    what the engine says on the store and stored schema of [t], or the status
    of its error; with a malformed identifier it answers 400. *)
Theorem rest_check_exact auth_state (req : @HttpRequest Body) creq elapsed t (sv : service) :
  invariant sv → room (stores sv) →
  http_path req = "/v1/permissions/check" → http_method req = POST →
  (rest_auth_middleware argon2_parse argon2_verify auth_state (http_auth req)).1 = Next (Some t) →
  x_check extractors (http_body req) = Ok creq →
  let fields := [cp_resource_type creq; cp_resource_id creq; cp_permission creq;
                 cp_subject_type creq; cp_subject_id creq] in
  let answer := (serve_http auth_state req elapsed sv).1 in
  (∀ consistency, Forall valid_identifier fields → resolve_consistency (cp_consistency creq) = Ok consistency →
     answer =
       match spec_check pest_parse engine_config (tenant_view t (factory sv))
               (mk_CheckPermissionInput (cp_resource_type creq) (cp_resource_id creq) (cp_permission creq)
                  (cp_subject_type creq) (cp_subject_id creq) consistency) with
       | Ok out => (200%Z, JObject (("allowed", JBool (co_allowed out))
                                    :: skip_none "checked_at" (token_string (co_snapshot out))))
       | Err e => api_error_to_response e
       end) ∧
  (¬ Forall valid_identifier fields → answer.1 = 400%Z).
Proof.
  intros Hinv Hroom Hpath Hmethod Hauth Hbody fields answer.
  assert (represents pest_parse engine_config sv (stores sv)) as Hrep by done.
  assert (∃ sv', serve_http auth_state req elapsed sv =
    ((spec_plan pest_parse engine_config schema_limits (check_plan t creq) (stores sv)).1, sv')) as [sv' Hserve].
  { destruct (metrics_middleware_refines pest_parse engine_config req elapsed
      (auth_layer pest_parse engine_config schema_limits extractors unrouted missing_extension
         argon2_parse argon2_verify auth_state req) sv (stores sv)
      (spec_plan pest_parse engine_config schema_limits (check_plan t creq) (stores sv)).1
      (spec_plan pest_parse engine_config schema_limits (check_plan t creq) (stores sv)).2)
      as (sv' & Hm & _); [|done|by eexists].
    clear Hrep. intros sv1 Hrep1. unfold auth_layer.
    destruct (rest_auth_middleware _ _ _ _) as [outcome events]. simpl in Hauth. subst outcome.
    unfold route_request, create_router. rewrite Hpath, Hmethod. simpl. rewrite Hbody. simpl.
    rewrite (check_planned pest_parse engine_config schema_limits t creq _). apply run_plan_refines; [by apply represents_log_events|done]. }
  unfold answer. rewrite Hserve. unfold check_plan. split.
  - intros consistency Hv Hc. rewrite (proj2 (validate_identifiers_Ok _)) by exact Hv.
    cbn [try]. rewrite Hc. simpl. by destruct (spec_check _ _ _ _).
  - intros Hv. destruct (validate_identifiers _) as [[]|e] eqn:He.
    + by apply validate_identifiers_Ok in He.
    + by apply validate_identifiers_Err in He.
Qed.

(** C15: A batch of updates over REST is all or nothing: up to 1000 well-formed
    updates make one new version of the tenant's store, with every touched
    relationship, and without the deleted ones that are not touched; the
    response carries the token of that version, which reads back as given in
    a consistency requirement.  Any other batch is answered 400 and nothing
    changes. *)
Theorem rest_write_exact t req (sv sv' : service) resp :
  let s := tenant_view t (factory sv) in
  let s' := tenant_view t (factory sv') in
  invariant sv → (0 ≤ now s)%Z → (now s + 1 < u64_max)%Z →
  rest_write_relationships t req sv = (resp, sv') →
  (length (updates req) ≤ MAX_BATCH_SIZE ∧ Forall valid_update (updates req) ∧
     written store_inv now view (touched (updates req)) (deleted (updates req)) s s' ∧
     ∃ token, resp = (200%Z, JObject [("written_at", JString token)]) ∧
       resolve_consistency (Some (CrAtLeastAsFresh token)) =
         Ok (AtLeastAsFresh (mk_SnapshotToken (now s')))) ∨
  ((MAX_BATCH_SIZE < length (updates req) ∨ ¬ Forall valid_update (updates req)) ∧
     resp.1 = 400%Z ∧ sv' = sv).
Proof.
  intros s s' Hinv Hpos Hroom. unfold rest_write_relationships.
  destruct (Nat.ltb_spec MAX_BATCH_SIZE (length (updates req))) as [Hlen|Hlen].
  { intros [= <- <-]. right. auto. }
  destruct (decide (Forall valid_update (updates req))) as [Hv|Hv].
  2: { destruct (rest_updates_Err (updates req) ([], []) Hv) as (e & He & Hs). rewrite He.
       intros [= <- <-]. auto. }
  rewrite rest_updates_Ok by done. cbn [or_return app fst snd]. intros Hcall. left.
  assert (deletes_something (deleted (updates req)) = true) as Hds.
  { unfold deletes_something, deleted. apply forallb_forall. by intros f (u & <- & _)%in_map_iff. }
  destruct (writes_relationships pest_parse engine_config t (touched (updates req))
    (deleted (updates req)) sv Hinv Hroom) as (sv1 & Hw & _ & Hview & _).
  destruct (store_write_ok s (touched (updates req)) (deleted (updates req)))
    as (s1 & Hs1 & Hwritten & _); [by apply tenant_view_inv, Hinv|done|done|].
  subst s. rewrite Hs1 in Hw, Hview. unfold call_service in Hcall. rewrite Hw in Hcall. simpl in Hcall, Hview.
  injection Hcall as <- <-. subst s'. rewrite Hview. split_and!; [done..|]. eexists. split; [done|].
  pose proof (written_now _ _ _ _ _ _ _ Hwritten) as Hn. unfold resolve_consistency, parse_token, parse_u64. cbn [written_at].
  rewrite parse_uint_pretty by (unfold u64_max in *; simpl; lia). simpl. by rewrite Hn.
Qed.
End properties.

(** ** A server for the witnesses

    The tenant [acme] has the folder schema, two folders and one key. *)

Definition acme_repo (kid : string) : result string (option (@ApiKeyRow positive)) :=
  if bool_decide (kid = "0123456789abcdef")
  then Ok (Some (mk_ApiKeyRow kid "$s_3cret" 1%positive false)) else Ok None.

Definition unsupported : ApiResult := (415%Z, JString "unsupported body").

(** Bodies that are check requests. *)
Definition check_bodies : @Extractors CheckPermissionRequest :=
  mk_Extractors Ok (λ _, Err unsupported) (λ _, Err unsupported) (λ _, Err unsupported)
    (λ _, Err unsupported) (λ _, Err unsupported) (λ _, Err unsupported).

Definition alice_check : CheckPermissionRequest :=
  mk_CheckPermissionRequest "folder" "a" "view" "user" "alice" (Some CrFull).

Definition http_check (key : string) (body : CheckPermissionRequest) : @HttpRequest CheckPermissionRequest :=
  mk_HttpRequest POST (mk_AuthRequest "/v1/permissions/check" (Some (Some ("Bearer " +:+ key)))) body.

Definition demo_serve : @HttpRequest CheckPermissionRequest → @handler positive
    (@FactoryState positive _ _) (gmap (TenantId positive) Schema) (gmap (CheckCacheKey positive) bool) :=
  λ req, rest_serve two_texts engine_config_default limits_default check_bodies (λ _, (404%Z, JNull))
    (500%Z, JNull) toy_parse toy_verify (with_repository 1%positive acme_repo) req (mk_Duration 0 1000).

Lemma folder_service_room : room (λ t, tenant_view t (factory folder_service)).
Proof.
  assert (Memory.stores (factory folder_service) = {[acme := 0]}) as Hstores by (vm_compute; reflexivity).
  intros t. destruct (decide (t = acme)) as [->|Ht]; [vm_compute; reflexivity|].
  cbn [tenant_view MemoryIsolatedStores]. unfold tenant_state.
  rewrite Hstores, lookup_singleton_ne by done. reflexivity.
Qed.

Lemma rest_isolates_tenants_witness :
  (demo_serve (http_check toy_key alice_check) folder_service).1 =
    (200%Z, JObject [("allowed", JBool true); ("checked_at", JString "1")]) ∧
  (∀ t', t' ≠ acme →
     tenant_view t' (factory (demo_serve (http_check toy_key alice_check) folder_service).2) =
     tenant_view t' (factory folder_service)) ∧
  ((demo_serve (http_check "guess" alice_check) folder_service).1.1 = 401%Z ∨
   (demo_serve (http_check "guess" alice_check) folder_service).1.1 = 500%Z).
Proof.
  split; [vm_compute; reflexivity|]. split.
  - refine (proj2 (proj1 (rest_isolates_tenants two_texts engine_config_default limits_default
      check_bodies (λ _, (404%Z, JNull)) (500%Z, JNull) toy_parse toy_verify 1%positive acme_repo
      (http_check toy_key alice_check) (mk_Duration 0 1000) folder_service
      folder_service_inv folder_service_room eq_refl) toy_key acme eq_refl _)).
    exists "0123456789abcdef", "s_3cret", (mk_ApiKeyRow "0123456789abcdef" "$s_3cret" 1%positive false), "s_3cret".
    repeat split; vm_compute; reflexivity.
  - refine (proj1 (proj2 (rest_isolates_tenants two_texts engine_config_default limits_default
      check_bodies (λ _, (404%Z, JNull)) (500%Z, JNull) toy_parse toy_verify 1%positive acme_repo
      (http_check "guess" alice_check) (mk_Duration 0 1000) folder_service
      folder_service_inv folder_service_room eq_refl) _)).
    intros raw t Hraw (kid & secret & row & parsed & Hp & _).
    assert (raw = "guess") as ->
      by (apply (inj (String.append "Bearer ")); cbn [http_check http_auth authorization] in Hraw; congruence).
    vm_compute in Hp. discriminate.
Defined.

Lemma rest_check_exact_witness :
  (demo_serve (http_check toy_key alice_check) folder_service).1 =
    (200%Z, JObject [("allowed", JBool true); ("checked_at", JString "1")]) ∧
  (demo_serve (http_check toy_key (mk_CheckPermissionRequest EmptyString "a" "view" "user" "alice" None))
     folder_service).1.1 = 400%Z.
Proof.
  split.
  - etrans; [refine (proj1 (rest_check_exact two_texts engine_config_default limits_default
      check_bodies (λ _, (404%Z, JNull)) (500%Z, JNull) toy_parse toy_verify
      (with_repository 1%positive acme_repo) (http_check toy_key alice_check) alice_check
      (mk_Duration 0 1000) acme folder_service folder_service_inv folder_service_room
      eq_refl eq_refl _ eq_refl) FullConsistency _ eq_refl)|]; [vm_compute; reflexivity| |vm_compute; reflexivity].
    repeat constructor; first [discriminate|vm_compute; lia].
  - refine (proj2 (rest_check_exact two_texts engine_config_default limits_default
      check_bodies (λ _, (404%Z, JNull)) (500%Z, JNull) toy_parse toy_verify
      (with_repository 1%positive acme_repo)
      (http_check toy_key (mk_CheckPermissionRequest EmptyString "a" "view" "user" "alice" None))
      (mk_CheckPermissionRequest EmptyString "a" "view" "user" "alice" None)
      (mk_Duration 0 1000) acme folder_service folder_service_inv folder_service_room
      eq_refl eq_refl _ eq_refl) _); [vm_compute; reflexivity|].
    intros Hv. apply Forall_cons in Hv as [[Hv _] _]. by apply Hv.
Defined.

Definition alice_update (op : string) : RelationshipUpdate :=
  mk_RelationshipUpdate op "folder" "b" "viewer" "user" "alice" None.

Lemma rest_write_exact_witness :
  let batch := mk_WriteRelationshipsRequest [alice_update "touch"; alice_update "delete"] in
  let out := rest_write_relationships acme batch folder_service in
  out.1 = (200%Z, JObject [("written_at", JString "2")]) ∧
  tuple_of_write (update_write (alice_update "touch")) ∈
    view (tenant_view acme (factory out.2)) (now (tenant_view acme (factory out.2))).
Proof.
  intros batch out.
  assert (out.1 = (200%Z, JObject [("written_at", JString "2")])) as Hout by (vm_compute; reflexivity).
  split; [exact Hout|].
  destruct (rest_write_exact two_texts engine_config_default acme batch folder_service out.2 out.1
    folder_service_inv) as [(_ & _ & Hw & _)|(_ & Hs & _)].
  - vm_compute. discriminate.
  - vm_compute. reflexivity.
  - apply surjective_pairing.
  - apply (written_present _ _ _ _ _ _ _ Hw). right. vm_compute. constructor.
  - rewrite Hout in Hs. discriminate.
Defined.

(** A [delete] update drops the subject's relation: it deletes the
    relationship of the subject itself and of all its usersets. *)
Theorem rest_delete_ignores_subject_relation u t :
  matches (update_filter u) t = true ↔
  object t = mk_ObjectRef (u_resource_type u) (u_resource_id u) ∧ relation t = u_relation u ∧
  subject_type (subject t) = u_subject_type u ∧ subject_id (subject t) = u_subject_id u.
Proof.
  destruct t as [[ot oi] rel [st si sr]]. rewrite matches_iff. simpl. naive_solver.
Qed.
