(* ===== verification/Grpc.v ===== *)
(** * The gRPC API ([crates/kraalzibar-server/src/grpc/])

    [conversions.rs], the error mapping of [mod.rs], and the three services.
    The messages are those of [proto/kraalzibar/v1/*.proto] in the shape prost
    gives them: a message field is an [option], an enum is its number, a
    [oneof] is an optional sum.  tonic's [Status] is a code and a message, and
    an rpc is a function from the state of the service to a [Result] and the
    next state. *)
From stdpp Require Import base tactics list strings gmap pretty.
From S2P Require Import Prelude Tuples Schema Validation Parser Engine Check Expand Storage Cache.
From S2P Require Import Metrics Service Numbers.

(** ** Messages *)

Record v1_ObjectReference := mk_v1_ObjectReference { o_object_type : string; o_object_id : string }.
Record v1_SubjectReference := mk_v1_SubjectReference {
  s_subject_type : string; s_subject_id : string; s_subject_relation : option string }.
Record v1_Relationship := mk_v1_Relationship {
  r_object : option v1_ObjectReference; r_relation : string; r_subject : option v1_SubjectReference }.
Record v1_RelationshipUpdate := mk_v1_RelationshipUpdate {
  update_operation : Z; update_relationship : option v1_Relationship }.
Record v1_ZedToken := mk_v1_ZedToken { zed_token : string }.
Inductive v1_Requirement :=
| ReqFullConsistency (b : bool)
| ReqMinimizeLatency (b : bool)
| ReqAtLeastAsFresh (token : v1_ZedToken)
| ReqAtExactSnapshot (token : v1_ZedToken).
Record v1_Consistency := mk_v1_Consistency { requirement : option v1_Requirement }.
Record v1_RelationshipFilter := mk_v1_RelationshipFilter {
  v_object_type : option string; v_object_id : option string; v_relation : option string;
  v_subject_type : option string; v_subject_id : option string }.
Inductive v1_PermissionExpansionTree :=
| mk_v1_PermissionExpansionTree (tree_node : option v1_Node)
with v1_Node :=
| NodeLeaf (leaf_subject : option v1_SubjectReference)
| NodeIntermediate (node_operation : Z) (node_children : list v1_PermissionExpansionTree).

(** [Operation] of an update and of an intermediate node *)
Definition OPERATION_UNSPECIFIED : Z := 0.
Definition OPERATION_TOUCH : Z := 1.
Definition OPERATION_DELETE : Z := 2.
Definition OPERATION_UNION : Z := 1.
Definition OPERATION_INTERSECTION : Z := 2.
Definition OPERATION_EXCLUSION : Z := 3.
Definition PERMISSIONSHIP_NO_PERMISSION : Z := 1.
Definition PERMISSIONSHIP_HAS_PERMISSION : Z := 2.

Record v1_CheckPermissionRequest := mk_v1_CheckPermissionRequest {
  gc_consistency : option v1_Consistency; gc_resource : option v1_ObjectReference;
  gc_permission : string; gc_subject : option v1_SubjectReference }.
Record v1_CheckPermissionResponse := mk_v1_CheckPermissionResponse {
  gcr_checked_at : option v1_ZedToken; permissionship : Z }.
Record v1_ExpandPermissionTreeRequest := mk_v1_ExpandPermissionTreeRequest {
  ge_consistency : option v1_Consistency; ge_resource : option v1_ObjectReference;
  ge_permission : string }.
Record v1_ExpandPermissionTreeResponse := mk_v1_ExpandPermissionTreeResponse {
  ger_expanded_at : option v1_ZedToken; ger_tree : option v1_PermissionExpansionTree }.
Record v1_LookupResourcesRequest := mk_v1_LookupResourcesRequest {
  gr_consistency : option v1_Consistency; gr_resource_type : string; gr_permission : string;
  gr_subject : option v1_SubjectReference; gr_optional_limit : Z }.
Record v1_LookupResourcesResponse := mk_v1_LookupResourcesResponse {
  grr_looked_up_at : option v1_ZedToken; grr_resource_id : string }.
Record v1_LookupSubjectsRequest := mk_v1_LookupSubjectsRequest {
  gs_consistency : option v1_Consistency; gs_resource : option v1_ObjectReference;
  gs_permission : string; gs_subject_type : string }.
Record v1_LookupSubjectsResponse := mk_v1_LookupSubjectsResponse {
  gsr_looked_up_at : option v1_ZedToken; gsr_subject : option v1_SubjectReference }.
Record v1_WriteRelationshipsRequest := mk_v1_WriteRelationshipsRequest {
  gw_updates : list v1_RelationshipUpdate }.
Record v1_WriteRelationshipsResponse := mk_v1_WriteRelationshipsResponse {
  gwr_written_at : option v1_ZedToken }.
Record v1_ReadRelationshipsRequest := mk_v1_ReadRelationshipsRequest {
  gd_consistency : option v1_Consistency; gd_filter : option v1_RelationshipFilter;
  gd_optional_limit : Z }.
Record v1_ReadRelationshipsResponse := mk_v1_ReadRelationshipsResponse {
  gdr_read_at : option v1_ZedToken; gdr_relationships : list v1_Relationship }.
Record v1_WriteSchemaRequest := mk_v1_WriteSchemaRequest { gws_schema : string; gws_force : bool }.
Record v1_WriteSchemaResponse := mk_v1_WriteSchemaResponse {
  gwsr_written_at : option v1_ZedToken; gwsr_overridden : bool }.
Record v1_ReadSchemaResponse := mk_v1_ReadSchemaResponse { grsr_schema : string }.

(** ** [tonic::Status] *)

Inductive Code :=
| CodeOk | Cancelled | Unknown | InvalidArgument | DeadlineExceeded | NotFound | AlreadyExists
| PermissionDenied | ResourceExhausted | FailedPrecondition | Aborted | OutOfRange | Unimplemented
| InternalError | Unavailable | DataLoss | Unauthenticated.
Record Status := mk_Status { code : Code; message : string }.

#[export] Instance Code_eq_dec : EqDecision Code.
Proof. solve_decision. Defined.

Definition api_error_to_status (err : ApiError) : Status :=
  match err with
  | ApiCheck (TypeNotFound _) | ApiCheck (PermissionNotFound _ _) | ApiCheck (RelationNotFound _ _) =>
      mk_Status NotFound (api_error_display err)
  | ApiCheck (MaxDepthExceeded _) => mk_Status ResourceExhausted (api_error_display err)
  | ApiStorage EmptyDeleteFilter | ApiStorage (SnapshotAhead _ _) =>
      mk_Status InvalidArgument (api_error_display err)
  | ApiCheck (Engine.StorageError _) | ApiStorage (Internal _) =>
      mk_Status InternalError "internal server error"
  | ApiParse _ | ApiValidation _ => mk_Status InvalidArgument (api_error_display err)
  | ApiBreakingChanges _ => mk_Status FailedPrecondition (api_error_display err)
  | SchemaNotFound => mk_Status NotFound (api_error_display err)
  end.

(** ** [conversions.rs] *)

Definition proto_object_to_domain (obj : v1_ObjectReference) : ObjectRef :=
  mk_ObjectRef (o_object_type obj) (o_object_id obj).

Definition domain_object_to_proto (obj : ObjectRef) : v1_ObjectReference :=
  mk_v1_ObjectReference (object_type obj) (object_id obj).

Definition proto_subject_to_domain (subj : v1_SubjectReference) : SubjectRef :=
  match s_subject_relation subj with
  | Some rel => userset (s_subject_type subj) (s_subject_id subj) rel
  | None => direct (s_subject_type subj) (s_subject_id subj)
  end.

Definition domain_subject_to_proto (subj : SubjectRef) : v1_SubjectReference :=
  mk_v1_SubjectReference (subject_type subj) (subject_id subj) (subject_relation subj).

Definition domain_tuple_to_proto (tuple : Tuple) : v1_Relationship :=
  mk_v1_Relationship (Some (domain_object_to_proto (object tuple))) (relation tuple)
    (Some (domain_subject_to_proto (subject tuple))).

Definition proto_relationship_to_write (rel : v1_Relationship) : result Status TupleWrite :=
  let? object := ok_or (option_map proto_object_to_domain (r_object rel))
                   (mk_Status InvalidArgument "relationship object is required") in
  let? subject := ok_or (option_map proto_subject_to_domain (r_subject rel))
                    (mk_Status InvalidArgument "relationship subject is required") in
  Ok (mk_TupleWrite object (r_relation rel) subject).

Definition proto_filter_to_domain (filter : v1_RelationshipFilter) : TupleFilter :=
  mk_TupleFilter (v_object_type filter) (v_object_id filter) (v_relation filter)
    (v_subject_type filter) (v_subject_id filter) None.

Definition zed_token_to_snapshot (token : v1_ZedToken) : result Status SnapshotToken :=
  let? value := ok_or (parse_u64 (zed_token token))
                  (mk_Status InvalidArgument "invalid snapshot token format") in
  Ok (mk_SnapshotToken value).

Definition proto_consistency_to_domain (consistency : option v1_Consistency) : result Status Consistency :=
  match consistency ≫= requirement with
  | Some (ReqFullConsistency _) => Ok FullConsistency
  | Some (ReqAtLeastAsFresh token) => let? t := zed_token_to_snapshot token in Ok (AtLeastAsFresh t)
  | Some (ReqAtExactSnapshot token) => let? t := zed_token_to_snapshot token in Ok (AtExactSnapshot t)
  | _ => Ok MinimizeLatency
  end.

Definition snapshot_to_zed_token (snapshot : option SnapshotToken) : option v1_ZedToken :=
  option_map (λ s, mk_v1_ZedToken (pretty (token_value s))) snapshot.

Fixpoint domain_expand_tree_to_proto (tree : ExpandTree) : v1_PermissionExpansionTree :=
  let intermediate op children :=
    mk_v1_PermissionExpansionTree (Some (NodeIntermediate op children)) in
  match tree with
  | Leaf s => mk_v1_PermissionExpansionTree (Some (NodeLeaf (Some (domain_subject_to_proto s))))
  | TreeThis _ subjects => intermediate OPERATION_UNION (map domain_expand_tree_to_proto subjects)
  | TreeUnion children => intermediate OPERATION_UNION (map domain_expand_tree_to_proto children)
  | TreeIntersection children =>
      intermediate OPERATION_INTERSECTION (map domain_expand_tree_to_proto children)
  | TreeExclusion base excluded =>
      intermediate OPERATION_EXCLUSION
        [domain_expand_tree_to_proto base; domain_expand_tree_to_proto excluded]
  | TreeArrow _ _ children => intermediate OPERATION_UNION (map domain_expand_tree_to_proto children)
  end.

(** The loop body of [write_relationships]; [Operation::try_from] fails on
    numbers that are no operation, and [unwrap_or(Unspecified)] follows. *)
Definition grpc_update (update : v1_RelationshipUpdate) (acc : list TupleWrite * list TupleFilter)
    : result Status (list TupleWrite * list TupleFilter) :=
  let '(writes, deletes) := acc in
  let? rel := ok_or (update_relationship update)
                (mk_Status InvalidArgument "relationship is required in update") in
  if (update_operation update =? OPERATION_TOUCH)%Z then
    let? write := proto_relationship_to_write rel in Ok (writes ++ [write], deletes)
  else if (update_operation update =? OPERATION_DELETE)%Z then
    Ok (writes, deletes ++ [proto_filter_to_domain
      (mk_v1_RelationshipFilter (option_map o_object_type (r_object rel))
         (option_map o_object_id (r_object rel)) (Some (r_relation rel))
         (option_map s_subject_type (r_subject rel)) (option_map s_subject_id (r_subject rel)))])
  else Err (mk_Status InvalidArgument "operation must be specified").

Fixpoint grpc_updates (updates : list v1_RelationshipUpdate)
    (acc : list TupleWrite * list TupleFilter) : result Status (list TupleWrite * list TupleFilter) :=
  match updates with
  | [] => Ok acc
  | update :: updates' => let? acc' := grpc_update update acc in grpc_updates updates' acc'
  end.

(** A channel of [mpsc] with its receiver not yet polled: [send] waits for ever
    when the buffer is full, which is [None]. *)
Fixpoint send_all {A} (capacity : nat) (buffer : list A) (items : list A) : option (list A) :=
  match items with
  | [] => Some buffer
  | item :: items' =>
      if length buffer <? capacity then send_all capacity (buffer ++ [item]) items' else None
  end.

(** ** The services *)

Section services.
Context {Uuid F S SC CC : Type}.
Context `{StoreFactory F Uuid S, RelationshipStore S, SchemaStore S}.
Context `{Cache SC (TenantId Uuid) Schema, Cache CC (CheckCacheKey Uuid) bool}.
Context (pest_parse : pest_parser) (engine_config : EngineConfig) (schema_limits : SchemaLimits).

Abbreviation service := (@AuthzService Uuid F SC CC).

(** An rpc: a [Result<Response<A>, Status>]. *)
Definition rpc (A : Type) : Type := service → result Status A * service.

(** [extract_tenant_id]: [request.extensions().get::<TenantId>()] *)
Definition extract_tenant_id (extension : option (TenantId Uuid)) : result Status (TenantId Uuid) :=
  ok_or extension (mk_Status Unauthenticated "missing tenant context").

(** [r?] before the call on the service *)
Definition rpc_try {A B} (r : result Status A) (k : A → rpc B) : rpc B := λ sv,
  match r with Ok a => k a sv | Err status => (Err status, sv) end.

Notation "'let^' x := e 'in' k" := (rpc_try e (λ x, k))
  (at level 10, x name, e at level 200, k at level 200).

(** [self.service.op(..).await.map_err(api_error_to_status)?], the record of
    the method's metrics, and the response. *)
Definition rpc_call {A B} (name : string) (elapsed : Duration) (op : @svc Uuid F SC CC A)
    (response : A → result Status B) : rpc B := λ sv,
  let '(r, sv') := op sv in
  match r with
  | Err e => (Err (api_error_to_status e), sv')
  | Ok a =>
      (response a,
       mk_AuthzService (factory sv') (schema_cache sv') (check_cache sv')
         (record_method_request name elapsed <$> service_metrics sv') (audit_log sv'))
  end.

Definition resource_required (o : option v1_ObjectReference) : result Status v1_ObjectReference :=
  ok_or o (mk_Status InvalidArgument "resource is required").
Definition subject_required (o : option v1_SubjectReference) : result Status v1_SubjectReference :=
  ok_or o (mk_Status InvalidArgument "subject is required").

Definition grpc_check_permission (extension : option (TenantId Uuid)) (elapsed : Duration)
    (req : v1_CheckPermissionRequest) : rpc v1_CheckPermissionResponse :=
  let^ tenant_id := extract_tenant_id extension in
  let^ resource := resource_required (gc_resource req) in
  let^ subject := subject_required (gc_subject req) in
  let^ consistency := proto_consistency_to_domain (gc_consistency req) in
  rpc_call "check" elapsed
    (check_permission pest_parse engine_config tenant_id
       (mk_CheckPermissionInput (o_object_type resource) (o_object_id resource) (gc_permission req)
          (s_subject_type subject) (s_subject_id subject) consistency))
    (λ out, Ok (mk_v1_CheckPermissionResponse (snapshot_to_zed_token (co_snapshot out))
       (if co_allowed out then PERMISSIONSHIP_HAS_PERMISSION else PERMISSIONSHIP_NO_PERMISSION))).

Definition grpc_expand_permission_tree (extension : option (TenantId Uuid)) (elapsed : Duration)
    (req : v1_ExpandPermissionTreeRequest) : rpc v1_ExpandPermissionTreeResponse :=
  let^ tenant_id := extract_tenant_id extension in
  let^ resource := resource_required (ge_resource req) in
  let^ consistency := proto_consistency_to_domain (ge_consistency req) in
  rpc_call "expand" elapsed
    (expand_permission_tree pest_parse engine_config tenant_id
       (mk_ExpandPermissionInput (o_object_type resource) (o_object_id resource) (ge_permission req)
          consistency))
    (λ out, Ok (mk_v1_ExpandPermissionTreeResponse (snapshot_to_zed_token (eo_snapshot out))
       (Some (domain_expand_tree_to_proto (eo_tree out))))).

(** [(limit as usize).min(10_000)] when the limit is positive *)
Definition optional_limit (limit : Z) : option nat :=
  if (0 <? limit)%Z then Some (Z.to_nat (Z.min limit 10000)) else None.

(** A streaming rpc fills a channel before it returns the receiving end; the
    result is [None] if it waits for ever. *)
Definition streamed {A B} (capacity : A → nat) (items : A → list B) (a : A) : option (list B) :=
  send_all (capacity a) [] (items a).

Definition grpc_lookup_resources (extension : option (TenantId Uuid)) (elapsed : Duration)
    (req : v1_LookupResourcesRequest) : rpc (option (list v1_LookupResourcesResponse)) :=
  let^ tenant_id := extract_tenant_id extension in
  let^ subject := subject_required (gr_subject req) in
  let^ consistency := proto_consistency_to_domain (gr_consistency req) in
  rpc_call "lookup_resources" elapsed
    (lookup_resources pest_parse engine_config tenant_id
       (mk_LookupResourcesInput (gr_resource_type req) (gr_permission req)
          (s_subject_type subject) (s_subject_id subject) consistency
          (optional_limit (gr_optional_limit req))))
    (λ out, Ok (streamed (λ out, Nat.max (length (ro_resource_ids out)) 1)
       (λ out, map (mk_v1_LookupResourcesResponse (snapshot_to_zed_token (ro_snapshot out)))
                 (ro_resource_ids out)) out)).

Definition grpc_lookup_subjects (extension : option (TenantId Uuid)) (elapsed : Duration)
    (req : v1_LookupSubjectsRequest) : rpc (option (list v1_LookupSubjectsResponse)) :=
  let^ tenant_id := extract_tenant_id extension in
  let^ resource := resource_required (gs_resource req) in
  let^ consistency := proto_consistency_to_domain (gs_consistency req) in
  rpc_call "lookup_subjects" elapsed
    (lookup_subjects pest_parse engine_config tenant_id
       (mk_LookupSubjectsInput (o_object_type resource) (o_object_id resource) (gs_permission req)
          (gs_subject_type req) consistency))
    (λ out, Ok (streamed (λ out, Nat.max (length (so_subjects out)) 1)
       (λ out, map (λ s, mk_v1_LookupSubjectsResponse (snapshot_to_zed_token (so_snapshot out))
                           (Some (domain_subject_to_proto s))) (so_subjects out)) out)).

Definition grpc_write_relationships (extension : option (TenantId Uuid)) (elapsed : Duration)
    (req : v1_WriteRelationshipsRequest) : rpc v1_WriteRelationshipsResponse :=
  let^ tenant_id := extract_tenant_id extension in
  let^ acc := grpc_updates (gw_updates req) ([], []) in
  rpc_call "write_relationships" elapsed (write_relationships tenant_id acc.1 acc.2)
    (λ token, Ok (mk_v1_WriteRelationshipsResponse (snapshot_to_zed_token (Some token)))).

Definition grpc_read_relationships (extension : option (TenantId Uuid)) (elapsed : Duration)
    (req : v1_ReadRelationshipsRequest) : rpc v1_ReadRelationshipsResponse :=
  let^ tenant_id := extract_tenant_id extension in
  let filter := default filter_default (option_map proto_filter_to_domain (gd_filter req)) in
  let^ consistency := proto_consistency_to_domain (gd_consistency req) in
  let limit := Some (default 1000 (optional_limit (gd_optional_limit req))) in
  rpc_call "read_relationships" elapsed (read_relationships tenant_id filter consistency limit)
    (λ out, Ok (mk_v1_ReadRelationshipsResponse (snapshot_to_zed_token (rro_snapshot out))
       (map domain_tuple_to_proto (rro_tuples out)))).

Definition grpc_watch {A} : rpc A := λ sv,
  (Err (mk_Status Unimplemented "Watch is not yet implemented"), sv).

Definition grpc_write_schema (extension : option (TenantId Uuid)) (elapsed : Duration)
    (req : v1_WriteSchemaRequest) : rpc v1_WriteSchemaResponse :=
  let^ tenant_id := extract_tenant_id extension in
  rpc_call "write_schema" elapsed
    (write_schema pest_parse schema_limits tenant_id (gws_schema req) (gws_force req))
    (λ out, Ok (mk_v1_WriteSchemaResponse None (breaking_changes_overridden out))).

Definition grpc_read_schema (extension : option (TenantId Uuid)) (elapsed : Duration)
    : rpc v1_ReadSchemaResponse :=
  let^ tenant_id := extract_tenant_id extension in
  rpc_call "read_schema" elapsed (read_schema tenant_id)
    (λ out, match out with
            | Some text => Ok (mk_v1_ReadSchemaResponse text)
            | None => Err (mk_Status NotFound "no schema has been written")
            end).
End services.
