(* ===== verification/GrpcTheorems.v ===== *)
(** * What the gRPC API guarantees

    That it is the same API as the REST one, that its streaming rpcs return,
    and what an incomplete delete does. *)
From stdpp Require Import base tactics list strings gmap pretty.
From S2P Require Import Prelude Tuples Schema Validation Parser Engine Check CheckSpec CheckTheorems Expand.
From S2P Require Import Storage Memory StoreCheck Cache Metrics Service ServiceSpec ServiceTheorems Numbers Auth.
From S2P Require Import Rest RestTheorems Grpc.

(** ** The gRPC form of a REST request *)

Definition grpc_consistency (c : ConsistencyRequest) : v1_Consistency :=
  mk_v1_Consistency (Some
    match c with
    | CrFull => ReqFullConsistency true
    | CrMinimizeLatency => ReqMinimizeLatency true
    | CrAtLeastAsFresh token => ReqAtLeastAsFresh (mk_v1_ZedToken token)
    | CrAtExactSnapshot token => ReqAtExactSnapshot (mk_v1_ZedToken token)
    end).

Definition grpc_check_of (req : CheckPermissionRequest) : v1_CheckPermissionRequest :=
  mk_v1_CheckPermissionRequest (option_map grpc_consistency (cp_consistency req))
    (Some (mk_v1_ObjectReference (cp_resource_type req) (cp_resource_id req)))
    (cp_permission req)
    (Some (mk_v1_SubjectReference (cp_subject_type req) (cp_subject_id req) None)).

Definition grpc_update_of (u : RelationshipUpdate) : v1_RelationshipUpdate :=
  mk_v1_RelationshipUpdate
    (if bool_decide (operation u = "touch") then OPERATION_TOUCH
     else if bool_decide (operation u = "delete") then OPERATION_DELETE else OPERATION_UNSPECIFIED)
    (Some (mk_v1_Relationship (Some (mk_v1_ObjectReference (u_resource_type u) (u_resource_id u)))
       (u_relation u)
       (Some (mk_v1_SubjectReference (u_subject_type u) (u_subject_id u) (u_subject_relation u))))).

(** The HTTP status of a gRPC code the server answers with. *)
Definition http_status (c : Code) : Z :=
  match c with
  | InvalidArgument => 400 | NotFound => 404 | ResourceExhausted => 422 | FailedPrecondition => 412
  | Unimplemented => 501 | Unauthenticated => 401 | _ => 500
  end.

Definition error_of_status (s : Status) : ApiResult := error_response (http_status (code s)) (message s).

(** The two error mappings are one. *)
Lemma api_errors_agree e : api_error_to_response e = error_of_status (api_error_to_status e).
Proof. by destruct e as [[]|[]| | | |]. Qed.

Lemma tokens_agree token :
  parse_token token = map_err error_of_status (zed_token_to_snapshot (mk_v1_ZedToken token)).
Proof. unfold parse_token, zed_token_to_snapshot. simpl. by destruct (parse_u64 token). Qed.

Lemma consistency_agrees c :
  resolve_consistency c =
  map_err error_of_status (proto_consistency_to_domain (option_map grpc_consistency c)).
Proof.
  unfold resolve_consistency, proto_consistency_to_domain.
  destruct c as [[| |token|token]|]; try done;
    cbn [option_map mbind option_bind grpc_consistency requirement]; rewrite tokens_agree;
    by destruct (zed_token_to_snapshot _).
Qed.

Lemma grpc_update_Ok u acc :
  valid_update u →
  grpc_update (grpc_update_of u) acc = Ok (acc.1 ++ touched [u], acc.2 ++ deleted [u]).
Proof.
  intros [_ Hop]. unfold grpc_update, grpc_update_of, touched, deleted. destruct acc as [ws ds].
  rewrite !filter_cons, !filter_nil. cbn [update_relationship ok_or try update_operation].
  destruct Hop as [Hop|Hop]; rewrite Hop; repeat case_decide; repeat case_bool_decide; try done; simpl;
    rewrite app_nil_r.
  - unfold update_write, proto_subject_to_domain. simpl. by destruct (u_subject_relation u).
  - done.
Qed.

Lemma grpc_updates_Ok us acc :
  Forall valid_update us →
  grpc_updates (map grpc_update_of us) acc = Ok (acc.1 ++ touched us, acc.2 ++ deleted us).
Proof.
  intros Hus. revert acc. induction Hus as [|u us Hu _ IH]; intros acc; cbn [grpc_updates map].
  - by rewrite !app_nil_r, <-surjective_pairing.
  - rewrite grpc_update_Ok by done. cbn [try]. rewrite IH. cbn [fst snd].
    unfold touched, deleted. rewrite (filter_app _ [u] us), (filter_app _ [u] us), !map_app, !app_assoc.
    done.
Qed.

(** A channel with room for everything takes everything. *)
Lemma send_all_room {A} capacity (buffer items : list A) :
  length buffer + length items ≤ capacity → send_all capacity buffer items = Some (buffer ++ items).
Proof.
  revert buffer. induction items as [|item items IH]; intros buffer Hroom; simpl in *; [by rewrite app_nil_r|].
  rewrite (proj2 (Nat.ltb_lt _ _)) by lia. rewrite IH by (rewrite length_app; simpl; lia).
  by rewrite <-app_assoc.
Qed.

(** ** The theorems *)

Section properties.
Context {Uuid F S SC CC : Type}.
Context `{StoreFactory F Uuid S, RelationshipStore S, SchemaStore S}.
Context `{Cache SC (TenantId Uuid) Schema, Cache CC (CheckCacheKey Uuid) bool}.
Context (pest_parse : pest_parser) (engine_config : EngineConfig).
Abbreviation service := (@AuthzService Uuid F SC CC).

(** The same stores and caches. *)
Definition same_state (sv sv' : service) : Prop :=
  factory sv = factory sv' ∧ schema_cache sv = schema_cache sv' ∧ check_cache sv = check_cache sv'.

(** C16: Both APIs are one API: on the same service a well-formed check gets
    the same answer and token, or the same error under the HTTP status of its
    gRPC code, and a batch of up to 1000 well-formed updates makes the same
    stores and gets the same token. *)
Theorem rest_grpc_agree t elapsed creq wreq (sv : service) :
  Forall valid_identifier [cp_resource_type creq; cp_resource_id creq; cp_permission creq;
                           cp_subject_type creq; cp_subject_id creq] →
  length (updates wreq) ≤ MAX_BATCH_SIZE → Forall valid_update (updates wreq) →
  let rest_check := rest_check_permission pest_parse engine_config t creq sv in
  let grpc_check := grpc_check_permission pest_parse engine_config (Some t) elapsed (grpc_check_of creq) sv in
  let rest_write := rest_write_relationships t wreq sv in
  let grpc_write := grpc_write_relationships (Some t) elapsed
    (mk_v1_WriteRelationshipsRequest (map grpc_update_of (updates wreq))) sv in
  (rest_check.1 =
     match grpc_check.1 with
     | Ok out => (200%Z, JObject (("allowed", JBool (permissionship out =? PERMISSIONSHIP_HAS_PERMISSION)%Z)
                                  :: skip_none "checked_at" (option_map zed_token (gcr_checked_at out))))
     | Err status => error_of_status status
     end ∧ same_state rest_check.2 grpc_check.2) ∧
  (rest_write.1 =
     match grpc_write.1 with
     | Ok out => (200%Z, JObject [("written_at",
                    JString (default EmptyString (option_map zed_token (gwr_written_at out))))])
     | Err status => error_of_status status
     end ∧ same_state rest_write.2 grpc_write.2).
Proof.
  intros Hids Hlen Hupdates rest_check grpc_check rest_write grpc_write. split.
  - subst rest_check grpc_check. unfold rest_check_permission, grpc_check_permission.
    rewrite (proj2 (validate_identifiers_Ok _)) by exact Hids. cbn [or_return].
    unfold rpc_try. simpl. rewrite consistency_agrees.
    destruct (proto_consistency_to_domain _) as [c|status]; [|done]. cbn [map_err or_return].
    unfold call_service, rpc_call. destruct (check_permission _ _ _ _ sv) as [[out|e] sv']; [|by rewrite api_errors_agree].
    simpl. split; [|done]. destruct out as [[] [token|]]; done.
  - subst rest_write grpc_write. unfold rest_write_relationships, grpc_write_relationships.
    rewrite (proj2 (Nat.ltb_ge _ _)) by done. rewrite rest_updates_Ok by done.
    unfold rpc_try. cbn [extract_tenant_id ok_or gw_updates]. rewrite grpc_updates_Ok by done.
    cbn [or_return app fst snd]. unfold call_service, rpc_call.
    destruct (write_relationships _ _ _ sv) as [[token|e] sv']; [done|by rewrite api_errors_agree].
Qed.

(** The streaming rpcs return: the channel has room for every result, so
    filling it before the client reads never blocks, and the stream is every
    result of the lookup in order, each with the token of the snapshot. *)
Theorem lookup_streams_complete extension elapsed rreq sreq (sv : service) :
  (∀ stream, (grpc_lookup_resources pest_parse engine_config extension elapsed rreq sv).1 = Ok stream →
     ∃ t input out, extension = Some t ∧
       (lookup_resources pest_parse engine_config t input sv).1 = Ok out ∧
       ri_resource_type input = gr_resource_type rreq ∧ ri_permission input = gr_permission rreq ∧
       ri_limit input = optional_limit (gr_optional_limit rreq) ∧
       stream = Some (map (mk_v1_LookupResourcesResponse (snapshot_to_zed_token (ro_snapshot out)))
                        (ro_resource_ids out))) ∧
  (∀ stream, (grpc_lookup_subjects pest_parse engine_config extension elapsed sreq sv).1 = Ok stream →
     ∃ t input out, extension = Some t ∧
       (lookup_subjects pest_parse engine_config t input sv).1 = Ok out ∧
       si_permission input = gs_permission sreq ∧ si_subject_type input = gs_subject_type sreq ∧
       stream = Some (map (λ s, mk_v1_LookupSubjectsResponse (snapshot_to_zed_token (so_snapshot out))
                                  (Some (domain_subject_to_proto s))) (so_subjects out))).
Proof.
  split; intros stream; unfold grpc_lookup_resources, grpc_lookup_subjects, rpc_try, rpc_call;
    (destruct extension as [t|]; [|done]); simpl.
  - destruct (subject_required _) as [subject|]; [|done].
    destruct (proto_consistency_to_domain _) as [c|]; [|done].
    destruct (lookup_resources _ _ _ _ sv) as [[out|] sv'] eqn:Hl; [|done]. simpl. intros [= <-].
    exists t. eexists _, out. split_and!; [done|by rewrite Hl|done..|].
    unfold streamed. rewrite send_all_room; [done|]. simpl. rewrite length_map. lia.
  - destruct (resource_required _) as [resource|]; [|done].
    destruct (proto_consistency_to_domain _) as [c|]; [|done].
    destruct (lookup_subjects _ _ _ _ sv) as [[out|] sv'] eqn:Hl; [|done]. simpl. intros [= <-].
    exists t. eexists _, out. split_and!; [done|by rewrite Hl|done..|].
    unfold streamed. rewrite send_all_room; [done|]. simpl. rewrite length_map. lia.
Qed.
End properties.

(** A delete update over gRPC whose relationship has no object and no
    subject is accepted, and its filter matches every relationship with that
    relation name: it deletes them all. *)
Theorem grpc_delete_without_object_deletes_all rel :
  ∃ filter, grpc_update (mk_v1_RelationshipUpdate OPERATION_DELETE
                           (Some (mk_v1_Relationship None rel None))) ([], []) = Ok ([], [filter]) ∧
    has_any_field filter = true ∧ ∀ t, matches filter t = true ↔ relation t = rel.
Proof.
  eexists. split_and!; [reflexivity|done|]. intros t. rewrite matches_iff. simpl. naive_solver.
Qed.

Lemma rest_grpc_agree_witness :
  let req := grpc_check_permission two_texts engine_config_default (Some acme) (mk_Duration 0 1000)
               (grpc_check_of alice_check) folder_service in
  req.1 = Ok (mk_v1_CheckPermissionResponse (Some (mk_v1_ZedToken "1")) PERMISSIONSHIP_HAS_PERMISSION) ∧
  (rest_check_permission two_texts engine_config_default acme alice_check folder_service).1 =
    (200%Z, JObject [("allowed", JBool true); ("checked_at", JString "1")]).
Proof.
  intros req.
  assert (req.1 = Ok (mk_v1_CheckPermissionResponse (Some (mk_v1_ZedToken "1")) PERMISSIONSHIP_HAS_PERMISSION))
    as Hreq by (vm_compute; reflexivity).
  split; [exact Hreq|].
  destruct (rest_grpc_agree two_texts engine_config_default acme (mk_Duration 0 1000) alice_check
    (mk_WriteRelationshipsRequest [alice_update "touch"]) folder_service) as [[H _] _].
  - repeat constructor; first [discriminate|vm_compute; lia].
  - vm_compute. lia.
  - repeat constructor; first [discriminate|vm_compute; lia].
  - fold req in H. rewrite Hreq in H. exact H.
Defined.

Definition folders_request : v1_LookupResourcesRequest :=
  mk_v1_LookupResourcesRequest (Some (mk_v1_Consistency (Some (ReqFullConsistency true)))) "folder" "view"
    (Some (mk_v1_SubjectReference "user" "alice" None)) 0.

Lemma lookup_streams_complete_witness :
  ∃ stream, (grpc_lookup_resources two_texts engine_config_default (Some acme) (mk_Duration 0 1000)
               folders_request folder_service).1 = Ok stream ∧
    stream = Some [mk_v1_LookupResourcesResponse (Some (mk_v1_ZedToken "1")) "a";
                   mk_v1_LookupResourcesResponse (Some (mk_v1_ZedToken "1")) "b"].
Proof.
  assert ((grpc_lookup_resources two_texts engine_config_default (Some acme) (mk_Duration 0 1000)
             folders_request folder_service).1 =
          Ok (Some [mk_v1_LookupResourcesResponse (Some (mk_v1_ZedToken "1")) "a";
                    mk_v1_LookupResourcesResponse (Some (mk_v1_ZedToken "1")) "b"])) as Hstream
    by (vm_compute; reflexivity).
  destruct (proj1 (lookup_streams_complete two_texts engine_config_default (Some acme)
    (mk_Duration 0 1000) folders_request
    (mk_v1_LookupSubjectsRequest None None EmptyString EmptyString) folder_service) _ Hstream)
    as (t & input & out & _ & _ & _ & _ & _ & Hout).
  eexists. split; [exact Hstream|]. reflexivity.
Defined.
