(* ===== verification/Postgres.v ===== *)
(** * The PostgreSQL store ([crates/kraalzibar-storage/src/postgres/])

    [queries.rs] and the store of [mod.rs].  A query is a statement with
    numbered placeholders and a list of parameters; a method of the store is a
    program of statements and transactions, each of which the database may
    fail.  The database is a parameter; [documented] says what PostgreSQL's
    documentation promises of these statements, and the theorems assume no
    more of it: in particular no order of rows without [ORDER BY]. *)
From Stdlib Require Import Ascii.
From stdpp Require Import base tactics list strings gmap pretty.
From S2P Require Import Prelude Tuples Numbers Storage Memory.

(** [i64::MAX] *)
Definition PG_ACTIVE_TX_ID : Z := 2 ^ 63 - 1.

(** [tx_id as u64] and [val as i64]: two's complement at 64 bits *)
Definition i64_as_u64 (z : Z) : Z := (z mod u64_modulus)%Z.
Definition u64_as_i64 (z : Z) : Z := if (z <? 2 ^ 63)%Z then z else (z - u64_modulus)%Z.

(** ** Statements *)

Inductive column :=
| CObjectType | CObjectId | CRelation | CSubjectType | CSubjectId | CSubjectRelation.

Definition column_name (c : column) : string :=
  match c with
  | CObjectType => "object_type" | CObjectId => "object_id" | CRelation => "relation"
  | CSubjectType => "subject_type" | CSubjectId => "subject_id"
  | CSubjectRelation => "subject_relation"
  end.

(** The conjuncts of a [WHERE] clause; a number is that of a placeholder. *)
Inductive condition :=
| ColumnEq (c : column) (placeholder : nat)
| SubjectRelationIsNull
| DeletedEq (placeholder : nat)
| CreatedLe (placeholder : nat)
| DeletedGt (placeholder : nat).

Definition condition_text (c : condition) : string :=
  match c with
  | ColumnEq c n => column_name c +:+ " = $" +:+ pretty n
  | SubjectRelationIsNull => "subject_relation IS NULL"
  | DeletedEq n => "deleted_tx_id = $" +:+ pretty n
  | CreatedLe n => "created_tx_id <= $" +:+ pretty n
  | DeletedGt n => "deleted_tx_id > $" +:+ pretty n
  end.

Inductive sql_value := SqlInt (z : Z) | SqlText (s : string) | SqlNull.

Definition sql_text_option (o : option string) : sql_value :=
  match o with Some s => SqlText s | None => SqlNull end.

(** The columns a row of [read_tuples] has. *)
Abbreviation columns := (string * string * string * string * string * option string)%type.

(** A statement and the type of its answer. *)
Inductive sql : Type → Type :=
| NextVal : sql Z
| LastValue : sql Z
| InsertTuple : sql unit
| UpdateDeleted (conditions : list condition) : sql unit
| SelectTuples (conditions : list condition) (limit : option nat) : sql (list columns)
| SelectObjectIds (limit : option nat) : sql (list string)
| InsertDefinition : sql unit
| SelectDefinition : sql (option string).

Fixpoint join_and (l : list string) : string :=
  match l with
  | [] => EmptyString
  | [s] => s
  | s :: l' => s +:+ " AND " +:+ join_and l'
  end.

Definition where_clause (conditions : list condition) : string := join_and (map condition_text conditions).
Definition limit_clause (limit : option nat) : string :=
  match limit with Some n => " LIMIT " +:+ pretty n | None => EmptyString end.

(** The text of a statement, with spaces for line breaks. *)
Definition sql_text {R} (schema : string) (st : sql R) : string :=
  match st with
  | NextVal => "SELECT nextval('" +:+ schema +:+ ".tx_id_seq')"
  | LastValue =>
      "SELECT COALESCE((SELECT last_value FROM " +:+ schema +:+ ".tx_id_seq WHERE is_called = true), 0)"
  | InsertTuple =>
      "INSERT INTO " +:+ schema +:+ ".relation_tuples (object_type, object_id, relation, subject_type, subject_id, subject_relation, created_tx_id, deleted_tx_id) VALUES ($1, $2, $3, $4, $5, $6, $7, $8) ON CONFLICT (object_type, object_id, relation, subject_type, subject_id, subject_relation, deleted_tx_id) DO NOTHING"
  | UpdateDeleted conditions =>
      "UPDATE " +:+ schema +:+ ".relation_tuples SET deleted_tx_id = $2 WHERE " +:+ where_clause conditions
  | SelectTuples conditions limit =>
      "SELECT object_type, object_id, relation, subject_type, subject_id, subject_relation FROM "
      +:+ schema +:+ ".relation_tuples WHERE " +:+ where_clause conditions +:+ limit_clause limit
  | SelectObjectIds limit =>
      "SELECT DISTINCT object_id FROM " +:+ schema +:+ ".relation_tuples WHERE object_type = $1 AND created_tx_id <= $2 AND deleted_tx_id > $2 ORDER BY object_id"
      +:+ limit_clause limit
  | InsertDefinition => "INSERT INTO " +:+ schema +:+ ".schema_definitions (definition) VALUES ($1)"
  | SelectDefinition =>
      "SELECT definition FROM " +:+ schema +:+ ".schema_definitions ORDER BY created_at DESC LIMIT 1"
  end.

(** ** Programs of statements

    [PTx body k]: [pool.begin()], [body], then [commit], or the rollback that
    dropping the transaction is when [body] returns an error. *)
Inductive pg : Type → Type :=
| PDone {A} (r : result StorageError A) : pg A
| PCall {R A} (st : sql R) (params : list sql_value) (k : result string R → pg A) : pg A
| PTx {B A} (body : pg B) (k : result StorageError B → pg A) : pg A.

Fixpoint pg_bind {A B} (p : pg A) (f : A → pg B) : pg B :=
  match p in pg A return (A → pg B) → pg B with
  | PDone r => λ f, match r with Ok a => f a | Err e => PDone (Err e) end
  | PCall st params k => λ f, PCall st params (λ r, pg_bind (k r) f)
  | PTx body k => λ f, PTx body (λ r, pg_bind (k r) f)
  end f.

Notation "'let$' x := e 'in' k" := (pg_bind e (λ x, k))
  (at level 10, x name, e at level 200, k at level 200).

(** [.map_err(to_storage_error)] *)
Definition call {R} (st : sql R) (params : list sql_value) : pg R :=
  PCall st params (λ r, PDone (map_err Internal r)).
Definition transaction {A} (body : pg A) : pg A := PTx body PDone.

(** *** [queries.rs] *)

Definition next_tx_id : pg Z :=
  let$ v := call NextVal [] in
  if (v =? PG_ACTIVE_TX_ID)%Z
  then PDone (Err (Internal "transaction ID sequence exhausted (reached sentinel value)"))
  else PDone (Ok v).

Definition current_tx_id : pg Z := call LastValue [].

Definition insert_tuple (write : TupleWrite) (tx_id : Z) : pg unit :=
  call InsertTuple [
    SqlText (object_type (w_object write)); SqlText (object_id (w_object write));
    SqlText (w_relation write); SqlText (subject_type (w_subject write));
    SqlText (subject_id (w_subject write)); sql_text_option (subject_relation (w_subject write));
    SqlInt tx_id; SqlInt PG_ACTIVE_TX_ID].

(** [conditions], [binds] and [bind_idx] while a clause is built. *)
Abbreviation builder := (list condition * list string * nat)%type.

(** [if let Some(ref x) = field { conditions.push(..); binds.push(..); bind_idx += 1; }] *)
Definition push_eq (c : column) (field : option string) (b : builder) : builder :=
  let '(conditions, binds, bind_idx) := b in
  match field with
  | Some x => (conditions ++ [ColumnEq c bind_idx], binds ++ [x], S bind_idx)
  | None => b
  end.

Definition push_subject_relation (field : option (option string)) (b : builder) : builder :=
  let '(conditions, binds, bind_idx) := b in
  match field with
  | Some None => (conditions ++ [SubjectRelationIsNull], binds, bind_idx)
  | Some (Some rel) => push_eq CSubjectRelation (Some rel) b
  | None => b
  end.

Definition push_filter (filter : TupleFilter) (b : builder) : builder :=
  let b := push_eq CObjectType (f_object_type filter) b in
  let b := push_eq CObjectId (f_object_id filter) b in
  let b := push_eq CRelation (f_relation filter) b in
  let b := push_eq CSubjectType (f_subject_type filter) b in
  let b := push_eq CSubjectId (f_subject_id filter) b in
  push_subject_relation (f_subject_relation filter) b.

Definition delete_matching_tuples (filter : TupleFilter) (tx_id : Z) : pg unit :=
  let '(conditions, binds, _) := push_filter filter ([DeletedEq 1], [], 3) in
  call (UpdateDeleted conditions) (SqlInt PG_ACTIVE_TX_ID :: SqlInt tx_id :: map SqlText binds).

Definition tuple_of_columns (row : columns) : Tuple :=
  let '(ot, oi, rel, st, si, sr) := row in
  let subject := match sr with None => direct st si | Some r => userset st si r end in
  mk_Tuple (mk_ObjectRef ot oi) rel subject.

Definition query_read_tuples (filter : TupleFilter) (snapshot : Z) (limit : option nat) : pg (list Tuple) :=
  let '(conditions, binds, _) := push_filter filter ([CreatedLe 1; DeletedGt 1], [], 2) in
  let$ rows := call (SelectTuples conditions limit) (SqlInt snapshot :: map SqlText binds) in
  PDone (Ok (map tuple_of_columns rows)).

Definition list_distinct_object_ids (object_type : string) (snapshot : Z) (limit : option nat)
    : pg (list string) := call (SelectObjectIds limit) [SqlText object_type; SqlInt snapshot].

Definition write_schema_definition (definition : string) : pg unit :=
  call InsertDefinition [SqlText definition].
Definition read_latest_schema : pg (option string) := call SelectDefinition [].

(** *** [PostgresStore] *)

(** [for x in l { f(x).await?; }] *)
Fixpoint for_each {A} (f : A → pg unit) (l : list A) : pg unit :=
  match l with
  | [] => PDone (Ok tt)
  | x :: l' => let$ _ := f x in for_each f l'
  end.

Definition write_transaction (writes : list TupleWrite) (deletes : list TupleFilter)
    : pg SnapshotToken :=
  let$ tx_id := next_tx_id in
  let$ _ := for_each (λ filter, delete_matching_tuples filter tx_id) deletes in
  let$ _ := for_each (λ w, insert_tuple w tx_id) writes in
  PDone (Ok (mk_SnapshotToken (i64_as_u64 tx_id))).

Definition pg_write (writes : list TupleWrite) (deletes : list TupleFilter) : pg SnapshotToken :=
  if existsb (λ filter, negb (has_any_field filter)) deletes then PDone (Err EmptyDeleteFilter)
  else transaction (write_transaction writes deletes).

(** The snapshot a read is at. *)
Definition read_snapshot (snapshot : option SnapshotToken) : pg Z :=
  match snapshot with
  | Some token =>
      let val := token_value token in
      let$ current := current_tx_id in
      if (i64_as_u64 current <? val)%Z then PDone (Err (SnapshotAhead val (i64_as_u64 current)))
      else PDone (Ok (u64_as_i64 val))
  | None => current_tx_id
  end.

Definition pg_read (filter : TupleFilter) (snapshot : option SnapshotToken) (limit : option nat)
    : pg (list Tuple) :=
  let$ snap := read_snapshot snapshot in query_read_tuples filter snap limit.

Definition pg_snapshot : pg SnapshotToken :=
  let$ current := current_tx_id in PDone (Ok (mk_SnapshotToken (i64_as_u64 current))).

Definition pg_list_object_ids (object_type : string) (snapshot : option SnapshotToken)
    (limit : option nat) : pg (list string) :=
  let$ snap := read_snapshot snapshot in list_distinct_object_ids object_type snap limit.

Definition pg_write_schema (definition : string) : pg unit := write_schema_definition definition.
Definition pg_read_schema : pg (option string) := read_latest_schema.
