(* ===== verification/PostgresTheorems.v ===== *)
(** * What the PostgreSQL store guarantees

    The statements against what PostgreSQL documents of them, and the store
    against its contract: the generated clauses select exactly what the filter
    means; a write makes one version or, if the database fails anywhere,
    changes no row; reads answer the requested version.  These theorems are
    about one client at a time; the last one says what other connections are
    told while a write is open. *)
From Stdlib Require Import Ascii.
From stdpp Require Import base tactics list strings gmap pretty relations.
From S2P Require Import Prelude Tuples Numbers Storage Memory Postgres.

(** ** The tables of one tenant *)

Record Tables := mk_Tables {
  relation_tuples : list StoredTuple;
  tx_id_seq : option Z;                     (* the last value, once called *)
  schema_definitions : list (Z * string) }. (* with [created_at] *)

Definition param (params : list sql_value) (n : nat) : option sql_value := params !! (n - 1).

Definition column_value (row : StoredTuple) (c : column) : option string :=
  match c with
  | CObjectType => Some (s_object_type row) | CObjectId => Some (s_object_id row)
  | CRelation => Some (s_relation row) | CSubjectType => Some (s_subject_type row)
  | CSubjectId => Some (s_subject_id row) | CSubjectRelation => s_subject_relation row
  end.

(** Whether a conjunct is true of a row: a comparison with [NULL] is not. *)
Definition holds (params : list sql_value) (row : StoredTuple) (c : condition) : bool :=
  match c with
  | ColumnEq c n =>
      match param params n, column_value row c with
      | Some (SqlText s), Some v => bool_decide (v = s)
      | _, _ => false
      end
  | SubjectRelationIsNull => bool_decide (s_subject_relation row = None)
  | DeletedEq n =>
      match param params n with Some (SqlInt z) => (s_deleted_tx_id row =? z)%Z | _ => false end
  | CreatedLe n =>
      match param params n with Some (SqlInt z) => (s_created_tx_id row <=? z)%Z | _ => false end
  | DeletedGt n =>
      match param params n with Some (SqlInt z) => (z <? s_deleted_tx_id row)%Z | _ => false end
  end.

Definition selects (params : list sql_value) (conditions : list condition) (row : StoredTuple) : bool :=
  forallb (holds params row) conditions.

Definition columns_of (row : StoredTuple) : columns :=
  (s_object_type row, s_object_id row, s_relation row, s_subject_type row, s_subject_id row,
   s_subject_relation row).

(** The row an [INSERT] with these parameters makes. *)
Definition row_of_params (params : list sql_value) : option StoredTuple :=
  match params with
  | [SqlText ot; SqlText oi; SqlText rel; SqlText st; SqlText si; sr; SqlInt created; SqlInt deleted] =>
      match sr with
      | SqlText r => Some (mk_StoredTuple ot oi rel st si (Some r) created deleted)
      | SqlNull => Some (mk_StoredTuple ot oi rel st si None created deleted)
      | SqlInt _ => None
      end
  | _ => None
  end.

(** The key of [UNIQUE NULLS NOT DISTINCT]. *)
Definition unique_key (row : StoredTuple) : columns * Z := (columns_of row, s_deleted_tx_id row).

Definition visible_id (object_type : string) (snapshot : Z) (row : StoredTuple) : bool :=
  bool_decide (s_object_type row = object_type) && visible_at snapshot row.

(** What PostgreSQL documents of a statement that succeeds.  [SELECT] and
    [UPDATE] leave the order of the rows open. *)
Definition succeeds {R} (st : sql R) : list sql_value → Tables → R → Tables → Prop :=
  match st with
  | NextVal => λ _ t v t',
      v = default 1%Z (Z.succ <$> tx_id_seq t) ∧ (v ≤ PG_ACTIVE_TX_ID)%Z ∧
      t' = mk_Tables (relation_tuples t) (Some v) (schema_definitions t)
  | LastValue => λ _ t v t', v = default 0%Z (tx_id_seq t) ∧ t' = t
  | InsertTuple => λ params t _ t', ∃ row rows, row_of_params params = Some row ∧
      t' = mk_Tables rows (tx_id_seq t) (schema_definitions t) ∧
      if bool_decide (unique_key row ∈ map unique_key (relation_tuples t))
      then rows = relation_tuples t else rows ≡ₚ row :: relation_tuples t
  | UpdateDeleted conditions => λ params t _ t', ∃ v rows, param params 2 = Some (SqlInt v) ∧
      t' = mk_Tables rows (tx_id_seq t) (schema_definitions t) ∧
      rows ≡ₚ map (λ row, if selects params conditions row then set_deleted v row else row)
                (relation_tuples t)
  | SelectTuples conditions limit => λ params t answer t', t' = t ∧ ∃ rows,
      rows ≡ₚ List.filter (selects params conditions) (relation_tuples t) ∧
      answer = limit_to limit (map columns_of rows)
  | SelectObjectIds limit => λ params t answer t', t' = t ∧ ∃ ot snapshot ids,
      params = [SqlText ot; SqlInt snapshot] ∧ NoDup ids ∧
      (∀ id, id ∈ ids ↔ ∃ row, row ∈ relation_tuples t ∧ visible_id ot snapshot row = true ∧
                           s_object_id row = id) ∧
      answer = limit_to limit ids
  | InsertDefinition => λ params t _ t', ∃ d now, params = [SqlText d] ∧
      t' = mk_Tables (relation_tuples t) (tx_id_seq t) ((now, d) :: schema_definitions t)
  | SelectDefinition => λ _ t answer t', t' = t ∧
      match answer with
      | None => schema_definitions t = []
      | Some d => ∃ now, (now, d) ∈ schema_definitions t ∧
          ∀ now' d', (now', d') ∈ schema_definitions t → (now' ≤ now)%Z
      end
  end.

(** A statement that fails changes nothing. *)
Definition documented {R} (st : sql R) (params : list sql_value) (t : Tables) (r : result string R)
    (t' : Tables) : Prop :=
  match r with Ok a => succeeds st params t a t' | Err _ => t' = t end.

(** ** Executions *)

(** A rollback restores the rows but not the sequence. *)
Definition rolled_back (t t1 : Tables) : Tables :=
  mk_Tables (relation_tuples t) (tx_id_seq t1) (schema_definitions t).

Section executions.
(** How the database answers. *)
Context (db : ∀ R, sql R → list sql_value → Tables → result string R → Tables → Prop).

(** [executes p t r t']: with the tables [t] the program may return [r] and
    leave the tables [t'].  A commit that is reported to fail counts as rolled
    back: a commit whose acknowledgement is lost is left out. *)
Fixpoint executes {A} (p : pg A) : Tables → result StorageError A → Tables → Prop :=
  match p in pg A return Tables → result StorageError A → Tables → Prop with
  | PDone r => λ t res t', res = r ∧ t' = t
  | PCall st params k => λ t res t', ∃ r t1, db _ st params t r t1 ∧ executes (k r) t1 res t'
  | PTx body k => λ t res t',
      (∃ e, executes (k (Err (Internal e))) t res t') ∨
      ∃ r t1, executes body t r t1 ∧
        match r with
        | Err e => executes (k (Err e)) (rolled_back t t1) res t'
        | Ok b => executes (k (Ok b)) t1 res t' ∨
                  ∃ e, executes (k (Err (Internal e))) (rolled_back t t1) res t'
        end
  end.

Lemma executes_bind {A B} (p : pg A) (f : A → pg B) t res t' :
  executes (pg_bind p f) t res t' ↔
  ∃ r t1, executes p t r t1 ∧
    match r with Ok a => executes (f a) t1 res t' | Err e => res = Err e ∧ t' = t1 end.
Proof.
  revert t. induction p as [A r|R A st params k IH|B' A body _ k IH]; intros t; simpl.
  - split; [destruct r as [a|e]; intros H; by eexists _, _|].
    intros (r' & t1 & [-> ->] & H). by destruct r.
  - setoid_rewrite IH. naive_solver.
  - split.
    + intros [(e & He)|(r & t1 & Hb & Hr)].
      * apply IH in He as (r & t1 & ? & ?). exists r, t1. split; [left; by exists e|done].
      * destruct r as [b|e]; [destruct Hr as [Hr|[e Hr]]|];
          apply IH in Hr as (r' & t2 & ? & ?); exists r', t2; (split; [right|done]).
        -- exists (Ok b), t1. auto.
        -- exists (Ok b), t1. eauto.
        -- by exists (Err e), t1.
    + intros (r & t1 & [(e & He)|(r' & t2 & Hb & Hr')] & Hr).
      * left. exists e. apply IH. by exists r, t1.
      * right. exists r', t2. split; [done|]. destruct r' as [b|e]; [destruct Hr' as [?|[e ?]]|].
        -- left. apply IH. by exists r, t1.
        -- right. exists e. apply IH. by exists r, t1.
        -- apply IH. by exists r, t1.
Qed.
End executions.

(** ** The generated clauses *)

(** A condition refers to placeholders below [n]. *)
Definition below (n : nat) (c : condition) : Prop :=
  match c with
  | ColumnEq _ k | DeletedEq k | CreatedLe k | DeletedGt k => 1 ≤ k < n
  | SubjectRelationIsNull => True
  end.

Record builder_ok (prefix : list sql_value) (b : builder) : Prop := {
  bo_next : b.2 = S (length prefix + length b.1.2);
  bo_below : Forall (below b.2) b.1.1 }.

(** What a builder selects with its own parameters. *)
Definition built (prefix : list sql_value) (b : builder) (row : StoredTuple) : bool :=
  selects (prefix ++ map SqlText b.1.2) b.1.1 row.

Lemma holds_app params more row c :
  below (S (length params)) c → holds (params ++ more) row c = holds params row c.
Proof.
  destruct c; simpl; intros; try done; unfold param; by rewrite lookup_app_l by lia.
Qed.

Lemma selects_app params more conditions row :
  Forall (below (S (length params))) conditions →
  selects (params ++ more) conditions row = selects params conditions row.
Proof.
  unfold selects. induction 1 as [|c conditions Hc _ IH]; [done|]. simpl.
  by rewrite IH, holds_app.
Qed.

Lemma push_eq_ok prefix c field b row :
  builder_ok prefix b →
  builder_ok prefix (push_eq c field b) ∧
  built prefix (push_eq c field b) row =
    built prefix b row && match field with
                          | Some x => bool_decide (column_value row c = Some x)
                          | None => true
                          end.
Proof.
  destruct b as [[conditions binds] idx]. intros [Hn Hb]. simpl in *.
  destruct field as [x|]; simpl; [|by rewrite andb_true_r]. subst idx. split.
  - split; simpl; [rewrite length_app; simpl; lia|]. apply Forall_app. split.
    + eapply Forall_impl; [exact Hb|]. intros [] ?; simpl in *; lia.
    + constructor; [simpl; lia|constructor].
  - unfold built. cbn [fst snd]. rewrite map_app, app_assoc. unfold selects at 1.
    rewrite forallb_app. change (forallb (holds ?p ?r) ?l) with (selects p l r). f_equal.
    + apply selects_app. eapply Forall_impl; [exact Hb|]. rewrite length_app, length_map.
      intros [] ?; simpl in *; lia.
    + unfold selects. simpl. rewrite andb_true_r. unfold param.
      rewrite lookup_app_r by (rewrite length_app, length_map; lia).
      rewrite length_app, length_map.
      replace (S (length prefix + length binds) - 1 - (length prefix + length binds)) with 0 by lia.
      simpl. destruct (column_value row c) as [v|]; [|done].
      apply bool_decide_ext. naive_solver.
Qed.

Lemma push_subject_relation_ok prefix field b row :
  builder_ok prefix b →
  builder_ok prefix (push_subject_relation field b) ∧
  built prefix (push_subject_relation field b) row =
    built prefix b row && match field with
                          | Some x => bool_decide (s_subject_relation row = x)
                          | None => true
                          end.
Proof.
  intros Hb. destruct field as [[rel|]|]; cycle 2.
  - destruct b as [[]]. simpl. by rewrite andb_true_r.
  - pose proof (push_eq_ok prefix CSubjectRelation (Some rel) b row Hb) as H.
    by destruct b as [[]].
  - destruct b as [[conditions binds] idx], Hb as [Hn Hb]. simpl in *. split.
    + split; simpl; [done|]. apply Forall_app. split; [done|].
      constructor; [exact I|constructor].
    + unfold built, selects. cbn [fst snd]. rewrite forallb_app. f_equal. simpl.
      rewrite andb_true_r. by apply bool_decide_ext.
Qed.

Lemma field_eq_ok (field : option string) v :
  match field with Some x => bool_decide (Some v = Some x) | None => true end = field_ok field v.
Proof. destruct field; simpl; [|done]. apply bool_decide_ext. naive_solver. Qed.

Lemma subject_relation_eq_ok (field : option (option string)) v :
  match field with Some x => bool_decide (v = x) | None => true end = field_ok field v.
Proof. destruct field; simpl; [|done]. by apply bool_decide_ext. Qed.

Lemma to_tuple_fields row :
  object (to_tuple row) = mk_ObjectRef (s_object_type row) (s_object_id row) ∧
  relation (to_tuple row) = s_relation row ∧
  subject (to_tuple row) =
    mk_SubjectRef (s_subject_type row) (s_subject_id row) (s_subject_relation row).
Proof. by destruct row as [? ? ? ? ? [|] ? ?]. Qed.

(** The placeholders of the clause of a filter are those of its parameters,
    and the clause is true of the rows the filter matches. *)
Lemma push_filter_ok prefix filter b row :
  builder_ok prefix b →
  built prefix (push_filter filter b) row = built prefix b row && matches_filter filter row.
Proof.
  intros Hb0. unfold push_filter.
  destruct (push_eq_ok prefix CObjectType (f_object_type filter) b row Hb0) as [Hb1 H1].
  destruct (push_eq_ok prefix CObjectId (f_object_id filter) _ row Hb1) as [Hb2 H2].
  destruct (push_eq_ok prefix CRelation (f_relation filter) _ row Hb2) as [Hb3 H3].
  destruct (push_eq_ok prefix CSubjectType (f_subject_type filter) _ row Hb3) as [Hb4 H4].
  destruct (push_eq_ok prefix CSubjectId (f_subject_id filter) _ row Hb4) as [Hb5 H5].
  destruct (push_subject_relation_ok prefix (f_subject_relation filter) _ row Hb5) as [_ H6].
  rewrite H6, H5, H4, H3, H2, H1, <-!andb_assoc. f_equal.
  unfold matches_filter. rewrite matches_andb.
  destruct (to_tuple_fields row) as (-> & -> & ->).
  rewrite subject_relation_eq_ok. simpl. by rewrite !field_eq_ok.
Qed.

Lemma delete_clause filter tx_id row :
  let b := push_filter filter ([DeletedEq 1], [], 3) in
  selects (SqlInt PG_ACTIVE_TX_ID :: SqlInt tx_id :: map SqlText b.1.2) b.1.1 row =
    (s_deleted_tx_id row =? PG_ACTIVE_TX_ID)%Z && matches_filter filter row.
Proof.
  intros b. pose proof (push_filter_ok [SqlInt PG_ACTIVE_TX_ID; SqlInt tx_id] filter
    ([DeletedEq 1], [], 3) row) as H. etrans; [apply H|].
  - split; [done|]. constructor; [simpl; lia|constructor].
  - unfold built, selects. simpl. by rewrite andb_true_r.
Qed.

Lemma read_clause filter snapshot row :
  let b := push_filter filter ([CreatedLe 1; DeletedGt 1], [], 2) in
  selects (SqlInt snapshot :: map SqlText b.1.2) b.1.1 row =
    visible_at snapshot row && matches_filter filter row.
Proof.
  intros b. pose proof (push_filter_ok [SqlInt snapshot] filter
    ([CreatedLe 1; DeletedGt 1], [], 2) row) as H. etrans; [apply H|].
  - split; [done|]. constructor; [simpl; lia|constructor; [simpl; lia|constructor]].
  - unfold built, selects, visible_at. simpl. by rewrite andb_true_r.
Qed.

(** ** Versions *)

Definition pg_now (t : Tables) : Z := default 0%Z (tx_id_seq t).
Definition visible_tuples (v : Z) (rows : list StoredTuple) : list Tuple :=
  map to_tuple (List.filter (visible_at v) rows).
Definition pg_view (t : Tables) (v : Z) : list Tuple := visible_tuples v (relation_tuples t).

Definition pg_active (row : StoredTuple) : bool := (s_deleted_tx_id row =? PG_ACTIVE_TX_ID)%Z.

(** A row was created by a past write and, unless active, deleted by one. *)
Definition row_ok (now : Z) (row : StoredTuple) : Prop :=
  (s_created_tx_id row ≤ now ∧ (pg_active row = true ∨ s_deleted_tx_id row ≤ now))%Z.

Record pg_inv (t : Tables) : Prop := {
  pg_inv_now : (0 ≤ pg_now t ≤ PG_ACTIVE_TX_ID)%Z;
  pg_inv_rows : Forall (row_ok (pg_now t)) (relation_tuples t);
  pg_inv_NoDup v : NoDup (pg_view t v) }.

(** [t'] is [t] after a write.  The order of the rows is open. *)
Record pg_written (ws : list TupleWrite) (ds : list TupleFilter) (t t' : Tables) : Prop := {
  pg_written_inv : pg_inv t';
  pg_written_now : pg_now t' = (pg_now t + 1)%Z;
  pg_written_schema : schema_definitions t' = schema_definitions t;
  pg_written_past v : (v ≤ pg_now t)%Z → pg_view t' v ≡ₚ pg_view t v;
  pg_written_present x :
    x ∈ pg_view t' (pg_now t') ↔
    (x ∈ pg_view t (pg_now t) ∧ existsb (λ f, matches f x) ds = false) ∨ x ∈ tuple_of_write <$> ws }.

#[export] Instance visible_tuples_proper v : Proper ((≡ₚ) ==> (≡ₚ)) (visible_tuples v).
Proof. intros l l' H. unfold visible_tuples. by rewrite !filter_bool, H. Qed.

Lemma elem_of_visible_tuples v rows x :
  x ∈ visible_tuples v rows ↔ ∃ row, row ∈ rows ∧ visible_at v row = true ∧ to_tuple row = x.
Proof.
  unfold visible_tuples. rewrite list_elem_of_In, in_map_iff. setoid_rewrite filter_In.
  setoid_rewrite <-list_elem_of_In. naive_solver.
Qed.

Lemma to_tuple_columns row : tuple_of_columns (columns_of row) = to_tuple row.
Proof. done. Qed.

Lemma columns_eq row row' : to_tuple row = to_tuple row' ↔ columns_of row = columns_of row'.
Proof.
  destruct row as [? ? ? ? ? r ? ?], row' as [? ? ? ? ? r' ? ?]. unfold columns_of, to_tuple. simpl.
  destruct r, r'; unfold direct, userset; split; intros H; simplify_eq; done.
Qed.

(** What the current version and later ones show is what is active. *)
Lemma visible_current now v row :
  row_ok now row → (now ≤ v < PG_ACTIVE_TX_ID)%Z → visible_at v row = pg_active row.
Proof.
  unfold row_ok, visible_at, pg_active. intros [Hc Hd] Hv.
  destruct (Z.leb_spec (s_created_tx_id row) v), (Z.ltb_spec v (s_deleted_tx_id row)),
    (Z.eqb_spec (s_deleted_tx_id row) PG_ACTIVE_TX_ID); simpl; try lia; destruct Hd; lia || done.
Qed.

Lemma row_ok_mono now now' row : row_ok now row → (now ≤ now')%Z → row_ok now' row.
Proof. intros [? [?|?]] ?; split; [lia|by left|lia|right; lia]. Qed.

(** *** The deletes of a write *)

Definition deleted_by (tx : Z) (ds : list TupleFilter) (row : StoredTuple) : StoredTuple :=
  if pg_active row && existsb (λ f, matches_filter f row) ds then set_deleted tx row else row.

Lemma deleted_by_tuple tx ds row : to_tuple (deleted_by tx ds row) = to_tuple row.
Proof. unfold deleted_by. case_match; [apply to_tuple_set_deleted|done]. Qed.

Lemma deleted_by_active tx ds row :
  tx ≠ PG_ACTIVE_TX_ID →
  pg_active (deleted_by tx ds row) =
    pg_active row && negb (existsb (λ f, matches_filter f row) ds).
Proof.
  intros Htx. unfold deleted_by. destruct (pg_active row) eqn:Ha; simpl; [|by rewrite Ha].
  destruct (existsb _ ds); simpl; [|done]. unfold pg_active. simpl. by apply Z.eqb_neq.
Qed.

Lemma deleted_by_nil tx rows : map (deleted_by tx []) rows = rows.
Proof.
  rewrite <-(map_id rows) at 2. apply map_ext. intros row. unfold deleted_by. simpl.
  by rewrite andb_false_r.
Qed.

Lemma deleted_by_cons tx d ds row :
  tx ≠ PG_ACTIVE_TX_ID → deleted_by tx ds (deleted_by tx [d] row) = deleted_by tx (d :: ds) row.
Proof.
  intros Htx. unfold deleted_by at 1. rewrite deleted_by_active by done.
  unfold matches_filter. rewrite deleted_by_tuple. unfold deleted_by, matches_filter. simpl.
  rewrite orb_false_r.
  destruct (pg_active row), (matches d (to_tuple row)); simpl; done.
Qed.

(** An earlier version does not see it. *)
Lemma deleted_by_past tx ds v row :
  (v < tx ≤ PG_ACTIVE_TX_ID)%Z → visible_at v (deleted_by tx ds row) = visible_at v row.
Proof.
  intros Hv. unfold deleted_by. destruct (pg_active row) eqn:Ha; simpl; [|done].
  destruct (existsb _ ds); [|done]. unfold visible_at, set_deleted. simpl. f_equal.
  apply Z.eqb_eq in Ha. rewrite Ha. destruct (Z.ltb_spec v tx), (Z.ltb_spec v PG_ACTIVE_TX_ID); lia || done.
Qed.

Lemma visible_map v (p : StoredTuple → StoredTuple) rows :
  (∀ row, to_tuple (p row) = to_tuple row) →
  (∀ row, visible_at v (p row) = visible_at v row) →
  visible_tuples v (map p rows) = visible_tuples v rows.
Proof.
  intros Ht Hv. unfold visible_tuples. induction rows as [|row rows IH]; [done|]. simpl. rewrite Hv.
  destruct (visible_at v row); simpl; by rewrite ?Ht, IH.
Qed.

(** *** The writes of a write *)

Definition stored_by (tx : Z) (w : TupleWrite) : StoredTuple :=
  mk_StoredTuple (object_type (w_object w)) (object_id (w_object w)) (w_relation w)
    (subject_type (w_subject w)) (subject_id (w_subject w)) (subject_relation (w_subject w))
    tx PG_ACTIVE_TX_ID.

Lemma stored_by_tuple tx w : to_tuple (stored_by tx w) = tuple_of_write w.
Proof. by destruct w as [[] ? [? ? []]]. Qed.

Definition active_rows (rows : list StoredTuple) : list Tuple :=
  map to_tuple (List.filter pg_active rows).

#[export] Instance active_rows_proper : Proper ((≡ₚ) ==> (≡ₚ)) active_rows.
Proof. intros l l' H. unfold active_rows. by rewrite !filter_bool, H. Qed.

Lemma elem_of_active_rows rows x :
  x ∈ active_rows rows ↔ ∃ row, row ∈ rows ∧ pg_active row = true ∧ to_tuple row = x.
Proof.
  unfold active_rows. rewrite list_elem_of_In, in_map_iff. setoid_rewrite filter_In.
  setoid_rewrite <-list_elem_of_In. naive_solver.
Qed.

(** The unique key holds back a row exactly when its tuple is active. *)
Lemma conflict_iff tx w rows :
  unique_key (stored_by tx w) ∈ map unique_key rows ↔ tuple_of_write w ∈ active_rows rows.
Proof.
  rewrite elem_of_active_rows, list_elem_of_In, in_map_iff.
  split; intros (row & H); exists row.
  - destruct H as [Hk Hin]. apply pair_eq in Hk as [Hc Hd].
    split_and!; [by apply list_elem_of_In|by apply Z.eqb_eq|].
    rewrite <-(stored_by_tuple tx). by apply columns_eq.
  - destruct H as (Hin & Ha & Ht). split; [|by apply list_elem_of_In].
    rewrite <-(stored_by_tuple tx) in Ht. apply columns_eq in Ht. unfold unique_key. rewrite Ht.
    apply Z.eqb_eq in Ha. by rewrite Ha.
Qed.

(** [rows'] is [rows] with rows of version [tx] for the missing ones of [ws]. *)
Record inserted (tx : Z) (ws : list TupleWrite) (rows rows' : list StoredTuple) : Prop := {
  inserted_rows : ∃ fresh, rows' ≡ₚ fresh ++ rows ∧
    Forall (λ row, s_created_tx_id row = tx ∧ pg_active row = true) fresh;
  inserted_NoDup : NoDup (active_rows rows) → NoDup (active_rows rows');
  inserted_active x : x ∈ active_rows rows' ↔ x ∈ active_rows rows ∨ x ∈ tuple_of_write <$> ws }.

Lemma inserted_nil tx rows : inserted tx [] rows rows.
Proof.
  split; [exists []; split; [done|constructor]|done|]. intros x. simpl. set_solver.
Qed.

Lemma inserted_cons tx w ws rows rows1 rows' :
  (if bool_decide (unique_key (stored_by tx w) ∈ map unique_key rows)
   then rows1 = rows else rows1 ≡ₚ stored_by tx w :: rows) →
  inserted tx ws rows1 rows' → inserted tx (w :: ws) rows rows'.
Proof.
  intros H1 [(fresh & Hf & Hfresh) Hnd Hact]. case_bool_decide as Hc; rewrite conflict_iff in Hc.
  - subst rows1. split; [by exists fresh|done|]. intros x. rewrite Hact. set_solver.
  - assert (active_rows rows1 ≡ₚ tuple_of_write w :: active_rows rows) as Ha.
    { rewrite H1. unfold active_rows. cbn [List.filter].
      rewrite (Z.eqb_refl _ : pg_active (stored_by tx w) = true). cbn [map].
      by rewrite stored_by_tuple. }
    split.
    + exists (fresh ++ [stored_by tx w]). split; [by rewrite Hf, H1, <-app_assoc|].
      apply Forall_app. split; [done|]. constructor; [|constructor]. done.
    + intros H. apply Hnd. rewrite Ha. by constructor.
    + intros x. rewrite Hact, Ha. set_solver.
Qed.

(** *** The versions after a write *)

Lemma visible_active now v rows :
  Forall (row_ok now) rows → (now ≤ v < PG_ACTIVE_TX_ID)%Z → visible_tuples v rows = active_rows rows.
Proof.
  intros Hok Hv. unfold visible_tuples, active_rows. f_equal.
  induction Hok as [|row rows Hr _ IH]; [done|]. simpl.
  by rewrite IH, (visible_current now v row).
Qed.

Lemma visible_never now v rows :
  Forall (row_ok now) rows → (now ≤ PG_ACTIVE_TX_ID ≤ v)%Z → visible_tuples v rows = [].
Proof.
  intros Hok Hv. unfold visible_tuples. rewrite filter_none; [done|].
  eapply Forall_impl; [exact Hok|]. unfold row_ok, pg_active, visible_at. intros row [Hc Hd].
  apply andb_false_iff. right. apply Z.ltb_ge. destruct Hd as [Hd%Z.eqb_eq|Hd]; lia.
Qed.

Lemma active_deleted tx ds rows :
  tx ≠ PG_ACTIVE_TX_ID →
  active_rows (map (deleted_by tx ds) rows) =
    filter (λ x, existsb (λ f, matches f x) ds = false) (active_rows rows).
Proof.
  intros Htx. unfold active_rows. induction rows as [|row rows IH]; [done|]. simpl.
  rewrite deleted_by_active by done. destruct (pg_active row); simpl; [|done].
  rewrite filter_cons. unfold matches_filter at 1.
  destruct (existsb (λ f, matches f (to_tuple row)) ds); cbn [negb].
  - by rewrite decide_False.
  - rewrite decide_True by done. cbn [map]. by rewrite deleted_by_tuple, IH.
Qed.

Lemma row_ok_deleted tx ds row :
  row_ok tx row → row_ok tx (deleted_by tx ds row).
Proof.
  intros [Hc Hd]. unfold deleted_by. case_match; [|by split]. by split; [|right].
Qed.

Lemma visible_app v rows rows' :
  visible_tuples v (rows ++ rows') = visible_tuples v rows ++ visible_tuples v rows'.
Proof. unfold visible_tuples. by rewrite List.filter_app, map_app. Qed.

Section versions.
Context (ws : list TupleWrite) (ds : list TupleFilter) (now : Z) (rows rows2 rows3 : list StoredTuple).
Let tx := (now + 1)%Z.
Hypothesis Hroom : (0 ≤ now ∧ tx < PG_ACTIVE_TX_ID)%Z.
Hypothesis Hok : Forall (row_ok now) rows.
Hypothesis Hnd : ∀ v, NoDup (visible_tuples v rows).
Hypothesis Hdel : rows2 ≡ₚ map (deleted_by tx ds) rows.
Hypothesis Hins : inserted tx ws rows2 rows3.

Lemma version_rows_ok : Forall (row_ok tx) rows3.
Proof.
  destruct (inserted_rows _ _ _ _ Hins) as (fresh & -> & Hfresh). rewrite Hdel.
  apply Forall_app. split.
  - eapply Forall_impl; [exact Hfresh|]. intros row [Hc Ha]. split; [lia|by left].
  - apply Forall_map. eapply Forall_impl; [exact Hok|]. intros row Hr.
    apply row_ok_deleted, (row_ok_mono now); [done|lia].
Qed.

Lemma version_past v : (v ≤ now)%Z → visible_tuples v rows3 ≡ₚ visible_tuples v rows.
Proof.
  intros Hv. destruct (inserted_rows _ _ _ _ Hins) as (fresh & -> & Hfresh).
  rewrite Hdel, visible_app, visible_map;
    [|apply deleted_by_tuple|intros; apply deleted_by_past; lia].
  unfold visible_tuples at 1. rewrite filter_none; [done|].
  eapply Forall_impl; [exact Hfresh|]. intros row [Hc _]. unfold visible_at.
  apply andb_false_iff. left. apply Z.leb_gt. lia.
Qed.

Lemma version_active2 : active_rows rows2 ≡ₚ
  filter (λ x, existsb (λ f, matches f x) ds = false) (visible_tuples now rows).
Proof. rewrite Hdel, active_deleted by lia. by rewrite (visible_active now) by (done || lia). Qed.

Lemma version_NoDup v : NoDup (visible_tuples v rows3).
Proof.
  destruct (Z.le_gt_cases v now) as [Hv|Hv]; [by rewrite version_past|].
  destruct (Z.le_gt_cases PG_ACTIVE_TX_ID v) as [Hv'|Hv'].
  - rewrite (visible_never tx); [constructor|apply version_rows_ok|lia].
  - rewrite (visible_active tx); [|apply version_rows_ok|lia].
    apply (inserted_NoDup _ _ _ _ Hins). rewrite version_active2. by apply NoDup_filter.
Qed.

Lemma version_present x :
  x ∈ visible_tuples tx rows3 ↔
  (x ∈ visible_tuples now rows ∧ existsb (λ f, matches f x) ds = false) ∨ x ∈ tuple_of_write <$> ws.
Proof.
  rewrite (visible_active tx); [|apply version_rows_ok|lia].
  rewrite (inserted_active _ _ _ _ Hins), version_active2, list_elem_of_filter. tauto.
Qed.
End versions.

(** ** What the statements of a store do *)

Section store.
Context (db : ∀ R, sql R → list sql_value → Tables → result string R → Tables → Prop).
Hypothesis db_documented : ∀ R (st : sql R) params t r t',
  db R st params t r t' → documented st params t r t'.

(** The database failed a statement with this message. *)
Definition db_failed (msg : string) : Prop :=
  ∃ R (st : sql R) params t t', db R st params t (Err msg) t'.

Lemma executes_call {R} (st : sql R) params t res t' :
  executes db (call st params) t res t' →
  (∃ a, res = Ok a ∧ succeeds st params t a t') ∨
  (∃ msg, res = Err (Internal msg) ∧ db_failed msg ∧ t' = t).
Proof.
  intros (r & t1 & Hdb & -> & ->). pose proof (db_documented _ _ _ _ _ _ Hdb) as H.
  destruct r as [a|msg]; simpl in *; [left; by exists a|right].
  exists msg. split_and!; [done|by eexists _, _, _, _, _|done].
Qed.

Definition same_but_rows (t t' : Tables) : Prop :=
  tx_id_seq t' = tx_id_seq t ∧ schema_definitions t' = schema_definitions t.

Lemma delete_matching_ok d tx t res t' :
  executes db (delete_matching_tuples d tx) t res t' →
  same_but_rows t t' ∧
  ((res = Ok tt ∧ relation_tuples t' ≡ₚ map (deleted_by tx [d]) (relation_tuples t)) ∨
   ∃ msg, res = Err (Internal msg) ∧ db_failed msg).
Proof.
  intros H. unfold delete_matching_tuples in H. pose proof (delete_clause d tx) as Hsel.
  destruct (push_filter d _) as [[conditions binds] idx]. simpl in Hsel.
  apply executes_call in H as [([] & -> & v & rows & Hv & -> & Hrows)|(msg & -> & Hf & ->)].
  - split; [done|left]. split; [done|]. injection Hv as <-. simpl. rewrite Hrows.
    apply reflexive_eq, map_ext. intros row. rewrite Hsel. unfold deleted_by, pg_active. simpl.
    by rewrite orb_false_r.
  - split; [done|right]. by exists msg.
Qed.

Lemma deletes_ok ds tx t res t' :
  tx ≠ PG_ACTIVE_TX_ID →
  executes db (for_each (λ f, delete_matching_tuples f tx) ds) t res t' →
  same_but_rows t t' ∧
  ((res = Ok tt ∧ relation_tuples t' ≡ₚ map (deleted_by tx ds) (relation_tuples t)) ∨
   ∃ msg, res = Err (Internal msg) ∧ db_failed msg).
Proof.
  intros Htx. revert t. induction ds as [|d ds IH]; intros t H.
  - destruct H as [-> ->]. split; [done|left]. by rewrite deleted_by_nil.
  - apply executes_bind in H as (r & t1 & Hd & H).
    apply delete_matching_ok in Hd as [[Hseq Hsc] [[-> Hrows]|(msg & -> & Hf)]].
    + apply IH in H as [[Hseq' Hsc'] H]. split; [split; congruence|].
      destruct H as [[-> Hrows']|H]; [left|by right]. split; [done|].
      rewrite Hrows', Hrows, map_map. apply reflexive_eq, map_ext. intros row.
      by apply deleted_by_cons.
    + destruct H as [-> ->]. split; [done|right; by exists msg].
Qed.

Lemma insert_tuple_ok w tx t res t' :
  executes db (insert_tuple w tx) t res t' →
  same_but_rows t t' ∧
  ((res = Ok tt ∧
    if bool_decide (unique_key (stored_by tx w) ∈ map unique_key (relation_tuples t))
    then relation_tuples t' = relation_tuples t
    else relation_tuples t' ≡ₚ stored_by tx w :: relation_tuples t) ∨
   ∃ msg, res = Err (Internal msg) ∧ db_failed msg).
Proof.
  intros [([] & -> & row & rows & Hrow & -> & Hins)|(msg & -> & Hf & ->)]%executes_call.
  - split; [done|left]. split; [done|]. assert (row = stored_by tx w) as ->; [|done].
    unfold stored_by. simpl in Hrow. by destruct (subject_relation (w_subject w)); simplify_eq/=.
  - split; [done|right]. by exists msg.
Qed.

Lemma inserts_ok ws tx t res t' :
  executes db (for_each (λ w, insert_tuple w tx) ws) t res t' →
  same_but_rows t t' ∧
  ((res = Ok tt ∧ inserted tx ws (relation_tuples t) (relation_tuples t')) ∨
   ∃ msg, res = Err (Internal msg) ∧ db_failed msg).
Proof.
  revert t. induction ws as [|w ws IH]; intros t H.
  - destruct H as [-> ->]. split; [done|left]. split; [done|apply inserted_nil].
  - apply executes_bind in H as (r & t1 & Hd & H).
    apply insert_tuple_ok in Hd as [[Hseq Hsc] [[-> Hrows]|(msg & -> & Hf)]].
    + apply IH in H as [[Hseq' Hsc'] H]. split; [split; congruence|].
      destruct H as [[-> Hins]|H]; [left|by right]. split; [done|]. by eapply inserted_cons.
    + destruct H as [-> ->]. split; [done|right; by exists msg].
Qed.

Definition exhausted : string := "transaction ID sequence exhausted (reached sentinel value)".

Lemma next_tx_id_ok t res t' :
  pg_inv t → executes db next_tx_id t res t' →
  relation_tuples t' = relation_tuples t ∧ schema_definitions t' = schema_definitions t ∧
  (pg_now t ≤ pg_now t' ≤ PG_ACTIVE_TX_ID)%Z ∧
  ((∃ v, res = Ok v ∧ v = (pg_now t + 1)%Z ∧ pg_now t' = v ∧ (v < PG_ACTIVE_TX_ID)%Z) ∨
   ∃ msg, res = Err (Internal msg) ∧ (db_failed msg ∨ msg = exhausted)).
Proof.
  intros [Hnow _ _] (r & t1 & Hcall & H)%executes_bind.
  apply executes_call in Hcall as [(v & -> & Hv & Hle & ->)|(msg & -> & Hf & ->)].
  - assert (v = pg_now t + 1)%Z as Hv1 by (unfold pg_now; destruct (tx_id_seq t); simpl in *; lia).
    destruct (Z.eqb_spec v PG_ACTIVE_TX_ID); destruct H as [-> ->];
      unfold pg_now at 2 3; simpl; (split_and!; [done|done|lia|lia|]).
    + right. exists exhausted. auto.
    + left. exists v. split_and!; [done|done|done|lia].
  - destruct H as [-> ->]. split_and!; [done|done|lia|lia|right]. exists msg. auto.
Qed.

Lemma pg_inv_rolled_back t t1 :
  pg_inv t → (pg_now t ≤ pg_now t1 ≤ PG_ACTIVE_TX_ID)%Z → pg_inv (rolled_back t t1).
Proof.
  intros [Hnow Hok Hnd] Hle. split; [unfold pg_now in *; simpl; lia| |exact Hnd].
  eapply Forall_impl; [exact Hok|]. intros row Hr. eapply row_ok_mono; [exact Hr|].
  unfold pg_now in *. simpl. lia.
Qed.

Lemma write_transaction_ok ws ds t res t' :
  pg_inv t → executes db (write_transaction ws ds) t res t' →
  (pg_now t ≤ pg_now t' ≤ PG_ACTIVE_TX_ID)%Z ∧
  match res with
  | Ok token => token = mk_SnapshotToken (pg_now t + 1) ∧ pg_written ws ds t t' ∧
      (pg_now t + 1 < PG_ACTIVE_TX_ID)%Z
  | Err e => ∃ msg, e = Internal msg ∧ (db_failed msg ∨ msg = exhausted)
  end.
Proof.
  intros Hinv (r & t1 & Hn & H)%executes_bind. pose proof Hinv as [Hnow Hok Hnd].
  apply next_tx_id_ok in Hn as (Hr1 & Hs1 & Hle & [(v & -> & -> & Hv & Hroom)|(msg & -> & Hf)]); [| |done].
  2: { destruct H as [-> ->]. split; [done|]. by exists msg. }
  apply executes_bind in H as (r & t2 & Hd & H).
  apply deletes_ok in Hd as [[Hq2 Hs2] [[-> Hr2]|(msg & -> & Hf)]]; [| |lia].
  2: { destruct H as [-> ->]. split; [unfold pg_now in *; rewrite Hq2; lia|]. exists msg. auto. }
  apply executes_bind in H as (r & t3 & Hi & H).
  apply inserts_ok in Hi as [[Hq3 Hs3] [[-> Hr3]|(msg & -> & Hf)]].
  2: { destruct H as [-> ->]. split; [unfold pg_now in *; rewrite Hq3, Hq2; lia|]. exists msg. auto. }
  destruct H as [-> ->].
  assert (pg_now t3 = (pg_now t + 1)%Z) as Hnow3 by (rewrite <-Hv; unfold pg_now; by rewrite Hq3, Hq2).
  split; [lia|]. split.
  { f_equal. unfold i64_as_u64. apply Z.mod_small. unfold u64_modulus, PG_ACTIVE_TX_ID in *. lia. }
  rewrite Hr1 in Hr2. assert (0 ≤ pg_now t ∧ pg_now t + 1 < PG_ACTIVE_TX_ID)%Z as Hroom' by lia.
  split; [|exact (proj2 Hroom')]. split; [split| | |..].
  - lia.
  - rewrite Hnow3. by eapply version_rows_ok.
  - intros v'. by eapply version_NoDup.
  - done.
  - congruence.
  - intros v'. by eapply version_past.
  - rewrite Hnow3. intros x. by eapply version_present.
Qed.
(** *** Reads *)

Lemma current_tx_id_ok t res t' :
  executes db current_tx_id t res t' →
  t' = t ∧ (res = Ok (pg_now t) ∨ ∃ msg, res = Err (Internal msg) ∧ db_failed msg).
Proof.
  intros [(v & -> & -> & ->)|(msg & -> & ? & ->)]%executes_call; (split; [done|]); [by left|right].
  by exists msg.
Qed.

Lemma u64_of_now t : pg_inv t → i64_as_u64 (pg_now t) = pg_now t.
Proof.
  intros [Hnow _ _]. apply Z.mod_small. unfold u64_modulus, PG_ACTIVE_TX_ID in *. lia.
Qed.

Lemma read_snapshot_ok snapshot t res t' :
  pg_inv t → executes db (read_snapshot snapshot) t res t' →
  t' = t ∧
  match res with
  | Ok v => v = default (pg_now t) (token_value <$> snapshot) ∧ (v ≤ pg_now t)%Z
  | Err e => (∃ v, snapshot = Some (mk_SnapshotToken v) ∧ (pg_now t < v)%Z ∧
                   e = SnapshotAhead v (pg_now t)) ∨ ∃ msg, e = Internal msg ∧ db_failed msg
  end.
Proof.
  intros Hinv H. destruct snapshot as [[z]|]; cbn [read_snapshot token_value] in H.
  - apply executes_bind in H as (r & t1 & Hc & H).
    apply current_tx_id_ok in Hc as [-> [->|(msg & -> & Hf)]].
    2: { destruct H as [-> ->]. split; [done|right; by exists msg]. }
    rewrite u64_of_now in H by done. destruct (Z.ltb_spec (pg_now t) z); destruct H as [-> ->].
    + split; [done|left]. by exists z.
    + split; [done|]. simpl. unfold u64_as_i64. pose proof (pg_inv_now _ Hinv).
      unfold PG_ACTIVE_TX_ID in *. rewrite (proj2 (Z.ltb_lt _ _)) by lia. done.
  - apply current_tx_id_ok in H as [-> [->|(msg & -> & Hf)]]; (split; [done|]); [done|right].
    by exists msg.
Qed.

Lemma query_read_tuples_ok f v limit t res t' :
  executes db (query_read_tuples f v limit) t res t' →
  t' = t ∧
  match res with
  | Ok answer => ∃ l, l ≡ₚ filter (λ x, matches f x = true) (pg_view t v) ∧
                      answer = limit_to limit l
  | Err e => ∃ msg, e = Internal msg ∧ db_failed msg
  end.
Proof.
  unfold query_read_tuples. intros H. pose proof (read_clause f v) as Hsel.
  destruct (push_filter f _) as [[conditions binds] idx]. simpl in Hsel.
  apply executes_bind in H as (r & t1 & Hc & H).
  apply executes_call in Hc as [(a & -> & -> & rows & Hrows & ->)|(msg & -> & Hf & ->)];
    destruct H as [-> ->]; (split; [done|]); [|by exists msg].
  exists (map to_tuple rows). split.
  - rewrite Hrows. apply reflexive_eq. unfold pg_view, visible_tuples. clear Hrows.
    induction (relation_tuples t) as [|row l IH]; [done|]. simpl. rewrite Hsel.
    unfold matches_filter. destruct (visible_at v row); simpl; [|done].
    rewrite filter_cons. destruct (matches f (to_tuple row)); simpl; by rewrite IH.
  - by destruct limit; simpl; rewrite <-?firstn_map, map_map.
Qed.

(** A read of [f] at [token] answers exactly the matching tuples of which [P]
    holds, unless the database fails. *)
Definition read_gives (f : TupleFilter) (token : SnapshotToken) (t : Tables) (P : Tuple → Prop) : Prop :=
  ∀ res t', executes db (pg_read f (Some token) None) t res t' →
  t' = t ∧
  match res with
  | Ok answer => NoDup answer ∧ ∀ x, x ∈ answer ↔ matches f x = true ∧ P x
  | Err e => ∃ msg, e = Internal msg ∧ db_failed msg
  end.

Lemma read_gives_view f v t :
  pg_inv t → (v ≤ pg_now t)%Z → read_gives f (mk_SnapshotToken v) t (λ x, x ∈ pg_view t v).
Proof.
  intros Hinv Hv res t' (r & t1 & Hs & H)%executes_bind.
  apply read_snapshot_ok in Hs as [-> Hs]; [|done..]. destruct r as [v'|e].
  - destruct Hs as [-> _]. apply query_read_tuples_ok in H as [-> H]. split; [done|].
    destruct res as [answer|e]; [|done]. destruct H as (l & Hl & ->). simpl. rewrite Hl. split.
    + apply NoDup_filter, Hinv.
    + intros x. by rewrite Hl, list_elem_of_filter.
  - destruct H as [-> ->]. split; [done|]. destruct Hs as [(v' & [= <-] & Hlt & _)|Hs]; [lia|done].
Qed.

Lemma read_gives_iff f token t P Q :
  (∀ x, P x ↔ Q x) → read_gives f token t P → read_gives f token t Q.
Proof.
  intros HPQ H res t' [Ht Hres]%H. split; [done|]. destruct res as [answer|e]; [|done].
  destruct Hres as [Hnd Hx]. split; [done|]. intros x. by rewrite Hx, HPQ.
Qed.

End store.

(** *** While a write is open *)

(** What other connections see between the first statement of a transaction
    that started at [t] and is about to commit [t1], and its commit: no row and
    no schema of it, but its step of the sequence, which no transaction holds
    back. *)
Record seen_outside (t t1 others : Tables) : Prop := {
  seen_rows : relation_tuples others ≡ₚ relation_tuples t;
  seen_sequence : tx_id_seq others = tx_id_seq t1;
  seen_schemas : schema_definitions others = schema_definitions t }.

Lemma visible_next now rows :
  Forall (row_ok now) rows → (now + 1 < PG_ACTIVE_TX_ID)%Z →
  visible_tuples (now + 1) rows = visible_tuples now rows.
Proof.
  intros Hok Hroom. unfold visible_tuples. f_equal. induction Hok as [|row rows Hrow _ IH]; [done|].
  simpl. rewrite !(visible_current now) by (done || lia). by rewrite IH.
Qed.

Lemma seen_outside_inv t t1 others :
  seen_outside t t1 others → pg_inv t → (pg_now t ≤ pg_now t1 ≤ PG_ACTIVE_TX_ID)%Z → pg_inv others.
Proof.
  intros [Hrows Hseq _] [Hnow Hok Hnd] Hle. assert (pg_now others = pg_now t1) as Heq by (unfold pg_now; by rewrite Hseq).
  split; [lia| |].
  - rewrite Hrows. eapply Forall_impl; [exact Hok|]. intros row Hr. eapply row_ok_mono; [exact Hr|lia].
  - intros v. unfold pg_view. rewrite Hrows. apply Hnd.
Qed.

(** ** The theorems *)

(** A write that succeeds has committed its transaction. *)
Lemma write_commits db ws ds t token t1 :
  executes db (pg_write ws ds) t (Ok token) t1 → executes db (write_transaction ws ds) t (Ok token) t1.
Proof.
  unfold pg_write. destruct (existsb _ ds); [by intros [? _]|].
  intros [(e & ? & _)|([token'|e] & t2 & Hb & H)]; [done| |by destruct H].
  by destruct H as [[[= <-] ->]|(e & ? & _)].
Qed.

(** C10: A write on every branch, whatever the database answers: on [Ok] it
    made exactly one new version, with the kept and the written tuples, and
    left every earlier version and the schemas as they were; on [Err] no row
    changed, wherever the failure was. *)
Theorem pg_write_exact db ws ds t res t' :
  (∀ R (st : sql R) params t r t', db R st params t r t' → documented st params t r t') →
  pg_inv t → executes db (pg_write ws ds) t res t' →
  match res with
  | Ok token => deletes_something ds = true ∧ token = mk_SnapshotToken (pg_now t + 1) ∧
      pg_written ws ds t t'
  | Err e => relation_tuples t' = relation_tuples t ∧
      schema_definitions t' = schema_definitions t ∧ pg_inv t' ∧ (pg_now t ≤ pg_now t')%Z ∧
      if deletes_something ds then ∃ msg, e = Internal msg else e = EmptyDeleteFilter ∧ t' = t
  end.
Proof.
  intros Hdb Hinv H. unfold pg_write in H. rewrite deletes_something_existsb in H.
  pose proof Hinv as [Hnow _ _]. destruct (deletes_something ds) eqn:Hds; cbn [negb] in H.
  2: { destruct H as [-> ->]. done. }
  assert (pg_inv (rolled_back t t)) as Hinv0 by (apply pg_inv_rolled_back; [done|lia]).
  destruct H as [(e & -> & ->)|(r & t1 & Hb & H)].
  { split_and!; [done..|lia|by eexists]. }
  apply (write_transaction_ok db Hdb) in Hb as [Hle Hb]; [|done].
  assert (pg_inv (rolled_back t t1)) as Hinv1 by by apply pg_inv_rolled_back.
  destruct r as [token|e].
  - destruct H as [[-> ->]|(e & -> & ->)]; [by destruct Hb as (? & ? & _)|].
    split_and!; [done..|unfold pg_now in *; simpl; lia|by eexists].
  - destruct H as [-> ->], Hb as (msg & -> & _).
    split_and!; [done..|unfold pg_now in *; simpl; lia|by eexists].
Qed.

(** C11: A read answers exactly the tuples of one version that match the filter,
    in some order, cut at the limit; the version is the requested snapshot or,
    without one, the current version; a snapshot from the future is refused;
    any other error is one of the database; and nothing changes. *)
Theorem pg_read_exact db f snapshot limit t res t' :
  (∀ R (st : sql R) params t r t', db R st params t r t' → documented st params t r t') →
  pg_inv t → executes db (pg_read f snapshot limit) t res t' →
  t' = t ∧
  match res with
  | Ok answer => ∃ v l, v = default (pg_now t) (token_value <$> snapshot) ∧ (v ≤ pg_now t)%Z ∧
      l ≡ₚ filter (λ x, matches f x = true) (pg_view t v) ∧ NoDup l ∧ answer = limit_to limit l
  | Err e => (∃ v, snapshot = Some (mk_SnapshotToken v) ∧ (pg_now t < v)%Z ∧
                   e = SnapshotAhead v (pg_now t)) ∨ ∃ msg, e = Internal msg ∧ db_failed db msg
  end.
Proof.
  intros Hdb Hinv (r & t1 & Hs & H)%executes_bind.
  apply read_snapshot_ok in Hs as [-> Hs]; [|done..].
  destruct r as [v|e]; [|by destruct H as [-> ->]]. destruct Hs as [Hv Hle].
  apply query_read_tuples_ok in H as [-> H]; [|done]. split; [done|].
  destruct res as [answer|e]; [|by right]. destruct H as (l & Hl & ->). exists v, l.
  split_and!; [done..| |done]. rewrite Hl. apply NoDup_filter, Hinv.
Qed.

(** ** An example of a database *)

Definition latest (definitions : list (Z * string)) : option (Z * string) :=
  foldr (λ p acc, match acc with
                  | Some q => if (q.1 <=? p.1)%Z then Some p else Some q
                  | None => Some p
                  end) None definitions.

Definition with_rows (t : Tables) (rows : list StoredTuple) : Tables :=
  mk_Tables rows (tx_id_seq t) (schema_definitions t).

(** One that answers the rows in the order of their insertion. *)
Definition answer {R} (st : sql R) (params : list sql_value) (t : Tables) : result string R * Tables :=
  match st with
  | NextVal =>
      let v := default 1%Z (Z.succ <$> tx_id_seq t) in
      if (v <=? PG_ACTIVE_TX_ID)%Z
      then (Ok v, mk_Tables (relation_tuples t) (Some v) (schema_definitions t))
      else (Err "nextval: reached maximum value of sequence", t)
  | LastValue => (Ok (default 0%Z (tx_id_seq t)), t)
  | InsertTuple =>
      match row_of_params params with
      | Some row =>
          if bool_decide (unique_key row ∈ map unique_key (relation_tuples t))
          then (Ok tt, with_rows t (relation_tuples t))
          else (Ok tt, with_rows t (relation_tuples t ++ [row]))
      | None => (Err "wrong parameters", t)
      end
  | UpdateDeleted conditions =>
      match param params 2 with
      | Some (SqlInt v) =>
          (Ok tt, with_rows t (map (λ row, if selects params conditions row
                                           then set_deleted v row else row) (relation_tuples t)))
      | _ => (Err "wrong parameters", t)
      end
  | SelectTuples conditions limit =>
      (Ok (limit_to limit (map columns_of
             (List.filter (selects params conditions) (relation_tuples t)))), t)
  | SelectObjectIds limit =>
      match params with
      | [SqlText ot; SqlInt snapshot] =>
          (Ok (limit_to limit (sort_by string_leb (remove_dups (map s_object_id
                 (List.filter (visible_id ot snapshot) (relation_tuples t)))))), t)
      | _ => (Err "wrong parameters", t)
      end
  | InsertDefinition =>
      match params with
      | [SqlText d] =>
          (Ok tt, mk_Tables (relation_tuples t) (tx_id_seq t)
                    ((Z.of_nat (length (schema_definitions t)), d) :: schema_definitions t))
      | _ => (Err "wrong parameters", t)
      end
  | SelectDefinition => (Ok (snd <$> latest (schema_definitions t)), t)
  end.

Definition example_db (R : Type) (st : sql R) (params : list sql_value) (t : Tables)
    (r : result string R) (t' : Tables) : Prop := (r, t') = answer st params t.

Lemma latest_spec l :
  match latest l with
  | Some p => p ∈ l ∧ ∀ q, q ∈ l → (q.1 ≤ p.1)%Z
  | None => l = []
  end.
Proof.
  induction l as [|p l IH]; [done|]. simpl. destruct (latest l) as [q|].
  - destruct IH as [Hq Hall]. destruct (Z.leb_spec q.1 p.1); (split; [set_solver|]);
      intros q' [->|Hq']%elem_of_cons; try lia; apply Hall in Hq'; lia.
  - subst l. split; [set_solver|]. intros q ->%list_elem_of_singleton. lia.
Qed.

Lemma example_documented R (st : sql R) params t r t' :
  example_db R st params t r t' → documented st params t r t'.
Proof.
  unfold example_db. intros H. destruct st; cbn [answer] in H.
  - destruct (Z.leb_spec (default 1%Z (Z.succ <$> tx_id_seq t)) PG_ACTIVE_TX_ID); by simplify_eq.
  - by simplify_eq.
  - destruct (row_of_params params) as [row|] eqn:Hrow; [|by simplify_eq].
    simpl. case_bool_decide as Hk; simplify_eq; simpl; exists row; eexists; (split_and!; [done..|]).
    + by rewrite bool_decide_true.
    + rewrite bool_decide_false by done. by rewrite Permutation_app_comm.
  - destruct (param params 2) as [[v|?|]|] eqn:Hp; simplify_eq; try done.
    simpl. eexists v, _. by split_and!.
  - simplify_eq. simpl. split; [done|]. by eexists.
  - destruct params as [|[|ot|] [|[snapshot| |] [|]]]; simplify_eq; try done.
    split; [done|]. eexists ot, snapshot, _. split_and!; [done| | |done].
    { rewrite sort_by_perm. apply NoDup_remove_dups. }
    intros id. rewrite elem_of_sort_by, elem_of_remove_dups, list_elem_of_In, in_map_iff.
    setoid_rewrite filter_In. setoid_rewrite <-list_elem_of_In. naive_solver.
  - destruct params as [|[|d|] [|]]; simplify_eq; try done. simpl. by eexists d, _.
  - simplify_eq. split; [done|]. pose proof (latest_spec (schema_definitions t)) as Hl.
    destruct (latest _) as [[now d]|]; simpl; [|done]. destruct Hl as [Hin Hall].
    exists now. split; [done|]. intros now' d' H. by apply (Hall (now', d')).
Qed.

(** Running a program on it. *)
Fixpoint run_pg {A} (p : pg A) : Tables → result StorageError A * Tables :=
  match p in pg A return Tables → result StorageError A * Tables with
  | PDone r => λ t, (r, t)
  | PCall st params k => λ t, let (r, t1) := answer st params t in run_pg (k r) t1
  | PTx body k => λ t,
      match run_pg body t with
      | (Ok b, t1) => run_pg (k (Ok b)) t1
      | (Err e, t1) => run_pg (k (Err e)) (rolled_back t t1)
      end
  end.

Lemma run_pg_executes {A} (p : pg A) t : executes example_db p t (run_pg p t).1 (run_pg p t).2.
Proof.
  revert t. induction p as [A r|R A st params k IH|B A body IHb k IH]; intros t; simpl; [done|..].
  - destruct (answer st params t) as [r t1] eqn:Ha. exists r, t1. split; [|apply IH].
    by unfold example_db.
  - right. specialize (IHb t). destruct (run_pg body t) as [[b|e] t1].
    + exists (Ok b), t1. split; [done|left; apply IH].
    + exists (Err e), t1. split; [done|apply IH].
Qed.

Definition empty_tables : Tables := mk_Tables [] None [].

Lemma empty_tables_inv : pg_inv empty_tables.
Proof. split; [unfold pg_now, PG_ACTIVE_TX_ID; simpl; lia|constructor|constructor]. Qed.

(** Two documents, written with a repetition; then bob loses his. *)
Definition demo_tables1 : Tables :=
  (run_pg (pg_write [demo_write "b" "bob"; demo_write "a" "alice"; demo_write "b" "bob"] [])
     empty_tables).2.
Definition demo_tables2 : Tables :=
  (run_pg (pg_write [] [exact_filter (demo_tuple "b" "bob")]) demo_tables1).2.

Lemma pg_write_exact_witness :
  (run_pg (pg_write [demo_write "b" "bob"; demo_write "a" "alice"; demo_write "b" "bob"] [])
     empty_tables).1 = Ok (mk_SnapshotToken 1) ∧
  pg_written [demo_write "b" "bob"; demo_write "a" "alice"; demo_write "b" "bob"] []
    empty_tables demo_tables1 ∧
  pg_view demo_tables1 1 = [demo_tuple "b" "bob"; demo_tuple "a" "alice"].
Proof.
  split_and!; [reflexivity| |reflexivity].
  apply (pg_write_exact example_db _ _ empty_tables (Ok (mk_SnapshotToken 1)) demo_tables1
    example_documented empty_tables_inv
    (run_pg_executes (pg_write [demo_write "b" "bob"; demo_write "a" "alice"; demo_write "b" "bob"] [])
       empty_tables)).
Defined.

Lemma demo_tables_inv : pg_inv demo_tables2.
Proof.
  split.
  - vm_compute. split; discriminate.
  - repeat (constructor; [unfold row_ok; simpl; vm_compute; split; [discriminate|]|]); auto;
      right; discriminate.
  - intros v. unfold pg_view, visible_tuples, visible_at. simpl.
    repeat case_match; simpl; repeat (constructor; [set_solver|]); constructor.
Qed.

Lemma pg_read_exact_witness :
  pg_inv demo_tables2 ∧
  (run_pg (pg_read filter_default (Some (mk_SnapshotToken 1)) None) demo_tables2).1 =
    Ok [demo_tuple "b" "bob"; demo_tuple "a" "alice"] ∧
  (run_pg (pg_read filter_default None None) demo_tables2).1 = Ok [demo_tuple "a" "alice"] ∧
  ∃ v l, v = 1%Z ∧ (v ≤ 2)%Z ∧
    l ≡ₚ filter (λ x, matches filter_default x = true) (pg_view demo_tables2 v) ∧ NoDup l ∧
    [demo_tuple "b" "bob"; demo_tuple "a" "alice"] = l.
Proof.
  split; [apply demo_tables_inv|]. split; [reflexivity|]. split; [reflexivity|].
  apply (pg_read_exact example_db filter_default (Some (mk_SnapshotToken 1)) None demo_tables2
    (Ok [demo_tuple "b" "bob"; demo_tuple "a" "alice"]) demo_tables2
    example_documented demo_tables_inv
    (run_pg_executes (pg_read filter_default (Some (mk_SnapshotToken 1)) None) demo_tables2)).
Defined.

(** C39: Versions are not stable while a write is being committed.  Between the
    step of the sequence and the commit, every other connection is given the
    token of the unfinished write as its snapshot, and its reads at that token
    are accepted and answer exactly the tuples of the old version; after the
    commit the same reads at the same token answer exactly the tuples the write
    kept and those it wrote. *)
Theorem pg_open_write_moves_snapshot db ws ds f t token t1 others :
  (∀ R (st : sql R) params t r t', db R st params t r t' → documented st params t r t') →
  pg_inv t → executes db (pg_write ws ds) t (Ok token) t1 → seen_outside t t1 others →
  (∀ res t', executes db pg_snapshot others res t' →
     t' = others ∧ (res = Ok token ∨ ∃ msg, res = Err (Internal msg) ∧ db_failed db msg)) ∧
  read_gives db f token others (λ x, x ∈ pg_view t (pg_now t)) ∧
  read_gives db f token t1 (λ x,
    (x ∈ pg_view t (pg_now t) ∧ existsb (λ d, matches d x) ds = false) ∨ x ∈ tuple_of_write <$> ws).
Proof.
  intros Hdb Hinv Hw Hseen. apply (write_commits db) in Hw.
  apply (write_transaction_ok db Hdb) in Hw as (Hle & -> & Hwritten & Hroom); [|done].
  pose proof Hwritten as [Hinv1 Hnow1 _ _ Hpresent].
  pose proof (seen_outside_inv _ _ _ Hseen Hinv Hle) as Hinvo. destruct Hseen as [Hrows Hseq _].
  assert (pg_now others = (pg_now t + 1)%Z) as Hnowo by (rewrite <-Hnow1; unfold pg_now; by rewrite Hseq).
  split_and!.
  - intros res t' (r & t2 & Hc & H)%executes_bind.
    apply (current_tx_id_ok db Hdb) in Hc as [-> [->|(msg & -> & Hf)]]; destruct H as [-> ->]; (split; [done|]).
    + left. by rewrite u64_of_now, Hnowo by done.
    + right. by exists msg.
  - eapply read_gives_iff, (read_gives_view db Hdb); [|done|lia].
    intros x. unfold pg_view. by rewrite Hrows, visible_next by (done || apply Hinv).
  - eapply read_gives_iff, (read_gives_view db Hdb); [|done|lia]. rewrite <-Hnow1. exact Hpresent.
Qed.

(** Before the commit the other connection reads nothing at the token it was
    given; after it, the same read answers the written tuple. *)
Lemma pg_open_write_moves_snapshot_witness :
  let t1 := (run_pg (pg_write [demo_write "a" "alice"] []) empty_tables).2 in
  let others := mk_Tables [] (Some 1%Z) [] in
  let token := mk_SnapshotToken 1 in
  run_pg pg_snapshot others = (Ok token, others) ∧
  run_pg (pg_read filter_default (Some token) None) others = (Ok [], others) ∧
  run_pg (pg_read filter_default (Some token) None) t1 = (Ok [demo_tuple "a" "alice"], t1) ∧
  read_gives example_db filter_default token others (λ x, x ∈ pg_view empty_tables 0).
Proof.
  split_and!; [reflexivity..|].
  apply (pg_open_write_moves_snapshot example_db [demo_write "a" "alice"] [] filter_default empty_tables
    (mk_SnapshotToken 1) (run_pg (pg_write [demo_write "a" "alice"] []) empty_tables).2
    (mk_Tables [] (Some 1%Z) []) example_documented empty_tables_inv
    (run_pg_executes (pg_write [demo_write "a" "alice"] []) empty_tables)).
  by split.
Defined.
