(* ===== verification/Provision.v ===== *)
(** * Tenants, keys and the command line
    ([postgres/migrations.rs], the factory of [postgres/mod.rs],
    [api_key_repository.rs], [main.rs], [tls.rs])

    A command is a program of statements on the shared tables and on the
    tenants' schemas; the database answers each or fails.  What the random
    generators give (a uuid, the characters of a key, a salt) and how a uuid is
    displayed are arguments. *)
From Stdlib Require Import Ascii.
From stdpp Require Import base tactics list strings gmap pretty.
From S2P Require Import Prelude Tuples Numbers Storage Memory Postgres Service Auth Config.

(** ** Programs

    [Ask st params k]: send the statement, go on with the answer. *)
Inductive sql_prog (E : Type → Type) (V A : Type) : Type :=
| Ret (a : A)
| Ask {R} (st : E R) (params : list V) (k : result string R → sql_prog E V A).
Arguments Ret {E V A} a.
Arguments Ask {E V A R} st params k.

Fixpoint sql_bind {E V A B} (p : sql_prog E V A) (f : A → sql_prog E V B) : sql_prog E V B :=
  match p with
  | Ret a => f a
  | Ask st params k => Ask st params (λ r, sql_bind (k r) f)
  end.

(** [e.await?], with the conversion of the error. *)
Notation "'let!' x := e 'with' conv 'in' k" :=
  (sql_bind e (λ r, match r with Ok x => k | Err err => Ret (Err (conv err)) end))
  (at level 10, x name, e at level 200, conv at level 0, k at level 200).
Notation "'let=' x := e 'in' k" := (match e with Ok x => k | Err err => Ret (Err err) end)
  (at level 10, x name, e at level 200, k at level 200).

Inductive bind_value (Uuid : Type) := BindUuid (u : Uuid) | BindText (s : string).
Arguments BindUuid {Uuid} u.
Arguments BindText {Uuid} s.

(** The statements outside [queries.rs]. *)
Inductive admin (Uuid : Type) : Type → Type :=
| Connect : admin Uuid unit                       (* [PgPool::connect(url)] *)
| RunSql (text : string) : admin Uuid unit
| SelectTenantId : admin Uuid (option Uuid)
| SelectTenantSchema : admin Uuid (option string)
| InsertTenant : admin Uuid unit
| SelectApiKey : admin Uuid (option (@ApiKeyRow Uuid))
| InsertApiKey : admin Uuid unit
| CountActive (schema : string) : admin Uuid Z
| DeleteTuples (schema : string) : admin Uuid Z   (* [rows_affected()] *)
| RestartSequence (schema : string) : admin Uuid unit.
Arguments Connect {Uuid}.
Arguments RunSql {Uuid} text.
Arguments SelectTenantId {Uuid}.
Arguments SelectTenantSchema {Uuid}.
Arguments InsertTenant {Uuid}.
Arguments SelectApiKey {Uuid}.
Arguments InsertApiKey {Uuid}.
Arguments CountActive {Uuid} schema.
Arguments DeleteTuples {Uuid} schema.
Arguments RestartSequence {Uuid} schema.

Definition admin_text {Uuid R} (st : admin Uuid R) : string :=
  match st with
  | Connect => EmptyString
  | RunSql text => text
  | SelectTenantId => "SELECT id FROM tenants WHERE name = $1"
  | SelectTenantSchema => "SELECT pg_schema FROM tenants WHERE name = $1"
  | InsertTenant =>
      "INSERT INTO tenants (id, name, pg_schema) VALUES ($1, $2, $3) ON CONFLICT DO NOTHING"
  | SelectApiKey =>
      "SELECT key_id, key_hash, tenant_id, (revoked_at IS NOT NULL) as revoked FROM api_keys WHERE key_id = $1"
  | InsertApiKey => "INSERT INTO api_keys (tenant_id, key_id, key_hash) VALUES ($1, $2, $3)"
  | CountActive schema =>
      "SELECT COUNT(*) FROM " +:+ schema +:+ ".relation_tuples WHERE deleted_tx_id = " +:+ pretty PG_ACTIVE_TX_ID
  | DeleteTuples schema => "DELETE FROM " +:+ schema +:+ ".relation_tuples"
  | RestartSequence schema => "ALTER SEQUENCE " +:+ schema +:+ ".tx_id_seq RESTART WITH 1"
  end.

(** ** Schema names ([migrations.rs]) *)

Definition is_ascii_hexdigit (c : ascii) : bool :=
  let n := nat_of_ascii c in
  ((48 <=? n) && (n <=? 57)) || ((65 <=? n) && (n <=? 70)) || ((97 <=? n) && (n <=? 102)).

Definition validate_schema_name (name : string) : result StorageError unit :=
  let is_valid :=
    match strip_prefix "tenant_" name with
    | Some rest =>
        (String.length name =? 39) && forallb is_ascii_hexdigit (String.list_ascii_of_string rest)
    | None => false
    end in
  if is_valid then Ok tt else Err (Internal ("invalid tenant schema name: " +:+ name)).

Definition shared_migrations : list string := [
  "CREATE TABLE IF NOT EXISTS tenants ( id UUID PRIMARY KEY DEFAULT gen_random_uuid(), name TEXT NOT NULL UNIQUE, pg_schema TEXT NOT NULL UNIQUE, created_at TIMESTAMPTZ NOT NULL DEFAULT now() )";
  "CREATE TABLE IF NOT EXISTS api_keys ( id UUID PRIMARY KEY DEFAULT gen_random_uuid(), tenant_id UUID NOT NULL REFERENCES tenants(id), key_id TEXT NOT NULL UNIQUE, key_hash TEXT NOT NULL, created_at TIMESTAMPTZ NOT NULL DEFAULT now(), revoked_at TIMESTAMPTZ )"].

(** The statements of [create_tenant_schema], spaces for line breaks. *)
Definition tenant_statements (schema_name : string) : list string := [
  "CREATE SCHEMA IF NOT EXISTS " +:+ schema_name;
  "CREATE TABLE IF NOT EXISTS " +:+ schema_name +:+ ".relation_tuples ( id UUID PRIMARY KEY DEFAULT gen_random_uuid(), object_type TEXT NOT NULL, object_id TEXT NOT NULL, relation TEXT NOT NULL, subject_type TEXT NOT NULL, subject_id TEXT NOT NULL, subject_relation TEXT, created_tx_id BIGINT NOT NULL, deleted_tx_id BIGINT NOT NULL DEFAULT 9223372036854775807, UNIQUE NULLS NOT DISTINCT (object_type, object_id, relation, subject_type, subject_id, subject_relation, deleted_tx_id) )";
  "CREATE INDEX IF NOT EXISTS idx_tuples_lookup ON " +:+ schema_name +:+ ".relation_tuples (object_type, object_id, relation, deleted_tx_id)";
  "CREATE INDEX IF NOT EXISTS idx_tuples_reverse ON " +:+ schema_name +:+ ".relation_tuples (subject_type, subject_id, subject_relation, deleted_tx_id)";
  "CREATE TABLE IF NOT EXISTS " +:+ schema_name +:+ ".schema_definitions ( id UUID PRIMARY KEY DEFAULT gen_random_uuid(), definition TEXT NOT NULL, created_at TIMESTAMPTZ NOT NULL DEFAULT now() )";
  "CREATE SEQUENCE IF NOT EXISTS " +:+ schema_name +:+ ".tx_id_seq"].

Section commands.
Context {Uuid : Type} `{Countable Uuid}.
(** [uuid.as_simple().to_string()], 32 hexadecimal digits, and [Display] *)
Context (as_simple uuid_display : Uuid → string).

Abbreviation command := (sql_prog (admin Uuid) (bind_value Uuid)).

Definition ask {R} (st : admin Uuid R) (params : list (bind_value Uuid)) : command (result string R) :=
  Ask st params Ret.

(** [sqlx::query(q).execute(pool).await?] for one text after the other. *)
Fixpoint execute_all (statements : list string) : command (result string unit) :=
  match statements with
  | [] => Ret (Ok tt)
  | q :: statements' => let! _ := ask (RunSql q) [] with id in execute_all statements'
  end.

Definition run_shared_migrations : command (result string unit) := execute_all shared_migrations.

Definition create_tenant_schema (schema_name : string) : command (result StorageError unit) :=
  let= _ := validate_schema_name schema_name in
  let! _ := execute_all (tenant_statements schema_name) with Internal in
  Ret (Ok tt).

(** ** The factory ([mod.rs]) *)

Definition schema_name_for_tenant (tenant_id : TenantId Uuid) : string :=
  "tenant_" +:+ as_simple (tenant_uuid tenant_id).

(** [schemas: Mutex<HashMap<TenantId, String>>] *)
Abbreviation schema_map := (gmap (TenantId Uuid) string).

Definition provision_tenant (tenant_id : TenantId Uuid) (name : string) (schemas : schema_map)
    : command (result StorageError schema_map) :=
  let schema_name := schema_name_for_tenant tenant_id in
  let! _ := ask InsertTenant [BindUuid (tenant_uuid tenant_id); BindText name; BindText schema_name]
    with Internal in
  let! _ := create_tenant_schema schema_name with id in
  Ret (Ok (<[tenant_id := schema_name]> schemas)).

(** The schema of the store a tenant gets. *)
Definition pg_for_tenant (tenant_id : TenantId Uuid) (schemas : schema_map) : string :=
  default (schema_name_for_tenant tenant_id) (schemas !! tenant_id).

(** ** The key repository *)

Definition repository_lookup (key_id : string) : command (result string (option (ApiKeyRecord Uuid))) :=
  let! row := ask SelectApiKey [BindText key_id] with id in
  Ret (Ok (option_map record_of_row row)).

Definition repository_insert (tenant_id : TenantId Uuid) (key_id key_hash : string)
    : command (result string unit) :=
  ask InsertApiKey [BindUuid (tenant_uuid tenant_id); BindText key_id; BindText key_hash].

(** ** The commands ([main.rs])

    A command that returns prints its lines; it stops with an error of [main],
    or with [process::exit(code)] after lines on the standard error. *)
Inductive stopped :=
| DatabaseFailed (msg : string)
| ConfigFailed (e : ConfigError)
| StoreFailed (e : StorageError)
| KeyFailed (e : AuthError)
| ExitWith (code : Z) (stderr : list string).

(** [require_configured()?; PgPool::connect(..).await?; run_shared_migrations(..).await?] *)
Definition open_database {A} (config : AppConfig) (k : command (result stopped A))
    : command (result stopped A) :=
  match require_configured (database config) with
  | Err e => Ret (Err (ConfigFailed e))
  | Ok _ =>
      let! _ := ask Connect [] with DatabaseFailed in
      let! _ := run_shared_migrations with DatabaseFailed in
      k
  end.

Definition run_migrate (config : AppConfig) : command (result stopped (list string)) :=
  open_database config (Ret (Ok [])).

Definition run_provision_tenant (config : AppConfig) (new_uuid : Uuid) (name : string)
    : command (result stopped (list string)) :=
  open_database config (
    let! _ := provision_tenant (mk_TenantId new_uuid) name ∅ with StoreFailed in
    Ret (Ok ["Tenant provisioned successfully"; "  Name:      " +:+ name;
             "  Tenant ID: " +:+ uuid_display new_uuid])).

Definition tenant_not_found (tenant_name : string) : stopped :=
  ExitWith 1 ["Error: tenant '" +:+ tenant_name +:+ "' not found"].

Definition run_create_api_key (argon2_hash : string → string → result string string)
    (config : AppConfig) (id_indices secret_indices : list nat) (salt tenant_name : string)
    : command (result stopped (list string)) :=
  open_database config (
    let! row := ask SelectTenantId [BindText tenant_name] with DatabaseFailed in
    match row with
    | None => Ret (Err (tenant_not_found tenant_name))
    | Some tenant_uuid =>
        match create_api_key argon2_hash id_indices secret_indices salt tenant_uuid with
        | Err e => Ret (Err (KeyFailed e))
        | Ok (full_key, key_row) =>
            let! _ := repository_insert (mk_TenantId tenant_uuid) (row_key_id key_row) (row_key_hash key_row)
              with DatabaseFailed in
            Ret (Ok ["API key created successfully"; "  Tenant:  " +:+ tenant_name;
                     "  API Key: " +:+ full_key; EmptyString;
                     "Store this key securely — it will not be shown again."])
        end
    end).

Definition resolve_tenant_schema (tenant_name : string) : command (result string (option string)) :=
  ask SelectTenantSchema [BindText tenant_name].

Definition count_active_relationships (pg_schema : string) : command (result string Z) :=
  ask (CountActive pg_schema) [].

Definition purge_relationships (pg_schema : string) : command (result string Z) :=
  let! rows_affected := ask (DeleteTuples pg_schema) [] with id in
  let! _ := ask (RestartSequence pg_schema) [] with id in
  Ret (Ok rows_affected).

Definition run_purge_relationships (config : AppConfig) (tenant_name : string) (yes : bool)
    : command (result stopped (list string)) :=
  open_database config (
    let! found := resolve_tenant_schema tenant_name with DatabaseFailed in
    match found with
    | None => Ret (Err (tenant_not_found tenant_name))
    | Some pg_schema =>
        match validate_schema_name pg_schema with
        | Err e => Ret (Err (StoreFailed e))
        | Ok _ =>
            let! count := count_active_relationships pg_schema with DatabaseFailed in
            if negb yes then
              Ret (Err (ExitWith 1
                ["WARNING: This will permanently delete all " +:+ pretty count
                   +:+ " relationship(s) for tenant '" +:+ tenant_name +:+ "'.";
                 "The schema definition will be preserved."; EmptyString; "Re-run with --yes to confirm:";
                 "  kraalzibar-server purge-relationships --tenant-name " +:+ tenant_name +:+ " --yes"]))
            else
              let! deleted := purge_relationships pg_schema with DatabaseFailed in
              Ret (Ok ["Purged " +:+ pretty deleted +:+ " relationship(s) for tenant '" +:+ tenant_name
                         +:+ "'. Transaction sequence reset."])
        end
    end).
End commands.
