(* ===== verification/ProvisionTheorems.v ===== *)
(** * What the commands guarantee

    Provisioning a tenant and creating a key gives a key that authenticates
    that tenant, whose schema is its own; a purge removes exactly one tenant's
    relationships.  The last theorems show what a purge does to tokens, and
    what provisioning a name twice reports.  The database is any that does what
    PostgreSQL documents. *)
From Stdlib Require Import Ascii.
From stdpp Require Import base tactics list strings gmap pretty.
From S2P Require Import Prelude Tuples Numbers Storage Memory Postgres PostgresTheorems Service Auth Config.
From S2P Require Import Provision.

(** ** The database *)

Record TenantRow (Uuid : Type) := mk_TenantRow { tr_id : Uuid; tr_name : string; tr_schema : string }.
Arguments mk_TenantRow {Uuid}.
Arguments tr_id {Uuid}.
Arguments tr_name {Uuid}.
Arguments tr_schema {Uuid}.

Record World (Uuid : Type) := mk_World {
  tenants : list (TenantRow Uuid);
  api_keys : list (@ApiKeyRow Uuid);
  tenant_tables : gmap string Tables }.
Arguments mk_World {Uuid}.
Arguments tenants {Uuid}.
Arguments api_keys {Uuid}.
Arguments tenant_tables {Uuid}.

(** The tables in a schema; those nobody has written to are empty. *)
Definition tables_of {Uuid} (w : World Uuid) (schema : string) : Tables :=
  default empty_tables (tenant_tables w !! schema).

Definition set_tables {Uuid} (schema : string) (t : Tables) (w : World Uuid) : World Uuid :=
  mk_World (tenants w) (api_keys w) (<[schema := t]> (tenant_tables w)).

(** [ON CONFLICT]: a row with the same id, name or schema. *)
Definition conflicts {Uuid} `{EqDecision Uuid} (row row' : TenantRow Uuid) : bool :=
  bool_decide (tr_id row = tr_id row') || bool_decide (tr_name row = tr_name row')
  || bool_decide (tr_schema row = tr_schema row').

Definition without_rows (t : Tables) : Tables := mk_Tables [] (tx_id_seq t) (schema_definitions t).
Definition restarted (t : Tables) : Tables :=
  mk_Tables (relation_tuples t) None (schema_definitions t).

(** A statement that creates something unless it is there. *)
Definition creates (text : string) : bool :=
  existsb (λ kind, String.prefix ("CREATE " +:+ kind +:+ " IF NOT EXISTS ") text)
    ["SCHEMA"; "TABLE"; "INDEX"; "SEQUENCE"].

(** What PostgreSQL documents of a statement that succeeds.  [CREATE .. IF NOT
    EXISTS] changes no row; of other texts nothing is assumed. *)
Definition admin_succeeds {Uuid} `{EqDecision Uuid} {R} (st : admin Uuid R)
    : list (bind_value Uuid) → World Uuid → R → World Uuid → Prop :=
  match st in admin _ R return list (bind_value Uuid) → World Uuid → R → World Uuid → Prop with
  | Connect => λ _ w _ w', w' = w
  | RunSql text => λ _ w _ w', creates text = true → w' = w
  | SelectTenantId => λ params w a w', w' = w ∧ ∃ name, params = [BindText name] ∧
      match a with
      | Some id => ∃ row, row ∈ tenants w ∧ tr_name row = name ∧ tr_id row = id
      | None => ∀ row, row ∈ tenants w → tr_name row ≠ name
      end
  | SelectTenantSchema => λ params w a w', w' = w ∧ ∃ name, params = [BindText name] ∧
      match a with
      | Some schema => ∃ row, row ∈ tenants w ∧ tr_name row = name ∧ tr_schema row = schema
      | None => ∀ row, row ∈ tenants w → tr_name row ≠ name
      end
  | InsertTenant => λ params w _ w', ∃ id name schema rows,
      params = [BindUuid id; BindText name; BindText schema] ∧
      w' = mk_World rows (api_keys w) (tenant_tables w) ∧
      let row := mk_TenantRow id name schema in
      if existsb (conflicts row) (tenants w) then rows = tenants w else rows ≡ₚ row :: tenants w
  | SelectApiKey => λ params w a w', w' = w ∧ ∃ kid, params = [BindText kid] ∧
      match a with
      | Some row => row ∈ api_keys w ∧ row_key_id row = kid
      | None => ∀ row, row ∈ api_keys w → row_key_id row ≠ kid
      end
  | InsertApiKey => λ params w _ w', ∃ id kid hash rows,
      params = [BindUuid id; BindText kid; BindText hash] ∧
      w' = mk_World (tenants w) rows (tenant_tables w) ∧
      (∃ row, row ∈ tenants w ∧ tr_id row = id) ∧ (∀ row, row ∈ api_keys w → row_key_id row ≠ kid) ∧
      rows ≡ₚ mk_ApiKeyRow kid hash id false :: api_keys w
  | CountActive schema => λ _ w n w', w' = w ∧
      n = Z.of_nat (length (active_rows (relation_tuples (tables_of w schema))))
  | DeleteTuples schema => λ _ w n w',
      n = Z.of_nat (length (relation_tuples (tables_of w schema))) ∧
      w' = set_tables schema (without_rows (tables_of w schema)) w
  | RestartSequence schema => λ _ w _ w', w' = set_tables schema (restarted (tables_of w schema)) w
  end.

Definition admin_documented {Uuid} `{EqDecision Uuid} {R} (st : admin Uuid R) params w (r : result string R) w' : Prop :=
  match r with Ok a => admin_succeeds st params w a w' | Err _ => w' = w end.

(** ** Executions *)

Section executions.
Context {Uuid : Type} `{EqU : EqDecision Uuid} `{CntU : !Countable Uuid}.
Context (db : ∀ R, admin Uuid R → list (bind_value Uuid) → World Uuid → result string R → World Uuid → Prop).

Fixpoint runs {A} (p : sql_prog (admin Uuid) (bind_value Uuid) A) (w : World Uuid) (a : A) (w' : World Uuid) : Prop :=
  match p with
  | Ret b => a = b ∧ w' = w
  | Ask st params k => ∃ r w1, db _ st params w r w1 ∧ runs (k r) w1 a w'
  end.

Lemma runs_bind {A B} (p : sql_prog (admin Uuid) (bind_value Uuid) A) (f : A → sql_prog _ _ B) w b w' :
  runs (sql_bind p f) w b w' ↔ ∃ a w1, runs p w a w1 ∧ runs (f a) w1 b w'.
Proof.
  revert w. induction p as [a|R st params k IH]; intros w; simpl.
  - naive_solver.
  - setoid_rewrite IH. naive_solver.
Qed.

Hypothesis db_documented : ∀ R (st : admin Uuid R) params w r w',
  db R st params w r w' → admin_documented st params w r w'.

Lemma runs_ask {R} (st : admin Uuid R) params w r w' :
  runs (ask st params) w r w' → admin_documented st params w r w'.
Proof. intros (r' & w1 & Hdb & -> & ->). by apply db_documented. Qed.

(** One step of a program with [?]. *)
Lemma runs_try {E E' A B} (p : sql_prog (admin Uuid) (bind_value Uuid) (result E A)) (conv : E → E')
    (f : A → sql_prog _ _ (result E' B)) w res w' :
  runs (sql_bind p (λ r, match r with Ok x => f x | Err e => Ret (Err (conv e)) end)) w res w' ↔
  ∃ r w1, runs p w r w1 ∧
    match r with Ok x => runs (f x) w1 res w' | Err e => res = Err (conv e) ∧ w' = w1 end.
Proof. rewrite runs_bind. split; intros ([x|e] & w1 & H1 & H2); by eexists _, _. Qed.

Lemma tenant_statements_create name : forallb creates (tenant_statements name) = true.
Proof. by destruct name. Qed.

Lemma execute_all_unchanged l w r w' :
  forallb creates l = true → runs (execute_all l) w r w' → w' = w.
Proof.
  revert w. induction l as [|q l IH]; intros w; [by intros _ [_ ->]|].
  intros [Hc Hl]%andb_true_iff (r1 & w1 & Hq & H)%runs_try. apply runs_ask in Hq.
  destruct r1 as [[]|e]; simpl in Hq.
  - rewrite (Hq Hc) in H. by apply IH.
  - by destruct H as [_ ->].
Qed.

Lemma create_tenant_schema_unchanged name w r w' : runs (create_tenant_schema name) w r w' → w' = w.
Proof.
  unfold create_tenant_schema. destruct (validate_schema_name name); [|by intros [_ ->]].
  intros (r1 & w1 & Hq & H)%runs_try. apply execute_all_unchanged in Hq as ->; [|apply tenant_statements_create].
  by destruct r1, H as [_ ->].
Qed.

(** Every command opens the database first and changes nothing by it. *)
Lemma open_database_ok {A} config (k : sql_prog _ _ (result (@stopped) A)) w res w' :
  runs (open_database config k) w res w' →
  runs k w res w' ∨
  w' = w ∧ ∃ e, res = Err e ∧ match e with ConfigFailed _ | DatabaseFailed _ => True | _ => False end.
Proof.
  unfold open_database. destruct (require_configured _) as [u|e].
  2: { intros [-> ->]. right. split; [done|]. by eexists. }
  intros (r1 & w1 & Hq & H1)%runs_try. apply runs_ask in Hq.
  destruct r1 as [[]|e]; simpl in Hq; subst w1.
  2: { destruct H1 as [-> ->]. right. split; [done|]. by eexists. }
  apply runs_try in H1 as (r2 & w2 & Hq2 & H2). apply execute_all_unchanged in Hq2 as ->; [|reflexivity].
  destruct r2 as [[]|e]; [by left|]. destruct H2 as [-> ->]. right. split; [done|]. by eexists.
Qed.

Lemma open_database_Ok {A} config (k : sql_prog _ _ (result (@stopped) A)) w a w' :
  runs (open_database config k) w (Ok a) w' → runs k w (Ok a) w'.
Proof. by intros [?|(_ & e & [=] & _)]%open_database_ok. Qed.

(** ** Provisioning *)

Context (as_simple uuid_display : Uuid → string).

Definition tenant_row (id : Uuid) (name : string) : TenantRow Uuid :=
  mk_TenantRow id name (schema_name_for_tenant as_simple (mk_TenantId id)).

Definition insert_row (row : TenantRow Uuid) (l rows : list (TenantRow Uuid)) : Prop :=
  if existsb (conflicts row) l then rows = l else rows ≡ₚ row :: l.

Lemma provision_tenant_spec id name m w r w' :
  runs (provision_tenant as_simple (mk_TenantId id) name m) w r w' →
  (∃ rows, w' = mk_World rows (api_keys w) (tenant_tables w) ∧
     (insert_row (tenant_row id name) (tenants w) rows ∨ is_ok r = false ∧ rows = tenants w)) ∧
  (r = Ok (<[mk_TenantId id := tr_schema (tenant_row id name)]> m) ∧
     validate_schema_name (tr_schema (tenant_row id name)) = Ok tt ∨ ∃ e, r = Err e).
Proof.
  unfold provision_tenant. intros (r1 & w1 & Hq & H1)%runs_try. apply runs_ask in Hq.
  destruct r1 as [[]|e]; simpl in Hq.
  2: { subst w1. destruct H1 as [-> ->]. split; [|right; by eexists].
       exists (tenants w). split; [by destruct w|by right]. }
  destruct Hq as (? & ? & ? & rows & [= <- <- <-] & -> & Hrows).
  apply runs_try in H1 as (r2 & w2 & Hq2 & H2).
  pose proof (create_tenant_schema_unchanged _ _ _ _ Hq2) as ->.
  destruct r2 as [[]|e]; destruct H2 as [-> ->]; (split; [by exists rows; auto|]).
  - left. split; [done|]. unfold create_tenant_schema in Hq2.
    destruct (validate_schema_name _) as [[]|e] eqn:Hv; [done|by destruct Hq2].
  - right. by eexists.
Qed.

Lemma run_provision_tenant_Ok config id name w lines w' :
  runs (run_provision_tenant as_simple uuid_display config id name) w (Ok lines) w' →
  (∃ rows, w' = mk_World rows (api_keys w) (tenant_tables w) ∧
     insert_row (tenant_row id name) (tenants w) rows) ∧
  lines = ["Tenant provisioned successfully"; "  Name:      " +:+ name; "  Tenant ID: " +:+ uuid_display id] ∧
  validate_schema_name (tr_schema (tenant_row id name)) = Ok tt.
Proof.
  unfold run_provision_tenant. intros (r1 & w1 & Hp & H1)%open_database_Ok%runs_try.
  apply provision_tenant_spec in Hp as [(rows & -> & Hrows) Hr].
  destruct r1 as [m|e]; [|by destruct H1]. destruct H1 as [[= ->] ->]. split_and!; [|done|naive_solver].
  exists rows. split; [done|]. by destruct Hrows as [?|[? _]].
Qed.

(** ** Keys *)

Lemma run_create_api_key_Ok argon2_hash config ids secrets salt name w lines w' :
  runs (run_create_api_key argon2_hash config ids secrets salt name) w (Ok lines) w' →
  ∃ row key key_row rows, row ∈ tenants w ∧ tr_name row = name ∧
    create_api_key argon2_hash ids secrets salt (tr_id row) = Ok (key, key_row) ∧
    (∀ row', row' ∈ api_keys w → row_key_id row' ≠ row_key_id key_row) ∧
    rows ≡ₚ key_row :: api_keys w ∧ w' = mk_World (tenants w) rows (tenant_tables w) ∧
    lines = ["API key created successfully"; "  Tenant:  " +:+ name; "  API Key: " +:+ key; EmptyString;
             "Store this key securely — it will not be shown again."].
Proof.
  unfold run_create_api_key. intros (r1 & w1 & Hq & H1)%open_database_Ok%runs_try. apply runs_ask in Hq.
  destruct r1 as [[id|]|e]; simpl in Hq; [|by destruct H1..].
  destruct Hq as (-> & ? & [= <-] & row & Hin & Hname & <-).
  destruct (create_api_key _ _ _ _ _) as [[key key_row]|e] eqn:Hc; [|by destruct H1].
  apply runs_try in H1 as (r2 & w2 & Hq2 & H2). apply runs_ask in Hq2.
  destruct r2 as [[]|e]; simpl in Hq2; [|by destruct H2]. destruct H2 as [[= ->] ->].
  destruct Hq2 as (? & ? & ? & rows & [= <- <- <-] & -> & _ & Hfresh & Hrows).
  exists row, key, key_row, rows. split_and!; try done.
  rewrite Hrows. unfold create_api_key in Hc. destruct (generate_api_key _ _) as [full secret].
  apply try_Ok in Hc as ([kid s] & _ & (h & _ & [= <- <-])%try_Ok). done.
Qed.

(** ** The purge *)

(** [run_purge_relationships] after the tenant was found. *)
Lemma purge_relationships_spec schema w r w' :
  runs (purge_relationships schema) w r w' →
  match r with
  | Ok n => n = Z.of_nat (length (relation_tuples (tables_of w schema))) ∧
      w' = set_tables schema (restarted (tables_of (set_tables schema (without_rows (tables_of w schema)) w) schema))
             (set_tables schema (without_rows (tables_of w schema)) w)
  | Err _ => w' = w ∨ w' = set_tables schema (without_rows (tables_of w schema)) w
  end.
Proof.
  intros (r1 & w1 & Hq & H1)%runs_try. apply runs_ask in Hq.
  destruct r1 as [n|e]; simpl in Hq; [|subst w1; destruct H1 as [-> ->]; by left].
  destruct Hq as [-> ->]. apply runs_try in H1 as (r2 & w2 & Hq2 & H2). apply runs_ask in Hq2.
  destruct r2 as [[]|e]; simpl in Hq2; subst w2; destruct H2 as [-> ->]; [done|by right].
Qed.
End executions.

(** ** The theorems *)

Lemma conflicts_same_name {Uuid} `{EqDecision Uuid} (row row' : TenantRow Uuid) :
  tr_name row = tr_name row' → conflicts row row' = true.
Proof. intros Hn. unfold conflicts. rewrite (bool_decide_true (tr_name row = _)) by done. by rewrite orb_true_r. Qed.

(** A name nobody has yet gives one row of that name. *)
Lemma insert_row_fresh {Uuid} `{EqDecision Uuid} (row : TenantRow Uuid) l rows :
  insert_row row l rows → existsb (conflicts row) l = false →
  rows ≡ₚ row :: l ∧ ∀ row', row' ∈ rows → tr_name row' = tr_name row → row' = row.
Proof.
  unfold insert_row. intros Hrows Hfresh. rewrite Hfresh in Hrows. split; [done|].
  intros row' Hin Hn. rewrite Hrows in Hin. apply elem_of_cons in Hin as [->|Hin]; [done|].
  assert (existsb (conflicts row) l = true) as Hc; [|congruence].
  apply existsb_exists. exists row'. split; [by apply list_elem_of_In|]. by apply conflicts_same_name.
Qed.

(** C19: A provisioned tenant can be used: after [provision-tenant] with a name
    and [create-api-key] for that name, the key that was printed, sent as a
    bearer token, acts on both APIs for a tenant of that name, when the
    middleware asks the database those commands left.  If neither the name nor
    the id nor its schema was taken, it is the tenant whose id was printed, the one row that
    was added.  If one was taken, no tenant is added, although the command
    reports success: the key acts for a tenant that was there before.  One key
    is added, and no tenant's tables are touched. *)
Theorem provisioned_key_authenticates {Uuid PasswordHash} `{EqDecision Uuid, !Countable Uuid} db
    (as_simple uuid_display : Uuid → string) argon2_hash
    (argon2_parse : string → result string PasswordHash) argon2_verify (nil : Uuid)
    config id name id_indices secret_indices salt w w1 w2 lines1 lines2
    (repo : string → result string (option ApiKeyRow)) path :
  (∀ R (st : admin Uuid R) params w r w', db R st params w r w' → admin_documented st params w r w') →
  (∀ salt secret hash, argon2_hash salt secret = Ok hash →
     ∃ parsed, argon2_parse hash = Ok parsed ∧ argon2_verify secret parsed = true) →
  length id_indices = 16 → Forall (λ idx, idx < 36) id_indices →
  length secret_indices = 32 → Forall (λ idx, idx < 36) secret_indices →
  runs db (run_provision_tenant as_simple uuid_display config id name) w (Ok lines1) w1 →
  runs db (run_create_api_key argon2_hash config id_indices secret_indices salt name) w1 (Ok lines2) w2 →
  (∀ kid, ∃ o, repo kid = Ok o ∧ admin_succeeds SelectApiKey [BindText kid] w2 o w2) →
  skip_auth path = false →
  ∃ key row, "  API Key: " +:+ key ∈ lines2 ∧ "  Tenant ID: " +:+ uuid_display id ∈ lines1 ∧
    let request := mk_AuthRequest path (Some (Some ("Bearer " +:+ key))) in
    (rest_auth_middleware argon2_parse argon2_verify (with_repository nil repo) request).1 =
      Next (Some (mk_TenantId (tr_id row))) ∧
    (grpc_auth_interceptor argon2_parse argon2_verify (with_repository nil repo) request).1 =
      Next (Some (mk_TenantId (tr_id row))) ∧
    tr_name row = name ∧
    (if existsb (conflicts (tenant_row as_simple id name)) (tenants w)
     then row ∈ tenants w ∧ tenants w2 = tenants w
     else row = tenant_row as_simple id name ∧ tenants w2 ≡ₚ row :: tenants w) ∧
    (∃ key_row, api_keys w2 ≡ₚ key_row :: api_keys w) ∧ tenant_tables w2 = tenant_tables w.
Proof.
  intros Hdb Hlaw Hlen Hid Hlen' Hsec Hprov Hcreate Hrepo Hskip.
  apply run_provision_tenant_Ok in Hprov as [(rows & -> & Hrows) [-> _]]; [|done].
  apply run_create_api_key_Ok in Hcreate as
    (row & key & key_row & keys & Hin & Hname & Hc & Hnew & Hkeys & -> & ->); [|done].
  cbn [tenants api_keys tenant_tables] in *.
  assert (repo (row_key_id key_row) = Ok (Some key_row)) as Hrow.
  { destruct (Hrepo (row_key_id key_row)) as (o & -> & _ & kid & [= <-] & Ho). cbn [api_keys] in Ho.
    assert (key_row ∈ keys) as Hk by (rewrite Hkeys; set_solver).
    destruct o as [r|]; [|by destruct (Ho _ Hk)]. destruct Ho as [Hr Hkid].
    rewrite Hkeys in Hr. apply elem_of_cons in Hr as [->|Hr]; [done|]. by destruct (Hnew _ Hr). }
  exists key, row. split; [set_solver|]. split; [set_solver|].
  destruct (issued_key_authenticates argon2_hash argon2_parse argon2_verify nil repo _ _ _ _ _ _ path
    Hlaw Hlen Hid Hlen' Hsec Hc Hrow Hskip) as [Hrest Hgrpc].
  split_and!; [exact Hrest|exact Hgrpc|exact Hname| |by eexists|done].
  destruct (existsb _ (tenants w)) eqn:Hfresh.
  - unfold insert_row in Hrows. rewrite Hfresh in Hrows. by subst rows.
  - destruct (insert_row_fresh _ _ _ Hrows Hfresh) as [Hperm Huniq].
    assert (row = tenant_row as_simple id name) as -> by (by apply Huniq). done.
Qed.

(** The tables of a tenant after a purge: the schema definitions stay. *)
Definition purged (t : Tables) : Tables := mk_Tables [] None (schema_definitions t).

Lemma tables_of_set {Uuid} schema t (w : World Uuid) s :
  tables_of (set_tables schema t w) s = if bool_decide (s = schema) then t else tables_of w s.
Proof.
  unfold tables_of. cbn [tenant_tables set_tables]. case_bool_decide; subst.
  - by rewrite lookup_insert_eq.
  - by rewrite lookup_insert_ne.
Qed.

(** Only the tables in [schema] changed, to [t]. *)
Definition only_tables {Uuid} (w w' : World Uuid) (schema : string) (t : Tables) : Prop :=
  tenants w' = tenants w ∧ api_keys w' = api_keys w ∧
  ∀ s, tables_of w' s = if bool_decide (s = schema) then t else tables_of w s.

Lemma only_set_tables {Uuid} schema t (w : World Uuid) : only_tables w (set_tables schema t w) schema t.
Proof. split_and!; [done..|]. intros s. apply tables_of_set. Qed.

Lemma only_set_tables_twice {Uuid} schema t t' (w : World Uuid) :
  only_tables w (set_tables schema t' (set_tables schema t w)) schema t'.
Proof. split_and!; [done..|]. intros s. rewrite !tables_of_set. by case_bool_decide. Qed.

(** C20: [purge-relationships] does what it prints: with [--yes] and a tenant of
    that name it removes all rows of that tenant's relationships and resets its
    sequence, and nothing else: no schema definition, no other tenant's tables,
    no tenant and no key; without [--yes], or for an unknown name or an invalid
    schema name, it stops without a change; a failure of the database leaves
    everything, or, when it comes after the deletion, the rows deleted and the
    sequence as it was. *)
Theorem purge_exact {Uuid} `{EqDecision Uuid, !Countable Uuid} db config name yes w res (w' : World Uuid) :
  (∀ R (st : admin Uuid R) params w r w', db R st params w r w' → admin_documented st params w r w') →
  runs db (run_purge_relationships (Uuid := Uuid) config name yes) w res w' →
  match res with
  | Ok lines => yes = true ∧ ∃ row, row ∈ tenants w ∧ tr_name row = name ∧
      validate_schema_name (tr_schema row) = Ok tt ∧
      let t := tables_of w (tr_schema row) in
      only_tables w w' (tr_schema row) (purged t) ∧
      lines = ["Purged " +:+ pretty (Z.of_nat (length (relation_tuples t))) +:+
               " relationship(s) for tenant '" +:+ name +:+ "'. Transaction sequence reset."]
  | Err (ExitWith code _) => code = 1%Z ∧ w' = w ∧
      (yes = true → ∀ row, row ∈ tenants w → tr_name row ≠ name)
  | Err (DatabaseFailed _) => w' = w ∨ yes = true ∧ ∃ row, row ∈ tenants w ∧ tr_name row = name ∧
      only_tables w w' (tr_schema row) (without_rows (tables_of w (tr_schema row)))
  | Err _ => w' = w
  end.
Proof.
  intros Hdb [Hrun|(-> & e & -> & He)]%(open_database_ok db Hdb).
  2: { by destruct e; first [done|left]. }
  apply runs_try in Hrun as (r1 & w1 & Hq & H1). apply (runs_ask db Hdb) in Hq.
  destruct r1 as [[schema|]|e]; simpl in Hq.
  2: { destruct Hq as (-> & ? & [= <-] & Hno). destruct H1 as [-> ->]. by split_and!. }
  2: { subst w1. destruct H1 as [-> ->]. by left. }
  destruct Hq as (-> & ? & [= <-] & row & Hin & Hname & <-).
  destruct (validate_schema_name (tr_schema row)) as [[]|e] eqn:Hv; [|by destruct H1 as [-> ->]].
  apply runs_try in H1 as (r2 & w2 & Hq2 & H2). apply (runs_ask db Hdb) in Hq2.
  destruct r2 as [count|e]; simpl in Hq2; [|subst w2; destruct H2 as [-> ->]; by left].
  destruct Hq2 as [-> Hcount]. destruct yes; cbn [negb] in H2.
  2: { destruct H2 as [-> ->]. by split_and!. }
  apply runs_try in H2 as (r3 & w3 & Hq3 & H3). apply (purge_relationships_spec db Hdb) in Hq3.
  destruct r3 as [n|e]; destruct H3 as [-> ->].
  - destruct Hq3 as [-> ->]. split; [done|]. exists row.
    do 3 (split; [done|]). split; [|done]. rewrite tables_of_set, bool_decide_true by done. apply only_set_tables_twice.
  - destruct Hq3 as [->| ->]; [by left|]. right. split; [done|]. exists row.
    do 2 (split; [done|]). apply only_set_tables.
Qed.

(** *** Schema names *)

Definition hex32 (s : string) : Prop :=
  String.length s = 32 ∧ forallb is_ascii_hexdigit (String.list_ascii_of_string s) = true.

Lemma validate_schema_name_ok name :
  is_ok (validate_schema_name name) = true ↔ ∃ rest, name = "tenant_" +:+ rest ∧ hex32 rest.
Proof.
  unfold validate_schema_name. destruct (strip_prefix "tenant_" name) as [rest|] eqn:Hp.
  - apply strip_prefix_Some in Hp as ->.
    change (String.length ("tenant_" +:+ rest)) with (7 + String.length rest). unfold hex32. split.
    + intros H. exists rest. split; [done|]. destruct (_ =? 39) eqn:Hl; [|done].
      apply Nat.eqb_eq in Hl. destruct (forallb _ _) eqn:Hf; [|done]. split; [lia|done].
    + intros (rest' & Heq & Hl & Hf). apply (inj (String.append "tenant_")) in Heq as <-.
      by rewrite Hl, Hf.
  - simpl. split; [done|]. intros (rest & -> & _). by rewrite (proj2 (strip_prefix_Some _ _ _) eq_refl) in Hp.
Qed.

(** The maps of names a factory can have: tenants were provisioned one after
    the other, each in the world it found, with success or not. *)
Inductive factory_map {Uuid} `{EqDecision Uuid, !Countable Uuid} db as_simple
    : gmap (TenantId Uuid) string → Prop :=
| factory_map_new : factory_map db as_simple ∅
| factory_map_provisioned m t name w r w' :
    factory_map db as_simple m → runs db (provision_tenant as_simple t name m) w r w' →
    factory_map db as_simple match r with Ok m' => m' | Err _ => m end.

Lemma factory_map_ok {Uuid} `{EqDecision Uuid, !Countable Uuid} db as_simple (m : gmap (TenantId Uuid) string) :
  (∀ R (st : admin Uuid R) params w r w', db R st params w r w' → admin_documented st params w r w') →
  factory_map db as_simple m → ∀ t, pg_for_tenant as_simple t m = schema_name_for_tenant as_simple t.
Proof.
  intros Hdb. induction 1 as [|m [id] name w r w' _ IH Hrun]; intros t; [done|].
  apply (provision_tenant_spec db Hdb) in Hrun as [_ [[-> _]|[e ->]]]; [|apply IH].
  unfold pg_for_tenant. destruct (decide (t = mk_TenantId id)) as [->|Hne].
  - by rewrite lookup_insert_eq.
  - rewrite lookup_insert_ne by done. apply IH.
Qed.

(** C38: Every tenant's store is in a schema of its own, whichever tenants were
    provisioned and however the database answered: the names are accepted by
    [validate_schema_name], hold nothing but [tenant_] and 32 hexadecimal
    digits, and differ between tenants. *)
Theorem pg_tenants_have_own_schemas {Uuid} `{EqDecision Uuid, !Countable Uuid} db as_simple
    (schemas : gmap (TenantId Uuid) string) t1 t2 :
  (∀ R (st : admin Uuid R) params w r w', db R st params w r w' → admin_documented st params w r w') →
  (∀ u, hex32 (as_simple u)) → (∀ u u', as_simple u = as_simple u' → u = u') →
  factory_map db as_simple schemas →
  let name := λ t, pg_for_tenant as_simple t schemas in
  validate_schema_name (name t1) = Ok tt ∧ (name t1 = name t2 → t1 = t2).
Proof.
  intros Hdb Hhex Hinj Hm name. unfold name. rewrite !(factory_map_ok db) by done. unfold schema_name_for_tenant. split.
  - assert (is_ok (validate_schema_name ("tenant_" +:+ as_simple (tenant_uuid t1))) = true) as Hv
      by (apply validate_schema_name_ok; by eexists).
    destruct (validate_schema_name _) as [[]|]; done.
  - intros Heq%(inj (String.append "tenant_"))%Hinj. destruct t1, t2. simpl in *. by subst.
Qed.

(** ** An example database *)

Section example.
Context {Uuid : Type} `{EqU : EqDecision Uuid} `{CntU : !Countable Uuid}.

Definition named (name : string) (row : TenantRow Uuid) : bool := bool_decide (tr_name row = name).
Definition keyed (kid : string) (row : @ApiKeyRow Uuid) : bool := bool_decide (row_key_id row = kid).

(** What it answers, and the world after; a statement that breaks a constraint
    fails. *)
Definition admin_answer {R} (st : admin Uuid R) (params : list (bind_value Uuid)) (w : World Uuid)
    : result string R * World Uuid :=
  match st in admin _ R return result string R * World Uuid with
  | Connect => (Ok tt, w)
  | RunSql _ => (Ok tt, w)
  | SelectTenantId =>
      match params with
      | [BindText name] => (Ok (option_map tr_id (find (named name) (tenants w))), w)
      | _ => (Err "parameters", w)
      end
  | SelectTenantSchema =>
      match params with
      | [BindText name] => (Ok (option_map tr_schema (find (named name) (tenants w))), w)
      | _ => (Err "parameters", w)
      end
  | InsertTenant =>
      match params with
      | [BindUuid id; BindText name; BindText schema] =>
          let row := mk_TenantRow id name schema in
          (Ok tt, if existsb (conflicts row) (tenants w) then w
                  else mk_World (row :: tenants w) (api_keys w) (tenant_tables w))
      | _ => (Err "parameters", w)
      end
  | SelectApiKey =>
      match params with
      | [BindText kid] => (Ok (find (keyed kid) (api_keys w)), w)
      | _ => (Err "parameters", w)
      end
  | InsertApiKey =>
      match params with
      | [BindUuid id; BindText kid; BindText hash] =>
          if existsb (λ row, bool_decide (tr_id row = id)) (tenants w) && negb (existsb (keyed kid) (api_keys w))
          then (Ok tt, mk_World (tenants w) (mk_ApiKeyRow kid hash id false :: api_keys w) (tenant_tables w))
          else (Err "constraint", w)
      | _ => (Err "parameters", w)
      end
  | CountActive schema => (Ok (Z.of_nat (length (active_rows (relation_tuples (tables_of w schema))))), w)
  | DeleteTuples schema =>
      (Ok (Z.of_nat (length (relation_tuples (tables_of w schema)))),
       set_tables schema (without_rows (tables_of w schema)) w)
  | RestartSequence schema => (Ok tt, set_tables schema (restarted (tables_of w schema)) w)
  end.

Definition admin_db R (st : admin Uuid R) params w r w' : Prop := admin_answer st params w = (r, w').

(** [find] gives a row with the key, or there is none. *)
Lemma find_row {A} (key : A → string) k l :
  match find (λ x, bool_decide (key x = k)) l with
  | Some x => x ∈ l ∧ key x = k
  | None => ∀ x, x ∈ l → key x ≠ k
  end.
Proof.
  destruct (find _ l) as [x|] eqn:Hf.
  - apply find_some in Hf as [Hin Hk]. split; [by apply list_elem_of_In|by apply bool_decide_eq_true in Hk].
  - intros x Hin. pose proof (find_none _ _ Hf x) as Hn. apply list_elem_of_In in Hin.
    apply Hn in Hin. by apply bool_decide_eq_false in Hin.
Qed.

Lemma admin_db_documented R (st : admin Uuid R) params w r w' :
  admin_db R st params w r w' → admin_documented st params w r w'.
Proof.
  unfold admin_db. intros Ha. destruct st; cbn [admin_answer] in Ha; try by simplify_eq.
  - destruct params as [|[|name] [|]]; simplify_eq; try done. split; [done|]. exists name. split; [done|].
    pose proof (find_row tr_name name (tenants w')) as Hf. unfold named.
    destruct (find _ _) as [x|]; [exists x; by destruct Hf|exact Hf].
  - destruct params as [|[|name] [|]]; simplify_eq; try done. split; [done|]. exists name. split; [done|].
    pose proof (find_row tr_name name (tenants w')) as Hf. unfold named.
    destruct (find _ _) as [x|]; [exists x; by destruct Hf|exact Hf].
  - destruct params as [|[id|] [|[|name] [|[|schema] [|]]]]; simplify_eq; try done.
    simpl. destruct (existsb _ _) eqn:Hc; eexists id, name, schema, _; (split_and!; [done| |by rewrite Hc]); [by destruct w|done].
  - destruct params as [|[|kid] [|]]; simplify_eq; try done. split; [done|]. exists kid. split; [done|].
    apply (find_row row_key_id).
  - destruct params as [|[id|] [|[|kid] [|[|hash] [|]]]]; simplify_eq; try done.
    destruct (existsb _ (tenants w)) eqn:Ht; simpl in Ha; [|by simplify_eq].
    destruct (existsb _ (api_keys w)) eqn:Hk; simpl in Ha; simplify_eq; [done|].
    simpl. eexists id, kid, hash, _. split_and!; [done..| | |done].
    + apply existsb_exists in Ht as (row & Hin & Hid%bool_decide_eq_true). exists row. by rewrite list_elem_of_In.
    + intros row Hin%list_elem_of_In Hkid. enough (existsb (keyed kid) (api_keys w) = true) by congruence.
      apply existsb_exists. exists row. split; [done|]. by apply bool_decide_eq_true.
Qed.

Fixpoint run_command {A} (p : sql_prog (admin Uuid) (bind_value Uuid) A) (w : World Uuid) : A * World Uuid :=
  match p with
  | Ret a => (a, w)
  | Ask st params k => let (r, w1) := admin_answer st params w in run_command (k r) w1
  end.

Lemma run_command_runs {A} (p : sql_prog (admin Uuid) (bind_value Uuid) A) w a w' :
  run_command p w = (a, w') → runs admin_db p w a w'.
Proof.
  revert w. induction p as [b|R st params k IH]; intros w; simpl; [by intros [= -> ->]|].
  destruct (admin_answer st params w) as [r w1] eqn:Ha. intros Hr%IH. by exists r, w1.
Qed.
End example.

(** Two uuids, as 32 digits. *)
Definition bool_as_simple (b : bool) : string :=
  if b then "11111111111111111111111111111111" else "0123456789abcdef0123456789abcdef".
Definition bool_display (b : bool) : string :=
  if b then "11111111-1111-1111-1111-111111111111" else "01234567-89ab-cdef-0123-456789abcdef".

Definition demo_config : AppConfig :=
  mk_AppConfig grpc_default rest_default
    (mk_DatabaseConfig "postgresql://localhost/kraalzibar" 10 0 30 600 1800) engine_default
    schema_limits_default log_default cache_default tracing_default tls_default.

Definition demo_world : World bool := mk_World [] [] ∅.
Definition demo_provisioned : World bool :=
  (run_command (run_provision_tenant bool_as_simple bool_display demo_config true "acme") demo_world).2.
Definition demo_create_key :=
  run_create_api_key (Uuid := bool) toy_hash demo_config (replicate 16 35) (replicate 32 0) "salt" "acme".
Definition demo_keyed : World bool := (run_command demo_create_key demo_provisioned).2.

(** The tenant has written a relationship. *)
Definition demo_pg_schema : string := "tenant_11111111111111111111111111111111".
Definition demo_filled : World bool :=
  set_tables demo_pg_schema (run_pg (pg_write [demo_write "a" "alice"] []) empty_tables).2 demo_keyed.

Definition demo_provision_lines : list string :=
  ["Tenant provisioned successfully"; "  Name:      acme"; "  Tenant ID: 11111111-1111-1111-1111-111111111111"].
Definition demo_key_lines : list string :=
  ["API key created successfully"; "  Tenant:  acme"; "  API Key: " +:+ issued_key; EmptyString;
   "Store this key securely — it will not be shown again."].

Lemma provisioned_key_authenticates_witness :
  ∃ key, "  API Key: " +:+ key ∈ demo_key_lines ∧
    (rest_auth_middleware toy_parse toy_verify
       (with_repository false (λ kid, (admin_answer SelectApiKey [BindText kid] demo_keyed).1))
       (mk_AuthRequest "/v1/schema" (Some (Some ("Bearer " +:+ key))))).1 = Next (Some (mk_TenantId true)) ∧
    tenants demo_keyed = [mk_TenantRow true "acme" demo_pg_schema].
Proof.
  destruct (provisioned_key_authenticates admin_db bool_as_simple bool_display toy_hash toy_parse toy_verify
    false demo_config true "acme" (replicate 16 35) (replicate 32 0) "salt" demo_world demo_provisioned
    demo_keyed demo_provision_lines demo_key_lines (λ kid, (admin_answer SelectApiKey [BindText kid] demo_keyed).1) "/v1/schema"
    admin_db_documented) as (key & row & Hkey & _ & Hrest & _ & _ & [-> _] & _).
  - intros salt secret hash [= <-]. exists secret. unfold toy_parse, toy_verify. split.
    + by rewrite (proj2 (strip_prefix_Some "$" ("$" +:+ secret) secret) eq_refl).
    + by apply bool_decide_eq_true.
  - done.
  - by repeat constructor.
  - done.
  - by repeat constructor.
  - apply run_command_runs. vm_compute. reflexivity.
  - apply run_command_runs. vm_compute. reflexivity.
  - intros kid. exists (find (keyed kid) (api_keys demo_keyed)). split; [reflexivity|].
    exact (admin_db_documented _ SelectApiKey [BindText kid] demo_keyed (Ok _) _ eq_refl).
  - reflexivity.
  - exists key. split; [exact Hkey|]. split; [exact Hrest|]. vm_compute. reflexivity.
Defined.

Lemma purge_exact_witness :
  (run_command (run_purge_relationships (Uuid := bool) demo_config "acme" true) demo_filled).1 =
    Ok ["Purged 1 relationship(s) for tenant 'acme'. Transaction sequence reset."] ∧
  length (relation_tuples (tables_of demo_filled demo_pg_schema)) = 1 ∧
  ∃ row, row ∈ tenants demo_filled ∧ tr_name row = "acme" ∧
    only_tables demo_filled
      (run_command (run_purge_relationships (Uuid := bool) demo_config "acme" true) demo_filled).2
      (tr_schema row) (purged (tables_of demo_filled (tr_schema row))).
Proof.
  split; [vm_compute; reflexivity|]. split; [vm_compute; reflexivity|].
  destruct (purge_exact admin_db demo_config "acme" true demo_filled
    (Ok ["Purged 1 relationship(s) for tenant 'acme'. Transaction sequence reset."])
    (run_command (run_purge_relationships (Uuid := bool) demo_config "acme" true) demo_filled).2
    admin_db_documented) as (_ & row & Hin & Hname & _ & Honly & _).
  - apply run_command_runs. vm_compute. reflexivity.
  - exists row. by split_and!.
Defined.

Lemma pg_tenants_have_own_schemas_witness :
  let schemas := {[mk_TenantId true := demo_pg_schema]} : gmap (TenantId bool) string in
  validate_schema_name (pg_for_tenant bool_as_simple (mk_TenantId true) schemas) = Ok tt ∧
  (pg_for_tenant bool_as_simple (mk_TenantId true) schemas =
     pg_for_tenant bool_as_simple (mk_TenantId false) schemas →
   mk_TenantId true = mk_TenantId false).
Proof.
  apply (pg_tenants_have_own_schemas admin_db bool_as_simple
    {[mk_TenantId true := demo_pg_schema]} (mk_TenantId true) (mk_TenantId false) admin_db_documented).
  - intros []; split; reflexivity.
  - intros [] []; done.
  - apply (factory_map_provisioned admin_db bool_as_simple ∅ (mk_TenantId true) "acme" demo_world
      (Ok {[mk_TenantId true := demo_pg_schema]}) demo_provisioned).
    + constructor.
    + apply run_command_runs. vm_compute. reflexivity.
Defined.

(** ** What a purge does to tokens, and a name provisioned twice *)

(** The restarted sequence gives tokens a second time: alice's write was
    answered with the token 1, and so is bob's after the purge; at that token a
    read answered alice's relationship before and answers bob's after. *)
Lemma purge_reuses_tokens :
  let before := tables_of demo_filled demo_pg_schema in
  let world := (run_command (run_purge_relationships (Uuid := bool) demo_config "acme" true) demo_filled).2 in
  let written := run_pg (pg_write [demo_write "b" "bob"] []) (tables_of world demo_pg_schema) in
  let token := mk_SnapshotToken 1 in
  (run_pg pg_snapshot before).1 = Ok token ∧ written.1 = Ok token ∧
  (run_pg (pg_read filter_default (Some token) None) before).1 = Ok [demo_tuple "a" "alice"] ∧
  (run_pg (pg_read filter_default (Some token) None) written.2).1 = Ok [demo_tuple "b" "bob"].
Proof. vm_compute. split_and!; reflexivity. Qed.

(** Provisioning a name that exists reports success and prints an id that no
    tenant has: the insertion does nothing on a conflict. *)
Lemma provision_twice_prints_unknown_id {Uuid} `{EqDecision Uuid, !Countable Uuid} db
    (as_simple uuid_display : Uuid → string) config id name w lines w' :
  (∀ R (st : admin Uuid R) params w r w', db R st params w r w' → admin_documented st params w r w') →
  (∃ row, row ∈ tenants w ∧ tr_name row = name) → (∀ row, row ∈ tenants w → tr_id row ≠ id) →
  runs db (run_provision_tenant as_simple uuid_display config id name) w (Ok lines) w' →
  "  Tenant ID: " +:+ uuid_display id ∈ lines ∧ ∀ row, row ∈ tenants w' → tr_id row ≠ id.
Proof.
  intros Hdb (row & Hin & Hname) Hid Hrun.
  apply (run_provision_tenant_Ok db Hdb) in Hrun as [(rows & -> & Hrows) [-> _]]. split; [set_solver|].
  unfold insert_row in Hrows.
  assert (existsb (conflicts (tenant_row as_simple id name)) (tenants w) = true) as Hc.
  { apply existsb_exists. exists row. split; [by apply list_elem_of_In|]. by apply conflicts_same_name. }
  rewrite Hc in Hrows. by subst rows.
Qed.
