(* ===== verification/Serve.v ===== *)
(** * Starting the server ([main.rs], [cli.rs], [tls.rs])

    The command line's dispatch, the choice of the backend, the service and the
    applications a server runs, and its TLS settings.  Connecting, the parsing
    of addresses, files and certificates, and the building of a cache are
    parameters; what happens once a server listens is in [Lifecycle]. *)
From stdpp Require Import base tactics list strings gmap pretty.
From S2P Require Import Prelude Tuples Schema Validation Parser Engine Check Expand Storage Memory Cache.
From S2P Require Import Metrics Service Numbers Auth Config Rest Grpc Postgres Provision.

(** ** [tls.rs] *)

Record TlsConfigOptions := mk_TlsConfigOptions {
  opt_cert_path : string; opt_key_path : string; alpn_protocols : list string }.

Inductive TlsError :=
| TlsReadFile (path e : string)
| NoCertificates (path : string)
| NoPrivateKey (path : string)
| InvalidConfig (e : string).

Definition tls_error_display (e : TlsError) : string :=
  match e with
  | TlsReadFile path e => "failed to read file '" +:+ path +:+ "': " +:+ e
  | NoCertificates path => "no certificates found in '" +:+ path +:+ "'"
  | NoPrivateKey path => "no private key found in '" +:+ path +:+ "'"
  | InvalidConfig e => "invalid TLS configuration: " +:+ e
  end.

Inductive tls_version := TLS12 | TLS13.

(** [rustls::ServerConfig], as far as the source sets it. *)
Record ServerConfig (Cert Key : Type) := mk_ServerConfig {
  versions : list tls_version; cert_chain : list Cert; key_der : Key; alpn : list string }.
Arguments mk_ServerConfig {Cert Key}.
Arguments versions {Cert Key}.
Arguments cert_chain {Cert Key}.
Arguments key_der {Cert Key}.
Arguments alpn {Cert Key}.

(** [collect::<Result<Vec<_>, _>>()] *)
Fixpoint collect_all {E A} (l : list (result E A)) : result E (list A) :=
  match l with
  | [] => Ok []
  | r :: l' => let? a := r in let? rest := collect_all l' in Ok (a :: rest)
  end.

Section tls.
Context {Bytes Cert Key : Type}.
(** [fs::read]; the PEM reader; what rustls says of the versions, and of a
    certificate chain with a key. *)
Context (fs_read : string → result string Bytes)
        (pem_certs : Bytes → list (result string Cert))
        (pem_private_key : Bytes → result string (option Key))
        (accept_versions : list tls_version → result string unit)
        (accept_cert : list Cert → Key → result string unit).

Definition build_tls_server_config (options : TlsConfigOptions)
    : result TlsError (ServerConfig Cert Key) :=
  let? cert_data := map_err (TlsReadFile (opt_cert_path options)) (fs_read (opt_cert_path options)) in
  let? key_data := map_err (TlsReadFile (opt_key_path options)) (fs_read (opt_key_path options)) in
  let? certs := map_err (TlsReadFile (opt_cert_path options)) (collect_all (pem_certs cert_data)) in
  match certs with
  | [] => Err (NoCertificates (opt_cert_path options))
  | _ =>
      let? found := map_err (TlsReadFile (opt_key_path options)) (pem_private_key key_data) in
      let? key := ok_or found (NoPrivateKey (opt_key_path options)) in
      let? _ := map_err InvalidConfig (accept_versions [TLS13]) in
      let? _ := map_err InvalidConfig (accept_cert certs key) in
      Ok (mk_ServerConfig [TLS13] certs key (alpn_protocols options))
  end.
End tls.

(** ** The service and the applications *)

Section start.
Context {Uuid SC CC : Type} `{EqU : EqDecision Uuid} `{CntU : !Countable Uuid}.
(** [moka::future::Cache::builder().max_capacity(..).time_to_live(..).build()] *)
Context (build_schema_cache : Z → Z → SC) (build_check_cache : Z → Z → CC).

Definition with_cache_config {F} (factory : F) (cache_config : CacheConfig) : @AuthzService Uuid F SC CC :=
  mk_AuthzService factory
    (build_schema_cache (schema_cache_capacity cache_config) (schema_cache_ttl_seconds cache_config))
    (build_check_cache (check_cache_capacity cache_config) (check_cache_ttl_seconds cache_config))
    None [].

(** [AuthzService::new] *)
Definition authz_service_new {F} (factory : F) : @AuthzService Uuid F SC CC :=
  with_cache_config factory cache_default.

Definition service_with_metrics {F} (m : Metrics) (sv : @AuthzService Uuid F SC CC) : @AuthzService Uuid F SC CC :=
  mk_AuthzService (factory sv) (schema_cache sv) (check_cache sv) (Some m) (audit_log sv).

Context {Bytes Cert Key SocketAddr : Type}.
Context (fs_read : string → result string Bytes)
        (pem_certs : Bytes → list (result string Cert))
        (pem_private_key : Bytes → result string (option Key))
        (accept_versions : list tls_version → result string unit)
        (accept_cert : list Cert → Key → result string unit).
(** [parse::<SocketAddr>()] *)
Context (parse_addr : string → result string SocketAddr).

(** What a server runs: the service, which both APIs share, with its settings,
    who may use it, where it listens, and the TLS settings of the gRPC and the
    REST listener. *)
Record Server (F : Type) := mk_Server {
  srv_service : @AuthzService Uuid F SC CC;
  srv_engine_config : EngineConfig;
  srv_schema_limits : SchemaLimits;
  srv_auth_state : @AuthState Uuid;
  srv_grpc_addr : SocketAddr;
  srv_rest_addr : SocketAddr;
  srv_tls : option (ServerConfig Cert Key * ServerConfig Cert Key) }.

Inductive serve_stopped :=
| ServeDatabaseFailed (msg : string)
| InvalidAddr (msg : string)
| TlsFailed (e : TlsError).

Definition tls_config (config : AppConfig) (alpn : list string) : result serve_stopped (ServerConfig Cert Key) :=
  map_err TlsFailed
    (build_tls_server_config fs_read pem_certs pem_private_key accept_versions accept_cert
       (mk_TlsConfigOptions (cert_path (tls config)) (key_path (tls config)) alpn)).

Definition start_server {F} (config : AppConfig) (factory : F) (auth_state : @AuthState Uuid)
    : result serve_stopped (Server F) :=
  let service := service_with_metrics metrics_default (with_cache_config factory (cache config)) in
  let? grpc_address := map_err InvalidAddr (parse_addr (grpc_addr config)) in
  let? rest_address := map_err InvalidAddr (parse_addr (rest_addr config)) in
  let server := mk_Server F service (to_engine_config config) (to_schema_limits config) auth_state
                  grpc_address rest_address in
  if is_enabled (tls config) then
    let? grpc_tls := tls_config config ["h2"] in
    let? rest_tls := tls_config config ["h2"; "http/1.1"] in
    Ok (server (Some (grpc_tls, rest_tls)))
  else Ok (server None).

(** [PgPoolOptions], durations in seconds. *)
Record PoolOptions := mk_PoolOptions {
  pool_max_connections : Z; pool_min_connections : Z; pool_acquire_timeout : Z;
  pool_idle_timeout : Z; pool_max_lifetime : Z }.

Definition pool_options (d : DatabaseConfig) : PoolOptions :=
  mk_PoolOptions (max_connections d) (min_connections d) (acquire_timeout_seconds d)
    (idle_timeout_seconds d) (max_lifetime_seconds d).

(** [PF] is the type of the PostgreSQL factory, [postgres_factory] its [new] on
    the pool; [repo] is the key repository on the pool. *)
Inductive started (PF : Type) :=
| OnPostgres (options : PoolOptions) (server : Server PF)
| InMemory (server : Server (@FactoryState Uuid _ _)).
Arguments OnPostgres {PF}.
Arguments InMemory {PF}.

Definition run_serve {PF} (postgres_factory : PF) (repo : string → result string (option (@ApiKeyRow Uuid)))
    (nil : Uuid) (config : AppConfig)
    : sql_prog (admin Uuid) (bind_value Uuid) (result serve_stopped (started PF)) :=
  if is_configured (database config) then
    let! _ := ask Connect [] with ServeDatabaseFailed in
    let! _ := run_shared_migrations with ServeDatabaseFailed in
    Ret (let? server := start_server config postgres_factory (with_repository nil repo) in
         Ok (OnPostgres (pool_options (database config)) server))
  else
    Ret (let? server := start_server config factory_new (dev_mode nil) in Ok (InMemory server)).

(** What stands before every gRPC service: the interceptor, then the rpc with the
    tenant it found.  The numbers in [auth_outcome] are those of gRPC's codes. *)
Definition code_of_number (n : Z) : Code := if (n =? 16)%Z then Unauthenticated else InternalError.

Definition grpc_layer {F PasswordHash A} (argon2_parse : string → result string PasswordHash)
    (argon2_verify : string → PasswordHash → bool) (auth_state : @AuthState Uuid)
    (header : option (option string)) (call : option (TenantId Uuid) → @rpc Uuid F SC CC A)
    : @rpc Uuid F SC CC A := λ sv,
  let '(outcome, events) :=
    grpc_auth_interceptor argon2_parse argon2_verify auth_state (mk_AuthRequest EmptyString header) in
  let sv' := log_events events sv in
  match outcome with
  | Next tenant => call tenant sv'
  | Respond status msg => (Err (mk_Status (code_of_number status) msg), sv')
  end.

(** [rest::create_router(..).route("/metrics", get(metrics_handler))]: the route
    is added after the layers, so neither middleware sees it. *)
Inductive rest_answer :=
| MetricsPage (page : Z * list (string * string) * string)
| ApiAnswer (answer : ApiResult).

Section application.
Context {F S : Type}.
Context `{StoreFactory F Uuid S, RelationshipStore S, SchemaStore S}.
Context `{Cache SC (TenantId Uuid) Schema, Cache CC (CheckCacheKey Uuid) bool}.
Context (pest_parse : pest_parser).
Context {Body : Type} (extractors : @Extractors Body) (unrouted : @HttpRequest Body → ApiResult)
        (missing_extension : ApiResult).
Context {PasswordHash : Type} (argon2_parse : string → result string PasswordHash)
        (argon2_verify : string → PasswordHash → bool).
Context (f64_display : f64 → string).

Definition rest_app (server : Server F) (req : HttpRequest) (elapsed : Duration)
    (sv : @AuthzService Uuid F SC CC) : rest_answer * @AuthzService Uuid F SC CC :=
  if bool_decide (http_path req = "/metrics") then
    (match is_get (http_method req), service_metrics sv with
     | true, Some m => MetricsPage (metrics_handler f64_display m)
     | _, _ => ApiAnswer (unrouted req)
     end, sv)
  else
    let '(answer, sv') :=
      rest_serve pest_parse (srv_engine_config _ server) (srv_schema_limits _ server) extractors unrouted
        missing_extension argon2_parse argon2_verify (srv_auth_state _ server) req elapsed sv in
    (ApiAnswer answer, sv').

(** The rpcs of the three services, and their responses. *)
Inductive grpc_request :=
| RpcCheckPermission (req : v1_CheckPermissionRequest)
| RpcExpandPermissionTree (req : v1_ExpandPermissionTreeRequest)
| RpcLookupResources (req : v1_LookupResourcesRequest)
| RpcLookupSubjects (req : v1_LookupSubjectsRequest)
| RpcWriteRelationships (req : v1_WriteRelationshipsRequest)
| RpcReadRelationships (req : v1_ReadRelationshipsRequest)
| RpcWatch
| RpcWriteSchema (req : v1_WriteSchemaRequest)
| RpcReadSchema.

Inductive grpc_response :=
| RepCheckPermission (rep : v1_CheckPermissionResponse)
| RepExpandPermissionTree (rep : v1_ExpandPermissionTreeResponse)
| RepLookupResources (stream : option (list v1_LookupResourcesResponse))
| RepLookupSubjects (stream : option (list v1_LookupSubjectsResponse))
| RepWriteRelationships (rep : v1_WriteRelationshipsResponse)
| RepReadRelationships (rep : v1_ReadRelationshipsResponse)
| RepWatch (stream : Empty_set)
| RepWriteSchema (rep : v1_WriteSchemaResponse)
| RepReadSchema (rep : v1_ReadSchemaResponse).

Abbreviation rpc := (@rpc Uuid F SC CC).

Definition as_response {A} (rep : A → grpc_response) (call : rpc A) : rpc grpc_response := λ sv,
  let '(r, sv') := call sv in (result_map rep r, sv').

(** The services of [start_server], on its service and its settings. *)
Definition grpc_services (server : Server F) (extension : option (TenantId Uuid)) (elapsed : Duration)
    (req : grpc_request) : rpc grpc_response :=
  let config := srv_engine_config _ server in
  match req with
  | RpcCheckPermission r =>
      as_response RepCheckPermission (grpc_check_permission pest_parse config extension elapsed r)
  | RpcExpandPermissionTree r =>
      as_response RepExpandPermissionTree (grpc_expand_permission_tree pest_parse config extension elapsed r)
  | RpcLookupResources r =>
      as_response RepLookupResources (grpc_lookup_resources pest_parse config extension elapsed r)
  | RpcLookupSubjects r =>
      as_response RepLookupSubjects (grpc_lookup_subjects pest_parse config extension elapsed r)
  | RpcWriteRelationships r => as_response RepWriteRelationships (grpc_write_relationships extension elapsed r)
  | RpcReadRelationships r => as_response RepReadRelationships (grpc_read_relationships extension elapsed r)
  | RpcWatch => as_response RepWatch grpc_watch
  | RpcWriteSchema r =>
      as_response RepWriteSchema
        (grpc_write_schema pest_parse (srv_schema_limits _ server) extension elapsed r)
  | RpcReadSchema => as_response RepReadSchema (grpc_read_schema extension elapsed)
  end.

(** Every service is an [InterceptedService] with the same interceptor; the
    health service, which is not, is in [Lifecycle]. *)
Definition grpc_app (server : Server F) (header : option (option string)) (req : grpc_request)
    (elapsed : Duration) : rpc grpc_response :=
  grpc_layer argon2_parse argon2_verify (srv_auth_state _ server) header
    (λ extension, grpc_services server extension elapsed req).

(** What a server gets on its two listeners: an HTTP request, or an rpc with its
    [authorization] metadata. *)
Inductive server_request :=
| OverRest (req : @HttpRequest Body) (elapsed : Duration)
| OverGrpc (header : option (option string)) (req : grpc_request) (elapsed : Duration).

Inductive server_answer :=
| RestAnswer (answer : rest_answer)
| GrpcAnswer (answer : result Status grpc_response).

Definition server_app (server : Server F) (req : server_request) (sv : @AuthzService Uuid F SC CC)
    : server_answer * @AuthzService Uuid F SC CC :=
  match req with
  | OverRest req elapsed =>
      let '(answer, sv') := rest_app server req elapsed sv in (RestAnswer answer, sv')
  | OverGrpc header req elapsed =>
      let '(answer, sv') := grpc_app server header req elapsed sv in (GrpcAnswer answer, sv')
  end.

(** The requests a server gets, one after the other. *)
Fixpoint server_session (server : Server F) (reqs : list server_request)
    (sv : @AuthzService Uuid F SC CC) : list server_answer * @AuthzService Uuid F SC CC :=
  match reqs with
  | [] => ([], sv)
  | req :: reqs' =>
      let '(answer, sv1) := server_app server req sv in
      let '(answers, sv2) := server_session server reqs' sv1 in
      (answer :: answers, sv2)
  end.
End application.

(** ** The command line ([cli.rs], [main]) *)

Inductive Command :=
| Serve
| Migrate
| ProvisionTenant (name : string)
| CreateApiKey (tenant_name : string)
| PurgeRelationships (tenant_name : string) (yes : bool).

Record Cli := mk_Cli { cli_config : option string; cli_command : option Command }.

(** A command prints lines, or a server is started; [AppConfig::load] comes first. *)
Inductive outcome (PF : Type) :=
| LoadFailed (e : ConfigError)
| Printed (r : result (@stopped) (list string))
| Served (r : result serve_stopped (started PF)).
Arguments LoadFailed {PF}.
Arguments Printed {PF}.
Arguments Served {PF}.

Definition sql_map {E V A B} (f : A → B) (p : sql_prog E V A) : sql_prog E V B :=
  sql_bind p (λ a, Ret (f a)).

Definition main (load_config : option string → result ConfigError AppConfig)
    (as_simple uuid_display : Uuid → string) (argon2_hash : string → string → result string string)
    (new_uuid nil : Uuid) (id_indices secret_indices : list nat) (salt : string)
    {PF} (postgres_factory : PF) (repo : string → result string (option (@ApiKeyRow Uuid))) (cli : Cli)
    : sql_prog (admin Uuid) (bind_value Uuid) (outcome PF) :=
  match load_config (cli_config cli) with
  | Err e => Ret (LoadFailed e)
  | Ok config =>
      match cli_command cli with
      | Some Migrate => sql_map Printed (run_migrate config)
      | Some (ProvisionTenant name) =>
          sql_map Printed (run_provision_tenant as_simple uuid_display config new_uuid name)
      | Some (CreateApiKey tenant_name) =>
          sql_map Printed (run_create_api_key argon2_hash config id_indices secret_indices salt tenant_name)
      | Some (PurgeRelationships tenant_name yes) =>
          sql_map Printed (run_purge_relationships config tenant_name yes)
      | Some Serve | None => sql_map Served (run_serve postgres_factory repo nil config)
      end
  end.
End start.
