(* ===== verification/ServeTheorems.v ===== *)
(** * What a started server guarantees

    It has the caches and limits of its configuration.  With a database it
    demands a key for every rpc and every HTTP request but those of its health
    and metrics pages, whatever sequence of requests it gets; only without a
    database is it open, and then its stores are new and in memory.  Half a TLS
    configuration never starts a server in the clear. *)
From stdpp Require Import base tactics list strings gmap pretty.
From S2P Require Import Prelude Tuples Schema Validation Parser Engine Check Expand Storage Memory Cache.
From S2P Require Import Metrics Service ServiceTheorems Numbers Auth Config Rest RestTheorems Grpc Postgres PostgresTheorems.
From S2P Require Import Provision ProvisionTheorems Serve.

(** ** TLS *)

Section tls.
Context {Bytes Cert Key : Type}.
Context (fs_read : string → result string Bytes)
        (pem_certs : Bytes → list (result string Cert))
        (pem_private_key : Bytes → result string (option Key))
        (accept_versions : list tls_version → result string unit)
        (accept_cert : list Cert → Key → result string unit).

(** What settings the listeners get: TLS 1.3 alone, at least one certificate,
    a chain and a key that rustls accepts. *)
Definition tls_settings (c : ServerConfig Cert Key) (protocols : list string) : Prop :=
  versions c = [TLS13] ∧ cert_chain c ≠ [] ∧ alpn c = protocols ∧
  accept_cert (cert_chain c) (key_der c) = Ok tt.

Lemma build_tls_server_config_Ok options c :
  build_tls_server_config fs_read pem_certs pem_private_key accept_versions accept_cert options = Ok c →
  tls_settings c (alpn_protocols options).
Proof.
  unfold build_tls_server_config. intros (cert_data & _ & H)%try_Ok. apply try_Ok in H as (key_data & _ & H).
  apply try_Ok in H as (certs & _ & H). destruct certs as [|cert certs]; [done|].
  apply try_Ok in H as (found & _ & H). apply try_Ok in H as (key & _ & H).
  apply try_Ok in H as ([] & _ & H). apply try_Ok in H as ([] & Ha%map_err_Ok & [= <-]). by split_and!.
Qed.
End tls.

(** ** Requests without a valid key *)

(** Metrics and audit log apart, nothing changed. *)
Definition untouched {Uuid F SC CC} (sv sv' : @AuthzService Uuid F SC CC) : Prop :=
  factory sv' = factory sv ∧ schema_cache sv' = schema_cache sv ∧ check_cache sv' = check_cache sv.

#[export] Instance untouched_preorder {Uuid F SC CC} : PreOrder (@untouched Uuid F SC CC).
Proof.
  split; [by intros sv|].
  intros sv1 sv2 sv3 (Hf & Hs & Hc) (Hf' & Hs' & Hc'). unfold untouched. by rewrite Hf', Hs', Hc'.
Qed.

(** The interceptor lets nobody in without a tenant. *)
Lemma interceptor_tenant {Uuid PasswordHash} (argon2_parse : string → result string PasswordHash)
    argon2_verify (st : @AuthState Uuid) request tenant :
  (grpc_auth_interceptor argon2_parse argon2_verify st request).1 = Next tenant → ∃ t, tenant = Some t.
Proof. unfold grpc_auth_interceptor. intros H. repeat case_match; simplify_eq/=; by eexists. Qed.

Section refused.
Context {Uuid F S SC CC : Type} `{EqU : EqDecision Uuid}.
Context `{StoreFactory F Uuid S, RelationshipStore S, SchemaStore S}.
Context `{Cache SC (TenantId Uuid) Schema, Cache CC (CheckCacheKey Uuid) bool}.
Context {Cert Key SocketAddr : Type}.
Context (pest_parse : pest_parser).
Context {Body : Type} (extractors : @Extractors Body) (unrouted : @HttpRequest Body → ApiResult)
        (missing_extension : ApiResult).
Context {PasswordHash : Type} (argon2_parse : string → result string PasswordHash)
        (argon2_verify : string → PasswordHash → bool).
Context (f64_display : f64 → string).
Context (nil : Uuid) (repo : string → result string (option (@ApiKeyRow Uuid))).

Abbreviation app := (rest_app (Cert := Cert) (Key := Key) (SocketAddr := SocketAddr) pest_parse extractors
  unrouted missing_extension argon2_parse argon2_verify f64_display).
Abbreviation session := (server_session (Cert := Cert) (Key := Key) (SocketAddr := SocketAddr) pest_parse extractors
  unrouted missing_extension argon2_parse argon2_verify f64_display).

(** The [authorization] header or metadata of a request. *)
Definition header_of (req : @server_request Body) : option (option string) :=
  match req with OverRest r _ => authorization (http_auth r) | OverGrpc header _ _ => header end.

(** The header has no key that is valid for a tenant. *)
Definition no_key (header : option (option string)) : Prop :=
  ∀ raw t, header = Some (Some ("Bearer " +:+ raw)) → ¬ valid_key argon2_parse argon2_verify repo raw t.

(** How a request is answered that is not let in: with 401 or 500, unless it is
    for a public page, or with the status of gRPC. *)
Definition rest_refused (req : @HttpRequest Body) (answer : rest_answer) : Prop :=
  skip_auth (http_path req) = false →
  ∃ status body, answer = ApiAnswer (status, body) ∧ (status = 401%Z ∨ status = 500%Z).

Definition refused (req : @server_request Body) (answer : server_answer) : Prop :=
  match req, answer with
  | OverRest r _, RestAnswer a => rest_refused r a
  | OverGrpc _ _ _, GrpcAnswer a =>
      ∃ status, a = Err status ∧ (code status = Unauthenticated ∨ code status = InternalError)
  | _, _ => False
  end.

(** The public routes leave the service alone. *)
Lemma route_public engine_config schema_limits req (sv : @AuthzService Uuid F SC CC) :
  (route_request pest_parse engine_config schema_limits extractors unrouted missing_extension req None sv).2 = sv.
Proof.
  unfold route_request. destruct (create_router _ _ _ _ req) as [[h|h]|] eqn:Hr; [|reflexivity..].
  unfold create_router in Hr. repeat (case_match; simplify_eq; try reflexivity).
Qed.

Lemma rest_serve_without_key engine_config schema_limits req elapsed (sv : @AuthzService Uuid F SC CC) :
  no_key (authorization (http_auth req)) →
  let '(answer, sv') := rest_serve pest_parse engine_config schema_limits extractors unrouted
    missing_extension argon2_parse argon2_verify (with_repository nil repo) req elapsed sv in
  untouched sv sv' ∧ rest_refused req (ApiAnswer answer).
Proof.
  intros Hno. unfold rest_serve, metrics_middleware, auth_layer, rest_refused.
  pose proof (λ t, middleware_valid_key argon2_parse argon2_verify nil repo (http_auth req) t) as Hmw.
  pose proof (auth_middleware_status argon2_parse argon2_verify (with_repository nil repo) (http_auth req)) as Hst.
  assert (skip_auth (http_path req) = true →
    (rest_auth_middleware argon2_parse argon2_verify (with_repository nil repo) (http_auth req)).1 = Next None) as Hskip.
  { intros Hs. unfold rest_auth_middleware. unfold http_path in Hs. by rewrite Hs. }
  destruct (rest_auth_middleware _ _ _ _) as [[[t|]|status msg] events]; cbn [fst] in *.
  - destruct (skip_auth (http_path req)) eqn:Hs; [by specialize (Hskip eq_refl)|].
    destruct (proj1 (proj1 (Hmw t Hs)) eq_refl) as (raw & Hraw & Hv). by destruct (Hno raw t).
  - pose proof (route_public engine_config schema_limits req (log_events events (update_metrics record_request sv))) as Hr.
    destruct (route_request _ _ _ _ _ _ _ _ _) as [answer sv']. simpl in Hr. subst sv'. split.
    + by destruct (method_name req).
    + intros Hs. by destruct (Hmw (mk_TenantId nil) Hs) as (_ & _ & Hn).
  - split; [by destruct (method_name req)|]. intros _. eexists _, _. split; [done|]. by eapply Hst.
Qed.

Lemma rest_app_without_key (server : Server F) req elapsed sv :
  srv_auth_state _ server = with_repository nil repo → no_key (authorization (http_auth req)) →
  let '(answer, sv') := app server req elapsed sv in untouched sv sv' ∧ rest_refused req answer.
Proof.
  intros Hauth Hno. unfold rest_app. case_bool_decide as Hp.
  - split; [done|]. unfold rest_refused, skip_auth. by rewrite Hp.
  - rewrite Hauth. pose proof (rest_serve_without_key (srv_engine_config _ server) (srv_schema_limits _ server)
      req elapsed sv Hno) as Hs. by destruct (rest_serve _ _ _ _ _ _ _ _ _ _ _ _).
Qed.

(** An rpc without a key never reaches its service. *)
Lemma grpc_app_without_key (server : Server F) header req elapsed (sv : @AuthzService Uuid F SC CC) :
  srv_auth_state _ server = with_repository nil repo → no_key header →
  let '(answer, sv') := grpc_app (Cert := Cert) (Key := Key) (SocketAddr := SocketAddr) pest_parse argon2_parse
    argon2_verify server header req elapsed sv in
  untouched sv sv' ∧ ∃ status, answer = Err status ∧ (code status = Unauthenticated ∨ code status = InternalError).
Proof.
  intros Hauth Hno. unfold grpc_app, grpc_layer. rewrite Hauth.
  set (request := mk_AuthRequest EmptyString header).
  pose proof (λ t, middleware_valid_key argon2_parse argon2_verify nil repo request t eq_refl) as Hmw.
  pose proof (interceptor_tenant argon2_parse argon2_verify (with_repository nil repo) request) as Htenant.
  destruct (grpc_auth_interceptor _ _ _ request) as [[tenant|status msg] events]; cbn [fst] in *.
  - destruct (Htenant tenant eq_refl) as [t ->].
    destruct (proj1 (proj1 (proj2 (Hmw t))) eq_refl) as (raw & Hraw & Hv). by destruct (Hno raw t).
  - split; [done|]. eexists. split; [done|]. cbn [code]. unfold code_of_number. case_match; auto.
Qed.

Lemma server_session_without_key (server : Server F) reqs sv :
  srv_auth_state _ server = with_repository nil repo → Forall (λ r, no_key (header_of r)) reqs →
  let '(answers, sv') := session server reqs sv in
  untouched sv sv' ∧ Forall2 refused reqs answers.
Proof.
  intros Hauth Hreqs. revert sv. induction Hreqs as [|req reqs Hno _ IH]; intros sv; cbn [server_session]; [done|].
  assert (let '(answer, sv') := server_app pest_parse extractors unrouted missing_extension argon2_parse
    argon2_verify f64_display server req sv in untouched sv sv' ∧ refused req answer) as Happ.
  { destruct req as [req elapsed|header req elapsed]; cbn [server_app].
    - pose proof (rest_app_without_key server req elapsed sv Hauth Hno) as Happ.
      by destruct (app server req elapsed sv).
    - pose proof (grpc_app_without_key server header req elapsed sv Hauth Hno) as Happ.
      by destruct (grpc_app _ _ _ server header req elapsed sv). }
  destruct (server_app _ _ _ _ _ _ _ server req sv) as [answer sv1]. destruct Happ as [Hsv1 Ha].
  specialize (IH sv1). destruct (session server reqs sv1) as [answers sv2]. destruct IH as [Hsv2 Has].
  split; [by etrans|]. by constructor.
Qed.
End refused.

(** ** The start *)

Section start.
Context {Uuid SC CC : Type} `{EqU : EqDecision Uuid} `{CntU : !Countable Uuid}.
Context (build_schema_cache : Z → Z → SC) (build_check_cache : Z → Z → CC).
Context {Bytes Cert Key SocketAddr : Type}.
Context (fs_read : string → result string Bytes)
        (pem_certs : Bytes → list (result string Cert))
        (pem_private_key : Bytes → result string (option Key))
        (accept_versions : list tls_version → result string unit)
        (accept_cert : list Cert → Key → result string unit)
        (parse_addr : string → result string SocketAddr).

(** A server as its configuration says: the stores, caches and settings of its
    service, which starts with metrics and empty logs, who may use it, its
    addresses and the TLS of its listeners. *)
Record server_of {F} (config : AppConfig) (f : F) (auth : @AuthState Uuid)
    (server : Server (Uuid := Uuid) (SC := SC) (CC := CC) (Cert := Cert) (Key := Key) (SocketAddr := SocketAddr) F) : Prop := {
  so_auth : srv_auth_state _ server = auth;
  so_engine : srv_engine_config _ server = to_engine_config config;
  so_limits : srv_schema_limits _ server = to_schema_limits config;
  so_factory : factory (srv_service _ server) = f;
  so_schema_cache : schema_cache (srv_service _ server) =
    build_schema_cache (schema_cache_capacity (cache config)) (schema_cache_ttl_seconds (cache config));
  so_check_cache : check_cache (srv_service _ server) =
    build_check_cache (check_cache_capacity (cache config)) (check_cache_ttl_seconds (cache config));
  so_metrics : service_metrics (srv_service _ server) = Some metrics_default;
  so_audit : audit_log (srv_service _ server) = [];
  so_grpc_addr : parse_addr (grpc_addr config) = Ok (srv_grpc_addr _ server);
  so_rest_addr : parse_addr (rest_addr config) = Ok (srv_rest_addr _ server);
  so_tls : match srv_tls _ server with
    | None => cert_path (tls config) = EmptyString ∧ key_path (tls config) = EmptyString
    | Some (grpc_tls, rest_tls) =>
        tls_settings accept_cert grpc_tls ["h2"] ∧ tls_settings accept_cert rest_tls ["h2"; "http/1.1"]
    end }.

(** Why a start stops. *)
Definition stop_reason (config : AppConfig) (e : serve_stopped) : Prop :=
  match e with
  | ServeDatabaseFailed _ => url (database config) ≠ EmptyString
  | InvalidAddr m => parse_addr (grpc_addr config) = Err m ∨ parse_addr (rest_addr config) = Err m
  | TlsFailed e => cert_path (tls config) ≠ EmptyString ∧ key_path (tls config) ≠ EmptyString ∧
      ∃ protocols, build_tls_server_config fs_read pem_certs pem_private_key accept_versions accept_cert
        (mk_TlsConfigOptions (cert_path (tls config)) (key_path (tls config)) protocols) = Err e
  end.

Lemma is_enabled_true t : is_enabled t = true ↔ cert_path t ≠ EmptyString ∧ key_path t ≠ EmptyString.
Proof. unfold is_enabled, is_empty. rewrite andb_true_iff, !negb_true_iff, !bool_decide_eq_false. done. Qed.

Lemma start_server_spec {F} config (f : F) auth :
  valid_config config →
  match start_server build_schema_cache build_check_cache fs_read pem_certs pem_private_key accept_versions
          accept_cert parse_addr config f auth with
  | Ok server => server_of config f auth server
  | Err e => stop_reason config e
  end.
Proof.
  intros Hvalid. unfold start_server, tls_config.
  destruct (parse_addr (grpc_addr config)) as [g|m] eqn:Hg; cbn [map_err try]; [|by left].
  destruct (parse_addr (rest_addr config)) as [r|m] eqn:Hr; cbn [map_err try]; [|by right].
  destruct (is_enabled (tls config)) eqn:He.
  - pose proof (proj1 (is_enabled_true _) He) as [Hc Hk].
    destruct (build_tls_server_config _ _ _ _ _ (mk_TlsConfigOptions _ _ ["h2"])) as [gt|e] eqn:Hgt; cbn [map_err try];
      [|split_and!; [done..|by eexists]].
    destruct (build_tls_server_config _ _ _ _ _ (mk_TlsConfigOptions _ _ ["h2"; "http/1.1"])) as [rt|e] eqn:Hrt;
      cbn [map_err try]; [|split_and!; [done..|by eexists]].
    apply build_tls_server_config_Ok in Hgt, Hrt. by split.
  - split; try done. cbn [srv_tls]. pose proof (vc_tls config Hvalid) as Htls.
    apply not_true_iff_false in He. rewrite is_enabled_true in He.
    destruct (decide (cert_path (tls config) = EmptyString)); [|destruct (decide (key_path (tls config) = EmptyString))]; naive_solver.
Qed.
End start.

Section serve.
Context {Uuid SC CC : Type} `{EqU : EqDecision Uuid} `{CntU : !Countable Uuid}.
Context {PF PS : Type} `{StoreFactory PF Uuid PS, RelationshipStore PS, SchemaStore PS}.
Context `{Cache SC (TenantId Uuid) Schema, Cache CC (CheckCacheKey Uuid) bool}.
Context (build_schema_cache : Z → Z → SC) (build_check_cache : Z → Z → CC).
Context {Bytes Cert Key SocketAddr : Type}.
Context (fs_read : string → result string Bytes)
        (pem_certs : Bytes → list (result string Cert))
        (pem_private_key : Bytes → result string (option Key))
        (accept_versions : list tls_version → result string unit)
        (accept_cert : list Cert → Key → result string unit)
        (parse_addr : string → result string SocketAddr).
Context (pest_parse : pest_parser).
Context {Body : Type} (extractors : @Extractors Body) (unrouted : @HttpRequest Body → ApiResult)
        (missing_extension : ApiResult).
Context {PasswordHash : Type} (argon2_parse : string → result string PasswordHash)
        (argon2_verify : string → PasswordHash → bool).
Context (f64_display : f64 → string).

Abbreviation starting := (run_serve build_schema_cache build_check_cache fs_read pem_certs pem_private_key
  accept_versions accept_cert parse_addr).
Abbreviation as_configured := (server_of build_schema_cache build_check_cache accept_cert parse_addr).

(** C21: The server that starts is the one the loaded configuration asks for:
    the service on its stores, with caches of the configured capacities and
    times, the engine's and the schema's limits, metrics and an empty log; and
    it starts unless a reason is reported.  With a database it demands keys: in
    any sequence of requests to its REST and gRPC APIs that carry no valid key,
    every HTTP request outside [/healthz] and [/metrics] is answered 401 or 500,
    every rpc of its three services with Unauthenticated or Internal, and no store and no cache
    changes.  Only without a database it runs in dev mode, on new stores in
    memory.  It listens in the clear only if no TLS path is set at all.
    Starting changes no tenant, key or relationship. *)
Theorem serve_as_configured db parse_f64 read_to_string from_toml env path config
    (postgres_factory : PF) repo nil w res w' :
  (∀ R (st : admin Uuid R) params w r w', db R st params w r w' → admin_documented st params w r w') →
  load parse_f64 read_to_string from_toml env path = Ok config →
  runs db (starting postgres_factory repo nil config) w res w' →
  w' = w ∧
  match res with
  | Ok (OnPostgres _ options server) =>
      url (database config) ≠ EmptyString ∧ options = pool_options (database config) ∧
      as_configured config postgres_factory (with_repository nil repo) server ∧
      ∀ reqs sv, Forall (λ r, no_key argon2_parse argon2_verify repo (header_of r)) reqs →
        let '(answers, sv') := server_session pest_parse extractors unrouted missing_extension argon2_parse
          argon2_verify f64_display server reqs sv in
        untouched sv sv' ∧ Forall2 refused reqs answers
  | Ok (InMemory _ server) =>
      url (database config) = EmptyString ∧ as_configured config factory_new (dev_mode nil) server
  | Err e => stop_reason fs_read pem_certs pem_private_key accept_versions accept_cert parse_addr config e
  end.
Proof.
  intros Hdb (base & _ & _ & Hvalid)%load_Ok Hrun. unfold run_serve, is_configured, is_empty in Hrun.
  case_bool_decide as Hurl; cbn [negb] in Hrun.
  - destruct Hrun as [-> ->]. split; [done|].
    pose proof (start_server_spec build_schema_cache build_check_cache fs_read pem_certs pem_private_key
      accept_versions accept_cert parse_addr config (factory_new : @FactoryState Uuid _ _) (dev_mode nil) Hvalid) as Hs.
    destruct (start_server _ _ _ _ _ _ _ _ _ _ _) as [server|e]; cbn [try]; [by split|done].
  - apply runs_try in Hrun as (r1 & w1 & Hq & Hrun). apply (runs_ask db Hdb) in Hq.
    destruct r1 as [[]|m]; simpl in Hq; subst w1; [|by destruct Hrun as [-> ->]].
    apply runs_try in Hrun as (r2 & w2 & Hq2 & Hrun). apply (execute_all_unchanged db Hdb) in Hq2 as ->; [|reflexivity].
    destruct r2 as [[]|m]; destruct Hrun as [-> ->]; split; [done| |done..].
    pose proof (start_server_spec build_schema_cache build_check_cache fs_read pem_certs pem_private_key
      accept_versions accept_cert parse_addr config postgres_factory (with_repository nil repo) Hvalid) as Hs.
    destruct (start_server _ _ _ _ _ _ _ _ _ _ _) as [server|e]; cbn [try]; [|done].
    split_and!; [done..|]. intros reqs sv Hreqs.
    eapply server_session_without_key; [by destruct Hs|done].
Qed.
End serve.

(** ** An example *)

(** A PEM file is [c], [k], or both; an address is any text. *)
Definition toy_read (path : string) : result string string := Ok path.
Definition toy_certs (data : string) : list (result string nat) :=
  if bool_decide (data = "cert.pem") then [Ok 1] else [].
Definition toy_private_key (data : string) : result string (option nat) :=
  Ok (if bool_decide (data = "key.pem") then Some 2 else None).

Definition demo_env (key : string) : option string :=
  if bool_decide (key = "KRAALZIBAR_DATABASE_URL") then Some "postgresql://localhost/kraalzibar"
  else if bool_decide (key = "KRAALZIBAR_TLS_CERT_PATH") then Some "cert.pem"
  else if bool_decide (key = "KRAALZIBAR_TLS_KEY_PATH") then Some "key.pem"
  else None.

Definition serve_config : AppConfig :=
  mk_AppConfig grpc_default rest_default
    (mk_DatabaseConfig "postgresql://localhost/kraalzibar" 10 0 30 600 1800) engine_default
    schema_limits_default log_default cache_default tracing_default (mk_TlsConfig "cert.pem" "key.pem").

Definition demo_start :=
  run_serve (λ _ _, ∅ : gmap (TenantId positive) Schema) (λ _ _, ∅ : gmap (CheckCacheKey positive) bool)
    toy_read toy_certs toy_private_key (λ _, Ok tt) (λ _ _, Ok tt) (Ok (E := string) (A := string))
    (factory_new : @FactoryState positive _ _) acme_repo 1%positive.

Definition empty_world : World positive := mk_World [] [] ∅.

(** A check with a wrong key over HTTP, and a reading of the schema without one
    over gRPC. *)
Definition demo_requests : list server_request :=
  [OverRest (http_check "guess" alice_check) (mk_Duration 0 1000);
   OverGrpc None RpcReadSchema (mk_Duration 0 1000)].

Lemma serve_as_configured_witness :
  ∃ server, run_command (demo_start serve_config) empty_world =
      (Ok (OnPostgres _ (mk_PoolOptions 10 0 30 600 1800) server), empty_world) ∧
    srv_rest_addr _ server = "0.0.0.0:8080" ∧
    match srv_tls _ server with Some (_, rest_tls) => alpn rest_tls = ["h2"; "http/1.1"] | None => False end ∧
    let '(answers, sv') := server_session two_texts check_bodies (λ _, (404%Z, JNull)) (500%Z, JNull) toy_parse
      toy_verify (λ _, EmptyString) server demo_requests folder_service in
    untouched folder_service sv' ∧ Forall2 refused demo_requests answers.
Proof.
  assert (∃ server, run_command (demo_start serve_config) empty_world =
    (Ok (OnPostgres _ (mk_PoolOptions 10 0 30 600 1800) server), empty_world) ∧
    srv_rest_addr _ server = "0.0.0.0:8080") as (server & Hrun & Haddr).
  { eexists. split; [vm_compute; reflexivity|reflexivity]. }
  exists server. split; [exact Hrun|]. split; [exact Haddr|].
  destruct (serve_as_configured (λ _ _, ∅ : gmap (TenantId positive) Schema)
    (λ _ _, ∅ : gmap (CheckCacheKey positive) bool) toy_read toy_certs toy_private_key (λ _, Ok tt)
    (λ _ _, Ok tt) (Ok (E := string) (A := string)) two_texts check_bodies (λ _, (404%Z, JNull)) (500%Z, JNull)
    toy_parse toy_verify (λ _, EmptyString) admin_db (λ _, None) (λ _, Err EmptyString) (λ _, Err EmptyString)
    demo_env None serve_config (factory_new : @FactoryState positive _ _) acme_repo 1%positive empty_world
    (Ok (OnPostgres _ (mk_PoolOptions 10 0 30 600 1800) server)) empty_world)
    as (_ & _ & _ & Hserver & Hsession).
  - apply admin_db_documented.
  - vm_compute. reflexivity.
  - by apply run_command_runs.
  - split.
    + pose proof (so_tls _ _ _ _ _ _ _ _ Hserver) as Htls. destruct (srv_tls _ server) as [[g r]|]; [apply Htls|].
      by destruct Htls as [Hc _].
    + apply Hsession. constructor; [|constructor; [by intros raw t Hraw|constructor]].
      intros raw t Hraw (kid & secret & row & parsed & Hp & _).
      assert (raw = "guess") as ->
        by (apply (inj (String.append "Bearer ")); cbn [header_of http_check http_auth authorization] in Hraw; congruence).
      vm_compute in Hp. discriminate.
Defined.
