(* ===== verification/Lifecycle.v ===== *)
(** * Logging, and a server from listening to its end ([telemetry.rs], [health.rs], [main.rs])

    What a process logs with, the connections the gRPC listener is given under
    TLS, and the two servers that run until a signal or a failure ends them,
    as a step relation.  tonic, axum, tokio's signals and the tracing crates are
    parameters; [Listener] says what the source relies on in a server. *)
From Stdlib Require Import SpecFloat.
From stdpp Require Import base tactics list strings gmap relations.
From S2P Require Import Prelude Engine Numbers Metrics Auth Config Provision Serve.

(** ** Logging *)

Inductive log_severity := INFO | WARN | ERROR.
Record LogLine := mk_LogLine { severity : log_severity; message : string; error_field : option string }.
Definition info (m : string) : LogLine := mk_LogLine INFO m None.
Definition warn (m e : string) : LogLine := mk_LogLine WARN m (Some e).
Definition error (m e : string) : LogLine := mk_LogLine ERROR m (Some e).

Section logging.
(** The OpenTelemetry pipeline: [install_batch] with the endpoint of the
    exporter, the sampling ratio and the service name; [provider.tracer(name)];
    the filters of tracing_subscriber. *)
Context {TracerProvider Tracer EnvFilter : Type}.
Context (install_batch : string → f64 → string → result string TracerProvider)
        (tracer : TracerProvider → string → Tracer)
        (filter_from_default_env : result string EnvFilter)
        (filter_new : string → EnvFilter).

(** [Err] is the panic of [expect]. *)
Definition init_telemetry (config : TracingConfig) : result string (option TracerProvider) :=
  if negb (tracing_enabled config) then Ok None
  else
    let? provider := map_err (λ e, "failed to install OpenTelemetry tracer: " +:+ e)
      (install_batch (otlp_endpoint config) (sample_rate config) (service_name config)) in
    Ok (Some provider).

(** The layers of a subscriber. *)
Inductive Layer :=
| OtelLayer (t : Tracer)
| FilterLayer (f : EnvFilter)
| FmtJson
| FmtPretty.

Definition make_otel_layer (provider : TracerProvider) : Layer := OtelLayer (tracer provider "kraalzibar").

(** The layers from the bottom to the top, and what is logged through them;
    [telemetry] says whether the feature was compiled in.  [registry.with] of
    no layer is the registry. *)
Definition init_logging (telemetry : bool) (config : AppConfig) : result string (list Layer * list LogLine) :=
  let filter :=
    match filter_from_default_env with Ok f => f | Err _ => filter_new (log_level (log config)) end in
  let? otel_provider := if telemetry then init_telemetry (tracing config) else Ok None in
  let otel_layer := make_otel_layer <$> otel_provider in
  let registry := match otel_layer with Some layer => [layer] | None => [] end ++ [FilterLayer filter] in
  let fmt_layer := match log_format (log config) with Json => FmtJson | Pretty => FmtPretty end in
  Ok (registry ++ [fmt_layer], match otel_provider with Some _ => [info "OpenTelemetry tracing enabled"] | None => [] end).
End logging.

(** ** The health service ([health.rs]) *)

Inductive ServingStatus := UnknownStatus | ServingNow | NotServing.

(** [tonic_health]: the reporter with its server, and the status it keeps for a
    service name. *)
Class HealthReporter (H : Type) := {
  health_reporter : H;
  set_service_status : string → ServingStatus → H → H;
  status_of : H → string → option ServingStatus }.

Definition create_health_service {H} `{HealthReporter H} : H := health_reporter.

(** [set_serving::<HealthServer<HealthService>>()]: the only name that is set,
    once, before the server listens. *)
Definition started_health {H} `{HealthReporter H} : H :=
  set_service_status "grpc.health.v1.Health" ServingNow create_health_service.

(** ** The connections of the gRPC listener under TLS *)

Section connections.
Context {Tcp TlsStream : Type}.

(** What comes of [acceptor.accept(tcp).await]; a peer that sends nothing keeps
    it waiting. *)
Inductive handshake := Completes (s : TlsStream) | HandshakeFails (e : string) | Stalls.
Context (accept : Tcp → handshake).

(** [tcp_stream.then(..).filter_map(|x| x)]: [then] awaits the future of one
    connection before it asks for the next. *)
Fixpoint incoming (conns : list (result string Tcp)) : list TlsStream * list LogLine :=
  match conns with
  | [] => ([], [])
  | Ok tcp :: conns' =>
      match accept tcp with
      | Completes s => let '(streams, lines) := incoming conns' in (s :: streams, lines)
      | HandshakeFails e =>
          let '(streams, lines) := incoming conns' in (streams, warn "gRPC TLS handshake failed" e :: lines)
      | Stalls => ([], [])
      end
  | Err e :: conns' =>
      let '(streams, lines) := incoming conns' in (streams, error "gRPC TCP accept failed" e :: lines)
  end.
End connections.
Arguments handshake : clear implicits.

(** ** Servers that are told to stop *)

(** A server as a future: what it does on its own, the request to shut down
    gracefully -- with the seconds it may take, if any --, its output once it is
    complete, and how many requests it has accepted and not answered. *)
Class Listener (L : Type) := {
  moves : L → L → Prop;
  told : option Z → L → L;
  shutdown_told : L → option (option Z);
  finished : L → option (result string unit);
  open_requests : L → nat }.

(** What tonic, axum and axum-server document: a server completes before it is
    told to only with an error; one told to shut down without a limit completes
    without an error only when its last request is answered; being told changes
    neither the requests nor a later word. *)
Class GracefulListener (L : Type) `{Listener L} : Prop := {
  serves_until_told l r : finished l = Some r → shutdown_told l = None → ∃ e, r = Err e;
  drains l : finished l = Some (Ok tt) → shutdown_told l = Some None → open_requests l = 0;
  told_records l limit : shutdown_told (told limit l) = Some limit;
  told_keeps_requests l limit : open_requests (told limit l) = open_requests l;
  moves_keep_told l l' : moves l l' → shutdown_told l' = shutdown_told l }.

Inductive Signal := SIGINT | SIGTERM.
#[export] Instance Signal_eq_dec : EqDecision Signal.
Proof. solve_decision. Defined.

Section run.
Context {G R : Type} `{Listener G, Listener R}.

(** [start_server] once both servers exist: the two futures, the signals the
    process has a handler for, the ones that arrived, whether
    [shutdown_signal] has completed (and with it the watch channel been
    written), whether the receiver for REST has seen that, and the log. *)
Record Process := mk_Process {
  grpc_server : G; rest_server : R; handlers : list Signal; pending : list Signal;
  signalled : option Signal; noticed : bool; lines : list LogLine }.

Inductive ProcessState :=
| Running (p : Process)
| Returned (p : Process) (r : result string unit)
| Killed (p : Process) (s : Signal).

Definition received (s : Signal) : LogLine :=
  match s with SIGINT => info "received SIGINT" | SIGTERM => info "received SIGTERM" end.

Definition with_lines (p : Process) (more : list LogLine) : Process :=
  mk_Process (grpc_server p) (rest_server p) (handlers p) (pending p) (signalled p) (noticed p) (lines p ++ more).
Definition with_grpc (p : Process) (g : G) : Process :=
  mk_Process g (rest_server p) (handlers p) (pending p) (signalled p) (noticed p) (lines p).
Definition with_rest (p : Process) (r : R) : Process :=
  mk_Process (grpc_server p) r (handlers p) (pending p) (signalled p) (noticed p) (lines p).
Definition with_handlers (p : Process) (hs : list Signal) : Process :=
  mk_Process (grpc_server p) (rest_server p) hs (pending p) (signalled p) (noticed p) (lines p).

(** [shutdown_signal] up to its first await: SIGTERM may not be had.  tokio
    keeps a handler once it is set. *)
Definition register (terminate : result string unit) (p : Process) : Process :=
  match terminate with
  | Ok _ => with_handlers p [SIGTERM; SIGINT]
  | Err e =>
      with_lines (with_handlers p [SIGINT])
        [warn "failed to register SIGTERM handler, using SIGINT only" e]
  end.

(** The operating system delivers a signal: without a handler it is the end. *)
Definition deliver (s : Signal) (p : Process) : ProcessState :=
  if bool_decide (s ∈ handlers p) then
    Running (mk_Process (grpc_server p) (rest_server p) (handlers p) (pending p ++ [s]) (signalled p) (noticed p) (lines p))
  else Killed p s.

(** The rest of [shutdown_signal], which runs inside the gRPC server: a branch
    of its [select!], the message to the REST server, and its completion. *)
Definition shutdown_signal (s : Signal) (p : Process) : Process :=
  with_lines
    (mk_Process (told None (grpc_server p)) (rest_server p) (handlers p) (pending p) (Some s) (noticed p) (lines p))
    [received s].

(** [rx.changed()] and what follows it; [limit] is what [graceful_shutdown] gets. *)
Definition notice (limit : option Z) (p : Process) : Process :=
  mk_Process (grpc_server p) (told limit (rest_server p)) (handlers p) (pending p) (signalled p) true (lines p).

(** A branch of the [select!] over the servers: the other future is dropped. *)
Definition select_branch (failure : string) (output : result string unit) (p : Process) : ProcessState :=
  let p := match output with Err e => with_lines p [error failure e] | Ok _ => p end in
  Returned (with_lines p [info "server shut down gracefully"]) (Ok tt).

(** A future that has completed is not polled again. *)
Inductive process_step (limit : option Z) : ProcessState → ProcessState → Prop :=
| process_step_grpc p g' :
    finished (grpc_server p) = None → moves (grpc_server p) g' →
    process_step limit (Running p) (Running (with_grpc p g'))
| process_step_rest p r' :
    finished (rest_server p) = None → moves (rest_server p) r' →
    process_step limit (Running p) (Running (with_rest p r'))
| process_step_register p terminate :
    handlers p = [] → process_step limit (Running p) (Running (register terminate p))
| process_step_deliver p s : process_step limit (Running p) (deliver s p)
| process_step_signal p s :
    s ∈ pending p → signalled p = None → finished (grpc_server p) = None →
    process_step limit (Running p) (Running (shutdown_signal s p))
| process_step_notice p s :
    signalled p = Some s → noticed p = false → process_step limit (Running p) (Running (notice limit p))
| process_step_grpc_done p output :
    finished (grpc_server p) = Some output →
    process_step limit (Running p) (select_branch "gRPC server error" output p)
| process_step_rest_done p output :
    finished (rest_server p) = Some output →
    process_step limit (Running p) (select_branch "REST server error" output p).

(** *** Listening *)

Context {Uuid F SC CC Cert Key SocketAddr Bound : Type}.
(** [TcpListener::bind]; the servers: gRPC at an address or on connections
    from a bound listener, REST on a bound listener or at an address with TLS. *)
Context (bind : SocketAddr → result string Bound)
        (grpc_serve : SocketAddr → G) (grpc_serve_incoming : ServerConfig Cert Key → Bound → G)
        (rest_serve_on : Bound → R) (rest_bind_rustls : SocketAddr → ServerConfig Cert Key → R).

(** The servers [start_server] runs, with the limit of the REST shutdown. *)
Definition listen
    (server : Server (Uuid := Uuid) (SC := SC) (CC := CC) (Cert := Cert) (Key := Key) (SocketAddr := SocketAddr) F)
    : result string (Process * option Z) :=
  match srv_tls _ server with
  | Some (grpc_tls, rest_tls) =>
      let lines := [info "gRPC server listening (TLS 1.3)"; info "REST server listening (TLS 1.3)"] in
      let? tcp_listener := bind (srv_grpc_addr _ server) in
      Ok (mk_Process (grpc_serve_incoming grpc_tls tcp_listener) (rest_bind_rustls (srv_rest_addr _ server) rest_tls)
            [] [] None false lines, Some 10%Z)
  | None =>
      let lines := [info "gRPC server listening"; info "REST server listening"] in
      let? rest_listener := bind (srv_rest_addr _ server) in
      Ok (mk_Process (grpc_serve (srv_grpc_addr _ server)) (rest_serve_on rest_listener) [] [] None false lines, None)
  end.
End run.
Arguments Process : clear implicits.
Arguments ProcessState : clear implicits.
Arguments mk_Process {G R}.
Arguments Running {G R}.
Arguments Returned {G R}.
Arguments Killed {G R}.
