(* ===== verification/LifecycleTheorems.v ===== *)
(** * How a server ends

    Once it listens a server ends only for a signal or the failure of one of
    its servers, always with the same last line and without an error.  After a
    signal the server that completed first has answered its requests, the REST
    server under TLS apart, which has a time limit; the open requests of the
    other are dropped with it.  In a fair run a signal is followed by an end. *)
From stdpp Require Import base tactics list strings relations.
From S2P Require Import Prelude Engine Validation Service Numbers Auth Config Serve Lifecycle.

(** ** The connections under TLS *)

Section connections.
Context {Tcp TlsStream : Type} (accept : Tcp → handshake TlsStream).

Definition stalled (conn : result string Tcp) : bool :=
  match conn with Ok tcp => match accept tcp with Stalls => true | _ => false end | Err _ => false end.

Definition established (conn : result string Tcp) : option TlsStream :=
  match conn with Ok tcp => match accept tcp with Completes s => Some s | _ => None end | Err _ => None end.

Definition refusal (conn : result string Tcp) : option LogLine :=
  match conn with
  | Ok tcp => match accept tcp with HandshakeFails e => Some (warn "gRPC TLS handshake failed" e) | _ => None end
  | Err e => Some (error "gRPC TCP accept failed" e)
  end.

(** The gRPC server gets the connections whose handshake completes and a line
    is logged for each that fails -- of those before the first peer that keeps
    its handshake waiting: nothing after it is ever served. *)
Lemma incoming_until_stalled before rest :
  Forall (λ c, stalled c = false) before → match rest with [] => true | c :: _ => stalled c end = true →
  incoming accept (before ++ rest) = (omap established before, omap refusal before).
Proof.
  intros Hb Hr. induction Hb as [|[tcp|e] before Hc _ IH].
  - destruct rest as [|[tcp|e] rest]; [done| |done]. simpl in *. by destruct (accept tcp).
  - cbn [app incoming omap list_omap established refusal]. rewrite IH. simpl in Hc. by destruct (accept tcp).
  - cbn [app incoming omap list_omap established refusal]. by rewrite IH.
Qed.
End connections.

(** ** The run of a process *)

Section run.
Context {G R : Type} `{GracefulListener G, GracefulListener R}.
Context (limit : option Z).

(** What holds as long as the process runs. *)
Record consistent (p : Process G R) : Prop := {
  con_grpc : shutdown_told (grpc_server p) = match signalled p with Some _ => Some None | None => None end;
  con_rest : shutdown_told (rest_server p) = if noticed p then Some limit else None;
  con_noticed : noticed p = true → is_Some (signalled p);
  con_signalled : ∀ s, signalled p = Some s → s ∈ pending p ∧ received s ∈ lines p;
  con_handlers : ∀ s, s ∈ pending p → s ∈ handlers p }.

(** Why it ended, and what was still open. *)
Definition ended_by (p : Process G R) : Prop :=
  (∃ e, error "gRPC server error" e ∈ lines p ∧ finished (grpc_server p) = Some (Err e)) ∨
  (∃ e, error "REST server error" e ∈ lines p ∧ finished (rest_server p) = Some (Err e)) ∨
  (∃ s, signalled p = Some s ∧ s ∈ pending p ∧ received s ∈ lines p ∧
    (finished (grpc_server p) = Some (Ok tt) ∧ open_requests (grpc_server p) = 0 ∨
     finished (rest_server p) = Some (Ok tt) ∧ noticed p = true ∧
       (limit = None → open_requests (rest_server p) = 0))).

Definition state_ok (st : ProcessState G R) : Prop :=
  match st with
  | Running p => consistent p
  | Killed p s => s ∉ handlers p
  | Returned p r => r = Ok tt ∧ last (lines p) = Some (info "server shut down gracefully") ∧ ended_by p
  end.

Lemma select_branch_ok failure output (p : Process G R) :
  ended_by (match output with Err e => with_lines p [error failure e] | Ok _ => p end) →
  state_ok (select_branch failure output p).
Proof.
  intros Hend. unfold select_branch. set (q := match output with Err e => _ | Ok _ => p end) in *. clearbody q.
  split; [done|]. split; [cbn [lines with_lines]; by rewrite last_snoc|].
  unfold ended_by in *. cbn [lines with_lines grpc_server rest_server signalled pending noticed].
  destruct Hend as [(e & He & ?)|[(e & He & ?)|(s & ? & ? & Hl & ?)]];
    [left; exists e|right; left; exists e|right; right; exists s]; set_solver.
Qed.

Lemma step_ok (st st' : ProcessState G R) : process_step limit st st' → state_ok st → state_ok st'.
Proof.
  destruct 1 as [p g' _ Hm|p r' _ Hm|p t Hh|p s|p s Hs Hn Hf|p s Hs Hn|p output Hf|p output Hf]; intros Hok.
  - destruct Hok as [Hg Hr Hn Hs Hh]. split; [|done..]. cbn [grpc_server with_grpc]. by rewrite (moves_keep_told _ _ Hm).
  - destruct Hok as [Hg Hr Hn Hs Hh]. split; [done| |done..]. cbn [rest_server with_rest]. by rewrite (moves_keep_told _ _ Hm).
  - destruct Hok as [Hg Hr Hn Hs Hp]. rewrite Hh in Hp. destruct t as [u|e]; split; try done; cbn; intros s Hin;
      [by apply Hp, elem_of_nil in Hin| |by apply Hp, elem_of_nil in Hin].
    apply Hs in Hin as [? ?]. set_solver.
  - destruct Hok as [Hg Hr Hn Hs Hh]. unfold deliver. case_bool_decide as Hd; [|done]. split; try done; cbn.
    + intros s' ?%Hs. set_solver.
    + intros s' Hin. set_solver.
  - destruct Hok as [Hg Hr Hno Hsi Hh]. split; cbn; [by rewrite told_records|done|by eexists| |done].
    intros s' [= <-]. set_solver.
  - destruct Hok as [Hg Hr Hno Hsi Hh]. split; cbn; [done|by rewrite told_records|by rewrite Hs|done|done].
  - apply select_branch_ok. destruct Hok as [Hg Hr Hno Hsi Hh]. destruct output as [[]|e].
    + destruct (signalled p) as [s|] eqn:Hs.
      * right; right. destruct (Hsi s eq_refl). exists s. split_and!; [done..|]. left. split; [done|]. by apply drains.
      * by destruct (serves_until_told _ _ Hf Hg).
    + left. exists e. cbn. set_solver.
  - apply select_branch_ok. destruct Hok as [Hg Hr Hno Hsi Hh]. destruct output as [[]|e].
    + destruct (noticed p) eqn:Hnp; [|by destruct (serves_until_told _ _ Hf Hr)].
      destruct (Hno eq_refl) as [s Hs]. right; right. destruct (Hsi s Hs). exists s. split_and!; [done..|].
      right. split_and!; [done..|]. intros ->. by apply drains.
    + right; left. exists e. cbn. set_solver.
Qed.

Lemma steps_ok (st st' : ProcessState G R) : rtc (process_step limit) st st' → state_ok st → state_ok st'.
Proof. induction 1; eauto using step_ok. Qed.

(** ** Runs *)

Definition ended (st : ProcessState G R) : Prop := match st with Running _ => False | _ => True end.

Lemma ended_final st st' : ended st → ¬ process_step limit st st'.
Proof. intros He Hs. by destruct Hs. Qed.

(** A pending signal can be acted on; the gRPC server's branch can be taken. *)
Definition signal_ready (st : ProcessState G R) : Prop :=
  match st with
  | Running p => pending p ≠ [] ∧ signalled p = None ∧ finished (grpc_server p) = None
  | _ => False
  end.
Definition grpc_complete (st : ProcessState G R) : Prop :=
  match st with Running p => is_Some (finished (grpc_server p)) | _ => False end.

(** An action that is not put off for ever, when taking it disables it. *)
Definition weakly_fair (enabled : ProcessState G R → Prop) (run : nat → ProcessState G R) : Prop :=
  ∀ i, enabled (run i) → ∃ j, i ≤ j ∧ ¬ enabled (run j).

(** An execution that goes on until the process ends, whose executor in the end
    polls what can go on. *)
Record fair_run (run : nat → ProcessState G R) : Prop := {
  fr_step i : process_step limit (run i) (run (S i)) ∨ ended (run i) ∧ run (S i) = run i;
  fr_signal : weakly_fair signal_ready run;
  fr_select : weakly_fair grpc_complete run }.

(** The clients let the gRPC server finish once it is told to. *)
Definition grpc_drains (run : nat → ProcessState G R) : Prop :=
  ∀ i p, run i = Running p → shutdown_told (grpc_server p) = Some None →
    ∃ j, i ≤ j ∧ match run j with Running q => is_Some (finished (grpc_server q)) | _ => True end.

(** What stays: signals that came, and the completion of the gRPC server. *)
Definition later (st st' : ProcessState G R) : Prop :=
  match st, st' with
  | Running p, Running p' =>
      pending p ⊆ pending p' ∧ (is_Some (finished (grpc_server p)) → is_Some (finished (grpc_server p')))
  | Running _, _ => True
  | _, Running _ => False
  | _, _ => True
  end.

Lemma step_later st st' : process_step limit st st' → later st st'.
Proof.
  destruct 1 as [p g' Hf Hm|p r' _ Hm|p t Hh|p s|p s Hs Hn Hf|p s Hs Hn|p output Hf|p output Hf]; try done; simpl.
  - rewrite Hf. by split; [|intros [? [=]]].
  - by destruct t.
  - unfold deliver. case_bool_decide; [|done]. simpl. split; [set_solver|done].
  - rewrite Hf. by split; [|intros [? [=]]].
Qed.

Lemma run_moves_on run i j : fair_run run → i ≤ j → later (run i) (run j).
Proof.
  intros Hrun. induction 1 as [|j _ IH]; [by destruct (run i)|].
  destruct (fr_step run Hrun j) as [Hs%step_later|[_ ->]]; [|done].
  destruct (run i), (run j), (run (S j)); simpl in *; try done. set_solver.
Qed.

Lemma run_reaches run i : fair_run run → rtc (process_step limit) (run 0) (run i).
Proof.
  intros Hrun. induction i as [|i IH]; [done|].
  destruct (fr_step run Hrun i) as [Hs|[_ ->]]; [by eapply rtc_r|done].
Qed.

(** A completed gRPC server ends the process. *)
Lemma complete_ends run i : fair_run run → grpc_complete (run i) → ∃ j, ended (run j).
Proof.
  intros Hrun Hc. destruct (fr_select run Hrun i Hc) as (j & Hij & Hn). exists j.
  pose proof (run_moves_on run i j Hrun Hij) as Hl. destruct (run i), (run j); simpl in *; try done.
  apply Hn. by apply Hl.
Qed.

(** So does a signal, if the gRPC server drains. *)
Lemma signal_ends run i p :
  fair_run run → grpc_drains run → state_ok (run 0) → run i = Running p → pending p ≠ [] → ∃ j, ended (run j).
Proof.
  intros Hrun Hdrain Hok Hi Hp.
  assert (∀ k q, run k = Running q → is_Some (signalled q) → ∃ j, ended (run j)) as Hsignalled.
  { intros k q Hk [s Hs]. pose proof (steps_ok _ _ (run_reaches run k Hrun) Hok) as Hc. rewrite Hk in Hc.
    destruct (Hdrain k q Hk) as (j & Hkj & Hj); [by rewrite (con_grpc _ Hc), Hs|].
    destruct (run j) as [q'|q' r|q' s'] eqn:Hrj; [|by exists j; rewrite Hrj..].
    apply (complete_ends run j Hrun). by rewrite Hrj. }
  destruct (signalled p) as [s|] eqn:Hs; [by eapply Hsignalled; [done|rewrite Hs]|].
  destruct (finished (grpc_server p)) as [o|] eqn:Hf.
  { apply (complete_ends run i Hrun). rewrite Hi. simpl. by rewrite Hf. }
  destruct (fr_signal run Hrun i) as (j & Hij & Hn); [by rewrite Hi|].
  pose proof (run_moves_on run i j Hrun Hij) as Hl. rewrite Hi in Hl.
  destruct (run j) as [q|q r|q s] eqn:Hrj; [|by exists j; rewrite Hrj..].
  destruct Hl as [Hpending _]. destruct (signalled q) as [s|] eqn:Hsq; [by eapply Hsignalled; [done|rewrite Hsq]|].
  apply (complete_ends run j Hrun). rewrite Hrj. simpl.
  destruct (finished (grpc_server q)) eqn:Hfq; [done|]. destruct Hn. simpl. split_and!; [|done..].
  intros Hnil. rewrite Hnil in Hpending. destruct (pending p); [done|]. set_solver.
Qed.
End run.

Section server.
Context {G R : Type} `{GracefulListener G, GracefulListener R}.
Context {Uuid F SC CC Cert Key SocketAddr Bound : Type}.
Context (bind : SocketAddr → result string Bound)
        (grpc_serve : SocketAddr → G) (grpc_serve_incoming : ServerConfig Cert Key → Bound → G)
        (rest_serve_on : Bound → R) (rest_bind_rustls : SocketAddr → ServerConfig Cert Key → R).

(** A server that was just made was told nothing. *)
Definition new_servers_untold : Prop :=
  (∀ addr, shutdown_told (grpc_serve addr) = None) ∧ (∀ tls b, shutdown_told (grpc_serve_incoming tls b) = None) ∧
  (∀ b, shutdown_told (rest_serve_on b) = None) ∧ (∀ addr tls, shutdown_told (rest_bind_rustls addr tls) = None).

End server.

(** ** An example *)

(** A server that accepts until it is told to stop and then waits for its
    requests; it fails at once if its address is taken. *)
Record Toy := mk_Toy { toy_told : option (option Z); toy_open : nat; toy_failure : option string }.

#[export] Instance toy_listener : Listener Toy := {
  moves t t' :=
    t' = mk_Toy (toy_told t) (pred (toy_open t)) (toy_failure t) ∨
    toy_told t = None ∧ t' = mk_Toy None (S (toy_open t)) (toy_failure t);
  told limit t := mk_Toy (Some limit) (toy_open t) (toy_failure t);
  shutdown_told := toy_told;
  finished t :=
    match toy_failure t, toy_told t, toy_open t with
    | Some e, _, _ => Some (Err e)
    | None, Some _, 0 => Some (Ok tt)
    | None, _, _ => None
    end;
  open_requests := toy_open }.

#[export] Instance toy_graceful : GracefulListener Toy.
Proof.
  split; simpl.
  - intros [[] [] []] r; simpl; intros; simplify_eq; eauto.
  - by intros [[] [] []].
  - done.
  - done.
  - intros t t' [->|[Ht ->]]; simpl; by rewrite ?Ht.
Qed.

Definition toy_server : Server (Uuid := nat) (SC := unit) (CC := unit) (Cert := nat) (Key := nat) (SocketAddr := string) unit :=
  mk_Server unit (with_cache_config (λ _ _, tt) (λ _ _, tt) tt cache_default) (to_engine_config config_default)
    (to_schema_limits config_default) (dev_mode 0) "0.0.0.0:50051" "0.0.0.0:8080" None.

Definition fresh (failure : option string) : Toy := mk_Toy None 0 failure.

Abbreviation toy_listen := (listen (Ok (E := string) (A := string)) (λ _, fresh None) (λ _ _, fresh None)
  (λ _, fresh None) (λ _ _, fresh None) toy_server).

(** A SIGTERM arrives while a REST request is open: the gRPC server, which has
    none, ends the process and with it the request. *)
Definition toy_process (hs arrived : list Signal) (open : nat) (logged : list LogLine) : Process Toy Toy :=
  mk_Process (fresh None) (mk_Toy None open None) hs arrived None false
    ([info "gRPC server listening"; info "REST server listening"] ++ logged).

Definition toy_signalled (logged : list LogLine) : Process Toy Toy :=
  mk_Process (mk_Toy (Some None) 0 None) (mk_Toy None 1 None) [SIGTERM; SIGINT] [SIGTERM] (Some SIGTERM) false
    ([info "gRPC server listening"; info "REST server listening"] ++ logged).

Definition toy_run (i : nat) : ProcessState Toy Toy :=
  match i with
  | 0 => Running (toy_process [] [] 0 [])
  | 1 => Running (toy_process [SIGTERM; SIGINT] [] 0 [])
  | 2 => Running (toy_process [SIGTERM; SIGINT] [] 1 [])
  | 3 => Running (toy_process [SIGTERM; SIGINT] [SIGTERM] 1 [])
  | 4 => Running (toy_signalled [info "received SIGTERM"])
  | _ => Returned (toy_signalled [info "received SIGTERM"; info "server shut down gracefully"]) (Ok tt)
  end.

Lemma toy_run_fair : fair_run None toy_run.
Proof.
  split.
  - intros [|[|[|[|[|i]]]]]; [left..|by right].
    + exact (process_step_register None (toy_process [] [] 0 []) (Ok tt) eq_refl).
    + exact (process_step_rest None (toy_process [SIGTERM; SIGINT] [] 0 []) (mk_Toy None 1 None) eq_refl
        (or_intror (conj eq_refl eq_refl))).
    + exact (process_step_deliver None (toy_process [SIGTERM; SIGINT] [] 1 []) SIGTERM).
    + exact (process_step_signal None (toy_process [SIGTERM; SIGINT] [SIGTERM] 1 []) SIGTERM
        (list_elem_of_here _ _) eq_refl eq_refl).
    + exact (process_step_grpc_done None (toy_signalled [info "received SIGTERM"]) (Ok tt) eq_refl).
  - intros i _. exists (i + 5). split; [lia|]. rewrite Nat.add_comm. by intros [].
  - intros i _. exists (i + 5). split; [lia|]. rewrite Nat.add_comm. by intros [].
Qed.

Lemma toy_run_drains : grpc_drains toy_run.
Proof. intros i p _ _. exists (i + 5). split; [lia|]. by rewrite Nat.add_comm. Qed.

