(* ===== verification/Client.v ===== *)
(** * The client library ([crates/kraalzibar-client/src/])

    [conversions.rs], [error.rs], [config.rs], [interceptor.rs] and
    [client.rs].  A method of the client is a function of the rpc it calls: the
    rpc takes a message and the state of the world behind the channel to
    tonic's [Result] and the next state.  [intercepted] is the server's end of
    the channel, as [main.rs] sets it up. *)
From stdpp Require Import base tactics list strings gmap pretty.
From S2P Require Import Prelude Tuples Schema Validation Parser Engine Check Expand Storage Cache.
From S2P Require Import Metrics Service Numbers Auth Rest Grpc Serve.

(** ** [conversions.rs] *)

Inductive ClientConsistency :=
| ClFullConsistency | ClMinimizeLatency
| ClAtLeastAsFresh (token : SnapshotToken) | ClAtExactSnapshot (token : SnapshotToken).

Definition client_object_to_proto (obj : ObjectRef) : v1_ObjectReference :=
  mk_v1_ObjectReference (object_type obj) (object_id obj).

Definition client_proto_to_object (obj : v1_ObjectReference) : ObjectRef :=
  mk_ObjectRef (o_object_type obj) (o_object_id obj).

Definition client_subject_to_proto (subj : SubjectRef) : v1_SubjectReference :=
  mk_v1_SubjectReference (subject_type subj) (subject_id subj) (subject_relation subj).

Definition client_proto_to_subject (subj : v1_SubjectReference) : SubjectRef :=
  match s_subject_relation subj with
  | Some rel => userset (s_subject_type subj) (s_subject_id subj) rel
  | None => direct (s_subject_type subj) (s_subject_id subj)
  end.

Definition domain_filter_to_proto (filter : TupleFilter) : v1_RelationshipFilter :=
  mk_v1_RelationshipFilter (f_object_type filter) (f_object_id filter) (f_relation filter)
    (f_subject_type filter) (f_subject_id filter).

Definition consistency_to_proto (consistency : ClientConsistency) : v1_Consistency :=
  mk_v1_Consistency (Some
    match consistency with
    | ClFullConsistency => ReqFullConsistency true
    | ClMinimizeLatency => ReqMinimizeLatency true
    | ClAtLeastAsFresh token => ReqAtLeastAsFresh (mk_v1_ZedToken (pretty (token_value token)))
    | ClAtExactSnapshot token => ReqAtExactSnapshot (mk_v1_ZedToken (pretty (token_value token)))
    end).

Definition client_zed_token_to_snapshot (token : v1_ZedToken) : option SnapshotToken :=
  option_map mk_SnapshotToken (parse_u64 (zed_token token)).

(** ** [error.rs] *)

Inductive ClientError :=
| ClConnection (msg : string)
| ClInvalidArgument (msg : string)
| ClNotFound (msg : string)
| ClPermissionDenied (msg : string)
| ClUnauthenticated (msg : string)
| ClFailedPrecondition (msg : string)
| ClInternal (msg : string)
| ClTimeout
| ClStatus (status : Status).

(** [Display]; that of tonic's [Status] is an argument. *)
Definition client_error_display (status_display : Status → string) (e : ClientError) : string :=
  match e with
  | ClConnection msg => "connection error: " +:+ msg
  | ClInvalidArgument msg => "invalid argument: " +:+ msg
  | ClNotFound msg => "not found: " +:+ msg
  | ClPermissionDenied msg => "permission denied: " +:+ msg
  | ClUnauthenticated msg => "unauthenticated: " +:+ msg
  | ClFailedPrecondition msg => "failed precondition: " +:+ msg
  | ClInternal msg => "internal error: " +:+ msg
  | ClTimeout => "request timed out"
  | ClStatus status => "grpc status: " +:+ status_display status
  end.

Definition client_error_of_status (status : Status) : ClientError :=
  match code status with
  | NotFound => ClNotFound (message status)
  | PermissionDenied => ClPermissionDenied (message status)
  | Unauthenticated => ClUnauthenticated (message status)
  | InvalidArgument => ClInvalidArgument (message status)
  | DeadlineExceeded => ClTimeout
  | InternalError => ClInternal (message status)
  | FailedPrecondition => ClFailedPrecondition (message status)
  | Unavailable => ClConnection (message status)
  | _ => ClStatus status
  end.

(** ** [config.rs] *)

Record ClientOptions := mk_ClientOptions {
  api_key : option string;
  timeout_seconds : Z;
  connect_timeout_seconds : Z }.

Definition client_options_default : ClientOptions := mk_ClientOptions None 30 5.

(** What [Debug] shows of the key. *)
Definition client_options_debug_key (options : ClientOptions) : option string :=
  option_map (λ _, "[REDACTED]") (api_key options).

(** ** [interceptor.rs]

    [parse_metadata] is the [FromStr] of tonic's [MetadataValue]. *)
Definition api_key_interceptor (parse_metadata : string → option string) (api_key : option string)
    (metadata : gmap string string) : result Status (gmap string string) :=
  match api_key with
  | Some key =>
      let? value := ok_or (parse_metadata ("Bearer " +:+ key))
                      (mk_Status InternalError "invalid api key format") in
      Ok (<["authorization" := value]> metadata)
  | None => Ok metadata
  end.

(** ** [client.rs]: requests and responses *)

Record client_CheckPermissionRequest := mk_client_CheckPermissionRequest {
  cc_resource : ObjectRef; cc_permission : string; cc_subject : SubjectRef;
  cc_consistency : ClientConsistency }.
Record client_CheckPermissionResponse := mk_client_CheckPermissionResponse {
  ccr_allowed : bool; ccr_checked_at : option SnapshotToken }.
Inductive RelationshipOperation := Touch | Delete.
Record client_RelationshipUpdate := mk_client_RelationshipUpdate {
  cu_operation : RelationshipOperation; cu_object : ObjectRef; cu_relation : string;
  cu_subject : SubjectRef }.
Record client_WriteRelationshipsResponse := mk_client_WriteRelationshipsResponse {
  cwr_written_at : option SnapshotToken }.
Record client_ReadRelationshipsRequest := mk_client_ReadRelationshipsRequest {
  cd_filter : TupleFilter; cd_consistency : ClientConsistency; cd_limit : option nat }.
Record client_Relationship := mk_client_Relationship {
  cl_object : ObjectRef; cl_relation : string; cl_subject : SubjectRef }.
Record client_LookupResourcesRequest := mk_client_LookupResourcesRequest {
  cr_resource_type : string; cr_permission : string; cr_subject : SubjectRef;
  cr_consistency : ClientConsistency; cr_limit : option nat }.
Record client_LookupSubjectsRequest := mk_client_LookupSubjectsRequest {
  cs_resource : ObjectRef; cs_permission : string; cs_subject_type : string;
  cs_consistency : ClientConsistency }.
Record client_WriteSchemaResponse := mk_client_WriteSchemaResponse {
  cws_written_at : option SnapshotToken; cws_breaking_changes_overridden : bool }.
Record client_ExpandPermissionTreeRequest := mk_client_ExpandPermissionTreeRequest {
  ce_resource : ObjectRef; ce_permission : string; ce_consistency : ClientConsistency }.
Record client_ExpandPermissionTreeResponse := mk_client_ExpandPermissionTreeResponse {
  cer_expanded_at : option SnapshotToken; cer_tree : option v1_PermissionExpansionTree }.

(** [request.limit.unwrap_or(0) as u32] *)
Definition limit_as_u32 (limit : option nat) : Z := (Z.of_nat (default 0%nat limit) mod 2 ^ 32)%Z.

Section client.
Context {W : Type}.

(** [self.rpc(req).await?.into_inner()], and the rest of the method. *)
Definition client_call {Req Resp A} (rpc : Req → W → result Status Resp * W) (req : Req)
    (k : Resp → result ClientError A) (w : W) : result ClientError A * W :=
  let '(r, w') := rpc req w in
  (let? response := map_err client_error_of_status r in k response, w').

Definition client_check_permission
    (rpc : v1_CheckPermissionRequest → W → result Status v1_CheckPermissionResponse * W)
    (request : client_CheckPermissionRequest) : W → result ClientError client_CheckPermissionResponse * W :=
  client_call rpc
    (mk_v1_CheckPermissionRequest (Some (consistency_to_proto (cc_consistency request)))
       (Some (client_object_to_proto (cc_resource request))) (cc_permission request)
       (Some (client_subject_to_proto (cc_subject request))))
    (λ response,
       let allowed := (permissionship response =? PERMISSIONSHIP_HAS_PERMISSION)%Z in
       let checked_at := gcr_checked_at response ≫= client_zed_token_to_snapshot in
       Ok (mk_client_CheckPermissionResponse allowed checked_at)).

Definition client_update_to_proto (u : client_RelationshipUpdate) : v1_RelationshipUpdate :=
  mk_v1_RelationshipUpdate
    match cu_operation u with Touch => OPERATION_TOUCH | Delete => OPERATION_DELETE end
    (Some (mk_v1_Relationship (Some (client_object_to_proto (cu_object u))) (cu_relation u)
             (Some (client_subject_to_proto (cu_subject u))))).

Definition client_write_relationships
    (rpc : v1_WriteRelationshipsRequest → W → result Status v1_WriteRelationshipsResponse * W)
    (updates : list client_RelationshipUpdate) : W → result ClientError client_WriteRelationshipsResponse * W :=
  client_call rpc (mk_v1_WriteRelationshipsRequest (map client_update_to_proto updates))
    (λ response, Ok (mk_client_WriteRelationshipsResponse
       (gwr_written_at response ≫= client_zed_token_to_snapshot))).

Definition relationship_of_proto (rel : v1_Relationship) : option client_Relationship :=
  object ← option_map client_proto_to_object (r_object rel);
  subject ← option_map client_proto_to_subject (r_subject rel);
  Some (mk_client_Relationship object (r_relation rel) subject).

Definition client_read_relationships
    (rpc : v1_ReadRelationshipsRequest → W → result Status v1_ReadRelationshipsResponse * W)
    (request : client_ReadRelationshipsRequest) : W → result ClientError (list client_Relationship) * W :=
  client_call rpc
    (mk_v1_ReadRelationshipsRequest (Some (consistency_to_proto (cd_consistency request)))
       (Some (domain_filter_to_proto (cd_filter request))) (limit_as_u32 (cd_limit request)))
    (λ response, Ok (omap relationship_of_proto (gdr_relationships response))).

(** [while let Some(response) = stream.next().await { .. response? .. }] *)
Fixpoint collect_stream {Resp A} (push : Resp → list A) (stream : list (result Status Resp))
    : result ClientError (list A) :=
  match stream with
  | [] => Ok []
  | response :: stream' =>
      let? response := map_err client_error_of_status response in
      let? rest := collect_stream push stream' in
      Ok (push response ++ rest)
  end.

Definition client_lookup_resources
    (rpc : v1_LookupResourcesRequest → W → result Status (list (result Status v1_LookupResourcesResponse)) * W)
    (request : client_LookupResourcesRequest) : W → result ClientError (list string) * W :=
  client_call rpc
    (mk_v1_LookupResourcesRequest (Some (consistency_to_proto (cr_consistency request)))
       (cr_resource_type request) (cr_permission request)
       (Some (client_subject_to_proto (cr_subject request))) (limit_as_u32 (cr_limit request)))
    (collect_stream (λ response, [grr_resource_id response])).

Definition client_lookup_subjects
    (rpc : v1_LookupSubjectsRequest → W → result Status (list (result Status v1_LookupSubjectsResponse)) * W)
    (request : client_LookupSubjectsRequest) : W → result ClientError (list SubjectRef) * W :=
  client_call rpc
    (mk_v1_LookupSubjectsRequest (Some (consistency_to_proto (cs_consistency request)))
       (Some (client_object_to_proto (cs_resource request))) (cs_permission request)
       (cs_subject_type request))
    (collect_stream (λ response,
       match gsr_subject response with
       | Some subj => [client_proto_to_subject subj]
       | None => []
       end)).

Definition client_write_schema
    (rpc : v1_WriteSchemaRequest → W → result Status v1_WriteSchemaResponse * W)
    (schema : string) (force : bool) : W → result ClientError client_WriteSchemaResponse * W :=
  client_call rpc (mk_v1_WriteSchemaRequest schema force)
    (λ response, Ok (mk_client_WriteSchemaResponse
       (gwsr_written_at response ≫= client_zed_token_to_snapshot) (gwsr_overridden response))).

Definition client_read_schema (rpc : unit → W → result Status v1_ReadSchemaResponse * W)
    : W → result ClientError (option string) * W :=
  client_call rpc tt
    (λ response, if bool_decide (grsr_schema response = EmptyString) then Ok None
                 else Ok (Some (grsr_schema response))).

Definition client_expand_permission_tree
    (rpc : v1_ExpandPermissionTreeRequest → W → result Status v1_ExpandPermissionTreeResponse * W)
    (request : client_ExpandPermissionTreeRequest)
    : W → result ClientError client_ExpandPermissionTreeResponse * W :=
  client_call rpc
    (mk_v1_ExpandPermissionTreeRequest (Some (consistency_to_proto (ce_consistency request)))
       (Some (client_object_to_proto (ce_resource request))) (ce_permission request))
    (λ response, Ok (mk_client_ExpandPermissionTreeResponse
       (ger_expanded_at response ≫= client_zed_token_to_snapshot) (ger_tree response))).
End client.

(** ** The channel ([main.rs])

    The client's interceptor, the server's interceptor ([grpc_layer]), the rpc. *)
Section channel.
Context {Uuid F SC CC PasswordHash : Type}.
Context (argon2_parse : string → result string PasswordHash) (argon2_verify : string → PasswordHash → bool).
Context (parse_metadata : string → option string).
Abbreviation service := (@AuthzService Uuid F SC CC).

Definition intercepted {Req Resp} (auth_state : @AuthState Uuid) (api_key : option string)
    (rpc : option (TenantId Uuid) → Req → service → result Status Resp * service)
    (req : Req) (sv : service) : result Status Resp * service :=
  match api_key_interceptor parse_metadata api_key ∅ with
  | Err status => (Err status, sv)
  | Ok metadata =>
      grpc_layer argon2_parse argon2_verify auth_state
        (Some <$> (metadata : gmap string string) !! "authorization") (λ tenant, rpc tenant req) sv
  end.
End channel.
