(* ===== verification/ClientTheorems.v ===== *)
(** * The client library against the server

    A client with a valid key asks the service what its caller asked, but for
    the relation of a subject, which checks and deletes drop, and hands back
    exactly what the service answered. *)
From stdpp Require Import base tactics list strings gmap pretty.
From S2P Require Import Prelude Tuples Schema Validation Parser Engine Check CheckSpec CheckTheorems Expand.
From S2P Require Import Storage Memory StoreCheck Cache Metrics Service ServiceSpec ServiceTheorems Numbers Auth.
From S2P Require Import Rest RestTheorems Grpc GrpcTheorems Serve Client.

(** ** Conversions there and back *)

Definition service_consistency (c : ClientConsistency) : Consistency :=
  match c with
  | ClFullConsistency => FullConsistency
  | ClMinimizeLatency => MinimizeLatency
  | ClAtLeastAsFresh token => AtLeastAsFresh token
  | ClAtExactSnapshot token => AtExactSnapshot token
  end.

Definition u64_token (token : SnapshotToken) : Prop := (0 ≤ token_value token ≤ u64_max)%Z.

Definition consistency_in_range (c : ClientConsistency) : Prop :=
  match c with ClAtLeastAsFresh token | ClAtExactSnapshot token => u64_token token | _ => True end.

Lemma client_token_roundtrip token :
  u64_token token → client_zed_token_to_snapshot (mk_v1_ZedToken (pretty (token_value token))) = Some token.
Proof.
  intros Ht. unfold client_zed_token_to_snapshot, parse_u64. cbn [zed_token].
  rewrite parse_uint_pretty by exact Ht. by destruct token.
Qed.

Lemma client_token_option_roundtrip (o : option SnapshotToken) :
  (∀ token, o = Some token → u64_token token) →
  (snapshot_to_zed_token o ≫= client_zed_token_to_snapshot) = o.
Proof.
  intros Ho. destruct o as [token|]; [|done]. simpl. by apply client_token_roundtrip, Ho.
Qed.

Lemma client_consistency_roundtrip c :
  consistency_in_range c →
  proto_consistency_to_domain (Some (consistency_to_proto c)) = Ok (service_consistency c).
Proof.
  intros Hc. destruct c as [| |token|token]; try done; simpl in *;
    unfold proto_consistency_to_domain, zed_token_to_snapshot, parse_u64; simpl;
    rewrite parse_uint_pretty by exact Hc; by destruct token.
Qed.

(** What the server makes of the client's updates. *)
Definition client_writes (us : list client_RelationshipUpdate) : list TupleWrite :=
  omap (λ u, match cu_operation u with
             | Touch => Some (mk_TupleWrite (cu_object u) (cu_relation u) (cu_subject u))
             | Delete => None
             end) us.

(** The filter of a delete: no subject relation. *)
Definition client_delete_filter (u : client_RelationshipUpdate) : TupleFilter :=
  mk_TupleFilter (Some (object_type (cu_object u))) (Some (object_id (cu_object u)))
    (Some (cu_relation u)) (Some (subject_type (cu_subject u))) (Some (subject_id (cu_subject u))) None.

Definition client_deletes (us : list client_RelationshipUpdate) : list TupleFilter :=
  omap (λ u, match cu_operation u with Touch => None | Delete => Some (client_delete_filter u) end) us.

Lemma client_updates_roundtrip us acc :
  grpc_updates (map client_update_to_proto us) acc =
    Ok (acc.1 ++ client_writes us, acc.2 ++ client_deletes us).
Proof.
  revert acc. induction us as [|[op [] rel [? ? sr]] us IH]; intros acc; cbn [grpc_updates map].
  - by rewrite !app_nil_r, <-surjective_pairing.
  - unfold grpc_update, client_update_to_proto, client_writes, client_deletes. destruct acc as [ws ds].
    destruct op; cbn.
    + destruct sr; cbn; rewrite IH; cbn [fst snd]; by rewrite <-app_assoc.
    + rewrite IH. cbn [fst snd]. by rewrite <-app_assoc.
Qed.

(** ** The theorems *)

Definition token_in_range (o : option SnapshotToken) : Prop :=
  match o with Some token => u64_token token | None => True end.

Lemma response_token_roundtrip o :
  token_in_range o → (snapshot_to_zed_token o ≫= client_zed_token_to_snapshot) = o.
Proof. intros Ho. apply client_token_option_roundtrip. intros token ->. exact Ho. Qed.

Section properties.
Context {Uuid F S SC CC PasswordHash : Type}.
Context `{StoreFactory F Uuid S, RelationshipStore S, SchemaStore S}.
Context `{Cache SC (TenantId Uuid) Schema, Cache CC (CheckCacheKey Uuid) bool}.
Context (pest_parse : pest_parser) (engine_config : EngineConfig).
Context (argon2_parse : string → result string PasswordHash) (argon2_verify : string → PasswordHash → bool).
Context (parse_metadata : string → option string) (nil : Uuid).
Context (repo : string → result string (option (@ApiKeyRow Uuid))).
Abbreviation service := (@AuthzService Uuid F SC CC).

Lemma intercepted_valid_key key t :
  parse_metadata ("Bearer " +:+ key) = Some ("Bearer " +:+ key) →
  valid_key argon2_parse argon2_verify repo key t →
  ∃ events, ∀ (Req Resp : Type)
      (rpc : option (TenantId Uuid) → Req → service → result Status Resp * service) req sv,
    intercepted argon2_parse argon2_verify parse_metadata (with_repository nil repo) (Some key) rpc req sv =
    rpc (Some t) req (log_events events sv).
Proof.
  intros Hm Hkey. set (request := mk_AuthRequest EmptyString (Some (Some ("Bearer " +:+ key)))).
  assert ((grpc_auth_interceptor argon2_parse argon2_verify (with_repository nil repo) request).1 =
    Next (Some t)) as Hnext.
  { apply (middleware_valid_key argon2_parse argon2_verify nil repo request t eq_refl). by exists key. }
  exists (grpc_auth_interceptor argon2_parse argon2_verify (with_repository nil repo) request).2.
  intros Req Resp rpc req sv. unfold intercepted, api_key_interceptor. rewrite Hm. cbn [ok_or try].
  rewrite lookup_insert_eq. cbn [fmap option_fmap option_map]. unfold grpc_layer. fold request.
  destruct (grpc_auth_interceptor _ _ _ request) as [outcome events]. simpl in *. by rewrite Hnext.
Qed.

(** C17: From client to service and back, with a valid key and a consistency
    whose token, if any, is a 64-bit number.  The client's check becomes the service's check, for the key's tenant, of the caller's resource,
    permission and consistency and of the type and the id of its subject: the
    relation of the subject is dropped.  The caller gets the service's answer,
    or the client error of the service's error, and the token of the answer if
    it is a 64-bit number.  The client's batch becomes the service's write of
    exactly the tuples it touches, subject relations kept, which deletes by
    everything but the subject relation; the caller gets the token of the write
    or the client error. *)
Theorem client_end_to_end key t elapsed creq updates (sv : service) :
  parse_metadata ("Bearer " +:+ key) = Some ("Bearer " +:+ key) →
  valid_key argon2_parse argon2_verify repo key t → consistency_in_range (cc_consistency creq) →
  ∃ events,
    let sv0 := log_events events sv in
    let channel Req Resp (rpc : option (TenantId Uuid) → Req → service → result Status Resp * service) :=
      intercepted argon2_parse argon2_verify parse_metadata (with_repository nil repo) (Some key) rpc in
    let served := check_permission pest_parse engine_config t
      (mk_CheckPermissionInput (object_type (cc_resource creq)) (object_id (cc_resource creq))
         (cc_permission creq) (subject_type (cc_subject creq)) (subject_id (cc_subject creq))
         (service_consistency (cc_consistency creq))) sv0 in
    let called := client_check_permission
      (channel _ _ (λ ext, grpc_check_permission pest_parse engine_config ext elapsed)) creq sv in
    let written := write_relationships t (client_writes updates) (client_deletes updates) sv0 in
    let write_called := client_write_relationships
      (channel _ _ (λ ext, grpc_write_relationships ext elapsed)) updates sv in
    (same_state called.2 served.2 ∧
     match served.1 with
     | Ok out => ∃ checked_at, called.1 = Ok (mk_client_CheckPermissionResponse (co_allowed out) checked_at) ∧
                   (token_in_range (co_snapshot out) → checked_at = co_snapshot out)
     | Err e => called.1 = Err (client_error_of_status (api_error_to_status e))
     end) ∧
    (same_state write_called.2 written.2 ∧
     match written.1 with
     | Ok token => ∃ written_at, write_called.1 = Ok (mk_client_WriteRelationshipsResponse written_at) ∧
                     (u64_token token → written_at = Some token)
     | Err e => write_called.1 = Err (client_error_of_status (api_error_to_status e))
     end).
Proof.
  intros Hm Hkey Hc.
  destruct (intercepted_valid_key key t Hm Hkey) as (events & Hi). exists events.
  intros sv0 channel served called written write_called. split.
  - subst called served. unfold client_check_permission, client_call, channel. rewrite Hi. fold sv0.
    unfold grpc_check_permission, rpc_try. simpl.
    rewrite client_consistency_roundtrip by done. unfold rpc_call. simpl.
    destruct (check_permission _ _ _ _ sv0) as [[out|e] sv1]; simpl; [|done].
    split; [done|]. eexists. split; [|apply response_token_roundtrip].
    by destruct (co_allowed out).
  - subst write_called written. unfold client_write_relationships, client_call, channel. rewrite Hi.
    fold sv0. unfold grpc_write_relationships, rpc_try. cbn [extract_tenant_id ok_or gw_updates].
    rewrite client_updates_roundtrip. cbn [fst snd app]. unfold rpc_call.
    destruct (write_relationships t _ _ sv0) as [[token|e] sv1]; simpl; [|done].
    split; [done|]. eexists. split; [done|]. intros Ht. by apply (response_token_roundtrip (Some token)).
Qed.
End properties.

(** The client of alice's application. *)
Definition alice_client_check (c : ClientConsistency) : client_CheckPermissionRequest :=
  mk_client_CheckPermissionRequest (mk_ObjectRef "folder" "a") "view" (direct "user" "alice") c.

Definition demo_channel {Req Resp} : _ → Req → MemoryService → result Status Resp * MemoryService :=
  intercepted toy_parse toy_verify Some (with_repository 1%positive acme_repo) (Some toy_key).

Lemma client_end_to_end_witness :
  (client_check_permission
     (demo_channel (λ ext, grpc_check_permission two_texts engine_config_default ext (mk_Duration 0 1000)))
     (alice_client_check ClFullConsistency) folder_service).1 =
    Ok (mk_client_CheckPermissionResponse true (Some (mk_SnapshotToken 1))) ∧
  ∃ events, same_state
    (client_check_permission
       (demo_channel (λ ext, grpc_check_permission two_texts engine_config_default ext (mk_Duration 0 1000)))
       (alice_client_check ClFullConsistency) folder_service).2
    (check_permission two_texts engine_config_default acme
       (mk_CheckPermissionInput "folder" "a" "view" "user" "alice" FullConsistency)
       (log_events events folder_service)).2.
Proof.
  split; [vm_compute; reflexivity|].
  destruct (client_end_to_end two_texts engine_config_default toy_parse toy_verify Some 1%positive acme_repo
    toy_key acme (mk_Duration 0 1000) (alice_client_check ClFullConsistency) [] folder_service)
    as (events & [Hstate _] & _).
  - done.
  - do 4 eexists. split_and!; vm_compute; reflexivity.
  - done.
  - exists events. exact Hstate.
Defined.
