(* ===== verification/Suite.v ===== *)
(** * Tests of the repository as evaluations

    The unit tests of the crates, translated one by one: a test is the boolean
    of its assertions on the definitions of this development, a suite the list
    of the tests of a file.  That a suite has no failing test ties the
    definitions to what the authors of the code expect of it. *)
From stdpp Require Import base tactics list strings.
From S2P Require Import Prelude.

Abbreviation suite := (list (string * bool)).

(** The tests with an assertion that does not hold. *)
Definition failing (tests : suite) : list string := (filter (λ t, t.2 = false) tests).*1.

Declare Scope test_scope.
Delimit Scope test_scope with test.

(** [assert_eq!] *)
Notation "x =? y" := (bool_decide (x = y)) (at level 70) : test_scope.
(** [assert_ne!] *)
Notation "x <>? y" := (negb (bool_decide (x = y))) (at level 70) : test_scope.

(** [let x = r.unwrap(); ..]: a panic fails the test. *)
Notation "'unwrap' x := r 'in' k" := (match r with Ok x => k | Err _ => false end)
  (at level 10, x pattern, r at level 200, k at level 200) : test_scope.
Notation "'unwrap_err' x := r 'in' k" := (match r with Ok _ => false | Err x => k end)
  (at level 10, x pattern, r at level 200, k at level 200) : test_scope.
Notation "'unwrap_some' x := r 'in' k" := (match r with Some x => k | None => false end)
  (at level 10, x pattern, r at level 200, k at level 200) : test_scope.

(** The same for an operation that leaves a state behind. *)
Notation "'unwrap_in' s , x := r 'in' k" := (match r with (Ok x, s) => k | (Err _, _) => false end)
  (at level 10, s name, x pattern, r at level 200, k at level 200) : test_scope.

(** [&list[i]]: out of range is a panic. *)
Notation "'at_index' x := l @ i 'in' k" := (match nth_error l i with Some x => k | None => false end)
  (at level 10, x name, l at level 9, i at level 9, k at level 200) : test_scope.

(** [s.contains(part)] *)
Definition contains (s part : string) : bool :=
  match String.index 0 part s with Some _ => true | None => false end.
