(* ===== verification/EngineTests.v ===== *)
(** * The tests of the engine ([engine/check.rs], [engine/expand.rs]) *)
From stdpp Require Import base tactics list strings gmap.
From S2P Require Import Prelude Tuples Schema Parser Grammar GrammarTheorems Engine Check Expand Suite.
#[local] Open Scope test_scope.

(** [TestStore] *)
Definition test_store (tuples : list Tuple) : TupleReader := λ filter _,
  Ok (List.filter (matches filter) tuples).

Definition make_engine (schema : Schema) (tuples : list Tuple) (request : CheckRequest) : result CheckError CheckResult :=
  run (test_store tuples) (check schema engine_config_default request).

Definition make_expand_engine (schema : Schema) (tuples : list Tuple) (request : ExpandRequest)
    : result CheckError ExpandTree :=
  run (test_store tuples) (expand schema engine_config_default request).

(** [Tuple::new(ObjectRef::new(t, i), relation, subject)] *)
Definition tuple_new (t i relation : string) (subject : SubjectRef) : Tuple :=
  mk_Tuple (mk_ObjectRef t i) relation subject.

(** A relation without subject types. *)
Definition rel (name : string) : RelationDef := mk_RelationDef name [].

(** The request most tests make. *)
Definition can_alice (permission : string) : CheckRequest :=
  mk_CheckRequest "document" "readme" permission "user" "alice" None.

(** ** [engine/check.rs] *)
Module CheckTests.

Definition doc_schema_with_viewer : Schema :=
  mk_Schema [mk_TypeDefinition "document" [rel "viewer"] [mk_PermissionDef "view" (This "viewer")]].

Definition check_rejects_unknown_type : bool :=
  let engine := make_engine (mk_Schema []) [] in
  unwrap_err err := engine (can_alice "view") in
  match err with TypeNotFound t => t =? "document" | _ => false end.

Definition check_rejects_unknown_permission : bool :=
  let engine := make_engine (mk_Schema [mk_TypeDefinition "document" [] []]) [] in
  unwrap_err err := engine (can_alice "view") in
  match err with
  | PermissionNotFound type_name permission => (type_name =? "document") && (permission =? "view")
  | _ => false
  end.

Definition check_direct_relation_grants_access : bool :=
  let tuples := [tuple_new "document" "readme" "viewer" (direct "user" "alice")] in
  let engine := make_engine doc_schema_with_viewer tuples in
  unwrap result := engine (can_alice "view") in allowed result.

Definition check_direct_relation_denies_no_tuple : bool :=
  let engine := make_engine doc_schema_with_viewer [] in
  unwrap result := engine (can_alice "view") in negb (allowed result).

Definition check_direct_relation_denies_different_subject : bool :=
  let tuples := [tuple_new "document" "readme" "viewer" (direct "user" "bob")] in
  let engine := make_engine doc_schema_with_viewer tuples in
  unwrap result := engine (can_alice "view") in negb (allowed result).

Definition doc_schema_with_union_view : Schema :=
  mk_Schema [mk_TypeDefinition "document" [rel "owner"; rel "editor"; rel "viewer"]
    [mk_PermissionDef "view" (Union [This "owner"; This "editor"; This "viewer"])]].

Definition check_union_grants_on_first_branch : bool :=
  let tuples := [tuple_new "document" "readme" "owner" (direct "user" "alice")] in
  let engine := make_engine doc_schema_with_union_view tuples in
  unwrap result := engine (can_alice "view") in allowed result.

Definition check_union_grants_on_second_branch : bool :=
  let tuples := [tuple_new "document" "readme" "editor" (direct "user" "alice")] in
  let engine := make_engine doc_schema_with_union_view tuples in
  unwrap result := engine (can_alice "view") in allowed result.

Definition check_union_denies_when_no_branch_matches : bool :=
  let engine := make_engine doc_schema_with_union_view [] in
  unwrap result := engine (can_alice "view") in negb (allowed result).

Definition doc_schema_with_intersection : Schema :=
  mk_Schema [mk_TypeDefinition "document" [rel "viewer"; rel "allowed_ip"]
    [mk_PermissionDef "view" (Intersection [This "viewer"; This "allowed_ip"])]].

Definition check_intersection_grants_when_all_match : bool :=
  let tuples := [tuple_new "document" "readme" "viewer" (direct "user" "alice");
                 tuple_new "document" "readme" "allowed_ip" (direct "user" "alice")] in
  let engine := make_engine doc_schema_with_intersection tuples in
  unwrap result := engine (can_alice "view") in allowed result.

Definition check_intersection_denies_when_one_missing : bool :=
  let tuples := [tuple_new "document" "readme" "viewer" (direct "user" "alice")] in
  let engine := make_engine doc_schema_with_intersection tuples in
  unwrap result := engine (can_alice "view") in negb (allowed result).

Definition doc_schema_with_exclusion : Schema :=
  mk_Schema [mk_TypeDefinition "document" [rel "viewer"; rel "blocked"]
    [mk_PermissionDef "view" (Exclusion (This "viewer") (This "blocked"))]].

Definition check_exclusion_grants : bool :=
  let tuples := [tuple_new "document" "readme" "viewer" (direct "user" "alice")] in
  let engine := make_engine doc_schema_with_exclusion tuples in
  unwrap result := engine (can_alice "view") in allowed result.

Definition check_exclusion_denies_when_excluded : bool :=
  let tuples := [tuple_new "document" "readme" "viewer" (direct "user" "alice");
                 tuple_new "document" "readme" "blocked" (direct "user" "alice")] in
  let engine := make_engine doc_schema_with_exclusion tuples in
  unwrap result := engine (can_alice "view") in negb (allowed result).

Definition check_exclusion_denies_when_base_false : bool :=
  let engine := make_engine doc_schema_with_exclusion [] in
  unwrap result := engine (can_alice "view") in negb (allowed result).

Definition doc_and_folder_schema : Schema :=
  mk_Schema
    [mk_TypeDefinition "folder" [rel "viewer"] [mk_PermissionDef "view" (This "viewer")];
     mk_TypeDefinition "document" [rel "parent"] [mk_PermissionDef "view" (Arrow "parent" "view")]].

Definition check_arrow_follows_relation_to_parent : bool :=
  let tuples := [tuple_new "document" "readme" "parent" (direct "folder" "root");
                 tuple_new "folder" "root" "viewer" (direct "user" "alice")] in
  let engine := make_engine doc_and_folder_schema tuples in
  unwrap result := engine (can_alice "view") in allowed result.

Definition check_arrow_denies_when_parent_denies : bool :=
  let tuples := [tuple_new "document" "readme" "parent" (direct "folder" "root")] in
  let engine := make_engine doc_and_folder_schema tuples in
  unwrap result := engine (can_alice "view") in negb (allowed result).

Definition check_userset_traverses_group_membership : bool :=
  let schema := mk_Schema
    [mk_TypeDefinition "group" [rel "member"] [];
     mk_TypeDefinition "document" [rel "viewer"] [mk_PermissionDef "view" (This "viewer")]] in
  let tuples := [tuple_new "document" "readme" "viewer" (userset "group" "eng" "member");
                 tuple_new "group" "eng" "member" (direct "user" "alice")] in
  let engine := make_engine schema tuples in
  unwrap result := engine (can_alice "view") in allowed result.

Definition check_depth_limit_exceeded : bool :=
  let schema := mk_Schema
    [mk_TypeDefinition "folder" [rel "parent"; rel "viewer"]
       [mk_PermissionDef "view" (Union [This "viewer"; Arrow "parent" "view"])];
     mk_TypeDefinition "document" [rel "parent"] [mk_PermissionDef "view" (Arrow "parent" "view")]] in
  let tuples :=
    [tuple_new "document" "readme" "parent" (direct "folder" "f1");
     tuple_new "folder" "f1" "parent" (direct "folder" "f2");
     tuple_new "folder" "f2" "parent" (direct "folder" "f3");
     tuple_new "folder" "f3" "parent" (direct "folder" "f4");
     tuple_new "folder" "f4" "parent" (direct "folder" "f5");
     tuple_new "folder" "f5" "parent" (direct "folder" "f6");
     tuple_new "folder" "f6" "parent" (direct "folder" "f7");
     tuple_new "folder" "f7" "viewer" (direct "user" "alice")] in
  let engine := make_engine schema tuples in
  unwrap_err err := engine (can_alice "view") in
  match err with MaxDepthExceeded _ => true | _ => false end.

Definition check_cycle_returns_false_not_error : bool :=
  let schema := mk_Schema
    [mk_TypeDefinition "folder" [rel "parent"; rel "viewer"]
       [mk_PermissionDef "view" (Union [This "viewer"; Arrow "parent" "view"])]] in
  let tuples := [tuple_new "folder" "a" "parent" (direct "folder" "b");
                 tuple_new "folder" "b" "parent" (direct "folder" "a")] in
  let engine := make_engine schema tuples in
  unwrap result := engine (mk_CheckRequest "folder" "a" "view" "user" "alice" None) in
  negb (allowed result).

Definition check_memoization_correctness : bool :=
  let schema := mk_Schema
    [mk_TypeDefinition "folder" [rel "viewer"] [mk_PermissionDef "view" (This "viewer")];
     mk_TypeDefinition "document" [rel "parent_a"; rel "parent_b"]
       [mk_PermissionDef "view" (Union [Arrow "parent_a" "view"; Arrow "parent_b" "view"])]] in
  let tuples := [tuple_new "document" "readme" "parent_a" (direct "folder" "root");
                 tuple_new "document" "readme" "parent_b" (direct "folder" "root");
                 tuple_new "folder" "root" "viewer" (direct "user" "alice")] in
  let engine := make_engine schema tuples in
  unwrap result := engine (can_alice "view") in allowed result.

Definition check_permission_references_permission : bool :=
  let schema := mk_Schema
    [mk_TypeDefinition "document" [rel "editor"]
       [mk_PermissionDef "can_edit" (This "editor"); mk_PermissionDef "can_view" (This "can_edit")]] in
  let tuples := [tuple_new "document" "readme" "editor" (direct "user" "alice")] in
  let engine := make_engine schema tuples in
  unwrap result := engine (can_alice "can_view") in allowed result.

(** The schema of PLAN.md, from its text. *)
Definition plan_schema : result ParseError Schema :=
  parse_schema grammar_pest "
            definition user {}

            definition group {
                relation member: user | group#member
            }

            definition category {
                relation owner: user
                relation editor: user | group#member
                relation viewer: user | group#member

                permission can_edit = owner + editor
                permission can_view = can_edit + viewer
            }

            definition object {
                relation parent: category
                relation owner: user
                relation editor: user | group#member
                relation viewer: user | group#member

                permission can_edit = owner + editor + parent->can_edit
                permission can_view = can_edit + viewer + parent->can_view
            }
            ".

Definition plan_tuples : list Tuple :=
  [tuple_new "object" "readme" "viewer" (direct "user" "john");
   tuple_new "object" "readme" "viewer" (userset "group" "developers" "member");
   tuple_new "group" "developers" "member" (direct "user" "alice");
   tuple_new "category" "docs" "owner" (direct "user" "bob");
   tuple_new "object" "readme" "parent" (direct "category" "docs")].

Definition check_complex_e2e_plan_scenario : bool :=
  unwrap schema := plan_schema in
  let engine := make_engine schema plan_tuples in
  let can permission subject := engine (mk_CheckRequest "object" "readme" permission "user" subject None) in
  unwrap john := can "can_view" "john" in
  unwrap alice := can "can_view" "alice" in
  unwrap bob := can "can_edit" "bob" in
  unwrap alice_edit := can "can_edit" "alice" in
  unwrap eve := can "can_view" "eve" in
  allowed john && allowed alice && allowed bob && negb (allowed alice_edit) && negb (allowed eve).

Definition tests : suite :=
  [("check_rejects_unknown_type", check_rejects_unknown_type);
   ("check_rejects_unknown_permission", check_rejects_unknown_permission);
   ("check_direct_relation_grants_access", check_direct_relation_grants_access);
   ("check_direct_relation_denies_no_tuple", check_direct_relation_denies_no_tuple);
   ("check_direct_relation_denies_different_subject", check_direct_relation_denies_different_subject);
   ("check_union_grants_on_first_branch", check_union_grants_on_first_branch);
   ("check_union_grants_on_second_branch", check_union_grants_on_second_branch);
   ("check_union_denies_when_no_branch_matches", check_union_denies_when_no_branch_matches);
   ("check_intersection_grants_when_all_match", check_intersection_grants_when_all_match);
   ("check_intersection_denies_when_one_missing", check_intersection_denies_when_one_missing);
   ("check_exclusion_grants", check_exclusion_grants);
   ("check_exclusion_denies_when_excluded", check_exclusion_denies_when_excluded);
   ("check_exclusion_denies_when_base_false", check_exclusion_denies_when_base_false);
   ("check_arrow_follows_relation_to_parent", check_arrow_follows_relation_to_parent);
   ("check_arrow_denies_when_parent_denies", check_arrow_denies_when_parent_denies);
   ("check_userset_traverses_group_membership", check_userset_traverses_group_membership);
   ("check_depth_limit_exceeded", check_depth_limit_exceeded);
   ("check_cycle_returns_false_not_error", check_cycle_returns_false_not_error);
   ("check_memoization_correctness", check_memoization_correctness);
   ("check_permission_references_permission", check_permission_references_permission);
   ("check_complex_e2e_plan_scenario", check_complex_e2e_plan_scenario)].

Lemma check_tests_pass : failing tests = [].
Proof. vm_compute. reflexivity. Qed.
End CheckTests.

(** ** [engine/expand.rs] *)
Module ExpandTests.

Definition expand_readme : ExpandRequest := mk_ExpandRequest "document" "readme" "view" None.

Definition expand_rejects_unknown_type : bool :=
  let engine := make_expand_engine (mk_Schema []) [] in
  unwrap_err err := engine expand_readme in
  match err with TypeNotFound t => t =? "document" | _ => false end.

Definition expand_direct_relation_returns_subjects : bool :=
  let schema := mk_Schema [mk_TypeDefinition "document" [rel "viewer"] [mk_PermissionDef "view" (This "viewer")]] in
  let tuples := [tuple_new "document" "readme" "viewer" (direct "user" "alice");
                 tuple_new "document" "readme" "viewer" (direct "user" "bob")] in
  let engine := make_expand_engine schema tuples in
  unwrap tree := engine expand_readme in
  match tree with TreeThis relation subjects => (relation =? "viewer") && (length subjects =? 2) | _ => false end.

Definition expand_union_returns_union_node : bool :=
  let schema := mk_Schema [mk_TypeDefinition "document" [rel "owner"; rel "viewer"]
    [mk_PermissionDef "view" (Union [This "owner"; This "viewer"])]] in
  let tuples := [tuple_new "document" "readme" "owner" (direct "user" "alice")] in
  let engine := make_expand_engine schema tuples in
  unwrap tree := engine expand_readme in
  match tree with TreeUnion children => length children =? 2 | _ => false end.

Definition expand_intersection_returns_intersection_node : bool :=
  let schema := mk_Schema [mk_TypeDefinition "document" [rel "viewer"; rel "allowed"]
    [mk_PermissionDef "view" (Intersection [This "viewer"; This "allowed"])]] in
  let engine := make_expand_engine schema [] in
  unwrap tree := engine expand_readme in
  match tree with TreeIntersection children => length children =? 2 | _ => false end.

Definition expand_exclusion_returns_exclusion_node : bool :=
  let schema := mk_Schema [mk_TypeDefinition "document" [rel "viewer"; rel "blocked"]
    [mk_PermissionDef "view" (Exclusion (This "viewer") (This "blocked"))]] in
  let engine := make_expand_engine schema [] in
  unwrap tree := engine expand_readme in
  match tree with TreeExclusion _ _ => true | _ => false end.

Definition expand_arrow_returns_nested_tree : bool :=
  let schema := mk_Schema
    [mk_TypeDefinition "folder" [rel "viewer"] [mk_PermissionDef "view" (This "viewer")];
     mk_TypeDefinition "document" [rel "parent"] [mk_PermissionDef "view" (Arrow "parent" "view")]] in
  let tuples := [tuple_new "document" "readme" "parent" (direct "folder" "root");
                 tuple_new "folder" "root" "viewer" (direct "user" "alice")] in
  let engine := make_expand_engine schema tuples in
  unwrap tree := engine expand_readme in
  match tree with
  | TreeArrow tupleset_relation computed_permission children =>
      (tupleset_relation =? "parent") && (computed_permission =? "view") && (length children =? 1) &&
      match children with
      | TreeThis relation subjects :: _ => (relation =? "viewer") && (length subjects =? 1)
      | _ => false
      end
  | _ => false
  end.

Definition expand_userset_expands_group_members : bool :=
  let schema := mk_Schema
    [mk_TypeDefinition "group" [rel "member"] [];
     mk_TypeDefinition "document" [rel "viewer"] [mk_PermissionDef "view" (This "viewer")]] in
  let tuples := [tuple_new "document" "readme" "viewer" (userset "group" "eng" "member");
                 tuple_new "group" "eng" "member" (direct "user" "alice");
                 tuple_new "group" "eng" "member" (direct "user" "bob")] in
  let engine := make_expand_engine schema tuples in
  unwrap tree := engine expand_readme in
  match tree with TreeThis relation subjects => (relation =? "viewer") && (length subjects =? 2) | _ => false end.

Definition expand_handles_depth_limit : bool :=
  let schema := mk_Schema
    [mk_TypeDefinition "folder" [rel "parent"; rel "viewer"]
       [mk_PermissionDef "view" (Union [This "viewer"; Arrow "parent" "view"])]] in
  let tuples :=
    [tuple_new "folder" "f1" "parent" (direct "folder" "f2");
     tuple_new "folder" "f2" "parent" (direct "folder" "f3");
     tuple_new "folder" "f3" "parent" (direct "folder" "f4");
     tuple_new "folder" "f4" "parent" (direct "folder" "f5");
     tuple_new "folder" "f5" "parent" (direct "folder" "f6");
     tuple_new "folder" "f6" "parent" (direct "folder" "f7");
     tuple_new "folder" "f7" "parent" (direct "folder" "f8")] in
  let engine := make_expand_engine schema tuples in
  unwrap_err err := engine (mk_ExpandRequest "folder" "f1" "view" None) in
  match err with MaxDepthExceeded _ => true | _ => false end.

Definition tests : suite :=
  [("expand_rejects_unknown_type", expand_rejects_unknown_type);
   ("expand_direct_relation_returns_subjects", expand_direct_relation_returns_subjects);
   ("expand_union_returns_union_node", expand_union_returns_union_node);
   ("expand_intersection_returns_intersection_node", expand_intersection_returns_intersection_node);
   ("expand_exclusion_returns_exclusion_node", expand_exclusion_returns_exclusion_node);
   ("expand_arrow_returns_nested_tree", expand_arrow_returns_nested_tree);
   ("expand_userset_expands_group_members", expand_userset_expands_group_members);
   ("expand_handles_depth_limit", expand_handles_depth_limit)].

Lemma expand_tests_pass : failing tests = [].
Proof. vm_compute. reflexivity. Qed.
End ExpandTests.
