(* ===== verification/CoreTests.v ===== *)
(** * The tests of tuples, the parser and the validation of schemas
      ([tuple.rs], [schema/parser.rs], [schema/validation.rs])

    The parser runs on the grammar; identifiers of tenants are numbers. *)
From stdpp Require Import base tactics list strings gmap.
From S2P Require Import Prelude Tuples Schema Validation Parser Grammar GrammarTheorems Suite.
#[local] Open Scope test_scope.

(** ** [tuple.rs] *)
Module TupleTests.

Definition readme_viewer (s : SubjectRef) : Tuple := mk_Tuple (mk_ObjectRef "object" "readme") "viewer" s.
Definition john : SubjectRef := direct "user" "john".

Definition tenant_id_from_uuid : bool :=
  let uuid := 7%positive in tenant_uuid (mk_TenantId uuid) =? uuid.

Definition tenant_id_equality : bool :=
  let uuid := 7%positive in mk_TenantId uuid =? mk_TenantId uuid.

Definition tenant_id_hash_consistent_with_equality : bool :=
  let uuid := 7%positive in
  let a := mk_TenantId uuid in let b := mk_TenantId uuid in
  let set : gset (TenantId positive) := {[a]} ∪ ∅ in
  bool_decide (b ∈ set).

Definition object_ref_display : bool :=
  let obj := mk_ObjectRef "document" "readme" in object_display obj =? "document:readme".

Definition object_ref_equality : bool :=
  mk_ObjectRef "document" "readme" =? mk_ObjectRef "document" "readme".

Definition direct_subject_display : bool :=
  let subject := direct "user" "john" in
  (subject_display subject =? "user:john") && (subject_relation subject =? None).

Definition userset_subject_display : bool :=
  let subject := userset "group" "engineering" "member" in
  (subject_display subject =? "group:engineering#member") && (subject_relation subject =? Some "member").

Definition tuple_display_direct_subject : bool :=
  tuple_display (readme_viewer john) =? "object:readme#viewer@user:john".

Definition tuple_display_userset_subject : bool :=
  tuple_display (readme_viewer (userset "group" "engineering" "member")) =?
  "object:readme#viewer@group:engineering#member".

Definition tuple_write_holds_same_fields_as_tuple : bool :=
  let write := mk_TupleWrite (mk_ObjectRef "object" "readme") "viewer" john in
  (w_object write =? mk_ObjectRef "object" "readme") && (w_relation write =? "viewer") && (w_subject write =? john).

Definition tuple_from_tuple_write : bool :=
  let write := mk_TupleWrite (mk_ObjectRef "doc" "readme") "viewer" john in
  let tuple := tuple_of_write write in
  (object tuple =? mk_ObjectRef "doc" "readme") && (relation tuple =? "viewer") && (subject tuple =? john).

Definition tuple_hash_consistent_with_equality : bool :=
  let a := mk_Tuple (mk_ObjectRef "doc" "readme") "viewer" john in
  let b := mk_Tuple (mk_ObjectRef "doc" "readme") "viewer" john in
  let set : gset Tuple := {[a]} ∪ ∅ in
  bool_decide (b ∈ set).

Definition empty_filter_matches_everything : bool := matches filter_default (readme_viewer john).

Definition filter_by_object_type : bool :=
  let filter := mk_TupleFilter (Some "object") None None None None None in
  let non_matching := mk_Tuple (mk_ObjectRef "category" "docs") "viewer" john in
  matches filter (readme_viewer john) && negb (matches filter non_matching).

Definition filter_by_subject_relation_none_matches_direct_only : bool :=
  let filter := mk_TupleFilter None None None None None (Some None) in
  matches filter (readme_viewer john) && negb (matches filter (readme_viewer (userset "group" "eng" "member"))).

Definition filter_by_subject_relation_some_matches_userset : bool :=
  let filter := mk_TupleFilter None None None None None (Some (Some "member")) in
  matches filter (readme_viewer (userset "group" "eng" "member")) &&
  negb (matches filter (readme_viewer john)) &&
  negb (matches filter (readme_viewer (userset "group" "eng" "admin"))).

Definition filter_all_fields : bool :=
  let filter := mk_TupleFilter (Some "object") (Some "readme") (Some "viewer") (Some "user") (Some "john") (Some None) in
  matches filter (readme_viewer john).

Definition empty_filter_has_no_fields : bool := negb (has_any_field filter_default).

Definition filter_with_one_field_has_fields : bool :=
  has_any_field (mk_TupleFilter (Some "doc") None None None None None).

Definition snapshot_token_value_round_trip : bool :=
  let token := mk_SnapshotToken 42 in token_value token =? 42%Z.

Definition snapshot_token_display : bool :=
  let token := mk_SnapshotToken 42 in token_display token =? "42".

Definition snapshot_token_ordering : bool :=
  let a := mk_SnapshotToken 1 in let b := mk_SnapshotToken 2 in
  (token_value a <? token_value b)%Z && (token_value b >? token_value a)%Z &&
  (mk_SnapshotToken 3 =? mk_SnapshotToken 3).

Definition tests : suite :=
  [("tenant_id_from_uuid", tenant_id_from_uuid);
   ("tenant_id_equality", tenant_id_equality);
   ("tenant_id_hash_consistent_with_equality", tenant_id_hash_consistent_with_equality);
   ("object_ref_display", object_ref_display);
   ("object_ref_equality", object_ref_equality);
   ("direct_subject_display", direct_subject_display);
   ("userset_subject_display", userset_subject_display);
   ("tuple_display_direct_subject", tuple_display_direct_subject);
   ("tuple_display_userset_subject", tuple_display_userset_subject);
   ("tuple_write_holds_same_fields_as_tuple", tuple_write_holds_same_fields_as_tuple);
   ("tuple_from_tuple_write", tuple_from_tuple_write);
   ("tuple_hash_consistent_with_equality", tuple_hash_consistent_with_equality);
   ("empty_filter_matches_everything", empty_filter_matches_everything);
   ("filter_by_object_type", filter_by_object_type);
   ("filter_by_subject_relation_none_matches_direct_only", filter_by_subject_relation_none_matches_direct_only);
   ("filter_by_subject_relation_some_matches_userset", filter_by_subject_relation_some_matches_userset);
   ("filter_all_fields", filter_all_fields);
   ("empty_filter_has_no_fields", empty_filter_has_no_fields);
   ("filter_with_one_field_has_fields", filter_with_one_field_has_fields);
   ("snapshot_token_value_round_trip", snapshot_token_value_round_trip);
   ("snapshot_token_display", snapshot_token_display);
   ("snapshot_token_ordering", snapshot_token_ordering)].

Lemma tuple_tests_pass : failing tests = [].
Proof. vm_compute. reflexivity. Qed.
End TupleTests.

(** ** [schema/parser.rs] *)
Module ParserTests.

Definition parse (text : string) : result ParseError Schema := parse_schema grammar_pest text.

Definition parse_empty_definition : bool :=
  unwrap schema := parse "definition user {}" in
  (length (schema_types schema) =? 1) &&
  at_index t := (schema_types schema) @ 0 in
  (type_name t =? "user") && (type_relations t =? []) && (type_permissions t =? []).

Definition parse_single_direct_relation : bool :=
  unwrap schema := parse "definition document { relation owner: user }" in
  unwrap_some doc := get_type schema "document" in
  (length (type_relations doc) =? 1) &&
  at_index r := (type_relations doc) @ 0 in
  (rel_name r =? "owner") && (length (rel_subject_types r) =? 1) &&
  at_index s := (rel_subject_types r) @ 0 in
  (st_type_name s =? "user") && (st_relation s =? None).

Definition parse_userset_subject_type : bool :=
  unwrap schema := parse "definition group { relation member: user | group#member }" in
  unwrap_some group := get_type schema "group" in
  at_index member := (type_relations group) @ 0 in
  (length (rel_subject_types member) =? 2) &&
  at_index s0 := (rel_subject_types member) @ 0 in
  at_index s1 := (rel_subject_types member) @ 1 in
  (st_type_name s0 =? "user") && (st_relation s0 =? None) &&
  (st_type_name s1 =? "group") && (st_relation s1 =? Some "member").

Definition parse_union_permission : bool :=
  unwrap schema := parse
    "definition doc { relation owner: user relation editor: user permission can_edit = owner + editor }" in
  unwrap_some doc := get_type schema "doc" in
  at_index perm := (type_permissions doc) @ 0 in
  (perm_name perm =? "can_edit") && (perm_rule perm =? Union [This "owner"; This "editor"]).

Definition parse_intersection_permission : bool :=
  unwrap schema := parse
    "definition doc { relation owner: user relation reviewer: user permission can_approve = owner & reviewer }" in
  unwrap_some doc := get_type schema "doc" in
  at_index perm := (type_permissions doc) @ 0 in
  perm_rule perm =? Intersection [This "owner"; This "reviewer"].

Definition parse_exclusion_permission : bool :=
  unwrap schema := parse
    "definition doc { relation viewer: user relation banned: user permission can_view = viewer - banned }" in
  unwrap_some doc := get_type schema "doc" in
  at_index perm := (type_permissions doc) @ 0 in
  perm_rule perm =? Exclusion (This "viewer") (This "banned").

Definition parse_arrow_permission : bool :=
  unwrap schema := parse
    "definition object { relation parent: category permission can_view = parent->can_view }" in
  unwrap_some obj := get_type schema "object" in
  at_index perm := (type_permissions obj) @ 0 in
  perm_rule perm =? Arrow "parent" "can_view".

Definition parse_union_with_arrow : bool :=
  unwrap schema := parse
    "definition object { relation viewer: user relation parent: category permission can_view = viewer + parent->can_view }" in
  unwrap_some obj := get_type schema "object" in
  at_index perm := (type_permissions obj) @ 0 in
  perm_rule perm =? Union [This "viewer"; Arrow "parent" "can_view"].

Definition parse_multiple_definitions : bool :=
  unwrap schema := parse "
            definition user {}
            definition group {
                relation member: user
            }
        " in
  (length (schema_types schema) =? 2) &&
  at_index t0 := (schema_types schema) @ 0 in
  at_index t1 := (schema_types schema) @ 1 in
  (type_name t0 =? "user") && (type_name t1 =? "group").

Definition parse_full_example_from_plan : bool :=
  unwrap schema := parse "
            definition user {}

            definition group {
                relation member: user | group#member
            }

            definition category {
                relation owner: user
                relation editor: user | group#member
                relation viewer: user | group#member

                permission can_edit = owner + editor
                permission can_view = can_edit + viewer
            }

            definition object {
                relation parent: category
                relation owner: user
                relation editor: user | group#member
                relation viewer: user | group#member

                permission can_edit = owner + editor + parent->can_edit
                permission can_view = can_edit + viewer + parent->can_view
            }
        " in
  (length (schema_types schema) =? 4) &&
  unwrap_some category := get_type schema "category" in
  (length (type_relations category) =? 3) && (length (type_permissions category) =? 2) &&
  unwrap_some object := get_type schema "object" in
  (length (type_relations object) =? 4) && (length (type_permissions object) =? 2) &&
  at_index can_edit := (type_permissions object) @ 0 in
  perm_rule can_edit =? Union [This "owner"; This "editor"; Arrow "parent" "can_edit"].

Definition reject_mixed_operators : bool :=
  unwrap_err e := parse
    "definition doc { relation a: user relation b: user relation c: user permission p = a + b & c }" in
  e =? MixedOperators.

Definition parse_empty_schema : bool :=
  unwrap schema := parse "" in schema_types schema =? [].

Definition parse_comments_and_whitespace : bool :=
  unwrap schema := parse "
            // This is a comment
            definition user {}

            // Another comment
            definition group {
                // relation comment
                relation member: user
            }
        " in
  length (schema_types schema) =? 2.

Definition invalid_syntax_produces_error : bool :=
  unwrap_err e := parse "not valid syntax at all" in
  match e with Syntax msg => msg <>? EmptyString | _ => false end.

Definition reject_multiple_exclusion_operators : bool :=
  unwrap_err e := parse
    "definition doc { relation a: user relation b: user relation c: user permission p = a - b - c }" in
  e =? MultipleExclusions.

Definition reject_duplicate_type : bool :=
  unwrap_err e := parse "definition user {} definition user {}" in e =? DuplicateType "user".

Definition reject_duplicate_relation : bool :=
  unwrap_err e := parse "definition doc { relation owner: user relation owner: user }" in
  e =? DuplicateRelation "doc" "owner".

Definition reject_duplicate_permission : bool :=
  unwrap_err e := parse
    "definition doc { relation owner: user permission can_edit = owner permission can_edit = owner }" in
  e =? DuplicatePermission "doc" "can_edit".

Definition tests : suite :=
  [("parse_empty_definition", parse_empty_definition);
   ("parse_single_direct_relation", parse_single_direct_relation);
   ("parse_userset_subject_type", parse_userset_subject_type);
   ("parse_union_permission", parse_union_permission);
   ("parse_intersection_permission", parse_intersection_permission);
   ("parse_exclusion_permission", parse_exclusion_permission);
   ("parse_arrow_permission", parse_arrow_permission);
   ("parse_union_with_arrow", parse_union_with_arrow);
   ("parse_multiple_definitions", parse_multiple_definitions);
   ("parse_full_example_from_plan", parse_full_example_from_plan);
   ("reject_mixed_operators", reject_mixed_operators);
   ("parse_empty_schema", parse_empty_schema);
   ("parse_comments_and_whitespace", parse_comments_and_whitespace);
   ("invalid_syntax_produces_error", invalid_syntax_produces_error);
   ("reject_multiple_exclusion_operators", reject_multiple_exclusion_operators);
   ("reject_duplicate_type", reject_duplicate_type);
   ("reject_duplicate_relation", reject_duplicate_relation);
   ("reject_duplicate_permission", reject_duplicate_permission)].

Lemma parser_tests_pass : failing tests = [].
Proof. vm_compute. reflexivity. Qed.
End ParserTests.

(** ** [schema/validation.rs] *)
Module ValidationTests.

Definition parsed (text : string) : result ParseError Schema := parse_schema grammar_pest text.
Definition limits_with (max_types max_rels max_perms : nat) : SchemaLimits :=
  mk_SchemaLimits max_types max_rels max_perms.

(** [detect_breaking_changes(&parse_schema(old).unwrap(), &parse_schema(new).unwrap())] *)
Definition changes_are (old new : string) (changes : list BreakingChange) : bool :=
  unwrap old := parsed old in unwrap new := parsed new in
  detect_breaking_changes old new =? changes.

Definition schema_within_limits_passes : bool :=
  unwrap schema := parsed "definition user {} definition group { relation member: user }" in
  validate_schema_limits schema limits_default =? Ok tt.

Definition exceeding_max_types_rejected : bool :=
  unwrap schema := parsed "definition a {} definition b {} definition c {}" in
  unwrap_err errors := validate_schema_limits schema (limits_with 2 30 30) in
  errors =? [TooManyTypes 3 2].

Definition exceeding_max_relations_rejected : bool :=
  unwrap schema := parsed "definition doc { relation a: user relation b: user relation c: user }" in
  unwrap_err errors := validate_schema_limits schema (limits_with 50 2 30) in
  errors =? [TooManyRelations "doc" 3 2].

Definition exceeding_max_permissions_rejected : bool :=
  unwrap schema := parsed
    "definition doc { relation a: user permission p1 = a permission p2 = a permission p3 = a }" in
  unwrap_err errors := validate_schema_limits schema (limits_with 50 30 2) in
  errors =? [TooManyPermissions "doc" 3 2].

Definition adding_new_type_is_safe : bool :=
  changes_are "definition user {}" "definition user {} definition group { relation member: user }" [].

Definition removing_type_is_breaking : bool :=
  changes_are "definition user {} definition group { relation member: user }" "definition user {}"
    [TypeRemoved "group"].

Definition removing_relation_is_breaking : bool :=
  changes_are "definition doc { relation owner: user relation editor: user }"
    "definition doc { relation owner: user }" [RelationRemoved "doc" "editor"].

Definition adding_relation_is_safe : bool :=
  changes_are "definition doc { relation owner: user }"
    "definition doc { relation owner: user relation editor: user }" [].

Definition changing_subject_types_is_breaking : bool :=
  changes_are "definition doc { relation editor: user | group#member }" "definition doc { relation editor: user }"
    [SubjectTypesChanged "doc" "editor"].

Definition changing_permission_rule_is_not_breaking : bool :=
  changes_are "definition doc { relation owner: user relation editor: user permission can_edit = owner }"
    "definition doc { relation owner: user relation editor: user permission can_edit = owner + editor }" [].

Definition adding_permission_is_safe : bool :=
  changes_are "definition doc { relation owner: user }"
    "definition doc { relation owner: user permission can_edit = owner }" [].

Definition removing_permission_is_not_breaking : bool :=
  changes_are "definition doc { relation owner: user permission can_edit = owner }"
    "definition doc { relation owner: user }" [].

Definition tests : suite :=
  [("schema_within_limits_passes", schema_within_limits_passes);
   ("exceeding_max_types_rejected", exceeding_max_types_rejected);
   ("exceeding_max_relations_rejected", exceeding_max_relations_rejected);
   ("exceeding_max_permissions_rejected", exceeding_max_permissions_rejected);
   ("adding_new_type_is_safe", adding_new_type_is_safe);
   ("removing_type_is_breaking", removing_type_is_breaking);
   ("removing_relation_is_breaking", removing_relation_is_breaking);
   ("adding_relation_is_safe", adding_relation_is_safe);
   ("changing_subject_types_is_breaking", changing_subject_types_is_breaking);
   ("changing_permission_rule_is_not_breaking", changing_permission_rule_is_not_breaking);
   ("adding_permission_is_safe", adding_permission_is_safe);
   ("removing_permission_is_not_breaking", removing_permission_is_not_breaking)].

Lemma validation_tests_pass : failing tests = [].
Proof. vm_compute. reflexivity. Qed.
End ValidationTests.
