(* ===== verification/StorageTests.v ===== *)
(** * The tests of the stores ([memory.rs], [gc.rs], [adapter.rs])

    A store is its state; identifiers of tenants are numbers. *)
From stdpp Require Import base tactics list strings gmap.
From S2P Require Import Prelude Tuples Schema Parser Grammar GrammarTheorems Engine Storage Memory Gc Suite.
#[local] Open Scope test_scope.

Definition make_write (obj_type obj_id relation : string) (subj : SubjectRef) : TupleWrite :=
  mk_TupleWrite (mk_ObjectRef obj_type obj_id) relation subj.
Definition direct_user (name : string) : SubjectRef := direct "user" name.
Definition userset_group (group rel : string) : SubjectRef := userset "group" group rel.

(** [InMemoryStore::new()], and the reads most tests make. *)
Definition new_store : InnerState := default_state.
Definition read_all (store : InnerState) : result StorageError (list Tuple) := mem_read store filter_default None None.

(** [TupleFilter { object_type: Some("doc"), object_id: Some(id), ..Default::default() }] *)
Definition doc_filter (id : string) : TupleFilter := mk_TupleFilter (Some "doc") (Some id) None None None None.

Definition doc_viewer (id user : string) : TupleWrite := make_write "doc" id "viewer" (direct_user user).
Definition ids (l : list Tuple) : list string := object_id ∘ object <$> l.

(** ** [memory.rs] *)
Module MemoryTests.

Definition fresh_store_snapshot_is_zero : bool :=
  unwrap token := mem_snapshot new_store in token_value token =? 0%Z.

Definition write_returns_incrementing_tokens : bool :=
  unwrap_in store, t1 := mem_write [doc_viewer "1" "a"] [] new_store in
  unwrap_in store, t2 := mem_write [doc_viewer "2" "b"] [] store in
  (token_value t1 =? 1%Z) && (token_value t2 =? 2%Z).

Definition written_tuple_can_be_read_back : bool :=
  unwrap_in store, _ := mem_write [make_write "doc" "readme" "viewer" (direct_user "john")] [] new_store in
  unwrap results := read_all store in
  (length results =? 1) &&
  at_index t := results @ 0 in
  (object t =? mk_ObjectRef "doc" "readme") && (relation t =? "viewer") && (subject t =? direct "user" "john").

Definition empty_filter_returns_all_active_tuples : bool :=
  unwrap_in store, _ :=
    mem_write [doc_viewer "1" "a"; make_write "doc" "2" "editor" (direct_user "b")] [] new_store in
  unwrap results := read_all store in length results =? 2.

Definition specific_filter_matches_only_matching_tuples : bool :=
  unwrap_in store, _ :=
    mem_write [doc_viewer "1" "a"; make_write "doc" "2" "editor" (direct_user "b")] [] new_store in
  let filter := mk_TupleFilter None None (Some "editor") None None None in
  unwrap results := mem_read store filter None None in
  (length results =? 1) && at_index t := results @ 0 in relation t =? "editor".

Definition multiple_writes_increment_tokens : bool :=
  unwrap_in store, t1 := mem_write [doc_viewer "1" "a"] [] new_store in
  unwrap_in store, t2 := mem_write [doc_viewer "2" "b"] [] store in
  unwrap_in store, t3 := mem_write [doc_viewer "3" "c"] [] store in
  (token_value t1 <? token_value t2)%Z && (token_value t2 <? token_value t3)%Z.

Definition snapshot_consistent_read : bool :=
  unwrap_in store, snap1 := mem_write [doc_viewer "1" "a"] [] new_store in
  unwrap_in store, _ := mem_write [doc_viewer "2" "b"] [] store in
  unwrap results := mem_read store filter_default (Some snap1) None in
  ids results =? ["1"].

Definition deleted_tuples_invisible_after_deletion : bool :=
  unwrap_in store, _ := mem_write [doc_viewer "1" "a"] [] new_store in
  unwrap_in store, _ := mem_write [] [doc_filter "1"] store in
  unwrap results := read_all store in results =? [].

Definition deleted_tuples_visible_at_pre_deletion_snapshot : bool :=
  unwrap_in store, snap := mem_write [doc_viewer "1" "a"] [] new_store in
  unwrap_in store, _ := mem_write [] [doc_filter "1"] store in
  unwrap results := mem_read store filter_default (Some snap) None in length results =? 1.

Definition duplicate_tuple_in_same_write_is_idempotent : bool :=
  let w := doc_viewer "1" "a" in
  unwrap_in store, _ := mem_write [w; w] [] new_store in
  unwrap tuples := read_all store in length tuples =? 1.

Definition duplicate_of_existing_tuple_is_idempotent : bool :=
  let w := doc_viewer "1" "a" in
  unwrap_in store, _ := mem_write [w] [] new_store in
  unwrap_in store, _ := mem_write [w] [] store in
  unwrap tuples := read_all store in length tuples =? 1.

Definition rewrite_deleted_tuple_creates_new_version : bool :=
  let w := doc_viewer "1" "a" in
  unwrap_in store, _ := mem_write [w] [] new_store in
  unwrap_in store, _ := mem_write [] [doc_filter "1"] store in
  unwrap_in store, _ := mem_write [w] [] store in
  unwrap results := read_all store in length results =? 1.

Definition read_rejects_snapshot_ahead_of_current : bool :=
  unwrap_err e := mem_read new_store filter_default (Some (mk_SnapshotToken 999)) None in
  match e with SnapshotAhead _ _ => true | _ => false end.

Definition write_and_delete_atomic_same_tx : bool :=
  unwrap_in store, snap_before := mem_write [doc_viewer "1" "a"] [] new_store in
  unwrap_in store, snap_after := mem_write [doc_viewer "2" "b"] [doc_filter "1"] store in
  unwrap at_before := mem_read store filter_default (Some snap_before) None in
  unwrap at_after := mem_read store filter_default (Some snap_after) None in
  (ids at_before =? ["1"]) && (ids at_after =? ["2"]).

Definition filter_subject_relation_none_matches_direct : bool :=
  unwrap_in store, _ := mem_write
    [doc_viewer "1" "a"; make_write "doc" "1" "viewer" (userset_group "eng" "member")] [] new_store in
  let filter := mk_TupleFilter None None None None None (Some None) in
  unwrap results := mem_read store filter None None in
  (length results =? 1) && at_index t := results @ 0 in subject_relation (subject t) =? None.

Definition filter_subject_relation_some_matches_usersets : bool :=
  unwrap_in store, _ := mem_write
    [doc_viewer "1" "a"; make_write "doc" "1" "viewer" (userset_group "eng" "member")] [] new_store in
  let filter := mk_TupleFilter None None None None None (Some (Some "member")) in
  unwrap results := mem_read store filter None None in
  (length results =? 1) && at_index t := results @ 0 in subject_relation (subject t) =? Some "member".

(** [store.write(writes, &[]).await.unwrap()] and a read of everything,
    through a handle. *)
Definition handle_write (handle : nat) (writes : list TupleWrite) (factory : @FactoryState positive _ _)
    : option (@FactoryState positive _ _) :=
  match with_handle handle (mem_write writes []) factory with Some (Ok _, factory) => Some factory | _ => None end.
Definition handle_read (handle : nat) (factory : @FactoryState positive _ _) : option (list Tuple) :=
  match with_handle handle (λ s, (read_all s, s)) factory with Some (Ok l, _) => Some l | _ => None end.

Definition factory_returns_same_store_for_same_tenant : bool :=
  let tenant := mk_TenantId 1%positive in
  let '(store1, factory) := for_tenant tenant factory_new in
  unwrap_some factory := handle_write store1 [doc_viewer "1" "a"] factory in
  let '(store2, factory) := for_tenant tenant factory in
  unwrap_some results := handle_read store2 factory in length results =? 1.

Definition factory_returns_different_stores_for_different_tenants : bool :=
  let '(store_a, factory) := for_tenant (mk_TenantId 1%positive) factory_new in
  let '(store_b, factory) := for_tenant (mk_TenantId 2%positive) factory in
  unwrap_some factory := handle_write store_a [doc_viewer "1" "a"] factory in
  unwrap_some results_b := handle_read store_b factory in results_b =? [].

Definition stores_isolated_across_tenants : bool :=
  let '(store_a, factory) := for_tenant (mk_TenantId 1%positive) factory_new in
  let '(store_b, factory) := for_tenant (mk_TenantId 2%positive) factory in
  unwrap_some factory := handle_write store_a [doc_viewer "1" "a"] factory in
  unwrap_some factory := handle_write store_b
    [make_write "doc" "2" "editor" (direct_user "b"); make_write "doc" "3" "editor" (direct_user "c")] factory in
  unwrap_some results_a := handle_read store_a factory in
  unwrap_some results_b := handle_read store_b factory in
  (length results_a =? 1) && (length results_b =? 2).

Definition fresh_store_has_no_schema : bool :=
  unwrap schema := mem_read_schema new_store in schema =? None.

Definition write_schema_stores_definition : bool :=
  unwrap_in store, _ := mem_write_schema "definition user {}" new_store in
  unwrap schema := mem_read_schema store in schema =? Some "definition user {}".

Definition idempotent_write_still_increments_snapshot : bool :=
  unwrap_in store, _ := mem_write [doc_viewer "1" "a"] [] new_store in
  unwrap snap_before := mem_snapshot store in
  unwrap_in store, _ := mem_write [doc_viewer "1" "a"] [] store in
  unwrap snap_after := mem_snapshot store in
  (token_value snap_before <? token_value snap_after)%Z.

Definition touch_existing_with_delete_in_same_write : bool :=
  unwrap_in store, _ := mem_write [doc_viewer "1" "a"; doc_viewer "2" "b"] [] new_store in
  unwrap_in store, _ := mem_write [doc_viewer "2" "b"] [doc_filter "1"] store in
  unwrap results := read_all store in ids results =? ["2"].

Definition write_rejects_empty_delete_filter : bool :=
  match mem_write [] [filter_default] new_store with (Err EmptyDeleteFilter, _) => true | _ => false end.

Definition three_docs : list TupleWrite := [doc_viewer "1" "a"; doc_viewer "2" "b"; doc_viewer "3" "c"].

Definition read_with_limit_caps_results : bool :=
  unwrap_in store, _ := mem_write three_docs [] new_store in
  unwrap results := mem_read store filter_default None (Some 2) in length results =? 2.

Definition list_object_ids_returns_distinct_ids : bool :=
  unwrap_in store, _ := mem_write
    [make_write "doc" "readme" "viewer" (direct_user "a"); make_write "doc" "readme" "editor" (direct_user "b");
     make_write "doc" "design" "viewer" (direct_user "a")] [] new_store in
  unwrap ids := mem_list_object_ids store "doc" None None in ids =? ["design"; "readme"].

Definition list_object_ids_filters_by_snapshot : bool :=
  unwrap_in store, snap := mem_write [doc_viewer "1" "a"] [] new_store in
  unwrap_in store, _ := mem_write [doc_viewer "2" "b"] [] store in
  unwrap ids := mem_list_object_ids store "doc" (Some snap) None in ids =? ["1"].

Definition list_object_ids_respects_limit : bool :=
  unwrap_in store, _ := mem_write three_docs [] new_store in
  unwrap ids := mem_list_object_ids store "doc" None (Some 2) in length ids =? 2.

Definition list_object_ids_excludes_deleted : bool :=
  unwrap_in store, _ := mem_write [doc_viewer "1" "a"; doc_viewer "2" "b"] [] new_store in
  unwrap_in store, _ := mem_write [] [doc_filter "1"] store in
  unwrap ids := mem_list_object_ids store "doc" None None in ids =? ["2"].

Definition list_object_ids_empty_for_unknown_type : bool :=
  unwrap_in store, _ := mem_write [doc_viewer "1" "a"] [] new_store in
  unwrap ids := mem_list_object_ids store "folder" None None in ids =? [].

Definition list_object_ids_rejects_snapshot_ahead : bool :=
  unwrap_err e := mem_list_object_ids new_store "doc" (Some (mk_SnapshotToken 999)) None in
  match e with SnapshotAhead _ _ => true | _ => false end.

Definition write_schema_overwrites_previous : bool :=
  unwrap_in store, _ := mem_write_schema "definition user {}" new_store in
  unwrap_in store, _ := mem_write_schema "definition group { relation member: user }" store in
  unwrap schema := mem_read_schema store in
  schema =? Some "definition group { relation member: user }".

Definition tests : suite :=
  [("fresh_store_snapshot_is_zero", fresh_store_snapshot_is_zero);
   ("write_returns_incrementing_tokens", write_returns_incrementing_tokens);
   ("written_tuple_can_be_read_back", written_tuple_can_be_read_back);
   ("empty_filter_returns_all_active_tuples", empty_filter_returns_all_active_tuples);
   ("specific_filter_matches_only_matching_tuples", specific_filter_matches_only_matching_tuples);
   ("multiple_writes_increment_tokens", multiple_writes_increment_tokens);
   ("snapshot_consistent_read", snapshot_consistent_read);
   ("deleted_tuples_invisible_after_deletion", deleted_tuples_invisible_after_deletion);
   ("deleted_tuples_visible_at_pre_deletion_snapshot", deleted_tuples_visible_at_pre_deletion_snapshot);
   ("duplicate_tuple_in_same_write_is_idempotent", duplicate_tuple_in_same_write_is_idempotent);
   ("duplicate_of_existing_tuple_is_idempotent", duplicate_of_existing_tuple_is_idempotent);
   ("rewrite_deleted_tuple_creates_new_version", rewrite_deleted_tuple_creates_new_version);
   ("read_rejects_snapshot_ahead_of_current", read_rejects_snapshot_ahead_of_current);
   ("write_and_delete_atomic_same_tx", write_and_delete_atomic_same_tx);
   ("filter_subject_relation_none_matches_direct", filter_subject_relation_none_matches_direct);
   ("filter_subject_relation_some_matches_usersets", filter_subject_relation_some_matches_usersets);
   ("factory_returns_same_store_for_same_tenant", factory_returns_same_store_for_same_tenant);
   ("factory_returns_different_stores_for_different_tenants", factory_returns_different_stores_for_different_tenants);
   ("stores_isolated_across_tenants", stores_isolated_across_tenants);
   ("fresh_store_has_no_schema", fresh_store_has_no_schema);
   ("write_schema_stores_definition", write_schema_stores_definition);
   ("idempotent_write_still_increments_snapshot", idempotent_write_still_increments_snapshot);
   ("touch_existing_with_delete_in_same_write", touch_existing_with_delete_in_same_write);
   ("write_rejects_empty_delete_filter", write_rejects_empty_delete_filter);
   ("read_with_limit_caps_results", read_with_limit_caps_results);
   ("list_object_ids_returns_distinct_ids", list_object_ids_returns_distinct_ids);
   ("list_object_ids_filters_by_snapshot", list_object_ids_filters_by_snapshot);
   ("list_object_ids_respects_limit", list_object_ids_respects_limit);
   ("list_object_ids_excludes_deleted", list_object_ids_excludes_deleted);
   ("list_object_ids_empty_for_unknown_type", list_object_ids_empty_for_unknown_type);
   ("list_object_ids_rejects_snapshot_ahead", list_object_ids_rejects_snapshot_ahead);
   ("write_schema_overwrites_previous", write_schema_overwrites_previous)].

Lemma memory_tests_pass : failing tests = [].
Proof. vm_compute. reflexivity. Qed.
End MemoryTests.

(** ** [gc.rs] *)
Module GcTests.

Definition gc_removes_orphaned_tuples_from_removed_type : bool :=
  unwrap_in store, _ := mem_write
    [make_write "doc" "1" "viewer" (direct "user" "a"); make_write "old_type" "1" "rel" (direct "user" "b")]
    [] new_store in
  unwrap schema := parse_schema grammar_pest "definition user {} definition doc { relation viewer: user }" in
  unwrap_in store, removed := run_gc_cycle (λ _ s, s) schema store in
  (removed =? 1) &&
  unwrap remaining := read_all store in
  (length remaining =? 1) && at_index t := remaining @ 0 in object_type (object t) =? "doc".

Definition gc_removes_orphaned_tuples_from_removed_relation : bool :=
  unwrap_in store, _ := mem_write
    [make_write "doc" "1" "viewer" (direct "user" "a"); make_write "doc" "2" "old_rel" (direct "user" "b")]
    [] new_store in
  unwrap schema := parse_schema grammar_pest "definition user {} definition doc { relation viewer: user }" in
  unwrap_in store, removed := run_gc_cycle (λ _ s, s) schema store in
  (removed =? 1) &&
  unwrap remaining := read_all store in
  (length remaining =? 1) && at_index t := remaining @ 0 in relation t =? "viewer".

Definition gc_leaves_valid_tuples_untouched : bool :=
  unwrap_in store, _ := mem_write
    [make_write "doc" "1" "viewer" (direct "user" "a"); make_write "doc" "2" "editor" (direct "user" "b")]
    [] new_store in
  unwrap schema := parse_schema grammar_pest
    "definition user {} definition doc { relation viewer: user relation editor: user }" in
  unwrap_in store, removed := run_gc_cycle (λ _ s, s) schema store in
  (removed =? 0) &&
  unwrap remaining := read_all store in length remaining =? 2.

Definition gc_on_empty_store_returns_zero : bool :=
  unwrap schema := parse_schema grammar_pest "definition user {}" in
  unwrap_in store, removed := run_gc_cycle (λ _ s, s) schema new_store in removed =? 0.

Definition tests : suite :=
  [("gc_removes_orphaned_tuples_from_removed_type", gc_removes_orphaned_tuples_from_removed_type);
   ("gc_removes_orphaned_tuples_from_removed_relation", gc_removes_orphaned_tuples_from_removed_relation);
   ("gc_leaves_valid_tuples_untouched", gc_leaves_valid_tuples_untouched);
   ("gc_on_empty_store_returns_zero", gc_on_empty_store_returns_zero)].

Lemma gc_tests_pass : failing tests = [].
Proof. vm_compute. reflexivity. Qed.
End GcTests.

(** ** [adapter.rs] *)
Module AdapterTests.

Definition readme_write (relation user : string) : TupleWrite :=
  mk_TupleWrite (mk_ObjectRef "document" "readme") relation (direct "user" user).

Definition adapter_reads_tuples_from_store : bool :=
  unwrap_in store, _ := mem_write [readme_write "viewer" "alice"] [] new_store in
  let adapter := store_tuple_reader store in
  let filter := mk_TupleFilter (Some "document") None None None None None in
  unwrap tuples := adapter filter None in
  (length tuples =? 1) &&
  at_index t := tuples @ 0 in (object_type (object t) =? "document") && (subject_id (subject t) =? "alice").

Definition adapter_maps_storage_error_to_check_error : bool :=
  let adapter := store_tuple_reader new_store in
  let filter := mk_TupleFilter (Some "document") None None None None None in
  unwrap_err err := adapter filter (Some (mk_SnapshotToken 999)) in
  match err with Engine.StorageError msg => contains msg "ahead" | _ => false end.

Definition adapter_passes_snapshot_token : bool :=
  unwrap_in store, token := mem_write [readme_write "viewer" "alice"] [] new_store in
  unwrap_in store, _ := mem_write [readme_write "editor" "bob"] [] store in
  let adapter := store_tuple_reader store in
  unwrap tuples := adapter filter_default (Some token) in
  (length tuples =? 1) && at_index t := tuples @ 0 in subject_id (subject t) =? "alice".

Definition tests : suite :=
  [("adapter_reads_tuples_from_store", adapter_reads_tuples_from_store);
   ("adapter_maps_storage_error_to_check_error", adapter_maps_storage_error_to_check_error);
   ("adapter_passes_snapshot_token", adapter_passes_snapshot_token)].

Lemma adapter_tests_pass : failing tests = [].
Proof. vm_compute. reflexivity. Qed.
End AdapterTests.
