(* ===== verification/ServiceTests.v ===== *)
(** * The tests of the authorization service ([service.rs])

    A service over the in-memory stores, with caches that never forget; the
    identifiers of tenants are numbers.  The counting factory of the tests answers
    as the one it wraps, so only the tests that look at its counts use one.  The
    assertions on tracing spans have no counterpart in the model. *)
From stdpp Require Import base tactics list strings gmap.
From S2P Require Import Prelude Tuples Schema Validation Parser Grammar GrammarTheorems Engine Expand.
From S2P Require Import Storage Memory Cache Metrics Service Concurrent Suite.
#[local] Open Scope test_scope.

Abbreviation TestService :=
  (@AuthzService positive (@FactoryState positive _ _) (gmap (TenantId positive) Schema)
     (gmap (CheckCacheKey positive) bool)).
Abbreviation tenant := (TenantId positive).

(** The lines of a text. *)
Definition lines (l : list string) : string := join newline l.

Module AuthzTests.

Definition SCHEMA : string := lines [
  "";
  "        definition user {}";
  "";
  "        definition document {";
  "            relation owner: user";
  "            relation editor: user";
  "            relation viewer: user";
  "";
  "            permission can_edit = owner + editor";
  "            permission can_view = can_edit + viewer";
  "        }";
  "    "].

Definition make_service : TestService * tenant :=
  (mk_AuthzService factory_new ∅ ∅ None [], mk_TenantId 1%positive).

(** The methods of the service with its configuration, [service.method(..)]. *)
Definition service_write_schema (service : TestService) (tenant_id : tenant) (definition : string) (force : bool) :=
  write_schema grammar_pest limits_default tenant_id definition force service.
Definition service_check (service : TestService) (tenant_id : tenant) (input : CheckPermissionInput) :=
  check_permission grammar_pest engine_config_default tenant_id input service.
Definition service_read (service : TestService) (tenant_id : tenant) (filter : TupleFilter) (c : Consistency) :=
  read_relationships tenant_id filter c None service.
Definition service_expand (service : TestService) (tenant_id : tenant) (input : ExpandPermissionInput) :=
  expand_permission_tree grammar_pest engine_config_default tenant_id input service.
Definition service_lookup_subjects (service : TestService) (tenant_id : tenant) (input : LookupSubjectsInput) :=
  lookup_subjects grammar_pest engine_config_default tenant_id input service.
Definition service_lookup_resources (service : TestService) (tenant_id : tenant) (input : LookupResourcesInput) :=
  lookup_resources grammar_pest engine_config_default tenant_id input service.

(** [factory.for_tenant(&tenant).snapshot()] *)
Definition store_snapshot_of (service : TestService) (tenant_id : tenant) : result StorageError SnapshotToken :=
  mem_snapshot (tenant_state tenant_id (factory service)).

Definition setup_schema (service : TestService) (tenant_id : tenant) :=
  service_write_schema service tenant_id SCHEMA false.

Definition write_tuple (service : TestService) (tenant_id : tenant)
    (object_type object_id relation subject_type subject_id : string) :=
  write_relationships tenant_id
    [mk_TupleWrite (mk_ObjectRef object_type object_id) relation (direct subject_type subject_id)] [] service.

Definition make_check_input (object_type object_id permission subject_type subject_id : string)
    (consistency : Consistency) : CheckPermissionInput :=
  mk_CheckPermissionInput object_type object_id permission subject_type subject_id consistency.

(** The check most tests make. *)
Definition alice_can_view (c : Consistency) : CheckPermissionInput :=
  make_check_input "document" "readme" "can_view" "user" "alice" c.
Definition alice_views (service : TestService) (tenant_id : tenant) :=
  write_tuple service tenant_id "document" "readme" "viewer" "user" "alice".

Definition check_permission_grants_direct_relation : bool :=
  let '(service, tenant_id) := make_service in
  unwrap_in service, _ := setup_schema service tenant_id in
  unwrap_in service, _ := write_tuple service tenant_id "document" "readme" "viewer" "user" "alice" in
  unwrap_in service, result := service_check service tenant_id
    (mk_CheckPermissionInput "document" "readme" "can_view" "user" "alice" MinimizeLatency) in
  co_allowed result.

Definition check_permission_denies_when_no_relation : bool :=
  let '(service, tenant_id) := make_service in
  unwrap_in service, _ := setup_schema service tenant_id in
  unwrap_in service, result := service_check service tenant_id
    (mk_CheckPermissionInput "document" "readme" "can_view" "user" "alice" MinimizeLatency) in
  negb (co_allowed result).

Definition check_permission_unknown_type_returns_error : bool :=
  let '(service, tenant_id) := make_service in
  unwrap_in service, _ := setup_schema service tenant_id in
  negb (is_ok (service_check service tenant_id
    (mk_CheckPermissionInput "nonexistent" "x" "view" "user" "alice" MinimizeLatency)).1).

Definition write_and_read_relationships_round_trip : bool :=
  let '(service, tenant_id) := make_service in
  unwrap_in service, token := write_tuple service tenant_id "document" "readme" "viewer" "user" "alice" in
  let filter := mk_TupleFilter (Some "document") None None None None None in
  unwrap_in service, output := service_read service tenant_id filter MinimizeLatency in
  (length (rro_tuples output) =? 1) &&
  (at_index t := (rro_tuples output) @ 0 in subject_id (subject t) =? "alice") && (0 <? token_value token)%Z.

Definition read_relationships_respects_consistency : bool :=
  let '(service, tenant_id) := make_service in
  unwrap_in service, token := write_tuple service tenant_id "document" "readme" "viewer" "user" "alice" in
  unwrap_in service, _ := write_tuple service tenant_id "document" "readme" "editor" "user" "bob" in
  unwrap_in service, output := service_read service tenant_id filter_default (AtExactSnapshot token) in
  length (rro_tuples output) =? 1.

Definition read_relationships_returns_snapshot_with_full_consistency : bool :=
  let '(service, tenant_id) := make_service in
  unwrap_in service, _ := write_tuple service tenant_id "document" "readme" "viewer" "user" "alice" in
  unwrap_in service, output := service_read service tenant_id filter_default FullConsistency in
  unwrap_some snapshot := rro_snapshot output in (0 <? token_value snapshot)%Z.

Definition read_relationships_returns_no_snapshot_with_minimize_latency : bool :=
  let '(service, tenant_id) := make_service in
  unwrap_in service, _ := write_tuple service tenant_id "document" "readme" "viewer" "user" "alice" in
  unwrap_in service, output := service_read service tenant_id filter_default MinimizeLatency in
  rro_snapshot output =? None.

Definition write_schema_stores_and_reads : bool :=
  let '(service, tenant_id) := make_service in
  unwrap_in service, _ := service_write_schema service tenant_id SCHEMA false in
  unwrap_in service, schema_text := read_schema tenant_id service in
  unwrap_some text := schema_text in contains text "document".

Definition write_schema_rejects_breaking_changes_without_force : bool :=
  let '(service, tenant_id) := make_service in
  unwrap_in service, _ := service_write_schema service tenant_id SCHEMA false in
  let breaking_schema := "definition user {}" in
  match service_write_schema service tenant_id breaking_schema false with
  | (Err (ApiBreakingChanges _), _) => true
  | _ => false
  end.

Definition write_schema_accepts_breaking_changes_with_force : bool :=
  let '(service, tenant_id) := make_service in
  unwrap_in service, _ := service_write_schema service tenant_id SCHEMA false in
  let breaking_schema := "definition user {}" in
  unwrap_in service, result := service_write_schema service tenant_id breaking_schema true in
  breaking_changes_overridden result &&
  unwrap_in service, read := read_schema tenant_id service in
  unwrap_some stored := read in negb (contains stored "document").

Definition read_schema_returns_none_when_empty : bool :=
  let '(service, tenant_id) := make_service in
  unwrap_in service, result := read_schema tenant_id service in result =? None.

Definition expand_permission_tree_returns_tree : bool :=
  let '(service, tenant_id) := make_service in
  unwrap_in service, _ := setup_schema service tenant_id in
  unwrap_in service, _ := write_tuple service tenant_id "document" "readme" "viewer" "user" "alice" in
  unwrap_in service, _ := write_tuple service tenant_id "document" "readme" "owner" "user" "bob" in
  unwrap_in service, output := service_expand service tenant_id
    (mk_ExpandPermissionInput "document" "readme" "can_view" MinimizeLatency) in
  match eo_tree output with TreeUnion _ => true | _ => false end.

Definition lookup_subjects_returns_matching_subjects : bool :=
  let '(service, tenant_id) := make_service in
  unwrap_in service, _ := setup_schema service tenant_id in
  unwrap_in service, _ := write_tuple service tenant_id "document" "readme" "viewer" "user" "alice" in
  unwrap_in service, _ := write_tuple service tenant_id "document" "readme" "owner" "user" "bob" in
  unwrap_in service, output := service_lookup_subjects service tenant_id
    (mk_LookupSubjectsInput "document" "readme" "can_view" "user" MinimizeLatency) in
  let ids := subject_id <$> so_subjects output in
  bool_decide ("alice" ∈ ids) && bool_decide ("bob" ∈ ids).

Definition lookup_resources_returns_accessible_resources : bool :=
  let '(service, tenant_id) := make_service in
  unwrap_in service, _ := setup_schema service tenant_id in
  unwrap_in service, _ := write_tuple service tenant_id "document" "readme" "viewer" "user" "alice" in
  unwrap_in service, _ := write_tuple service tenant_id "document" "design" "viewer" "user" "alice" in
  unwrap_in service, _ := write_tuple service tenant_id "document" "secret" "viewer" "user" "bob" in
  unwrap_in service, output := service_lookup_resources service tenant_id
    (mk_LookupResourcesInput "document" "can_view" "user" "alice" MinimizeLatency None) in
  bool_decide ("readme" ∈ ro_resource_ids output) && bool_decide ("design" ∈ ro_resource_ids output) &&
  bool_decide ("secret" ∉ ro_resource_ids output).

Definition lookup_resources_respects_limit : bool :=
  let '(service, tenant_id) := make_service in
  unwrap_in service, _ := setup_schema service tenant_id in
  unwrap_in service, _ := write_tuple service tenant_id "document" "doc1" "viewer" "user" "alice" in
  unwrap_in service, _ := write_tuple service tenant_id "document" "doc2" "viewer" "user" "alice" in
  unwrap_in service, _ := write_tuple service tenant_id "document" "doc3" "viewer" "user" "alice" in
  unwrap_in service, output := service_lookup_resources service tenant_id
    (mk_LookupResourcesInput "document" "can_view" "user" "alice" MinimizeLatency (Some 2)) in
  length (ro_resource_ids output) =? 2.

Definition consistency_full_returns_snapshot : bool :=
  let '(service, tenant_id) := make_service in
  unwrap_in service, _ := setup_schema service tenant_id in
  unwrap_in service, _ := write_tuple service tenant_id "document" "readme" "viewer" "user" "alice" in
  unwrap_in service, result := service_check service tenant_id
    (mk_CheckPermissionInput "document" "readme" "can_view" "user" "alice" FullConsistency) in
  co_allowed result && (co_snapshot result <>? None).

Definition check_permission_without_schema_returns_error : bool :=
  let '(service, tenant_id) := make_service in
  match service_check service tenant_id
    (mk_CheckPermissionInput "document" "readme" "can_view" "user" "alice" MinimizeLatency) with
  | (Err SchemaNotFound, _) => true
  | _ => false
  end.

(** ** The caches *)

Definition schema_v1 : string := lines [
  "";
  "            definition user {}";
  "            definition document {";
  "                relation viewer: user";
  "                permission can_view = viewer";
  "            }";
  "        "].
Definition schema_v2 : string := lines [
  "";
  "            definition user {}";
  "            definition document {";
  "                relation viewer: user";
  "                relation editor: user";
  "                permission can_view = viewer + editor";
  "                permission can_edit = editor";
  "            }";
  "        "].

Definition schema_cache_invalidated_on_write_schema : bool :=
  let '(service, tenant_id) := make_service in
  unwrap_in service, _ := service_write_schema service tenant_id schema_v1 false in
  unwrap_in service, _ := write_tuple service tenant_id "document" "readme" "viewer" "user" "alice" in
  unwrap_in service, _ := service_check service tenant_id
    (mk_CheckPermissionInput "document" "readme" "can_view" "user" "alice" MinimizeLatency) in
  unwrap_in service, _ := service_write_schema service tenant_id schema_v2 true in
  unwrap_in service, _ := write_tuple service tenant_id "document" "readme" "editor" "user" "bob" in
  unwrap_in service, result := service_check service tenant_id
    (mk_CheckPermissionInput "document" "readme" "can_edit" "user" "bob" MinimizeLatency) in
  co_allowed result.

Definition schema_a : string := schema_v1.
Definition schema_b : string := lines [
  "";
  "            definition user {}";
  "            definition folder {";
  "                relation reader: user";
  "                permission can_read = reader";
  "            }";
  "        "].

Definition schema_cache_isolated_per_tenant : bool :=
  let '(service, tenant_a) := make_service in
  let tenant_b := mk_TenantId 2%positive in
  unwrap_in service, _ := service_write_schema service tenant_a schema_a false in
  unwrap_in service, _ := service_write_schema service tenant_b schema_b false in
  unwrap_in service, _ := write_tuple service tenant_a "document" "readme" "viewer" "user" "alice" in
  unwrap_in service, _ := write_tuple service tenant_b "folder" "root" "reader" "user" "bob" in
  unwrap_in service, result_a := service_check service tenant_a
    (mk_CheckPermissionInput "document" "readme" "can_view" "user" "alice" MinimizeLatency) in
  co_allowed result_a &&
  unwrap_in service, result_b := service_check service tenant_b
    (mk_CheckPermissionInput "folder" "root" "can_read" "user" "bob" MinimizeLatency) in
  co_allowed result_b &&
  negb (is_ok (service_check service tenant_a
    (mk_CheckPermissionInput "folder" "root" "can_read" "user" "bob" MinimizeLatency)).1).

Definition check_cache_invalidated_on_write_relationships : bool :=
  let '(service, tenant_id) := make_service in
  unwrap_in service, _ := service_write_schema service tenant_id SCHEMA false in
  unwrap_in service, token := alice_views service tenant_id in
  unwrap_in service, result := service_check service tenant_id (alice_can_view (AtExactSnapshot token)) in
  co_allowed result &&
  unwrap_in service, _ := write_tuple service tenant_id "document" "readme" "editor" "user" "bob" in
  unwrap_in service, result2 := service_check service tenant_id (alice_can_view (AtExactSnapshot token)) in
  co_allowed result2.

Definition check_cache_invalidated_on_write_schema : bool :=
  let '(service, tenant_id) := make_service in
  unwrap_in service, _ := service_write_schema service tenant_id SCHEMA false in
  unwrap_in service, token := alice_views service tenant_id in
  unwrap_in service, _ := service_check service tenant_id (alice_can_view (AtExactSnapshot token)) in
  unwrap_in service, _ := service_write_schema service tenant_id SCHEMA true in
  unwrap_in service, result := service_check service tenant_id (alice_can_view (AtExactSnapshot token)) in
  co_allowed result.

Definition check_cache_isolated_per_tenant : bool :=
  let '(service, tenant_id_a) := make_service in
  let tenant_id_b := mk_TenantId 2%positive in
  unwrap_in service, _ := service_write_schema service tenant_id_a SCHEMA false in
  unwrap_in service, _ := service_write_schema service tenant_id_b SCHEMA false in
  unwrap_in service, token_a := alice_views service tenant_id_a in
  unwrap_in service, result_a := service_check service tenant_id_a (alice_can_view (AtExactSnapshot token_a)) in
  co_allowed result_a &&
  unwrap token_b := store_snapshot_of service tenant_id_b in
  unwrap_in service, result_b := service_check service tenant_id_b (alice_can_view (AtExactSnapshot token_b)) in
  negb (co_allowed result_b).

Definition check_cache_different_snapshots_are_separate : bool :=
  let '(service, tenant_id) := make_service in
  unwrap_in service, _ := service_write_schema service tenant_id SCHEMA false in
  unwrap snap1 := store_snapshot_of service tenant_id in
  unwrap_in service, result1 := service_check service tenant_id (alice_can_view (AtExactSnapshot snap1)) in
  negb (co_allowed result1) &&
  unwrap_in service, snap2 := alice_views service tenant_id in
  unwrap_in service, result2 := service_check service tenant_id (alice_can_view (AtExactSnapshot snap2)) in
  co_allowed result2 &&
  unwrap_in service, result1_again := service_check service tenant_id (alice_can_view (AtExactSnapshot snap1)) in
  negb (co_allowed result1_again).

(** ** Snapshot tokens *)

Definition expand_response_includes_snapshot_token : bool :=
  let '(service, tenant_id) := make_service in
  unwrap_in service, _ := setup_schema service tenant_id in
  unwrap_in service, _ := alice_views service tenant_id in
  unwrap_in service, output := service_expand service tenant_id
    (mk_ExpandPermissionInput "document" "readme" "can_view" FullConsistency) in
  eo_snapshot output <>? None.

Definition lookup_resources_response_includes_snapshot_token : bool :=
  let '(service, tenant_id) := make_service in
  unwrap_in service, _ := setup_schema service tenant_id in
  unwrap_in service, _ := alice_views service tenant_id in
  unwrap_in service, output := service_lookup_resources service tenant_id
    (mk_LookupResourcesInput "document" "can_view" "user" "alice" FullConsistency None) in
  (ro_snapshot output <>? None) && bool_decide ("readme" ∈ ro_resource_ids output).

Definition lookup_subjects_response_includes_snapshot_token : bool :=
  let '(service, tenant_id) := make_service in
  unwrap_in service, _ := setup_schema service tenant_id in
  unwrap_in service, _ := alice_views service tenant_id in
  unwrap_in service, output := service_lookup_subjects service tenant_id
    (mk_LookupSubjectsInput "document" "readme" "can_view" "user" FullConsistency) in
  (so_snapshot output <>? None) && (so_subjects output <>? []).

(** ** The metrics of the caches *)

Definition make_service_with_metrics : TestService * tenant :=
  (mk_AuthzService factory_new ∅ ∅ (Some metrics_default) [], mk_TenantId 1%positive).
Definition metric (f : Metrics → Z) (service : TestService) : option Z := f <$> service_metrics service.

Definition schema_cache_hit_increments_metric : bool :=
  let '(service, tenant_id) := make_service_with_metrics in
  unwrap_in service, _ := service_write_schema service tenant_id SCHEMA false in
  unwrap_in service, _ := service_check service tenant_id (alice_can_view MinimizeLatency) in
  (metric schema_cache_misses service =? Some 1%Z) && (metric schema_cache_hits service =? Some 0%Z) &&
  unwrap_in service, _ := service_check service tenant_id (alice_can_view MinimizeLatency) in
  metric schema_cache_hits service =? Some 1%Z.

Definition check_cache_hit_increments_metric : bool :=
  let '(service, tenant_id) := make_service_with_metrics in
  unwrap_in service, _ := service_write_schema service tenant_id SCHEMA false in
  unwrap_in service, token := alice_views service tenant_id in
  unwrap_in service, _ := service_check service tenant_id (alice_can_view (AtExactSnapshot token)) in
  (metric check_cache_misses service =? Some 1%Z) && (metric check_cache_hits service =? Some 0%Z) &&
  unwrap_in service, _ := service_check service tenant_id (alice_can_view (AtExactSnapshot token)) in
  metric check_cache_hits service =? Some 1%Z.

(** ** The audit log *)

Definition service_write_schema_emits_audit_event : bool :=
  let '(service, tenant_id) := make_service in
  unwrap_in service, _ := service_write_schema service tenant_id SCHEMA false in
  match audit_log service with SchemaWritten _ _ _ _ :: _ => true | _ => false end.

Definition service_write_relationships_emits_audit_event : bool :=
  let '(service, tenant_id) := make_service in
  unwrap_in service, _ := alice_views service tenant_id in
  match audit_log service with RelationshipsWritten _ _ _ _ :: _ => true | _ => false end.

Definition tests : suite :=
  [("check_permission_grants_direct_relation", check_permission_grants_direct_relation);
   ("check_permission_denies_when_no_relation", check_permission_denies_when_no_relation);
   ("check_permission_unknown_type_returns_error", check_permission_unknown_type_returns_error);
   ("write_and_read_relationships_round_trip", write_and_read_relationships_round_trip);
   ("read_relationships_respects_consistency", read_relationships_respects_consistency);
   ("read_relationships_returns_snapshot_with_full_consistency", read_relationships_returns_snapshot_with_full_consistency);
   ("read_relationships_returns_no_snapshot_with_minimize_latency", read_relationships_returns_no_snapshot_with_minimize_latency);
   ("write_schema_stores_and_reads", write_schema_stores_and_reads);
   ("write_schema_rejects_breaking_changes_without_force", write_schema_rejects_breaking_changes_without_force);
   ("write_schema_accepts_breaking_changes_with_force", write_schema_accepts_breaking_changes_with_force);
   ("read_schema_returns_none_when_empty", read_schema_returns_none_when_empty);
   ("expand_permission_tree_returns_tree", expand_permission_tree_returns_tree);
   ("lookup_subjects_returns_matching_subjects", lookup_subjects_returns_matching_subjects);
   ("lookup_resources_returns_accessible_resources", lookup_resources_returns_accessible_resources);
   ("lookup_resources_respects_limit", lookup_resources_respects_limit);
   ("consistency_full_returns_snapshot", consistency_full_returns_snapshot);
   ("check_permission_without_schema_returns_error", check_permission_without_schema_returns_error);
   ("schema_cache_invalidated_on_write_schema", schema_cache_invalidated_on_write_schema);
   ("schema_cache_isolated_per_tenant", schema_cache_isolated_per_tenant);
   ("check_cache_invalidated_on_write_relationships", check_cache_invalidated_on_write_relationships);
   ("check_cache_invalidated_on_write_schema", check_cache_invalidated_on_write_schema);
   ("check_cache_isolated_per_tenant", check_cache_isolated_per_tenant);
   ("check_cache_different_snapshots_are_separate", check_cache_different_snapshots_are_separate);
   ("expand_response_includes_snapshot_token", expand_response_includes_snapshot_token);
   ("lookup_resources_response_includes_snapshot_token", lookup_resources_response_includes_snapshot_token);
   ("lookup_subjects_response_includes_snapshot_token", lookup_subjects_response_includes_snapshot_token);
   ("schema_cache_hit_increments_metric", schema_cache_hit_increments_metric);
   ("check_cache_hit_increments_metric", check_cache_hit_increments_metric);
   ("service_write_schema_emits_audit_event", service_write_schema_emits_audit_event);
   ("service_write_relationships_emits_audit_event", service_write_relationships_emits_audit_event)].

Lemma authz_tests_pass : failing tests = [].
Proof. vm_compute. reflexivity. Qed.
End AuthzTests.

(** ** Reads of the store

    The factory counts the calls on its stores.  Each read of the engine is a
    call of its own in the operations of [Concurrent], run alone; with the
    schema in the cache, a check makes no other call without a snapshot. *)
Module CountingTests.
Import AuthzTests.

(** [CountingStoreFactory], with one count in the place of two. *)
Record CountingStoreFactory := mk_CountingStoreFactory {
  inner : @FactoryState positive _ _; calls : nat }.

#[local] Instance CountingStoreFactory_factory : StoreFactory CountingStoreFactory positive InnerState := {
  call_store A tenant_id method factory :=
    let '(a, f) := call_store tenant_id method (inner factory) in
    (a, mk_CountingStoreFactory f (S (calls factory))) }.

Abbreviation CountingService :=
  (@AuthzService positive CountingStoreFactory (gmap (TenantId positive) Schema)
     (gmap (CheckCacheKey positive) bool)).

Definition make_counting_service : CountingService * tenant :=
  (mk_AuthzService (mk_CountingStoreFactory factory_new 0) ∅ ∅ None [], mk_TenantId 1%positive).

Definition counting_write_schema (service : CountingService) (tenant_id : tenant) :=
  write_schema grammar_pest limits_default tenant_id SCHEMA false service.
Definition counting_alice_views (service : CountingService) (tenant_id : tenant) :=
  write_relationships tenant_id
    [mk_TupleWrite (mk_ObjectRef "document" "readme") "viewer" (direct "user" "alice")] [] service.
Definition counting_check (service : CountingService) (tenant_id : tenant) (c : Consistency) :=
  alone (check_permission_task grammar_pest engine_config_default tenant_id (alice_can_view c)) service.

Definition check_cache_returns_cached_result : bool :=
  let '(service, tenant_id) := make_counting_service in
  unwrap_in service, _ := counting_write_schema service tenant_id in
  unwrap_in service, token := counting_alice_views service tenant_id in
  unwrap_in service, result1 := counting_check service tenant_id (AtExactSnapshot token) in
  co_allowed result1 &&
  let reads_after_first := calls (factory service) in
  unwrap_in service, result2 := counting_check service tenant_id (AtExactSnapshot token) in
  co_allowed result2 && (calls (factory service) =? reads_after_first).

Definition check_cache_skips_without_snapshot : bool :=
  let '(service, tenant_id) := make_counting_service in
  unwrap_in service, _ := counting_write_schema service tenant_id in
  unwrap_in service, _ := counting_alice_views service tenant_id in
  unwrap_in service, _ := counting_check service tenant_id MinimizeLatency in
  let reads_after_first := calls (factory service) in
  unwrap_in service, _ := counting_check service tenant_id MinimizeLatency in
  reads_after_first <? calls (factory service).

Definition tests : suite :=
  [("check_cache_returns_cached_result", check_cache_returns_cached_result);
   ("check_cache_skips_without_snapshot", check_cache_skips_without_snapshot)].

Lemma counting_tests_pass : failing tests = [].
Proof. vm_compute. reflexivity. Qed.
End CountingTests.
