(* ===== verification/Workloads.v ===== *)
(** * The benches of the engine and the load tests of the service

    ([crates/kraalzibar-core/benches/check_engine.rs],
    [crates/kraalzibar-server/tests/load_test.rs])

    What they build and ask, without the clock: a bench panics when its schema
    does not parse or its check fails, and a load test asserts on the answers
    only.  For the benches the reads that [Cost] counts are evaluated as well.
    Left out are the two load tests on stores of thousands of tuples, which
    take too long to evaluate. *)
From stdpp Require Import base tactics list strings gmap pretty.
From S2P Require Import Prelude Tuples Schema Validation Parser Grammar GrammarTheorems Engine Check Expand Cost.
From S2P Require Import Storage Memory Cache Metrics Service Concurrent Suite EngineTests ServiceTests.
#[local] Open Scope test_scope.

(** ** [benches/check_engine.rs] *)
Module CheckBenches.

(** [vec]s of tuples and the request of a bench, or the panic of an [unwrap]. *)
Abbreviation bench := (result ParseError (Schema * list Tuple * CheckRequest)).

Definition make_tuple (obj_type obj_id relation subj_type subj_id : string) : Tuple :=
  tuple_of_write (mk_TupleWrite (mk_ObjectRef obj_type obj_id) relation (direct subj_type subj_id)).

Definition make_userset_tuple (obj_type obj_id relation subj_type subj_id subj_relation : string) : Tuple :=
  tuple_of_write
    (mk_TupleWrite (mk_ObjectRef obj_type obj_id) relation (userset subj_type subj_id subj_relation)).

Definition direct_relation_schema : result ParseError Schema :=
  parse_schema grammar_pest (lines [
    "";
    "        definition user {}";
    "        definition document {";
    "            relation viewer: user";
    "            permission can_view = viewer";
    "        }";
    "    "]).

Definition union_3_schema : result ParseError Schema :=
  parse_schema grammar_pest (lines [
    "";
    "        definition user {}";
    "        definition document {";
    "            relation owner: user";
    "            relation editor: user";
    "            relation viewer: user";
    "            permission can_view = owner + editor + viewer";
    "        }";
    "    "]).

(** The definition of [level{i}]. *)
Definition level_definition (i : nat) : string :=
  let type_name := "level" +:+ pretty i in
  if i =? 0 then
    lines ["definition " +:+ type_name +:+ " {"; "    relation member: user";
           "    permission access = member"; "}"; ""]
  else
    let parent_type := "level" +:+ pretty (i - 1) in
    lines ["definition " +:+ type_name +:+ " {"; "    relation parent: " +:+ parent_type;
           "    permission access = parent->access"; "}"; ""].

Definition arrow_chain_schema (depth : nat) : result ParseError (Schema * list Tuple) :=
  let dsl := lines ["definition user {}"; ""] +:+ join "" (map level_definition (List.seq 0 depth)) in
  let? schema := parse_schema grammar_pest dsl in
  let tuples :=
    make_tuple "level0" "l0" "member" "user" "alice" ::
    map (λ i, make_userset_tuple ("level" +:+ pretty i) ("l" +:+ pretty i) "parent"
                ("level" +:+ pretty (i - 1)) ("l" +:+ pretty (i - 1)) "access") (List.seq 1 (depth - 1)) in
  Ok (schema, tuples).

Definition fan_out_tuples (count : nat) : list Tuple :=
  map (λ i, make_tuple "document" "doc1" "viewer" "user" ("user" +:+ pretty i)) (List.seq 0 count).

Definition bench_check_direct_relation : bench :=
  let? schema := direct_relation_schema in
  let tuples := [make_tuple "document" "doc1" "viewer" "user" "alice"] in
  Ok (schema, tuples, mk_CheckRequest "document" "doc1" "can_view" "user" "alice" None).

Definition bench_check_union_3_branches : bench :=
  let? schema := union_3_schema in
  let tuples := [make_tuple "document" "doc1" "viewer" "user" "alice"] in
  Ok (schema, tuples, mk_CheckRequest "document" "doc1" "can_view" "user" "alice" None).

Definition bench_check_arrow_depth_3 : bench :=
  let? '(schema, tuples) := arrow_chain_schema 3 in
  Ok (schema, tuples, mk_CheckRequest "level2" "l2" "access" "user" "alice" None).

Definition bench_check_arrow_depth_6 : bench :=
  let? '(schema, tuples) := arrow_chain_schema 6 in
  Ok (schema, tuples, mk_CheckRequest "level5" "l5" "access" "user" "alice" None).

Definition bench_check_fan_out_10 : bench :=
  let? schema := direct_relation_schema in
  Ok (schema, fan_out_tuples 10, mk_CheckRequest "document" "doc1" "can_view" "user" "user5" None).

Definition bench_check_fan_out_100 : bench :=
  let? schema := direct_relation_schema in
  Ok (schema, fan_out_tuples 100, mk_CheckRequest "document" "doc1" "can_view" "user" "user50" None).

(** What one iteration answers, and the reads it makes; an [Err] is a panic. *)
Definition iteration (b : bench) : option (result CheckError CheckResult * nat) :=
  match b with
  | Ok (schema, tuples, request) =>
      Some (make_engine schema tuples request,
            reads (λ _, test_store tuples) 0 (check schema engine_config_default request))
  | Err _ => None
  end.

(** None panics and every check is allowed; a chain costs one read for each of
    its levels, a fan-out one read whatever its width. *)
Lemma benches_run :
  map iteration [bench_check_direct_relation; bench_check_union_3_branches; bench_check_arrow_depth_3;
                 bench_check_arrow_depth_6; bench_check_fan_out_10; bench_check_fan_out_100] =
  map (λ n, Some (Ok (mk_CheckResult true), n)) [1; 3; 3; 6; 1; 1].
Proof. vm_compute. reflexivity. Qed.
End CheckBenches.

(** ** [tests/load_test.rs] *)
Module LoadTests.
Import AuthzTests.

Definition LOAD_SCHEMA : string := lines [
  "";
  "definition user {}";
  "definition group {";
  "    relation member: user";
  "}";
  "definition folder {";
  "    relation viewer: user | group#member";
  "    permission can_view = viewer";
  "}";
  "definition document {";
  "    relation parent: folder";
  "    relation viewer: user | group#member";
  "    permission can_view = viewer + parent->can_view";
  "}";
  ""].

(** [for _ in 0..n { service.check_permission(..).await.unwrap(); }] *)
Fixpoint check_times (n : nat) (service : TestService) (tenant_id : tenant) (input : CheckPermissionInput)
    : bool :=
  match n with
  | 0 => true
  | S n' =>
      unwrap_in service, _ := service_check service tenant_id input in check_times n' service tenant_id input
  end.

Definition load_test_cache_warm_vs_cold : bool :=
  let '(service, tenant_id) := make_service in
  unwrap_in service, _ := service_write_schema service tenant_id LOAD_SCHEMA false in
  let writes := [mk_TupleWrite (mk_ObjectRef "folder" "f1") "viewer" (direct "user" "alice");
                 mk_TupleWrite (mk_ObjectRef "document" "d1") "parent" (userset "folder" "f1" "can_view")] in
  unwrap_in service, token := write_relationships tenant_id writes [] service in
  let input := make_check_input "document" "d1" "can_view" "user" "alice" (AtExactSnapshot token) in
  unwrap_in service, _ := service_check service tenant_id input in
  check_times 100 service tenant_id input.

Definition tests : suite :=
  [("load_test_cache_warm_vs_cold", load_test_cache_warm_vs_cold)].

Lemma load_tests_pass : failing tests = [].
Proof. vm_compute. reflexivity. Qed.
End LoadTests.
