(* ===== verification/RestTests.v ===== *)
(** * The tests of the REST API ([rest/handlers.rs])

    Requests go through the router and the middlewares of a server in
    development mode.  serde is a parameter of the model: a body is the request
    it deserializes to. *)
From stdpp Require Import base tactics list strings gmap pretty.
From S2P Require Import Prelude Tuples Schema Validation Parser Grammar GrammarTheorems Engine.
From S2P Require Import Storage Memory Cache Metrics Service Auth Rest Suite ServiceTests.
#[local] Open Scope test_scope.

Module RestTests.

(** What a body deserializes to. *)
Inductive test_body :=
| NoBody
| BCheck (req : CheckPermissionRequest)
| BExpand (req : ExpandPermissionRequest)
| BResources (req : LookupResourcesRequest)
| BSubjects (req : LookupSubjectsRequest)
| BWrite (req : WriteRelationshipsRequest)
| BRead (req : ReadRelationshipsRequest)
| BSchema (req : WriteSchemaRequest).

Definition mistyped : ApiResult := (422%Z, JNull).

Definition test_extractors : @Extractors test_body := mk_Extractors
  (λ b, match b with BCheck req => Ok req | _ => Err mistyped end)
  (λ b, match b with BExpand req => Ok req | _ => Err mistyped end)
  (λ b, match b with BResources req => Ok req | _ => Err mistyped end)
  (λ b, match b with BSubjects req => Ok req | _ => Err mistyped end)
  (λ b, match b with BWrite req => Ok req | _ => Err mistyped end)
  (λ b, match b with BRead req => Ok req | _ => Err mistyped end)
  (λ b, match b with BSchema req => Ok req | _ => Err mistyped end).

(** [make_test_server]: the state of its service, with the metrics. *)
Definition make_test_server_with_metrics : TestService :=
  mk_AuthzService factory_new ∅ ∅ (Some metrics_default) [].

(** No request authenticates: argon2 is not called. *)
Definition request_to (m : method) (path : string) (body : test_body) (server : TestService)
    : ApiResult * TestService :=
  rest_serve grammar_pest engine_config_default limits_default test_extractors
    (λ _, (404%Z, JNull)) (500%Z, JNull) (λ _, Err EmptyString) (λ _ (_ : unit), false)
    (dev_mode 1%positive) (mk_HttpRequest m (mk_AuthRequest path None) body) (mk_Duration 0 0) server.

(** [server.get(path).await], [server.post(path).json(body).await] *)
Definition server_get (path : string) (server : TestService) := request_to GET path NoBody server.
Definition server_post (path : string) (body : test_body) (server : TestService) := request_to POST path body server.

(** [body[name]]: [Null] for a name that is not a field. *)
Definition field (name : string) (body : json) : json :=
  match body with
  | JObject fields => default JNull (snd <$> List.find (λ f, bool_decide (f.1 = name)) fields)
  | _ => JNull
  end.
Definition is_string (body : json) : bool := match body with JString _ => true | _ => false end.
Definition is_str (body : json) (s : string) : bool := match body with JString s' => s' =? s | _ => false end.
Definition is_bool (body : json) (b : bool) : bool := match body with JBool b' => b' =? b | _ => false end.
Definition str_contains (body : json) (part : string) : bool :=
  match body with JString s => contains s part | _ => false end.
(** [as_array().unwrap()] *)
Definition array_length (body : json) : option nat :=
  match body with JArray elements => Some (length elements) | _ => None end.
Definition nth_element (i : nat) (body : json) : json :=
  match body with JArray elements => nth i elements JNull | _ => JNull end.
Definition status_ok (response : ApiResult) : bool := response.1 =? 200%Z.

Definition REST_SCHEMA : string := lines [
  "";
  "        definition user {}";
  "        definition document {";
  "            relation viewer: user";
  "            relation editor: user";
  "            permission can_view = viewer + editor";
  "        }";
  "    "].

Definition rest_setup_schema (server : TestService) : TestService :=
  (server_post "/v1/schema" (BSchema (mk_WriteSchemaRequest REST_SCHEMA false)) server).2.

Definition touch (resource_id relation subject_id : string) : RelationshipUpdate :=
  mk_RelationshipUpdate "touch" "document" resource_id relation "user" subject_id None.

Definition rest_write_tuple (resource_id relation subject_id : string) (server : TestService) : TestService :=
  (server_post "/v1/relationships/write"
     (BWrite (mk_WriteRelationshipsRequest [touch resource_id relation subject_id])) server).2.

Definition healthz_returns_200 : bool :=
  let server := make_test_server_with_metrics in
  let '(response, server) := server_get "/healthz" server in
  status_ok response && match response.2 with JObject [(name, JString "ok")] => name =? "status" | _ => false end.

Definition watch_returns_501 : bool :=
  let server := make_test_server_with_metrics in
  let '(response, server) := server_get "/v1/watch" server in response.1 =? 501%Z.

Definition check_permission_grants_access : bool :=
  let server := make_test_server_with_metrics in
  let server := rest_setup_schema server in
  let server := rest_write_tuple "readme" "viewer" "alice" server in
  let '(response, server) := server_post "/v1/permissions/check"
    (BCheck (mk_CheckPermissionRequest "document" "readme" "can_view" "user" "alice" None)) server in
  status_ok response && is_bool (field "allowed" response.2) true.

Definition check_permission_denies_access : bool :=
  let server := make_test_server_with_metrics in
  let server := rest_setup_schema server in
  let '(response, server) := server_post "/v1/permissions/check"
    (BCheck (mk_CheckPermissionRequest "document" "readme" "can_view" "user" "alice" None)) server in
  status_ok response && is_bool (field "allowed" response.2) false.

(** [{"filter": {"resource_type": "document"}}] *)
Definition all_documents : option RelationshipFilterRequest :=
  Some (mk_RelationshipFilterRequest (Some "document") None None None None).

Definition write_and_read_relationships : bool :=
  let server := make_test_server_with_metrics in
  let server := rest_write_tuple "readme" "viewer" "alice" server in
  let '(response, server) := server_post "/v1/relationships/read"
    (BRead (mk_ReadRelationshipsRequest all_documents None None)) server in
  let relationships := field "relationships" response.2 in
  status_ok response && (array_length relationships =? Some 1) &&
  is_str (field "subject_id" (nth_element 0 relationships)) "alice".

Definition write_and_read_schema : bool :=
  let server := make_test_server_with_metrics in
  let '(response, server) := server_post "/v1/schema" (BSchema (mk_WriteSchemaRequest REST_SCHEMA false)) server in
  status_ok response &&
  let '(response, server) := server_get "/v1/schema" server in
  status_ok response && str_contains (field "schema" response.2) "document".

Definition read_schema_returns_404_when_empty : bool :=
  let server := make_test_server_with_metrics in
  let '(response, server) := server_get "/v1/schema" server in response.1 =? 404%Z.

Definition expand_permission_returns_tree : bool :=
  let server := make_test_server_with_metrics in
  let server := rest_setup_schema server in
  let server := rest_write_tuple "readme" "viewer" "alice" server in
  let '(response, server) := server_post "/v1/permissions/expand"
    (BExpand (mk_ExpandPermissionRequest "document" "readme" "can_view" None)) server in
  status_ok response && match field "tree" response.2 with JObject _ => true | _ => false end.

Definition lookup_resources_returns_matches : bool :=
  let server := make_test_server_with_metrics in
  let server := rest_setup_schema server in
  let server := rest_write_tuple "readme" "viewer" "alice" server in
  let server := rest_write_tuple "design" "viewer" "alice" server in
  let '(response, server) := server_post "/v1/permissions/resources"
    (BResources (mk_LookupResourcesRequest "document" "can_view" "user" "alice" None None)) server in
  status_ok response && (array_length (field "resource_ids" response.2) =? Some 2).

Definition lookup_subjects_returns_matches : bool :=
  let server := make_test_server_with_metrics in
  let server := rest_setup_schema server in
  let server := rest_write_tuple "readme" "viewer" "alice" server in
  let server := rest_write_tuple "readme" "editor" "bob" server in
  let '(response, server) := server_post "/v1/permissions/subjects"
    (BSubjects (mk_LookupSubjectsRequest "document" "readme" "can_view" "user" None)) server in
  status_ok response &&
  unwrap_some subjects := array_length (field "subjects" response.2) in 2 <=? subjects.

Definition write_relationships_returns_token : bool :=
  let server := make_test_server_with_metrics in
  let '(response, server) := server_post "/v1/relationships/write"
    (BWrite (mk_WriteRelationshipsRequest [touch "readme" "viewer" "alice"])) server in
  status_ok response && is_string (field "written_at" response.2).

Definition unknown_operation_returns_400 : bool :=
  let server := make_test_server_with_metrics in
  let update := mk_RelationshipUpdate "invalid" "document" "readme" "viewer" "user" "alice" None in
  let '(response, server) := server_post "/v1/relationships/write"
    (BWrite (mk_WriteRelationshipsRequest [update])) server in response.1 =? 400%Z.

Definition server_metric (f : Metrics → Z) (server : TestService) : option Z := f <$> service_metrics server.

Definition metrics_increment_on_requests : bool :=
  let server := make_test_server_with_metrics in
  (server_metric request_total server =? Some 0%Z) &&
  let server := (server_get "/healthz" server).2 in
  (server_metric request_total server =? Some 1%Z) && (server_metric request_success server =? Some 1%Z) &&
  let server := (server_get "/v1/schema" server).2 in
  (server_metric request_total server =? Some 2%Z) && (server_metric request_error server =? Some 1%Z).

Definition rejects_empty_resource_type : bool :=
  let server := make_test_server_with_metrics in
  let '(response, server) := server_post "/v1/permissions/check"
    (BCheck (mk_CheckPermissionRequest "" "readme" "can_view" "user" "alice" None)) server in
  (response.1 =? 400%Z) && str_contains (field "error" response.2) "resource_type".

Definition rejects_batch_exceeding_limit : bool :=
  let server := make_test_server_with_metrics in
  let updates := map (λ i, touch ("doc" +:+ pretty (N.of_nat i)) "viewer" "alice") (List.seq 0 1001) in
  let '(response, server) := server_post "/v1/relationships/write"
    (BWrite (mk_WriteRelationshipsRequest updates)) server in
  (response.1 =? 400%Z) && str_contains (field "error" response.2) "batch size".

Definition breaking_schema_returns_412 : bool :=
  let server := make_test_server_with_metrics in
  let server := rest_setup_schema server in
  let '(response, server) := server_post "/v1/schema" (BSchema (mk_WriteSchemaRequest "definition user {}" false)) server in
  response.1 =? 412%Z.

Definition rest_expand_response_includes_snapshot_token : bool :=
  let server := make_test_server_with_metrics in
  let server := rest_setup_schema server in
  let server := rest_write_tuple "readme" "viewer" "alice" server in
  let '(response, server) := server_post "/v1/permissions/expand"
    (BExpand (mk_ExpandPermissionRequest "document" "readme" "can_view" (Some CrFull))) server in
  status_ok response && is_string (field "expanded_at" response.2).

Definition rest_lookup_resources_response_includes_snapshot_token : bool :=
  let server := make_test_server_with_metrics in
  let server := rest_setup_schema server in
  let server := rest_write_tuple "readme" "viewer" "alice" server in
  let '(response, server) := server_post "/v1/permissions/resources"
    (BResources (mk_LookupResourcesRequest "document" "can_view" "user" "alice" None (Some CrFull))) server in
  status_ok response && is_string (field "looked_up_at" response.2).

Definition rest_lookup_subjects_response_includes_snapshot_token : bool :=
  let server := make_test_server_with_metrics in
  let server := rest_setup_schema server in
  let server := rest_write_tuple "readme" "viewer" "alice" server in
  let '(response, server) := server_post "/v1/permissions/subjects"
    (BSubjects (mk_LookupSubjectsRequest "document" "readme" "can_view" "user" (Some CrFull))) server in
  status_ok response && is_string (field "looked_up_at" response.2).

Definition rest_read_relationships_returns_snapshot_with_full_consistency : bool :=
  let server := make_test_server_with_metrics in
  let server := rest_write_tuple "readme" "viewer" "alice" server in
  let '(response, server) := server_post "/v1/relationships/read"
    (BRead (mk_ReadRelationshipsRequest all_documents None (Some CrFull))) server in
  status_ok response && is_string (field "read_at" response.2).

Definition read_relationships_omits_snapshot_without_consistency : bool :=
  let server := make_test_server_with_metrics in
  let server := rest_write_tuple "readme" "viewer" "alice" server in
  let '(response, server) := server_post "/v1/relationships/read"
    (BRead (mk_ReadRelationshipsRequest all_documents None None)) server in
  status_ok response && match field "read_at" response.2 with JNull => true | _ => false end.

Definition empty_delete_filter_returns_400 : bool :=
  let '(status, body) := api_error_to_response (ApiStorage EmptyDeleteFilter) in
  (status =? 400%Z) && str_contains (field "error" body) "delete filter".

Definition snapshot_ahead_returns_400 : bool :=
  let '(status, body) := api_error_to_response (ApiStorage (SnapshotAhead 10 5)) in
  (status =? 400%Z) && str_contains (field "error" body) "ahead".

Definition internal_storage_error_returns_500_with_generic_message : bool :=
  let '(status, body) := api_error_to_response (ApiStorage (Internal "db connection lost")) in
  let msg := field "error" body in
  (status =? 500%Z) && is_str msg "internal server error" && negb (str_contains msg "db connection").

Definition read_relationships_clamps_limit : bool :=
  let server := make_test_server_with_metrics in
  let server := rest_write_tuple "readme" "viewer" "alice" server in
  let '(response, server) := server_post "/v1/relationships/read"
    (BRead (mk_ReadRelationshipsRequest all_documents (Some (Z.to_nat 99999)) None)) server in
  status_ok response && (array_length (field "relationships" response.2) =? Some 1).

Definition tests : suite :=
  [("healthz_returns_200", healthz_returns_200);
   ("watch_returns_501", watch_returns_501);
   ("check_permission_grants_access", check_permission_grants_access);
   ("check_permission_denies_access", check_permission_denies_access);
   ("write_and_read_relationships", write_and_read_relationships);
   ("write_and_read_schema", write_and_read_schema);
   ("read_schema_returns_404_when_empty", read_schema_returns_404_when_empty);
   ("expand_permission_returns_tree", expand_permission_returns_tree);
   ("lookup_resources_returns_matches", lookup_resources_returns_matches);
   ("lookup_subjects_returns_matches", lookup_subjects_returns_matches);
   ("write_relationships_returns_token", write_relationships_returns_token);
   ("unknown_operation_returns_400", unknown_operation_returns_400);
   ("metrics_increment_on_requests", metrics_increment_on_requests);
   ("rejects_empty_resource_type", rejects_empty_resource_type);
   ("rejects_batch_exceeding_limit", rejects_batch_exceeding_limit);
   ("breaking_schema_returns_412", breaking_schema_returns_412);
   ("rest_expand_response_includes_snapshot_token", rest_expand_response_includes_snapshot_token);
   ("rest_lookup_resources_response_includes_snapshot_token", rest_lookup_resources_response_includes_snapshot_token);
   ("rest_lookup_subjects_response_includes_snapshot_token", rest_lookup_subjects_response_includes_snapshot_token);
   ("rest_read_relationships_returns_snapshot_with_full_consistency", rest_read_relationships_returns_snapshot_with_full_consistency);
   ("read_relationships_omits_snapshot_without_consistency", read_relationships_omits_snapshot_without_consistency);
   ("empty_delete_filter_returns_400", empty_delete_filter_returns_400);
   ("snapshot_ahead_returns_400", snapshot_ahead_returns_400);
   ("internal_storage_error_returns_500_with_generic_message", internal_storage_error_returns_500_with_generic_message);
   ("read_relationships_clamps_limit", read_relationships_clamps_limit)].

Lemma rest_tests_pass : failing tests = [].
Proof. vm_compute. reflexivity. Qed.
End RestTests.
