(* ===== verification/ApiTests.v ===== *)
(** * The tests of the metrics, keys, authentication, errors and audit events
      ([metrics.rs], [auth.rs], [middleware/auth.rs], [error.rs], [audit.rs])

    argon2 is a toy: a hash is the secret behind a tag.  The display of [f64]
    is defined on the numbers the tests read back. *)
From Stdlib Require Import SpecFloat.
From stdpp Require Import base tactics list strings gmap pretty.
From S2P Require Import Prelude Tuples Schema Validation Parser Engine Storage Cache Metrics Service Numbers Auth Suite.
#[local] Open Scope test_scope.

(** ** [metrics.rs] *)
Module MetricsTests.

(** [n] thousandths, correctly rounded: the literal [0.003] is [3]. *)
Definition thousandths (n : Z) : f64 := f64_div (f64_of_Z n) (f64_of_Z 1000).
Definition from_millis (n : Z) : Duration := mk_Duration (n / 1000) (n mod 1000 * 1000000).

Definition display (x : f64) : string :=
  if SFeqb x (thousandths 1) then "0.001" else if SFeqb x (thousandths 500) then "0.5" else "other".

(** [h.bucket_count(i)], which panics out of range. *)
Definition in_bucket_is (h : Histogram) (i : nat) (n : Z) : bool := bucket_count h i =? Some n.
Definition observe_all (values : list f64) : Histogram := foldl (λ h v, observe v h) histogram_new values.

Definition new_metrics_are_zero : bool :=
  let m := metrics_default in
  (request_total m =? 0%Z) && (request_success m =? 0%Z) && (request_error m =? 0%Z).

Definition record_increments_counters : bool :=
  let m := record_error (record_success (record_request (record_request metrics_default))) in
  (request_total m =? 2%Z) && (request_success m =? 1%Z) && (request_error m =? 1%Z).

Definition render_prometheus_format : bool :=
  let m := record_success (record_request metrics_default) in
  let output := render_prometheus display m in
  contains output "# TYPE kraalzibar_requests_total counter" &&
  contains output "kraalzibar_requests_total 1" &&
  contains output "kraalzibar_requests_success_total 1" &&
  contains output "kraalzibar_requests_error_total 0".

Definition metrics_include_cache_counters : bool :=
  let m := metrics_default in
  (schema_cache_hits m =? 0%Z) && (schema_cache_misses m =? 0%Z) &&
  (check_cache_hits m =? 0%Z) && (check_cache_misses m =? 0%Z).

Definition prometheus_output_includes_cache_metrics : bool :=
  let m := record_check_cache_miss (record_schema_cache_hit metrics_default) in
  let output := render_prometheus display m in
  contains output "kraalzibar_schema_cache_hits_total 1" &&
  contains output "kraalzibar_check_cache_misses_total 1".

Definition histogram_new_starts_at_zero : bool :=
  let h := histogram_new in
  (h_count h =? 0%Z) && SFeqb (sum_bits h) f64_zero &&
  forallb (λ i, in_bucket_is h i 0) (seq 0 (length BUCKET_BOUNDARIES)).

Definition histogram_observe_increments_correct_buckets : bool :=
  let h := observe (thousandths 3) histogram_new in
  in_bucket_is h 0 0 && in_bucket_is h 1 1 && in_bucket_is h 2 1 && in_bucket_is h 11 1.

(** [(sum - 2.0).abs() < 0.001] *)
Definition histogram_observe_updates_sum_and_count : bool :=
  let h := observe_all [thousandths 500; thousandths 1500] in
  (h_count h =? 2%Z) &&
  SFltb (SFabs (SFsub 53 1024 (sum_bits h) (f64_of_Z 2))) (thousandths 1).

Definition histogram_render_produces_correct_prometheus_format : bool :=
  let h := observe (thousandths 500) histogram_new in
  let output := histogram_render display h "kraalzibar_test_duration_seconds" "check" in
  let bucket le := "kraalzibar_test_duration_seconds_bucket{" +:+ label "method" "check" +:+ "," +:+ label "le" le +:+ "} " in
  contains output (bucket "0.001" +:+ "0") && contains output (bucket "0.5" +:+ "1") &&
  contains output (bucket "+Inf" +:+ "1") &&
  contains output ("kraalzibar_test_duration_seconds_sum{" +:+ label "method" "check" +:+ "}") &&
  contains output ("kraalzibar_test_duration_seconds_count{" +:+ label "method" "check" +:+ "} 1").

Definition histogram_multiple_observations_accumulate : bool :=
  let h := observe_all [thousandths 10; thousandths 20; thousandths 30] in
  (h_count h =? 3%Z) && in_bucket_is h 2 1 && in_bucket_is h 3 2 && in_bucket_is h 4 3.

Definition histogram_inf_bucket_always_equals_count : bool :=
  let h := observe_all [thousandths 1; f64_of_Z 100; thousandths 500] in
  (h_count h =? 3%Z) && in_bucket_is h (length BUCKET_BOUNDARIES - 1) 2.

Definition histogram_observe_exact_boundary_is_included : bool :=
  let h := observe (thousandths 10) histogram_new in
  in_bucket_is h 0 0 && in_bucket_is h 1 0 && in_bucket_is h 2 1 && in_bucket_is h 3 1.

Definition method_metrics_new_starts_at_zero : bool :=
  let mm := method_metrics_new in (requests mm =? 0%Z) && (h_count (duration mm) =? 0%Z).

Definition method_metrics_record_increments_counter_and_histogram : bool :=
  let mm := record (from_millis 50) method_metrics_new in
  (requests mm =? 1%Z) && (h_count (duration mm) =? 1%Z).

Definition metrics_render_includes_per_method_counters : bool :=
  let m := record_method_request "check" (from_millis 5) metrics_default in
  let output := render_prometheus display m in
  contains output ("kraalzibar_method_requests_total{" +:+ label "method" "check" +:+ "} 1").

Definition metrics_render_includes_histograms : bool :=
  let m := record_method_request "check" (from_millis 5) metrics_default in
  let output := render_prometheus display m in
  contains output ("kraalzibar_request_duration_seconds_bucket{" +:+ label "method" "check") &&
  contains output ("kraalzibar_request_duration_seconds_count{" +:+ label "method" "check" +:+ "} 1").

Definition existing_global_counters_still_work : bool :=
  let m := record_check_cache_miss (record_schema_cache_hit
             (record_error (record_success (record_request metrics_default)))) in
  let output := render_prometheus display m in
  contains output "kraalzibar_requests_total 1" &&
  contains output "kraalzibar_requests_success_total 1" &&
  contains output "kraalzibar_requests_error_total 1" &&
  contains output "kraalzibar_schema_cache_hits_total 1" &&
  contains output "kraalzibar_check_cache_misses_total 1".

Definition metrics_endpoint_returns_prometheus_text : bool :=
  let m := record_success (record_request (record_request metrics_default)) in
  let '(status, _, body) := metrics_handler display m in
  (status =? 200%Z) && contains body "kraalzibar_requests_total 2" &&
  contains body "kraalzibar_requests_success_total 1".

Definition tests : suite :=
  [("new_metrics_are_zero", new_metrics_are_zero);
   ("record_increments_counters", record_increments_counters);
   ("render_prometheus_format", render_prometheus_format);
   ("metrics_include_cache_counters", metrics_include_cache_counters);
   ("prometheus_output_includes_cache_metrics", prometheus_output_includes_cache_metrics);
   ("histogram_new_starts_at_zero", histogram_new_starts_at_zero);
   ("histogram_observe_increments_correct_buckets", histogram_observe_increments_correct_buckets);
   ("histogram_observe_updates_sum_and_count", histogram_observe_updates_sum_and_count);
   ("histogram_render_produces_correct_prometheus_format", histogram_render_produces_correct_prometheus_format);
   ("histogram_multiple_observations_accumulate", histogram_multiple_observations_accumulate);
   ("histogram_inf_bucket_always_equals_count", histogram_inf_bucket_always_equals_count);
   ("histogram_observe_exact_boundary_is_included", histogram_observe_exact_boundary_is_included);
   ("method_metrics_new_starts_at_zero", method_metrics_new_starts_at_zero);
   ("method_metrics_record_increments_counter_and_histogram", method_metrics_record_increments_counter_and_histogram);
   ("metrics_render_includes_per_method_counters", metrics_render_includes_per_method_counters);
   ("metrics_render_includes_histograms", metrics_render_includes_histograms);
   ("existing_global_counters_still_work", existing_global_counters_still_work);
   ("metrics_endpoint_returns_prometheus_text", metrics_endpoint_returns_prometheus_text)].

Lemma metrics_tests_pass : failing tests = [].
Proof. vm_compute. reflexivity. Qed.
End MetricsTests.

(** ** [error.rs] *)
Module ErrorTests.

Definition api_error_from_check_error : bool :=
  contains (api_error_display (ApiCheck (TypeNotFound "document"))) "document".

Definition api_error_from_storage_error : bool :=
  contains (api_error_display (ApiStorage EmptyDeleteFilter)) "delete filter".

Definition api_error_from_parse_error : bool :=
  contains (api_error_display (ApiParse MixedOperators)) "mixed operators".

Definition api_error_validation_formats_multiple_errors : bool :=
  let errors := [TooManyTypes 60 50; TooManyRelations "doc" 40 30] in
  let msg := api_error_display (ApiValidation errors) in
  contains msg "60" && contains msg "doc".

Definition api_error_schema_not_found : bool :=
  contains (api_error_display SchemaNotFound) "schema not found".

Definition tests : suite :=
  [("api_error_from_check_error", api_error_from_check_error);
   ("api_error_from_storage_error", api_error_from_storage_error);
   ("api_error_from_parse_error", api_error_from_parse_error);
   ("api_error_validation_formats_multiple_errors", api_error_validation_formats_multiple_errors);
   ("api_error_schema_not_found", api_error_schema_not_found)].

Lemma error_tests_pass : failing tests = [].
Proof. vm_compute. reflexivity. Qed.
End ErrorTests.

(** ** [auth.rs] *)
Module KeyTests.

(** The draws of the random generator. *)
Definition generated : string * string := generate_api_key (seq 0 16) (seq 4 32).

Definition parse_valid_api_key : bool :=
  unwrap key := parse_api_key "kraalzibar_abc123_secretvalue" in
  (key.1 =? "abc123") && (key.2 =? "secretvalue").

Definition rejected_format {A} (r : result AuthError A) : bool :=
  match r with Err InvalidKeyFormat => true | _ => false end.

Definition parse_rejects_missing_prefix : bool := rejected_format (parse_api_key "invalid_abc_secret").
Definition parse_rejects_too_few_parts : bool := rejected_format (parse_api_key "kraalzibar_onlyone").
Definition parse_rejects_empty_key_id : bool := rejected_format (parse_api_key "kraalzibar__secret").

Definition hash_and_verify_secret : bool :=
  unwrap hash := hash_secret toy_hash "salt" "mysecret" in
  unwrap valid := verify_secret toy_parse toy_verify "mysecret" hash in
  unwrap wrong := verify_secret toy_parse toy_verify "wrongsecret" hash in
  valid && negb wrong.

Definition generate_key_has_correct_format : bool :=
  let '(full_key, _) := generated in
  String.prefix "kraalzibar_" full_key &&
  unwrap key := parse_api_key full_key in String.length key.1 =? 16.

(** A record of the generated key, and the authentication of a key against it. *)
Definition record_of_generated (revoked : bool) : result AuthError (ApiKeyRecord positive) :=
  let '(full_key, secret) := generated in
  let? '(key_id, _) := parse_api_key full_key in
  let? key_hash := hash_secret toy_hash "salt" secret in
  Ok (mk_ApiKeyRecord key_id key_hash (mk_TenantId 7%positive) revoked).
Definition authenticate_with (raw_key : string) (found : option (ApiKeyRecord positive))
    : result AuthError (TenantContext positive) :=
  (authenticate toy_parse toy_verify raw_key (λ _, found)).1.

Definition authenticate_succeeds_with_valid_key : bool :=
  unwrap record := record_of_generated false in
  unwrap ctx := authenticate_with generated.1 (Some record) in
  ctx_tenant_id ctx =? mk_TenantId 7%positive.

Definition authenticate_rejects_revoked_key : bool :=
  unwrap record := record_of_generated true in
  match authenticate_with generated.1 (Some record) with Err RevokedKey => true | _ => false end.

Definition authenticate_rejects_unknown_key : bool :=
  match authenticate_with "kraalzibar_unknown_secret" None with Err UnknownKey => true | _ => false end.

Definition authenticate_rejects_wrong_secret : bool :=
  unwrap key_hash := hash_secret toy_hash "salt" "correct_secret" in
  let record := mk_ApiKeyRecord "testid" key_hash (mk_TenantId 7%positive) false in
  match authenticate_with "kraalzibar_testid_wrong_secret" (Some record) with Err UnknownKey => true | _ => false end.

Definition tests : suite :=
  [("parse_valid_api_key", parse_valid_api_key);
   ("parse_rejects_missing_prefix", parse_rejects_missing_prefix);
   ("parse_rejects_too_few_parts", parse_rejects_too_few_parts);
   ("parse_rejects_empty_key_id", parse_rejects_empty_key_id);
   ("hash_and_verify_secret", hash_and_verify_secret);
   ("generate_key_has_correct_format", generate_key_has_correct_format);
   ("authenticate_succeeds_with_valid_key", authenticate_succeeds_with_valid_key);
   ("authenticate_rejects_revoked_key", authenticate_rejects_revoked_key);
   ("authenticate_rejects_unknown_key", authenticate_rejects_unknown_key);
   ("authenticate_rejects_wrong_secret", authenticate_rejects_wrong_secret)].

Lemma key_tests_pass : failing tests = [].
Proof. vm_compute. reflexivity. Qed.
End KeyTests.

(** ** [middleware/auth.rs]: the unit of [Uuid] is its nil *)
Module MiddlewareTests.
Import KeyTests.

(** A pool that does not connect: every lookup fails. *)
Definition make_test_repo : string → result string (option (@ApiKeyRow unit)) := λ _, Err "connection refused".

Definition rest_request (auth : @AuthState unit) (path : string) (header : option string) : auth_outcome :=
  (rest_auth_middleware toy_parse toy_verify auth (mk_AuthRequest path (Some <$> header))).1.
Definition grpc_request (auth : @AuthState unit) (header : option string) : auth_outcome :=
  (grpc_auth_interceptor toy_parse toy_verify auth (mk_AuthRequest "" (Some <$> header))).1.
(** The request reaches the handler, with the tenant of the extension. *)
Definition passes (o : @auth_outcome unit) : bool := match o with Next _ => true | Respond _ _ => false end.
Definition answers_with (o : @auth_outcome unit) (status : Z) : bool :=
  match o with Respond s _ => s =? status | Next _ => false end.

Definition dev_mode_injects_nil_tenant : bool :=
  match rest_request (dev_mode ()) "/test" None with Next (Some t) => tenant_uuid t =? () | _ => false end.

Definition healthz_skips_auth : bool := passes (rest_request (dev_mode ()) "/healthz" None).

Definition missing_auth_header_returns_401 : bool :=
  let auth := with_repository () make_test_repo in
  match rest_request auth "/test" None with
  | Respond status msg => (status =? 401%Z) && contains msg "missing authorization"
  | Next _ => false
  end.

Definition invalid_key_format_returns_401 : bool :=
  let auth := with_repository () make_test_repo in
  answers_with (rest_request auth "/test" (Some "Bearer not_a_valid_key")) 401.

Definition db_error_returns_500 : bool :=
  let auth := with_repository () make_test_repo in
  answers_with (rest_request auth "/test" (Some "Bearer kraalzibar_unknown1_12345678901234567890123456789012")) 500.

Definition healthz_skips_auth_even_with_repo : bool :=
  let auth := with_repository () make_test_repo in passes (rest_request auth "/healthz" None).

Definition grpc_dev_mode_injects_nil_tenant : bool :=
  match grpc_request (dev_mode ()) None with Next (Some t) => tenant_uuid t =? () | _ => false end.

Definition grpc_missing_auth_header_returns_unauthenticated : bool :=
  let auth := with_repository () make_test_repo in answers_with (grpc_request auth None) 16.

Definition grpc_invalid_key_format_returns_unauthenticated : bool :=
  let auth := with_repository () make_test_repo in
  answers_with (grpc_request auth (Some "Bearer not_valid")) 16.

Definition grpc_valid_format_key_attempts_db_lookup : bool :=
  let auth := with_repository () make_test_repo in
  answers_with (grpc_request auth (Some "Bearer kraalzibar_testkey1_12345678901234567890123456789012")) 13.

Definition tests : suite :=
  [("dev_mode_injects_nil_tenant", dev_mode_injects_nil_tenant);
   ("healthz_skips_auth", healthz_skips_auth);
   ("missing_auth_header_returns_401", missing_auth_header_returns_401);
   ("invalid_key_format_returns_401", invalid_key_format_returns_401);
   ("db_error_returns_500", db_error_returns_500);
   ("healthz_skips_auth_even_with_repo", healthz_skips_auth_even_with_repo);
   ("grpc_dev_mode_injects_nil_tenant", grpc_dev_mode_injects_nil_tenant);
   ("grpc_missing_auth_header_returns_unauthenticated", grpc_missing_auth_header_returns_unauthenticated);
   ("grpc_invalid_key_format_returns_unauthenticated", grpc_invalid_key_format_returns_unauthenticated);
   ("grpc_valid_format_key_attempts_db_lookup", grpc_valid_format_key_attempts_db_lookup)].

Lemma middleware_tests_pass : failing tests = [].
Proof. vm_compute. reflexivity. Qed.
End MiddlewareTests.

(** ** [audit.rs]: an event is its constructor and its fields *)
Module AuditTests.

Definition nil_tenant : TenantId unit := mk_TenantId ().

Definition audit_schema_write_emits_event_with_correct_fields : bool :=
  match audit_schema_write nil_tenant true true (Some "tok_123") with
  | SchemaWritten _ force overridden token => force && overridden && (token =? "tok_123")
  | _ => false
  end.

Definition audit_relationship_write_emits_event_with_count_and_token : bool :=
  match audit_relationship_write nil_tenant 3 1 (mk_SnapshotToken 42) with
  | RelationshipsWritten _ write_count delete_count token =>
      (write_count =? 3) && (delete_count =? 1) && (token =? 42%Z)
  | _ => false
  end.

Definition audit_auth_success_includes_tenant_and_key_id : bool :=
  match audit_auth_success nil_tenant "key_abc" with AuthSuccess _ key_id => key_id =? "key_abc" | _ => false end.

Definition audit_auth_failure_does_not_include_secret : bool :=
  match @audit_auth_failure unit "invalid key format" None with
  | AuthFailure reason key_id => negb (contains reason "secret") && negb (contains key_id "secret")
  | _ => false
  end.

Definition audit_auth_failure_includes_reason : bool :=
  match @audit_auth_failure unit "unknown api key" (Some "key_xyz") with
  | AuthFailure reason key_id => (reason =? "unknown api key") && (key_id =? "key_xyz")
  | _ => false
  end.

Definition tests : suite :=
  [("audit_schema_write_emits_event_with_correct_fields", audit_schema_write_emits_event_with_correct_fields);
   ("audit_relationship_write_emits_event_with_count_and_token", audit_relationship_write_emits_event_with_count_and_token);
   ("audit_auth_success_includes_tenant_and_key_id", audit_auth_success_includes_tenant_and_key_id);
   ("audit_auth_failure_does_not_include_secret", audit_auth_failure_does_not_include_secret);
   ("audit_auth_failure_includes_reason", audit_auth_failure_includes_reason)].

Lemma audit_tests_pass : failing tests = [].
Proof. vm_compute. reflexivity. Qed.
End AuditTests.
