(* ===== verification/GrpcTests.v ===== *)
(** * The tests of the gRPC messages and of the client library
      ([grpc/conversions.rs], [grpc/mod.rs], [grpc/permission_service.rs],
      [kraalzibar-client/src/{conversions,error,config,interceptor}.rs]) *)
From stdpp Require Import base tactics list strings gmap pretty.
From S2P Require Import Prelude Tuples Schema Validation Parser Engine Check Expand Storage Cache.
From S2P Require Import Metrics Service Numbers Auth Rest Grpc Client Suite.
#[local] Open Scope test_scope.

#[local] Instance Consistency_eq_dec : EqDecision Consistency.
Proof. solve_decision. Defined.

Definition doc_object : ObjectRef := mk_ObjectRef "document" "readme".

(** ** [grpc/conversions.rs] *)
Module ConversionTests.

Definition convert_object_reference_round_trip : bool :=
  let back := proto_object_to_domain (domain_object_to_proto doc_object) in
  (object_type back =? "document") && (object_id back =? "readme").

Definition convert_direct_subject_round_trip : bool :=
  let back := proto_subject_to_domain (domain_subject_to_proto (direct "user" "alice")) in
  (subject_type back =? "user") && (subject_id back =? "alice") && (subject_relation back =? None).

Definition convert_userset_subject_round_trip : bool :=
  let back := proto_subject_to_domain (domain_subject_to_proto (userset "group" "eng" "member")) in
  (subject_type back =? "group") && (subject_id back =? "eng") && (subject_relation back =? Some "member").

Definition convert_relationship_round_trip : bool :=
  let proto := domain_tuple_to_proto (mk_Tuple doc_object "viewer" (direct "user" "alice")) in
  unwrap write := proto_relationship_to_write proto in
  (object_type (w_object write) =? "document") && (w_relation write =? "viewer") &&
  (subject_id (w_subject write) =? "alice").

Definition convert_filter : bool :=
  let domain := proto_filter_to_domain (mk_v1_RelationshipFilter (Some "document") None (Some "viewer") None None) in
  (f_object_type domain =? Some "document") && (f_object_id domain =? None) && (f_relation domain =? Some "viewer").

Definition convert_consistency_full : bool :=
  unwrap domain := proto_consistency_to_domain (Some (mk_v1_Consistency (Some (ReqFullConsistency true)))) in
  domain =? FullConsistency.

Definition convert_consistency_minimize_latency : bool :=
  unwrap domain := proto_consistency_to_domain (Some (mk_v1_Consistency (Some (ReqMinimizeLatency true)))) in
  domain =? MinimizeLatency.

Definition convert_consistency_at_least_as_fresh : bool :=
  unwrap domain := proto_consistency_to_domain
    (Some (mk_v1_Consistency (Some (ReqAtLeastAsFresh (mk_v1_ZedToken "42"))))) in
  domain =? AtLeastAsFresh (mk_SnapshotToken 42).

Definition convert_consistency_none_defaults_to_minimize_latency : bool :=
  unwrap domain := proto_consistency_to_domain None in domain =? MinimizeLatency.

Definition convert_consistency_rejects_invalid_token : bool :=
  negb (is_ok (proto_consistency_to_domain
    (Some (mk_v1_Consistency (Some (ReqAtLeastAsFresh (mk_v1_ZedToken "not-a-number"))))))).

Definition convert_snapshot_to_zed_token : bool :=
  let token := snapshot_to_zed_token (Some (mk_SnapshotToken 99)) in
  (zed_token <$> token =? Some "99") && (zed_token <$> snapshot_to_zed_token None =? None).

Definition tests : suite :=
  [("convert_object_reference_round_trip", convert_object_reference_round_trip);
   ("convert_direct_subject_round_trip", convert_direct_subject_round_trip);
   ("convert_userset_subject_round_trip", convert_userset_subject_round_trip);
   ("convert_relationship_round_trip", convert_relationship_round_trip);
   ("convert_filter", convert_filter);
   ("convert_consistency_full", convert_consistency_full);
   ("convert_consistency_minimize_latency", convert_consistency_minimize_latency);
   ("convert_consistency_at_least_as_fresh", convert_consistency_at_least_as_fresh);
   ("convert_consistency_none_defaults_to_minimize_latency", convert_consistency_none_defaults_to_minimize_latency);
   ("convert_consistency_rejects_invalid_token", convert_consistency_rejects_invalid_token);
   ("convert_snapshot_to_zed_token", convert_snapshot_to_zed_token)].

Lemma conversion_tests_pass : failing tests = [].
Proof. vm_compute. reflexivity. Qed.
End ConversionTests.

(** ** [grpc/mod.rs] and [grpc/permission_service.rs] *)
Module StatusTests.

Definition empty_delete_filter_maps_to_invalid_argument : bool :=
  let status := api_error_to_status (ApiStorage EmptyDeleteFilter) in
  (code status =? InvalidArgument) && contains (message status) "delete filter".

Definition snapshot_ahead_maps_to_invalid_argument : bool :=
  let status := api_error_to_status (ApiStorage (SnapshotAhead 10 5)) in
  (code status =? InvalidArgument) && contains (message status) "ahead".

Definition internal_storage_error_maps_to_internal_with_generic_message : bool :=
  let status := api_error_to_status (ApiStorage (Internal "db connection lost")) in
  (code status =? InternalError) && (message status =? "internal server error") &&
  negb (contains (message status) "db connection").

Definition api_error_maps_type_not_found_to_not_found : bool :=
  code (api_error_to_status (ApiCheck (TypeNotFound "doc"))) =? NotFound.

Definition api_error_maps_parse_error_to_invalid_argument : bool :=
  code (api_error_to_status (ApiParse MixedOperators)) =? InvalidArgument.

Definition api_error_maps_breaking_changes_to_failed_precondition : bool :=
  code (api_error_to_status (ApiBreakingChanges [])) =? FailedPrecondition.

Definition tests : suite :=
  [("empty_delete_filter_maps_to_invalid_argument", empty_delete_filter_maps_to_invalid_argument);
   ("snapshot_ahead_maps_to_invalid_argument", snapshot_ahead_maps_to_invalid_argument);
   ("internal_storage_error_maps_to_internal_with_generic_message", internal_storage_error_maps_to_internal_with_generic_message);
   ("api_error_maps_type_not_found_to_not_found", api_error_maps_type_not_found_to_not_found);
   ("api_error_maps_parse_error_to_invalid_argument", api_error_maps_parse_error_to_invalid_argument);
   ("api_error_maps_breaking_changes_to_failed_precondition", api_error_maps_breaking_changes_to_failed_precondition)].

Lemma status_tests_pass : failing tests = [].
Proof. vm_compute. reflexivity. Qed.
End StatusTests.

(** ** The client library *)
Module ClientTests.

Definition consistency_converts_to_proto_full : bool :=
  match requirement (consistency_to_proto ClFullConsistency) with Some (ReqFullConsistency _) => true | _ => false end.

Definition consistency_converts_to_proto_minimize_latency : bool :=
  match requirement (consistency_to_proto ClMinimizeLatency) with Some (ReqMinimizeLatency _) => true | _ => false end.

Definition consistency_converts_to_proto_at_least_as_fresh : bool :=
  match requirement (consistency_to_proto (ClAtLeastAsFresh (mk_SnapshotToken 42))) with
  | Some (ReqAtLeastAsFresh token) => zed_token token =? "42"
  | _ => false
  end.

Definition consistency_converts_to_proto_at_exact_snapshot : bool :=
  match requirement (consistency_to_proto (ClAtExactSnapshot (mk_SnapshotToken 99))) with
  | Some (ReqAtExactSnapshot token) => zed_token token =? "99"
  | _ => false
  end.

Definition check_permission_request_converts_to_proto : bool :=
  let proto_obj := client_object_to_proto doc_object in
  let proto_subj := client_subject_to_proto (direct "user" "alice") in
  (o_object_type proto_obj =? "document") && (o_object_id proto_obj =? "readme") &&
  (s_subject_type proto_subj =? "user") && (s_subject_id proto_subj =? "alice") &&
  (s_subject_relation proto_subj =? None).

Definition write_relationships_request_converts_to_proto : bool :=
  let subj := userset "group" "eng" "member" in
  let proto_obj := client_object_to_proto doc_object in
  let proto_subj := client_subject_to_proto subj in
  (s_subject_relation proto_subj =? Some "member") &&
  (client_proto_to_object proto_obj =? doc_object) && (client_proto_to_subject proto_subj =? subj).

Definition read_relationships_filter_converts_to_proto : bool :=
  let filter := mk_TupleFilter (Some "document") None (Some "viewer") None None None in
  let proto := domain_filter_to_proto filter in
  (v_object_type proto =? Some "document") && (v_object_id proto =? None) && (v_relation proto =? Some "viewer") &&
  (v_subject_type proto =? None) && (v_subject_id proto =? None).

Definition zed_token_parses_to_snapshot : bool :=
  client_zed_token_to_snapshot (mk_v1_ZedToken "42") =? Some (mk_SnapshotToken 42).

Definition zed_token_invalid_returns_none : bool :=
  client_zed_token_to_snapshot (mk_v1_ZedToken "not-a-number") =? None.

(** *** [error.rs]; tonic's own display is not read *)

Definition client_display : ClientError → string := client_error_display message.

Definition client_error_from_tonic_status_not_found : bool :=
  match client_error_of_status (mk_Status NotFound "resource missing") with
  | ClNotFound msg => msg =? "resource missing" | _ => false end.

Definition client_error_from_tonic_status_permission_denied : bool :=
  match client_error_of_status (mk_Status PermissionDenied "no access") with
  | ClPermissionDenied msg => msg =? "no access" | _ => false end.

Definition client_error_from_tonic_status_invalid_argument : bool :=
  match client_error_of_status (mk_Status InvalidArgument "bad input") with
  | ClInvalidArgument msg => msg =? "bad input" | _ => false end.

Definition client_error_from_tonic_status_deadline_exceeded : bool :=
  match client_error_of_status (mk_Status DeadlineExceeded "too slow") with ClTimeout => true | _ => false end.

Definition client_error_from_tonic_status_internal : bool :=
  match client_error_of_status (mk_Status InternalError "server broke") with
  | ClInternal msg => msg =? "server broke" | _ => false end.

Definition client_error_display_includes_message : bool :=
  (client_display (ClNotFound "doc not found") =? "not found: doc not found") &&
  (client_display ClTimeout =? "request timed out") &&
  (client_display (ClConnection "refused") =? "connection error: refused").

Definition client_error_from_tonic_status_unauthenticated : bool :=
  match client_error_of_status (mk_Status Unauthenticated "invalid token") with
  | ClUnauthenticated msg => msg =? "invalid token" | _ => false end.

Definition client_error_unauthenticated_display : bool :=
  client_display (ClUnauthenticated "bad key") =? "unauthenticated: bad key".

(** *** [config.rs] and [interceptor.rs] *)

Definition client_options_defaults_are_sensible : bool :=
  let opts := client_options_default in
  (api_key opts =? None) && (timeout_seconds opts =? 30%Z) && (connect_timeout_seconds opts =? 5%Z).

(** What is shown of the key is all [Debug] shows of it. *)
Definition client_options_debug_redacts_api_key : bool :=
  let opts := mk_ClientOptions (Some "my-secret-key") 30 5 in
  unwrap_some shown := client_options_debug_key opts in
  negb (contains shown "my-secret-key") && contains shown "[REDACTED]".

Definition api_key_interceptor_adds_authorization_header : bool :=
  unwrap result := api_key_interceptor Some (Some "test-key-123") ∅ in
  result !! "authorization" =? Some "Bearer test-key-123".

Definition api_key_interceptor_skips_when_no_key : bool :=
  unwrap result := api_key_interceptor Some None ∅ in result !! "authorization" =? None.

Definition tests : suite :=
  [("consistency_converts_to_proto_full", consistency_converts_to_proto_full);
   ("consistency_converts_to_proto_minimize_latency", consistency_converts_to_proto_minimize_latency);
   ("consistency_converts_to_proto_at_least_as_fresh", consistency_converts_to_proto_at_least_as_fresh);
   ("consistency_converts_to_proto_at_exact_snapshot", consistency_converts_to_proto_at_exact_snapshot);
   ("check_permission_request_converts_to_proto", check_permission_request_converts_to_proto);
   ("write_relationships_request_converts_to_proto", write_relationships_request_converts_to_proto);
   ("read_relationships_filter_converts_to_proto", read_relationships_filter_converts_to_proto);
   ("zed_token_parses_to_snapshot", zed_token_parses_to_snapshot);
   ("zed_token_invalid_returns_none", zed_token_invalid_returns_none);
   ("client_error_from_tonic_status_not_found", client_error_from_tonic_status_not_found);
   ("client_error_from_tonic_status_permission_denied", client_error_from_tonic_status_permission_denied);
   ("client_error_from_tonic_status_invalid_argument", client_error_from_tonic_status_invalid_argument);
   ("client_error_from_tonic_status_deadline_exceeded", client_error_from_tonic_status_deadline_exceeded);
   ("client_error_from_tonic_status_internal", client_error_from_tonic_status_internal);
   ("client_error_display_includes_message", client_error_display_includes_message);
   ("client_error_from_tonic_status_unauthenticated", client_error_from_tonic_status_unauthenticated);
   ("client_error_unauthenticated_display", client_error_unauthenticated_display);
   ("client_options_defaults_are_sensible", client_options_defaults_are_sensible);
   ("client_options_debug_redacts_api_key", client_options_debug_redacts_api_key);
   ("api_key_interceptor_adds_authorization_header", api_key_interceptor_adds_authorization_header);
   ("api_key_interceptor_skips_when_no_key", api_key_interceptor_skips_when_no_key)].

Lemma client_tests_pass : failing tests = [].
Proof. vm_compute. reflexivity. Qed.
End ClientTests.
