(* ===== verification/IntegrationTests.v ===== *)
(** * The integration tests of gRPC and of the client library
      ([kraalzibar-server/tests/grpc_integration.rs],
      [kraalzibar-client/tests/integration_test.rs])

    The tests of the first go through the interceptor of a server in
    development mode, those of the second from a method of the client to the
    service.  The socket between them is left out: a call is a function of the
    state of the server. *)
From stdpp Require Import base tactics list strings gmap pretty.
From S2P Require Import Prelude Tuples Schema Validation Parser Grammar GrammarTheorems Engine Check Expand.
From S2P Require Import Storage Memory Cache Metrics Service Numbers Auth Rest Grpc Client Suite ServiceTests.
#[local] Open Scope test_scope.

(** The service of a test server, and the time a call takes. *)
Definition started_server : TestService := mk_AuthzService factory_new ∅ ∅ None [].
Definition no_time : Duration := mk_Duration 0 0.
Definition nil_tenant_id : TenantId positive := mk_TenantId 1%positive.

(** ** [grpc_integration.rs] *)
Module GrpcIntegration.

Definition WIRE_SCHEMA : string := lines [
  "";
  "    definition user {}";
  "";
  "    definition document {";
  "        relation owner: user";
  "        relation editor: user";
  "        relation viewer: user";
  "";
  "        permission can_edit = owner + editor";
  "        permission can_view = can_edit + viewer";
  "    }";
  ""].

(** A call without credentials through the interceptor of [dev_mode]; argon2 is
    not called. *)
Definition wire_call {Req Resp} (rpc : option (TenantId positive) → Req → TestService → result Status Resp * TestService)
    (req : Req) (server : TestService) : result Status Resp * TestService :=
  intercepted (λ _, Err EmptyString) (λ _ (_ : unit), false) Some (dev_mode 1%positive) None rpc req server.

Definition call_write_schema (server : TestService) :=
  wire_call (λ ext, grpc_write_schema grammar_pest limits_default ext no_time) (mk_v1_WriteSchemaRequest WIRE_SCHEMA false) server.
Definition call_read_schema (server : TestService) :=
  wire_call (λ ext (_ : unit), grpc_read_schema ext no_time) tt server.
Definition call_write (updates : list v1_RelationshipUpdate) (server : TestService) :=
  wire_call (λ ext, grpc_write_relationships ext no_time) (mk_v1_WriteRelationshipsRequest updates) server.
Definition call_read (req : v1_ReadRelationshipsRequest) (server : TestService) :=
  wire_call (λ ext, grpc_read_relationships ext no_time) req server.
Definition call_check (req : v1_CheckPermissionRequest) (server : TestService) :=
  wire_call (λ ext, grpc_check_permission grammar_pest engine_config_default ext no_time) req server.
Definition call_expand (req : v1_ExpandPermissionTreeRequest) (server : TestService) :=
  wire_call (λ ext, grpc_expand_permission_tree grammar_pest engine_config_default ext no_time) req server.
Definition call_resources (req : v1_LookupResourcesRequest) (server : TestService) :=
  wire_call (λ ext, grpc_lookup_resources grammar_pest engine_config_default ext no_time) req server.
Definition call_subjects (req : v1_LookupSubjectsRequest) (server : TestService) :=
  wire_call (λ ext, grpc_lookup_subjects grammar_pest engine_config_default ext no_time) req server.

Definition touch_update (obj_type obj_id relation subj_type subj_id : string) : v1_RelationshipUpdate :=
  mk_v1_RelationshipUpdate OPERATION_TOUCH
    (Some (mk_v1_Relationship (Some (mk_v1_ObjectReference obj_type obj_id)) relation
             (Some (mk_v1_SubjectReference subj_type subj_id None)))).

Definition full_consistency : option v1_Consistency := Some (mk_v1_Consistency (Some (ReqFullConsistency true))).
Definition at_exact_snapshot (token : string) : option v1_Consistency :=
  Some (mk_v1_Consistency (Some (ReqAtExactSnapshot (mk_v1_ZedToken token)))).

(** The messages the tests repeat. *)
Definition v1_document : v1_ObjectReference := mk_v1_ObjectReference "document" "readme".
Definition v1_user (name : string) : option v1_SubjectReference := Some (mk_v1_SubjectReference "user" name None).
Definition can_view_request (name : string) : v1_CheckPermissionRequest :=
  mk_v1_CheckPermissionRequest full_consistency (Some v1_document) "can_view" (v1_user name).
Definition subject_of (rel : v1_Relationship) : option string := s_subject_id <$> r_subject rel.

Definition wire_write_and_read_schema : bool :=
  unwrap_in server, _ := call_write_schema started_server in
  unwrap_in server, response := call_read_schema server in
  contains (grsr_schema response) "document".

Definition wire_write_and_read_relationships : bool :=
  unwrap_in server, write_resp := call_write [touch_update "document" "readme" "viewer" "user" "alice"] started_server in
  (zed_token <$> gwr_written_at write_resp <>? None) &&
  unwrap_in server, read_resp := call_read
    (mk_v1_ReadRelationshipsRequest full_consistency
       (Some (mk_v1_RelationshipFilter (Some "document") None None None None)) 0) server in
  (length (gdr_relationships read_resp) =? 1) &&
  at_index rel := (gdr_relationships read_resp) @ 0 in subject_of rel =? Some "alice".

Definition wire_check_permission_allowed_and_denied : bool :=
  unwrap_in server, _ := call_write_schema started_server in
  unwrap_in server, _ := call_write [touch_update "document" "readme" "viewer" "user" "alice"] server in
  unwrap_in server, resp := call_check (can_view_request "alice") server in
  (permissionship resp =? PERMISSIONSHIP_HAS_PERMISSION) &&
  (zed_token <$> gcr_checked_at resp <>? None) &&
  unwrap_in server, resp := call_check (can_view_request "bob") server in
  permissionship resp =? PERMISSIONSHIP_NO_PERMISSION.

Definition wire_expand_permission_tree : bool :=
  unwrap_in server, _ := call_write_schema started_server in
  unwrap_in server, _ := call_write [touch_update "document" "readme" "viewer" "user" "alice"] server in
  unwrap_in server, resp := call_expand
    (mk_v1_ExpandPermissionTreeRequest full_consistency (Some v1_document) "can_view") server in
  match ger_tree resp with Some _ => true | None => false end &&
  (zed_token <$> ger_expanded_at resp <>? None).

Definition wire_lookup_resources : bool :=
  unwrap_in server, _ := call_write_schema started_server in
  unwrap_in server, _ := call_write
    [touch_update "document" "readme" "viewer" "user" "alice";
     touch_update "document" "design" "viewer" "user" "alice";
     touch_update "document" "secret" "viewer" "user" "bob"] server in
  unwrap_in server, resp := call_resources
    (mk_v1_LookupResourcesRequest full_consistency "document" "can_view" (v1_user "alice") 0) server in
  unwrap_some items := resp in
  sort_by string_leb (grr_resource_id <$> items) =? ["design"; "readme"].

Definition wire_lookup_subjects : bool :=
  unwrap_in server, _ := call_write_schema started_server in
  unwrap_in server, _ := call_write
    [touch_update "document" "readme" "viewer" "user" "alice";
     touch_update "document" "readme" "editor" "user" "bob"] server in
  unwrap_in server, resp := call_subjects
    (mk_v1_LookupSubjectsRequest full_consistency (Some v1_document) "can_view" "user") server in
  unwrap_some items := resp in
  unwrap_some subjects := mapM gsr_subject items in
  sort_by string_leb (s_subject_id <$> subjects) =? ["alice"; "bob"].

Definition consistency_token_flow : bool :=
  unwrap_in server, written := call_write [touch_update "document" "readme" "viewer" "user" "alice"] started_server in
  unwrap_some token1 := gwr_written_at written in
  unwrap_in server, _ := call_write [touch_update "document" "design" "viewer" "user" "bob"] server in
  unwrap_in server, read_resp := call_read
    (mk_v1_ReadRelationshipsRequest (at_exact_snapshot (zed_token token1)) None 0) server in
  (length (gdr_relationships read_resp) =? 1) &&
  at_index rel := (gdr_relationships read_resp) @ 0 in subject_of rel =? Some "alice".

Definition error_check_without_schema : bool :=
  unwrap_err status := (call_check (can_view_request "alice") started_server).1 in code status =? NotFound.

Definition error_missing_required_fields : bool :=
  unwrap_err status := (call_check
    (mk_v1_CheckPermissionRequest full_consistency None "can_view" (v1_user "alice")) started_server).1 in
  code status =? InvalidArgument.

Definition tests : suite :=
  [("wire_write_and_read_schema", wire_write_and_read_schema);
   ("wire_write_and_read_relationships", wire_write_and_read_relationships);
   ("wire_check_permission_allowed_and_denied", wire_check_permission_allowed_and_denied);
   ("wire_expand_permission_tree", wire_expand_permission_tree);
   ("wire_lookup_resources", wire_lookup_resources);
   ("wire_lookup_subjects", wire_lookup_subjects);
   ("consistency_token_flow", consistency_token_flow);
   ("error_check_without_schema", error_check_without_schema);
   ("error_missing_required_fields", error_missing_required_fields)].

Lemma grpc_integration_pass : failing tests = [].
Proof. vm_compute. reflexivity. Qed.
End GrpcIntegration.

(** ** [integration_test.rs] *)
Module ClientIntegration.

(** The interceptor of this test server gives every request its tenant. *)
Definition via {Req Resp} (rpc : option (TenantId positive) → Req → TestService → result Status Resp * TestService)
    : Req → TestService → result Status Resp * TestService := rpc (Some nil_tenant_id).

(** A stream as the client's [next] sees it; one that waits for ever has no
    items and fails a test. *)
Definition via_stream {Req Resp}
    (rpc : option (TenantId positive) → Req → TestService → result Status (option (list Resp)) * TestService)
    (req : Req) (server : TestService) : result Status (list (result Status Resp)) * TestService :=
  let '(r, server) := via rpc req server in
  (let? channel := r in let? items := ok_or channel (mk_Status Cancelled "stalled") in Ok (map Ok items), server).

Definition client_write_text (schema : string) (client : TestService) :=
  client_write_schema (via (λ ext, grpc_write_schema grammar_pest limits_default ext no_time)) schema false client.

Definition write_touch (object_type object_id relation subject_type subject_id : string) (client : TestService) :=
  client_write_relationships (via (λ ext, grpc_write_relationships ext no_time))
    [mk_client_RelationshipUpdate Touch (mk_ObjectRef object_type object_id) relation
       (direct subject_type subject_id)] client.

Definition client_check (subject : string) (client : TestService) :=
  client_check_permission (via (λ ext, grpc_check_permission grammar_pest engine_config_default ext no_time))
    (mk_client_CheckPermissionRequest (mk_ObjectRef "document" "readme") "can_view" (direct "user" subject)
       ClFullConsistency) client.

(** The schema of most tests. *)
Definition viewer_schema : string := lines [
  "definition user {}"; ""; "definition document {"; "  relation viewer: user"; "  permission can_view = viewer"; "}"].

Definition check_permission_granted : bool :=
  unwrap_in client, _ := client_write_text viewer_schema started_server in
  unwrap_in client, _ := write_touch "document" "readme" "viewer" "user" "alice" client in
  unwrap_in client, result := client_check "alice" client in ccr_allowed result.

Definition check_permission_denied : bool :=
  unwrap_in client, _ := client_write_text viewer_schema started_server in
  unwrap_in client, _ := write_touch "document" "readme" "viewer" "user" "alice" client in
  unwrap_in client, result := client_check "bob" client in negb (ccr_allowed result).

Definition client_write_and_read_relationships : bool :=
  unwrap_in client, _ := client_write_text viewer_schema started_server in
  unwrap_in client, _ := write_touch "document" "readme" "viewer" "user" "alice" client in
  unwrap_in client, _ := write_touch "document" "readme" "viewer" "user" "bob" client in
  unwrap_in client, relationships :=
    client_read_relationships (via (λ ext, grpc_read_relationships ext no_time))
      (mk_client_ReadRelationshipsRequest
         (mk_TupleFilter (Some "document") (Some "readme") (Some "viewer") None None None) ClFullConsistency None)
      client in
  length relationships =? 2.

Definition client_looks_up_resources : bool :=
  unwrap_in client, _ := client_write_text viewer_schema started_server in
  unwrap_in client, _ := write_touch "document" "doc1" "viewer" "user" "alice" client in
  unwrap_in client, _ := write_touch "document" "doc2" "viewer" "user" "alice" client in
  unwrap_in client, _ := write_touch "document" "doc3" "viewer" "user" "bob" client in
  unwrap_in client, resource_ids :=
    client_lookup_resources
      (via_stream (λ ext, grpc_lookup_resources grammar_pest engine_config_default ext no_time))
      (mk_client_LookupResourcesRequest "document" "can_view" (direct "user" "alice") ClFullConsistency None)
      client in
  sort_by string_leb resource_ids =? ["doc1"; "doc2"].

Definition client_looks_up_subjects : bool :=
  unwrap_in client, _ := client_write_text (lines
    ["definition user {}"; ""; "definition document {"; "  relation viewer: user"; "  relation owner: user";
     "  permission can_view = viewer + owner"; "}"]) started_server in
  unwrap_in client, _ := write_touch "document" "readme" "viewer" "user" "alice" client in
  unwrap_in client, _ := write_touch "document" "readme" "owner" "user" "bob" client in
  unwrap_in client, subjects :=
    client_lookup_subjects
      (via_stream (λ ext, grpc_lookup_subjects grammar_pest engine_config_default ext no_time))
      (mk_client_LookupSubjectsRequest (mk_ObjectRef "document" "readme") "can_view" "user" ClFullConsistency)
      client in
  sort_by string_leb (subject_id <$> subjects) =? ["alice"; "bob"].

Definition schema_write_and_read : bool :=
  unwrap_in client, _ := client_write_text viewer_schema started_server in
  unwrap_in client, read :=
    client_read_schema (via (λ ext (_ : unit), grpc_read_schema ext no_time)) client in
  unwrap_some schema := read in
  contains schema "definition user" && contains schema "definition document" &&
  contains schema "relation viewer" && contains schema "permission can_view".

Definition computed_permission_via_union : bool :=
  unwrap_in client, _ := client_write_text (lines
    ["definition user {}"; ""; "definition document {"; "  relation viewer: user"; "  relation editor: user";
     "  permission can_edit = editor"; "  permission can_view = viewer + can_edit"; "}"]) started_server in
  unwrap_in client, _ := write_touch "document" "readme" "editor" "user" "alice" client in
  unwrap_in client, result := client_check "alice" client in ccr_allowed result.

Definition tests : suite :=
  [("check_permission_granted", check_permission_granted);
   ("check_permission_denied", check_permission_denied);
   ("client_write_and_read_relationships", client_write_and_read_relationships);
   ("client_looks_up_resources", client_looks_up_resources);
   ("client_looks_up_subjects", client_looks_up_subjects);
   ("schema_write_and_read", schema_write_and_read);
   ("computed_permission_via_union", computed_permission_via_union)].

Lemma client_integration_pass : failing tests = [].
Proof. vm_compute. reflexivity. Qed.
End ClientIntegration.
