(* ===== verification/PostgresTests.v ===== *)
(** * The tests on PostgreSQL ([postgres/mod.rs], [api_key_repository.rs], [main.rs])

    The container is the example database of the theorems: the shared tables
    and the tables of each tenant's schema.  The first uuid a test draws is
    [true], the second [false]. *)
From stdpp Require Import base tactics list strings gmap pretty.
From S2P Require Import Prelude Tuples Numbers Storage Memory Postgres PostgresTheorems Service Auth Config.
From S2P Require Import Provision ProvisionTheorems Suite.
#[local] Open Scope test_scope.

(** A statement of a command, and a method of the store of a schema. *)
Definition on_pool {A} (p : sql_prog (admin bool) (bind_value bool) A) (pool : World bool) : A * World bool :=
  run_command p pool.
Definition on_schema {A} (p : pg A) (pg_schema : string) (pool : World bool) : result StorageError A * World bool :=
  let '(r, t) := run_pg p (tables_of pool pg_schema) in (r, set_tables pg_schema t pool).

(** [PgPool::connect(&url)] on an empty database, and the shared migrations. *)
Definition setup_pg : World bool := (on_pool run_shared_migrations (mk_World [] [] ∅)).2.

(** ** [postgres/mod.rs] *)
Module PgTests.

Definition pg_make_write (obj_type obj_id relation : string) (subj : SubjectRef) : TupleWrite :=
  mk_TupleWrite (mk_ObjectRef obj_type obj_id) relation subj.
Definition viewer_write (id user : string) : TupleWrite := pg_make_write "doc" id "viewer" (direct "user" user).

(** [factory.provision_tenant(..)] and [factory.for_tenant(..)]: the schema of the store. *)
Definition provision (tenant : bool) (name : string) (schemas : gmap (TenantId bool) string) (pool : World bool) :=
  on_pool (provision_tenant bool_as_simple (mk_TenantId tenant) name schemas) pool.
Definition tenant_store (tenant : bool) (schemas : gmap (TenantId bool) string) : string :=
  pg_for_tenant bool_as_simple (mk_TenantId tenant) schemas.

Definition read_ids (snapshot : option SnapshotToken) (store : string) (pool : World bool)
    : result StorageError (list string) :=
  let? l := (on_schema (pg_read filter_default snapshot None) store pool).1 in
  Ok (object_id ∘ object <$> l).

Definition pg_provision_and_write_read : bool :=
  unwrap_in pool, schemas := provision true "test-tenant" ∅ setup_pg in
  let store := tenant_store true schemas in
  unwrap_in pool, snap := on_schema pg_snapshot store pool in
  (token_value snap =? 0%Z) &&
  unwrap_in pool, token := on_schema (pg_write [viewer_write "readme" "john"] []) store pool in
  (token_value token =? 1%Z) &&
  unwrap_in pool, results := on_schema (pg_read filter_default None None) store pool in
  (length results =? 1) &&
  at_index t := results @ 0 in
  (object t =? mk_ObjectRef "doc" "readme") && (relation t =? "viewer") && (subject t =? direct "user" "john").

Definition pg_snapshot_consistency : bool :=
  unwrap_in pool, schemas := provision true "test-snap" ∅ setup_pg in
  let store := tenant_store true schemas in
  unwrap_in pool, snap1 := on_schema (pg_write [viewer_write "1" "a"] []) store pool in
  unwrap_in pool, _ := on_schema (pg_write [viewer_write "2" "b"] []) store pool in
  unwrap ids := read_ids (Some snap1) store pool in ids =? ["1"].

Definition pg_delete_and_mvcc : bool :=
  unwrap_in pool, schemas := provision true "test-del" ∅ setup_pg in
  let store := tenant_store true schemas in
  unwrap_in pool, snap_before := on_schema (pg_write [viewer_write "1" "a"] []) store pool in
  let delete_filter := mk_TupleFilter (Some "doc") (Some "1") None None None None in
  unwrap_in pool, _ := on_schema (pg_write [] [delete_filter]) store pool in
  unwrap after_delete := read_ids None store pool in
  unwrap before_delete := read_ids (Some snap_before) store pool in
  (after_delete =? []) && (length before_delete =? 1).

Definition pg_tenant_isolation : bool :=
  unwrap_in pool, schemas := provision true "tenant-a" ∅ setup_pg in
  unwrap_in pool, schemas := provision false "tenant-b" schemas pool in
  unwrap_in pool, _ := on_schema (pg_write [viewer_write "1" "a"] []) (tenant_store true schemas) pool in
  unwrap results_b := read_ids None (tenant_store false schemas) pool in results_b =? [].

Definition pg_list_object_ids_test : bool :=
  unwrap_in pool, schemas := provision true "test-list-ids" ∅ setup_pg in
  let store := tenant_store true schemas in
  unwrap_in pool, _ := on_schema (pg_write
    [pg_make_write "doc" "readme" "viewer" (direct "user" "a"); pg_make_write "doc" "readme" "editor" (direct "user" "b");
     pg_make_write "doc" "design" "viewer" (direct "user" "a"); pg_make_write "folder" "root" "viewer" (direct "user" "a")]
    []) store pool in
  unwrap docs := (on_schema (pg_list_object_ids "doc" None None) store pool).1 in
  unwrap folders := (on_schema (pg_list_object_ids "folder" None None) store pool).1 in
  unwrap one := (on_schema (pg_list_object_ids "doc" None (Some 1)) store pool).1 in
  unwrap none := (on_schema (pg_list_object_ids "unknown" None None) store pool).1 in
  (docs =? ["design"; "readme"]) && (folders =? ["root"]) && (length one =? 1) && (none =? []).

Definition pg_schema_write_and_read : bool :=
  unwrap_in pool, schemas := provision true "test-schema" ∅ setup_pg in
  let store := tenant_store true schemas in
  unwrap_in pool, schema := on_schema pg_read_schema store pool in
  (schema =? None) &&
  unwrap_in pool, _ := on_schema (pg_write_schema "definition user {}") store pool in
  unwrap_in pool, schema := on_schema pg_read_schema store pool in
  (schema =? Some "definition user {}") &&
  unwrap_in pool, _ := on_schema (pg_write_schema "definition group { relation member: user }") store pool in
  unwrap_in pool, schema := on_schema pg_read_schema store pool in
  schema =? Some "definition group { relation member: user }".

Definition tests : suite :=
  [("pg_provision_and_write_read", pg_provision_and_write_read);
   ("pg_snapshot_consistency", pg_snapshot_consistency);
   ("pg_delete_and_mvcc", pg_delete_and_mvcc);
   ("pg_tenant_isolation", pg_tenant_isolation);
   ("pg_list_object_ids_test", pg_list_object_ids_test);
   ("pg_schema_write_and_read", pg_schema_write_and_read)].

Lemma pg_tests_pass : failing tests = [].
Proof. vm_compute. reflexivity. Qed.
End PgTests.

(** ** [main.rs], [purge_tests] *)
Module PurgeTests.
Import PgTests.

(** The tenant and its schema. *)
Definition provision_test_tenant (tenant : bool) (name : string) (pool : World bool)
    : result StorageError (TenantId bool * string) * World bool :=
  let '(r, pool) := provision tenant name ∅ pool in
  let '(found, pool) := on_pool (resolve_tenant_schema name) pool in
  (let? _ := r in
   let? row := map_err Internal found in
   let? pg_schema := ok_or row (Internal "no row") in
   Ok (mk_TenantId tenant, pg_schema), pool).

(** A new factory, which knows no schema: [for_tenant] computes its name. *)
Definition write_tuples (tenant_id : TenantId bool) (writes : list TupleWrite) (pool : World bool) :=
  on_schema (pg_write writes []) (pg_for_tenant bool_as_simple tenant_id ∅) pool.

Definition purge_deletes_all_tuples_for_target_tenant : bool :=
  unwrap_in pool, tenant := provision_test_tenant true "purge-all" setup_pg in
  let '(tenant_id, pg_schema) := tenant in
  unwrap_in pool, _ := write_tuples tenant_id
    [viewer_write "readme" "alice"; pg_make_write "doc" "design" "editor" (direct "user" "bob")] pool in
  unwrap_in pool, count_before := on_pool (count_active_relationships pg_schema) pool in
  unwrap_in pool, deleted := on_pool (purge_relationships pg_schema) pool in
  unwrap_in pool, count_after := on_pool (count_active_relationships pg_schema) pool in
  (count_before =? 2%Z) && (deleted =? 2%Z) && (count_after =? 0%Z).

Definition purge_resets_tx_sequence : bool :=
  unwrap_in pool, tenant := provision_test_tenant true "purge-seq" setup_pg in
  let '(tenant_id, pg_schema) := tenant in
  unwrap_in pool, _ := write_tuples tenant_id [viewer_write "readme" "alice"] pool in
  let before := tx_id_seq (tables_of pool pg_schema) in
  (before <>? None) &&
  unwrap_in pool, _ := on_pool (purge_relationships pg_schema) pool in
  unwrap_in pool, next_val := on_schema next_tx_id pg_schema pool in next_val =? 1%Z.

Definition purge_does_not_affect_other_tenants : bool :=
  unwrap_in pool, tenant_a := provision_test_tenant true "purge-tenant-a" setup_pg in
  unwrap_in pool, tenant_b := provision_test_tenant false "purge-tenant-b" pool in
  unwrap_in pool, _ := write_tuples tenant_a.1 [viewer_write "readme" "alice"] pool in
  unwrap_in pool, _ := write_tuples tenant_b.1 [viewer_write "design" "bob"] pool in
  unwrap_in pool, _ := on_pool (purge_relationships tenant_a.2) pool in
  unwrap_in pool, count_a := on_pool (count_active_relationships tenant_a.2) pool in
  unwrap_in pool, count_b := on_pool (count_active_relationships tenant_b.2) pool in
  (count_a =? 0%Z) && (count_b =? 1%Z).

Definition purge_nonexistent_tenant_returns_none : bool :=
  unwrap_in pool, result := on_pool (resolve_tenant_schema "no-such-tenant") setup_pg in result =? None.

Definition purge_tenant_with_no_relationships_succeeds : bool :=
  unwrap_in pool, tenant := provision_test_tenant true "purge-empty" setup_pg in
  unwrap_in pool, deleted := on_pool (purge_relationships tenant.2) pool in
  unwrap_in pool, count := on_pool (count_active_relationships tenant.2) pool in
  (deleted =? 0%Z) && (count =? 0%Z).

Definition tests : suite :=
  [("purge_deletes_all_tuples_for_target_tenant", purge_deletes_all_tuples_for_target_tenant);
   ("purge_resets_tx_sequence", purge_resets_tx_sequence);
   ("purge_does_not_affect_other_tenants", purge_does_not_affect_other_tenants);
   ("purge_nonexistent_tenant_returns_none", purge_nonexistent_tenant_returns_none);
   ("purge_tenant_with_no_relationships_succeeds", purge_tenant_with_no_relationships_succeeds)].

Lemma purge_tests_pass : failing tests = [].
Proof. vm_compute. reflexivity. Qed.
End PurgeTests.

(** ** [api_key_repository.rs]; argon2 is a toy *)
Module RepositoryTests.
Import PgTests.

Definition lookup_returns_none_for_unknown_key : bool :=
  unwrap_in pool, result := on_pool (repository_lookup "nonexistent") setup_pg in
  match result with None => true | Some _ => false end.

Definition insert_and_lookup_round_trip : bool :=
  let tenant := mk_TenantId true in
  unwrap_in pool, _ := provision true "test-roundtrip" ∅ setup_pg in
  unwrap hash := hash_secret toy_hash "salt" "testsecret" in
  unwrap_in pool, _ := on_pool (repository_insert tenant "testkey1" hash) pool in
  unwrap_in pool, found := on_pool (repository_lookup "testkey1") pool in
  unwrap_some record := found in
  unwrap valid := verify_secret toy_parse toy_verify "testsecret" (key_hash record) in
  (key_id record =? "testkey1") && (tenant_id record =? tenant) && negb (revoked record) && valid.

(** [UPDATE api_keys SET revoked_at = now() WHERE key_id = $1] *)
Definition revoke (kid : string) (pool : World bool) : World bool :=
  mk_World (tenants pool)
    (map (λ row, if keyed kid row then mk_ApiKeyRow (row_key_id row) (row_key_hash row) (row_tenant_id row) true
                 else row) (api_keys pool)) (tenant_tables pool).

Definition revoked_key_returns_revoked_true : bool :=
  unwrap_in pool, _ := provision true "test-revoked" ∅ setup_pg in
  unwrap hash := hash_secret toy_hash "salt" "secret2" in
  unwrap_in pool, _ := on_pool (repository_insert (mk_TenantId true) "revokedkey" hash) pool in
  unwrap_in pool, found := on_pool (repository_lookup "revokedkey") (revoke "revokedkey" pool) in
  unwrap_some record := found in revoked record.

Definition tests : suite :=
  [("lookup_returns_none_for_unknown_key", lookup_returns_none_for_unknown_key);
   ("insert_and_lookup_round_trip", insert_and_lookup_round_trip);
   ("revoked_key_returns_revoked_true", revoked_key_returns_revoked_true)].

Lemma repository_tests_pass : failing tests = [].
Proof. vm_compute. reflexivity. Qed.
End RepositoryTests.
